(* ===== verification/_CoqProject ===== *)
-Q . S2P
Prelude.v
GoTime.v
Effects.v
Json.v
Store.v
Queries.v
World.v
JsonStruct.v
Summary.v
Dto.v
Transactions.v
TxRun.v
TxSpec.v
Invariant.v
Posting.v
Growth.v
Ledger.v
Services.v
Balance.v
Outbox.v
Tables.v
System.v
Workers.v
Snapshots.v
LateCommits.v
Progress.v
Idempotency.v
Cursor.v
Storage.v
Http.v
Float.v
RateLimit.v
Server.v
Auth.v
Middleware.v
Handlers.v
Csv.v
Exports.v
Router.v
Footprint.v
ApiSystem.v
ExportState.v
Pagination.v
Tenants.v
Refusals.v
Statuses.v
Quota.v
Routes.v
Metrics.v
Lifecycle.v
Examples.v
ApiExamples.v
LedgerProps.v
RequestProps.v
WorkerProps.v
SummaryProps.v
ApiProps.v
PageProps.v
LimitProps.v
AuthProps.v
ExportProps.v
WiringProps.v
