(* ===== verification/Prelude.v ===== *)
(** * LedgerX: a verification library

    LedgerX is a double-entry ledger: a Go service over PostgreSQL, Redis and a task
    queue.  This library models its core as executable Rocq functions and proves
    what makes it correct.

    ** The program and its model

    - PostgreSQL.  [Store] has the tables of [migrations/] with the row types of
      [internal/repo/sqlc/models.go]; [Queries] has one definition per statement of
      [internal/repo/sqlc/*.sql.go], with the constraints the schema puts on it and
      the deferred trigger [check_transaction_balanced].  A statement is a function
      of a session ([Conn]) that gives a result or an SQLSTATE error; sequences
      advance even when the row is refused.
    - The world of a call ([World]): tables, sequences, Redis (the class [Redis] with
      the laws [RedisOK]), and a list of faults.  Every request to a server consumes
      one fault: it is answered, lost, or executed with its reply lost.  [in_tx] is
      [pool.Begin], the body, and [tx.Commit] or the deferred rollback; [on_pool] is a
      statement of its own.  A theorem for every fault list covers every point at
      which a crash, a timeout or a dropped connection can happen.
    - [internal/service/transactions.go].  [Dto] has the data, the JSON of the stored
      response and the canonical request texts; [Transactions] has [validateLegs],
      [claimIdempotency], [createBalanced], [Create], [Transfer] and [Reverse] with
      all their statements, error paths and cache invalidation.
    - [internal/service/summary.go] is [Summary], [internal/service/balance.go] and
      [internal/worker/snapshot_worker.go] are [Balance], [internal/worker/outbox.go]
      is [Outbox].
    - The HTTP layer ([internal/transport/http]).  [Http] has requests, responses and
      handlers (a state monad with early return and panic), [Handlers] every handler
      of [transactions.go], [accounts.go], [balance.go], [summary.go], [users.go],
      [ownership.go] and [admin.go], [Cursor] the pagination cursors, [Auth]
      [internal/service/auth.go] with the handlers of [auth.go] and the bearer
      middleware, [RateLimit] the token bucket of [ratelimit.go] (its Lua script in
      the arithmetic of [Float]), [Middleware] the limiter's middleware and [cors.go].
      [Router] puts them together as [cmd/ledgerx/main.go] and [router.go] do: which
      middleware and handler each endpoint has, and the configuration.  [Routes] has
      the routes with the middleware groups they are registered in, the contract of the
      router library, the server from a request's path, and the endpoint tables of
      [docs/API.md] as the reference; [Metrics] the counters
      of [internal/observability] with the middleware and the query tracer that feed
      them, [Lifecycle] the run of [main] from the environment to the last deferred
      call and what it leaves behind, with [MustOpenPool] of [internal/repo/db.go] and
      the choice of the logger.
    - Exports: [Exports] has [internal/worker/csv-export.go] and [exports.go], [Csv]
      the writer of [encoding/csv], [Storage] both implementations of
      [internal/storage].  [Server] is the state they share: the world, the task
      queue and the storage.
    - The Go runtime the code relies on: [Prelude] (64-bit integers, decimal text),
      [GoTime] ([time.Time], civil dates, RFC 3339), [Json] and [JsonStruct]
      ([encoding/json]), [Effects] (errors and the state-and-error monad).

    The deployment's own parameters are the class [Env] of [Store]: the server's
    time zone, the session zone of PostgreSQL, the driver's encoding of an instant as
    microseconds, and SHA-256; [EnvOK] states what is assumed of them, and [utc_env]
    satisfies it.  Likewise bcrypt ([Bcrypt], [BcryptOK]), HS256 tokens ([Jwt],
    [JwtOK], about the two claims the program signs), the storage ([Storage],
    [StorageOK], met by [Local] and [S3]) and the Unicode tables behind [strings.ToLower] and [strings.EqualFold] ([Unicode],
    [CaseFold]); [ApiExamples] has instances that satisfy the laws.  The router
    library is [Chi] with [ChiOK], a contract for the plain patterns the program uses
    (met by [ordered_chi]), SHA-1 and [strings.ToUpper]
    beyond ASCII are [Observability], the driver's part of the startup is [Startup].

    ** The theorems

    - [TxRun], [TxSpec]: inversion of a successful database transaction into the rows
      it inserted.  [Invariant], [Posting], [Ledger], [Services], [Tables]: the ledger
      invariant [LedgerOK] and its preservation by every operation, under any faults.
      [Growth]: sequences only advance, so the invariant survives a rollback.
    - [System]: the program as a transition system over operations, times and
      faults; its reachable states satisfy the invariant and every snapshot holds the
      sum it stands for.  [LateCommits]: the same when transactions commit later than
      the time their postings carry.  [Workers]: the loop of the outbox worker, and
      several workers whose transactions interleave, refined to runs of
      [ProcessBatch] one after the other.
    - [LedgerProps]: the invariant in every reachable state, conservation of value,
      exactly-once posting, what each operation moves, errors change nothing, one
      outbox event per transaction.  [RequestProps]: validation against the exact sum,
      the request hash as a canonical form, a well-formed request succeeds, the
      refusals of [Reverse] and of a reused key.  [WorkerProps]: snapshot tasks,
      balances when transactions commit late, at-least-once delivery, draining of the outbox
      and concurrent workers.  [SummaryProps]:
      the summary query, the cache and its invalidation.
    - [Progress] and [Idempotency] hold the lemmas about runs without faults and about
      replay; [Snapshots] the tasks of the snapshot worker; [Examples] is a concrete
      run on which the witnesses evaluate, [ApiExamples] a session over HTTP.
    - [Footprint] reduces a statement about all requests to the few writes they make;
      [ApiSystem] is the server as a transition system (requests, tasks, scheduler,
      outbox worker, Redis changing on its own) and its refinement to [System], so
      that the theorems about [System] hold of the server.  [Tenants], [Refusals],
      [Statuses], [Pagination] and [ExportState] hold what a request adds, what a
      refusal leaves, the statuses of each endpoint, the walk through the pages and
      the states of an export; [Quota] which operations touch a user's bucket.
    - [ApiProps]: the refinement, authentication, isolation of tenants, the statuses
      of every endpoint, refusals change nothing.  [PageProps]: cursors, complete and stable
      pagination of the entries up to the first page's sentinel.
      [LimitProps]: the bound of the token bucket, for one key and for the answers of
      the whole server, and its equivalence with a reference bucket.  [AuthProps]: tokens, registration and login.  [ExportProps]:
      an export is delivered, finished exports stay available, paths are confined.
      [WiringProps]: the server answers the documented paths and no others, and asks
      for the token under [/v1]; what the metrics count; startup and shutdown, with what
      is never released.

    ** Fuel and bounds

    Recursion is structural except for decimal printing (fuel: the number of binary
    digits, [dec_spec]) and the JSON parser (fuel: the length of the text,
    [json_parse_text]); both theorems show the fuel is enough.  Integers are [Z] with
    the wrap-around of Go ([wrap64]) and the range errors of PostgreSQL ([as_bigint])
    written out.

    ** Simplifications

    A table is a list of rows in insertion order.  The transaction of a request is
    one step, at its commit ([LateCommits] lets it begin earlier); the transactions
    of outbox workers interleave in [Workers], elsewhere the rows other workers hold
    are the argument [locked].  Of a histogram only the number of observations is kept;
    rows with equal sort keys come in insertion order.  JSONB payloads are kept as
    sent.  All statements of one request see one [now()].  In [ApiSystem] the clocks of
    the server and of the database may differ, but when a nightly run makes its tasks
    the UTC day of the server's clock has begun at the database ([clock_ok]).  In
    [System] a posting's time is that of its commit; [LateCommits] lifts this, and the
    theorem about balances is about its runs.  A task may run any number
    of times and stays in the queue, which covers every retry of the queue library;
    its deduplication by task id is left out.  A failed [Save] leaves an empty file.
    Lua's [tonumber] is modelled on decimal integers, the only text the script
    stores.

    ** Not modelled

    Interleavings of two requests' transactions statement by statement (row and index
    locks of PostgreSQL), the matching of paths, the answers to unknown paths and
    the recovery from panics inside the router library, request timeouts, the socket
    and the signals (their outcomes are inputs of [main]), the goroutines of the queue library and its retry times,
    and the text of log lines other than those of [main]. *)
From stdpp Require Export gmap strings list pretty sorting relations.
From Stdlib Require Export Ascii Lia.

#[global] Set Default Goal Selector "!".

Declare Scope ledger_scope.
Delimit Scope ledger_scope with ledger.
Local Open Scope Z_scope.

(** ** Machine integers

    Go's [int64] and PostgreSQL's [BIGINT] are the integers of
    [[-2^63, 2^63)].  Go arithmetic wraps; PostgreSQL raises an error. *)

Definition min_int64 : Z := -9223372036854775808.
Definition max_int64 : Z := 9223372036854775807.

Definition int64 (z : Z) : Prop := min_int64 ≤ z ≤ max_int64.

#[global] Instance int64_dec z : Decision (int64 z).
Proof. unfold int64. apply _. Defined.

(** The wrap-around of two's complement arithmetic on 64 bits. *)
Definition wrap64 (z : Z) : Z :=
  (z + 9223372036854775808) `mod` 18446744073709551616 - 9223372036854775808.

Lemma wrap64_range z : int64 (wrap64 z).
Proof.
  unfold int64, wrap64, min_int64, max_int64.
  pose proof (Z.mod_pos_bound (z + 9223372036854775808) 18446744073709551616).
  lia.
Qed.

Lemma wrap64_id z : int64 z → wrap64 z = z.
Proof.
  unfold int64, wrap64, min_int64, max_int64. intros Hz.
  rewrite Z.mod_small; lia.
Qed.

(** Wrapping only loses a multiple of [2^64]. *)
Lemma wrap64_congr z : ∃ k, wrap64 z = z + k * 18446744073709551616.
Proof.
  unfold wrap64.
  exists (- ((z + 9223372036854775808) `div` 18446744073709551616)).
  pose proof (Z.div_mod (z + 9223372036854775808) 18446744073709551616). lia.
Qed.

Lemma wrap64_shift z k :
  wrap64 (z + k * 18446744073709551616) = wrap64 z.
Proof.
  unfold wrap64.
  replace (z + k * 18446744073709551616 + 9223372036854775808)
    with (z + 9223372036854775808 + k * 18446744073709551616) by lia.
  by rewrite Z_mod_plus_full.
Qed.

Lemma wrap64_add_l a b : wrap64 (wrap64 a + b) = wrap64 (a + b).
Proof.
  destruct (wrap64_congr a) as [k ->].
  replace (a + k * 18446744073709551616 + b)
    with (a + b + k * 18446744073709551616) by lia.
  apply wrap64_shift.
Qed.

(** ** Finite sums *)

Definition sumZ (l : list Z) : Z := foldr Z.add 0 l.

Lemma sumZ_app l1 l2 : sumZ (l1 ++ l2) = sumZ l1 + sumZ l2.
Proof. induction l1 as [|x l1 IH]; simpl; lia. Qed.

Lemma sumZ_opp l : sumZ (map Z.opp l) = - sumZ l.
Proof. induction l as [|x l IH]; simpl; lia. Qed.

#[global] Instance sumZ_Permutation : Proper ((≡ₚ) ==> (=)) sumZ.
Proof. induction 1; simpl; lia. Qed.

(** ** Byte strings

    Go strings are byte sequences.  Text is printed and parsed on
    [list ascii] and stored as [string]. *)

Definition chars (s : string) : list ascii := String.list_ascii_of_string s.
Definition str (l : list ascii) : string := String.string_of_list_ascii l.

Lemma chars_str l : chars (str l) = l.
Proof. apply String.list_ascii_of_string_of_list_ascii. Qed.

Lemma str_chars s : str (chars s) = s.
Proof. apply String.string_of_list_ascii_of_string. Qed.

Definition code (c : ascii) : Z := Z.of_N (N_of_ascii c).
Definition chr (z : Z) : ascii := ascii_of_N (Z.to_N z).

Definition is_digit (c : ascii) : bool := (48 <=? code c) && (code c <=? 57).
Definition digit_val (c : ascii) : Z := code c - 48.
Definition digit_char (d : Z) : ascii := chr (48 + d).

Lemma code_range c : 0 ≤ code c < 256.
Proof. unfold code. pose proof (N_ascii_bounded c). lia. Qed.

Lemma code_chr z : 0 ≤ z < 256 → code (chr z) = z.
Proof.
  intros Hz. unfold code, chr. rewrite N_ascii_embedding by lia. lia.
Qed.

Lemma chr_code c : chr (code c) = c.
Proof. unfold code, chr. by rewrite N2Z.id, ascii_N_embedding. Qed.

Lemma is_digit_char d : 0 ≤ d < 10 → is_digit (digit_char d) = true.
Proof. intros. unfold is_digit, digit_char. rewrite code_chr by lia. lia. Qed.

Lemma digit_val_char d : 0 ≤ d < 10 → digit_val (digit_char d) = d.
Proof. intros. unfold digit_val, digit_char. rewrite code_chr by lia. lia. Qed.

Lemma digit_char_val c : is_digit c = true → digit_char (digit_val c) = c.
Proof.
  unfold is_digit, digit_char, digit_val. intros ?.
  replace (48 + (code c - 48)) with (code c) by lia. apply chr_code.
Qed.

Lemma digit_val_range c : is_digit c = true → 0 ≤ digit_val c < 10.
Proof. unfold is_digit, digit_val. lia. Qed.

(** ** Decimal integers *)

(** The digits of [n >= 0] in front of [acc]; the fuel is at least the number of
    digits. *)
Fixpoint dec_go (fuel : nat) (n : Z) (acc : list ascii) : list ascii :=
  match fuel with
  | O => acc
  | S fuel =>
      let acc := digit_char (n `mod` 10) :: acc in
      if n <? 10 then acc else dec_go fuel (n `div` 10) acc
  end.

Definition dec (n : Z) : list ascii := dec_go (S (Z.to_nat (Z.log2 n))) n [].

(** [strconv.FormatInt(z, 10)], [strconv.Itoa], [%d]. *)
Definition itoa (z : Z) : list ascii :=
  if z <? 0 then "-"%char :: dec (- z) else dec z.

(** The number a digit string denotes; [None] on a character that is no digit. *)
Fixpoint undec_go (l : list ascii) (acc : Z) : option Z :=
  match l with
  | [] => Some acc
  | c :: l => if is_digit c then undec_go l (10 * acc + digit_val c) else None
  end.

Definition undec (l : list ascii) : option Z :=
  match l with [] => None | _ => undec_go l 0 end.

(** [strconv.ParseInt(s, 10, 64)]: [None] is the syntax or the range error. *)
Definition ParseInt (l : list ascii) : option Z :=
  z ← match l with
      | "+"%char :: l => undec l
      | "-"%char :: l => Z.opp <$> undec l
      | _ => undec l
      end;
  if decide (int64 z) then Some z else None.

Lemma dec_go_spec fuel n acc :
  0 ≤ n < 2 ^ Z.of_nat fuel →
  ∃ l, dec_go fuel n acc = l ++ acc ∧ Forall (λ c, is_digit c = true) l ∧
       (fuel ≠ O → l ≠ []) ∧
       ∀ r a, ∃ k, undec_go (l ++ r) a = undec_go r (a * 10 ^ k + n) ∧ 0 ≤ k.
Proof.
  revert n acc; induction fuel as [|fuel IH]; intros n acc Hn; simpl.
  - exists []. repeat split; [constructor|done|]. intros r a. exists 0.
    change (Z.of_nat 0) with 0 in Hn. simpl. split; [f_equal; lia|lia].
  - pose proof (Z.mod_pos_bound n 10 ltac:(lia)) as Hm.
    destruct (Z.ltb_spec n 10).
    + exists [digit_char (n `mod` 10)]. rewrite Z.mod_small by lia.
      repeat split; [by repeat constructor; apply is_digit_char; lia|done|].
      intros r a. exists 1. simpl. rewrite is_digit_char, digit_val_char by lia.
      split; [f_equal; lia|lia].
    + destruct (IH (n `div` 10) (digit_char (n `mod` 10) :: acc)) as (l&->&Hl&Hne&Hv).
      { rewrite Nat2Z.inj_succ, Z.pow_succ_r in Hn by lia.
        split; [apply Z.div_pos; lia|].
        apply Z.div_lt_upper_bound; [lia|]. lia. }
      exists (l ++ [digit_char (n `mod` 10)]). rewrite <- app_assoc.
      repeat split; [by apply Forall_app; repeat constructor; [|apply is_digit_char]
        |by destruct l|].
      intros r a. rewrite <- app_assoc.
      destruct (Hv ([digit_char (n `mod` 10)] ++ r) a) as (k&->&Hk).
      exists (k + 1). simpl. rewrite is_digit_char, digit_val_char by done.
      split; [|lia]. f_equal. rewrite Z.pow_add_r by lia.
      pose proof (Z.div_mod n 10 ltac:(lia)). lia.
Qed.

Lemma dec_spec n :
  0 ≤ n → dec n ≠ [] ∧ Forall (λ c, is_digit c = true) (dec n) ∧ undec (dec n) = Some n.
Proof.
  intros Hn. unfold dec.
  destruct (dec_go_spec (S (Z.to_nat (Z.log2 n))) n []) as (l&->&Hl&Hne&Hv).
  { rewrite Nat2Z.inj_succ, Z2Nat.id by apply Z.log2_nonneg.
    destruct (decide (n = 0)) as [->|]; [done|].
    split; [done|]. apply Z.log2_spec. lia. }
  rewrite app_nil_r. split; [by apply Hne|]. split; [done|].
  destruct (Hv [] 0) as (k&Hk&_). rewrite app_nil_r in Hk. unfold undec.
  destruct l; [by destruct Hne|]. by rewrite Hk.
Qed.

Lemma ParseInt_itoa z : int64 z → ParseInt (itoa z) = Some z.
Proof.
  intros Hz. unfold itoa.
  destruct (Z.ltb_spec z 0).
  - destruct (dec_spec (- z)) as (_&_&Hd); [lia|].
    unfold ParseInt. rewrite Hd. simpl. rewrite Z.opp_involutive. by rewrite decide_True.
  - destruct (dec_spec z) as (Hne&Hf&Hd); [done|]. unfold ParseInt.
    destruct (dec z) as [|c l] eqn:E; [done|].
    apply Forall_cons in Hf as [Hc _].
    assert (c ≠ "+"%char ∧ c ≠ "-"%char) as [??] by (split; by intros ->).
    destruct c as [[] [] [] [] [] [] [] []]; try done;
      rewrite Hd; simpl; by rewrite decide_True.
Qed.

(** ** ORDER BY *)

Definition asc {A} (f : A → Z) : relation A := λ a b, f a ≤ f b.
Definition desc {A} (f : A → Z) : relation A := λ a b, f b ≤ f a.

#[global] Instance asc_dec {A} (f : A → Z) : RelDecision (asc f).
Proof. intros a b. unfold asc. apply _. Defined.
#[global] Instance desc_dec {A} (f : A → Z) : RelDecision (desc f).
Proof. intros a b. unfold desc. apply _. Defined.
#[global] Instance asc_total {A} (f : A → Z) : Total (asc f).
Proof. intros a b. unfold asc. lia. Qed.
#[global] Instance desc_total {A} (f : A → Z) : Total (desc f).
Proof. intros a b. unfold desc. lia. Qed.
#[global] Instance asc_trans {A} (f : A → Z) : Transitive (asc f).
Proof. intros a b c. unfold asc. lia. Qed.
#[global] Instance desc_trans {A} (f : A → Z) : Transitive (desc f).
Proof. intros a b c. unfold desc. lia. Qed.
