(* ===== verification/GoTime.v ===== *)
(** * Instants, civil dates and their text (Go's [time] package)

    The part of Go's [time] package the program uses: [time.Time] with its zone
    offset, the proleptic Gregorian calendar, [time.Date], the layouts
    ["2006-01"], ["2006-01-02"], [RFC3339] and [RFC3339Nano] of [Format] and
    [Parse].  An instant is a number of nanoseconds since the Unix epoch. *)
From S2P Require Import Prelude.
Local Open Scope Z_scope.

Record Time := mkTime { t_ns : Z; t_off : Z }.

#[global] Instance Time_eq_dec : EqDecision Time.
Proof. solve_decision. Defined.

(** ** The calendar *)

Definition day_sec : Z := 86400.
Definition sec_ns : Z := 1000000000.
Definition day_ns : Z := 86400000000000.

(** Day number (0 is 1970-01-01) of a civil date, and back. *)
Definition days_from_civil (y m d : Z) : Z :=
  let y' := if m <=? 2 then y - 1 else y in
  let era := y' `div` 400 in
  let yoe := y' `mod` 400 in
  let doy := (153 * (if m >? 2 then m - 3 else m + 9) + 2) `div` 5 + d - 1 in
  let doe := yoe * 365 + yoe `div` 4 - yoe `div` 100 + doy in
  era * 146097 + doe - 719468.

Definition civil_from_days (n : Z) : Z * Z * Z :=
  let z := n + 719468 in
  let era := z `div` 146097 in
  let doe := z `mod` 146097 in
  let yoe := (doe - doe `div` 1460 + doe `div` 36524 - doe `div` 146096) `div` 365 in
  let doy := doe - (365 * yoe + yoe `div` 4 - yoe `div` 100) in
  let mp := (5 * doy + 2) `div` 153 in
  let d := doy - (153 * mp + 2) `div` 5 + 1 in
  let m := if mp <? 10 then mp + 3 else mp - 9 in
  (yoe + era * 400 + (if m <=? 2 then 1 else 0), m, d).

Definition is_leap (y : Z) : bool :=
  (y `mod` 4 =? 0) && (negb (y `mod` 100 =? 0) || (y `mod` 400 =? 0)).

Definition days_in (m y : Z) : Z :=
  if m =? 2 then (if is_leap y then 29 else 28)
  else if (m =? 4) || (m =? 6) || (m =? 9) || (m =? 11) then 30 else 31.

Lemma days_in_bound m y :
  days_in m y ≤ 31 ∧
  (m = 4 ∨ m = 6 ∨ m = 9 ∨ m = 11 → days_in m y ≤ 30) ∧
  (m = 2 → days_in m y ≤ 29).
Proof. unfold days_in. destruct (is_leap y); repeat case_match; lia. Qed.

(** [lia] with the defining equations of [/] and [mod]. *)
Ltac div_lia := Z.div_mod_to_equations; lia.

Lemma year_of_era_range doe :
  0 ≤ doe < 146097 →
  0 ≤ (doe - doe `div` 1460 + doe `div` 36524 - doe `div` 146096) `div` 365 < 400.
Proof. intros. div_lia. Qed.

Lemma day_of_year_range doe yoe :
  0 ≤ doe < 146097 →
  yoe = (doe - doe `div` 1460 + doe `div` 36524 - doe `div` 146096) `div` 365 →
  0 ≤ doe - (365 * yoe + yoe `div` 4 - yoe `div` 100) ≤ 365.
Proof. intros. div_lia. Qed.

Lemma is_leap_spec y :
  is_leap y = true ↔ y `mod` 4 = 0 ∧ (y `mod` 100 ≠ 0 ∨ y `mod` 400 = 0).
Proof. unfold is_leap. lia. Qed.

(** Days 0 to 364 of a year (counted from March), and day 365 of the years that
    end with a leap day, determine the year. *)
Lemma year_of_era_unique doy yoe doe :
  0 ≤ yoe < 400 →
  0 ≤ doy ≤ 364 ∨ doy = 365 ∧ is_leap (yoe + 1) = true →
  doe = yoe * 365 + yoe `div` 4 - yoe `div` 100 + doy →
  (doe - doe `div` 1460 + doe `div` 36524 - doe `div` 146096) `div` 365 = yoe.
Proof.
  rewrite is_leap_spec. intros ? [?|(->&?&[?|?])] ->.
  - div_lia.
  - assert (yoe `mod` 4 = 3) by div_lia. assert (yoe `mod` 100 ≠ 99) by div_lia. div_lia.
  - assert (yoe = 399) by div_lia. by subst.
Qed.

Lemma month_shift_range doy : 0 ≤ doy ≤ 365 → 0 ≤ (5 * doy + 2) `div` 153 ≤ 11.
Proof. intros. div_lia. Qed.

Lemma month_shift_inv mp d :
  0 ≤ mp ≤ 11 → 1 ≤ d ≤ 31 →
  (mp = 1 ∨ mp = 3 ∨ mp = 6 ∨ mp = 8 → d ≤ 30) → (mp = 11 → d ≤ 29) →
  (5 * ((153 * mp + 2) `div` 5 + d - 1) + 2) `div` 153 = mp.
Proof. intros. div_lia. Qed.

Lemma days_from_civil_from_days n :
  let '(y, m, d) := civil_from_days n in days_from_civil y m d = n.
Proof.
  unfold civil_from_days, days_from_civil.
  pose proof (Z.mod_pos_bound (n + 719468) 146097 ltac:(lia)) as Hdoe.
  pose proof (Z.div_mod (n + 719468) 146097 ltac:(lia)) as Hn.
  set (era := (n + 719468) `div` 146097) in *.
  set (doe := (n + 719468) `mod` 146097) in *.
  pose proof (year_of_era_range doe Hdoe) as Hyoe.
  set (yoe := _ `div` 365) in *.
  pose proof (day_of_year_range doe yoe Hdoe eq_refl) as Hdoy.
  set (doy := doe - (365 * yoe + _ - _)) in *.
  pose proof (month_shift_range doy Hdoy).
  set (mp := (5 * doy + 2) `div` 153) in *.
  assert (Hdm : ∀ y, y = yoe + era * 400 → y `div` 400 = era ∧ y `mod` 400 = yoe)
    by (clearbody yoe era; intros; div_lia).
  destruct (Z.ltb_spec mp 10).
  - replace (mp + 3 <=? 2) with false by lia. replace (mp + 3 >? 2) with true by lia.
    destruct (Hdm (yoe + era * 400 + 0)) as [-> ->]; [lia|].
    replace (mp + 3 - 3) with mp by lia. lia.
  - replace (mp - 9 <=? 2) with true by lia. replace (mp - 9 >? 2) with false by lia.
    destruct (Hdm (yoe + era * 400 + 1 - 1)) as [-> ->]; [lia|].
    replace (mp - 9 + 9) with mp by lia. lia.
Qed.

Definition valid_date (y m d : Z) : Prop := 1 ≤ m ≤ 12 ∧ 1 ≤ d ≤ days_in m y.

Lemma civil_from_days_from_civil y m d :
  valid_date y m d → civil_from_days (days_from_civil y m d) = (y, m, d).
Proof.
  intros [Hm Hd]. unfold civil_from_days, days_from_civil.
  set (y' := if m <=? 2 then y - 1 else y).
  set (mp := if m >? 2 then m - 3 else m + 9).
  assert (Hmp : 0 ≤ mp ≤ 11) by (subst mp; destruct (Z.gtb_spec m 2); lia).
  set (doy := (153 * mp + 2) `div` 5 + d - 1).
  assert (Hdoy : 0 ≤ doy ≤ 364 ∨ doy = 365 ∧ is_leap (y' `mod` 400 + 1) = true).
  { subst doy mp y'. unfold days_in in Hd.
    destruct (Z.gtb_spec m 2), (Z.leb_spec m 2); try lia.
    - destruct (Z.eqb_spec m 2); [lia|].
      destruct (_ || _) eqn:E in Hd; left; div_lia.
    - destruct (Z.eqb_spec m 2); [|left; destruct (_ || _) in Hd; div_lia].
      destruct (is_leap y) eqn:E; [|left; div_lia].
      destruct (decide (d = 29)) as [->|]; [|left; div_lia].
      right. split; [div_lia|]. revert E. rewrite !is_leap_spec.
      intros [? [?|?]]; split; [div_lia|left; div_lia|div_lia|right; div_lia]. }
  pose proof (Z.mod_pos_bound y' 400 ltac:(lia)) as Hyoe.
  pose proof (Z.div_mod y' 400 ltac:(lia)) as Hy'.
  set (yoe := y' `mod` 400) in *. set (era := y' `div` 400) in *.
  set (doe := yoe * 365 + yoe `div` 4 - yoe `div` 100 + doy).
  assert (Hdoe : 0 ≤ doe < 146097).
  { destruct Hdoy as [?|[? Hl]]; [subst doe; div_lia|].
    apply is_leap_spec in Hl as [? [?|?]]; subst doe; div_lia. }
  replace (era * 146097 + doe - 719468 + 719468) with (doe + era * 146097) by lia.
  rewrite Z_div_plus_full, Z_mod_plus_full by lia.
  rewrite (Z.div_small doe 146097), (Z.mod_small doe 146097) by done.
  rewrite (year_of_era_unique doy yoe doe Hyoe Hdoy eq_refl).
  replace (doe - (365 * yoe + yoe `div` 4 - yoe `div` 100)) with doy by lia.
  assert ((5 * doy + 2) `div` 153 = mp) as ->.
  { pose proof (days_in_bound m y) as (?&?&?).
    apply month_shift_inv; clear - Hd Hm Hmp H H0 H1; subst mp;
      destruct (Z.gtb_spec m 2); lia. }
  subst doy. unfold mp, y' in *. clear Hdoy Hdoe doe.
  destruct (Z.gtb_spec m 2), (Z.leb_spec m 2); try lia.
  - replace (m - 3 <? 10) with true by lia. replace (m - 3 + 3 <=? 2) with false by lia.
    repeat f_equal; lia.
  - replace (m + 9 <? 10) with false by lia. replace (m + 9 - 9 <=? 2) with true by lia.
    repeat f_equal; lia.
Qed.

(** ** [time.Time] *)

Definition wall_sec (t : Time) : Z := t_ns t `div` sec_ns + t_off t.
Definition Nanosecond (t : Time) : Z := t_ns t `mod` sec_ns.
Definition civil (t : Time) : Z * Z * Z := civil_from_days (wall_sec t `div` day_sec).
Definition Year (t : Time) : Z := (civil t).1.1.
Definition Month (t : Time) : Z := (civil t).1.2.
Definition Day (t : Time) : Z := (civil t).2.
Definition clock_sec (t : Time) : Z := wall_sec t `mod` day_sec.

(** [t.UTC()]: the same instant, in UTC. *)
Definition UTC (t : Time) : Time := mkTime (t_ns t) 0.

(** [time.Date(y, m, d, hh, mi, ss, ns, time.UTC)] for fields in range. *)
Definition DateUTC (y m d hh mi ss ns : Z) : Time :=
  mkTime ((days_from_civil y m d * day_sec + hh * 3600 + mi * 60 + ss) * sec_ns + ns) 0.

(** The zero [time.Time], 0001-01-01T00:00:00Z, and [IsZero]. *)
Definition zero_time : Time := mkTime (-62135596800000000000) 0.
Definition IsZero (t : Time) : bool := t_ns t =? t_ns zero_time.

(** The first instant of the month of [t], read in the zone of [t], in UTC:
    [time.Date(t.Year(), t.Month(), 1, 0, 0, 0, 0, time.UTC)]. *)
Definition month_start (t : Time) : Time := DateUTC (Year t) (Month t) 1 0 0 0 0.

Lemma civil_valid t : 1 ≤ Month t ≤ 12 ∧ 1 ≤ Day t ≤ 31.
Proof.
  unfold Month, Day, civil, civil_from_days. cbn [fst snd].
  set (z := _ + 719468).
  pose proof (Z.mod_pos_bound z 146097 ltac:(lia)) as Hdoe.
  set (doe := z `mod` 146097) in *.
  pose proof (year_of_era_range doe Hdoe) as Hyoe.
  set (yoe := _ `div` 365) in *.
  pose proof (day_of_year_range doe yoe Hdoe eq_refl) as Hdoy.
  set (doy := doe - (365 * yoe + _ - _)) in *.
  pose proof (month_shift_range doy Hdoy).
  clearbody doy. clear doe Hdoe yoe Hyoe.
  destruct (Z.ltb_spec ((5 * doy + 2) `div` 153) 10); split; try lia; div_lia.
Qed.

Lemma civil_DateUTC y m d hh mi ss ns :
  valid_date y m d → 0 ≤ hh < 24 → 0 ≤ mi < 60 → 0 ≤ ss < 60 → 0 ≤ ns < sec_ns →
  civil (DateUTC y m d hh mi ss ns) = (y, m, d).
Proof.
  intros Hv Hh Hmi Hss Hns. unfold civil, wall_sec, DateUTC. simpl.
  rewrite Z.div_add_l, (Z.div_small ns) by (unfold sec_ns in *; lia).
  replace (_ `div` day_sec) with (days_from_civil y m d);
    [by apply civil_from_days_from_civil|].
  unfold day_sec. div_lia.
Qed.

(** ** Printing *)

Definition pad2 (n : Z) : list ascii :=
  [digit_char (n `div` 10); digit_char (n `mod` 10)].

Definition pad4 (n : Z) : list ascii := pad2 (n `div` 100) ++ pad2 (n `mod` 100).

(** [appendInt(b, year, 4)]. *)
Definition fmt_year (y : Z) : list ascii :=
  let fmt_pos n := if n <=? 9999 then pad4 n else dec n in
  if y <? 0 then "-"%char :: fmt_pos (- y) else fmt_pos y.

(** [t.Format("2006-01")] and [t.Format("2006-01-02")]. *)
Definition Format_month (t : Time) : string :=
  str (fmt_year (Year t) ++ "-"%char :: pad2 (Month t)).
Definition Format_date (t : Time) : string :=
  str (fmt_year (Year t) ++ "-"%char :: pad2 (Month t) ++ "-"%char :: pad2 (Day t)).

(** The nine digits of a number of nanoseconds, most significant first, and the
    number a digit sequence denotes. *)
Definition nano_digits (n : Z) : list Z :=
  map (λ k, (n `div` 10 ^ k) `mod` 10) [8; 7; 6; 5; 4; 3; 2; 1; 0].
Definition digits_val (l : list Z) : Z := foldl (λ acc d, 10 * acc + d) 0 l.

Fixpoint strip_zeros (l : list Z) : list Z :=
  match l with
  | [] => []
  | d :: l => match strip_zeros l with
              | [] => if d =? 0 then [] else [d]
              | l' => d :: l'
              end
  end.

(** The [.999999999] of [RFC3339Nano]: no trailing zeros, nothing when zero. *)
Definition fmt_frac (n : Z) : list ascii :=
  match strip_zeros (nano_digits n) with
  | [] => []
  | l => "."%char :: map digit_char l
  end.

(** The [Z07:00] of the layouts: minutes east of UTC (Go's [/] truncates). *)
Definition fmt_zone (off : Z) : list ascii :=
  if off =? 0 then ["Z"%char] else
  let zone := Z.abs (off `quot` 60) in
  (if off `quot` 60 <? 0 then "-"%char else "+"%char)
    :: pad2 (zone `div` 60) ++ ":"%char :: pad2 (zone `mod` 60).

Definition fmt_datetime (t : Time) : list ascii :=
  let s := clock_sec t in
  fmt_year (Year t) ++ "-"%char :: pad2 (Month t) ++ "-"%char :: pad2 (Day t) ++
  "T"%char :: pad2 (s `div` 3600) ++ ":"%char :: pad2 ((s `mod` 3600) `div` 60) ++
  ":"%char :: pad2 (s `mod` 60).

Definition Format_RFC3339Nano (t : Time) : string :=
  str (fmt_datetime t ++ fmt_frac (Nanosecond t) ++ fmt_zone (t_off t)).
Definition Format_RFC3339 (t : Time) : string :=
  str (fmt_datetime t ++ fmt_zone (t_off t)).

Example Format_ex :
  Format_RFC3339Nano (DateUTC 2026 6 12 9 30 15 123456789) = "2026-06-12T09:30:15.123456789Z"
  ∧ Format_RFC3339Nano (mkTime 1500000000 (-12600)) = "1969-12-31T20:30:01.5-03:30".
Proof. vm_compute. done. Qed.

(** ** Parsing ([time.Parse]) *)

Definition get_digit (l : list ascii) : option (Z * list ascii) :=
  match l with
  | c :: l => if is_digit c then Some (digit_val c, l) else None
  | [] => None
  end.

(** [getnum(s, true)]: exactly two digits; [getnum(s, false)]: one or two. *)
Definition getnum_fixed (l : list ascii) : option (Z * list ascii) :=
  '(a, l) ← get_digit l; '(b, l) ← get_digit l; Some (10 * a + b, l).
Definition getnum (l : list ascii) : option (Z * list ascii) :=
  '(a, l1) ← get_digit l;
  match get_digit l1 with
  | Some (b, l2) => Some (10 * a + b, l2)
  | None => Some (a, l1)
  end.

Definition get_year (l : list ascii) : option (Z * list ascii) :=
  '(a, l) ← getnum_fixed l; '(b, l) ← getnum_fixed l; Some (100 * a + b, l).

Definition expect (c : ascii) (l : list ascii) : option (list ascii) :=
  match l with
  | c' :: l => if decide (c' = c) then Some l else None
  | [] => None
  end.

Definition guard_b (b : bool) : option unit := if b then Some tt else None.

Fixpoint take_digits (l : list ascii) : list Z * list ascii :=
  match l with
  | c :: l' => if is_digit c
               then let '(ds, r) := take_digits l' in (digit_val c :: ds, r)
               else ([], l)
  | [] => ([], [])
  end.

(** The optional fraction: a period or a comma and at least one digit; digits
    after the ninth are dropped ([parseNanoseconds]). *)
Definition parse_frac (l : list ascii) : Z * list ascii :=
  match l with
  | c :: (c2 :: _) as l' =>
      if (bool_decide (c = "."%char) || bool_decide (c = ","%char)) && is_digit c2
      then let '(ds, r) := take_digits (drop 1 l) in
           (digits_val (take 9 (ds ++ replicate 9 0)), r)
      else (0, l)
  | _ => (0, l)
  end.

Definition parse_zone (l : list ascii) : option (Z * list ascii) :=
  match l with
  | "Z"%char :: l => Some (0, l)
  | s :: l =>
      '(hr, l) ← getnum_fixed l;
      l ← expect ":" l;
      '(mm, l) ← getnum_fixed l;
      _ ← guard_b ((hr <=? 24) && (mm <=? 60));
      if decide (s = "+"%char) then Some ((hr * 60 + mm) * 60, l)
      else if decide (s = "-"%char) then Some (- ((hr * 60 + mm) * 60), l)
      else None
  | [] => None
  end.

Definition parse_ymd (l : list ascii) : option (Z * Z * Z * list ascii) :=
  '(y, l) ← get_year l; l ← expect "-" l;
  '(m, l) ← getnum_fixed l; _ ← guard_b ((1 <=? m) && (m <=? 12));
  l ← expect "-" l; '(d, l) ← getnum_fixed l;
  Some (y, m, d, l).

(** [time.Parse] with the layouts [RFC3339] and [RFC3339Nano]: both accept an
    optional fraction. *)
Definition Parse_RFC3339 (s : string) : option Time :=
  '(y, m, d, l) ← parse_ymd (chars s); l ← expect "T" l;
  '(hh, l) ← getnum l; _ ← guard_b (hh <? 24); l ← expect ":" l;
  '(mi, l) ← getnum_fixed l; _ ← guard_b (mi <? 60); l ← expect ":" l;
  '(ss, l) ← getnum_fixed l; _ ← guard_b (ss <? 60);
  let '(ns, l) := parse_frac l in
  '(off, l) ← parse_zone l;
  match l with
  | [] => _ ← guard_b ((1 <=? d) && (d <=? days_in m y));
          Some (mkTime ((days_from_civil y m d * day_sec + hh * 3600 + mi * 60 + ss
                         - off) * sec_ns + ns) off)
  | _ => None
  end.

(** [time.Parse("2006-01", s)] and [time.Parse("2006-01-02", s)]: midnight UTC. *)
Definition Parse_month (s : string) : option Time :=
  '(y, l) ← get_year (chars s); l ← expect "-" l;
  '(m, l) ← getnum_fixed l; _ ← guard_b ((1 <=? m) && (m <=? 12));
  match l with [] => Some (DateUTC y m 1 0 0 0 0) | _ => None end.

Definition Parse_date (s : string) : option Time :=
  '(y, m, d, l) ← parse_ymd (chars s);
  match l with
  | [] => _ ← guard_b ((1 <=? d) && (d <=? days_in m y)); Some (DateUTC y m d 0 0 0 0)
  | _ => None
  end.

(** ** Round trips *)

Lemma get_digit_char d l : 0 ≤ d < 10 → get_digit (digit_char d :: l) = Some (d, l).
Proof. intros. simpl. by rewrite is_digit_char, digit_val_char. Qed.

Lemma getnum_fixed_pad2 n l : 0 ≤ n < 100 → getnum_fixed (pad2 n ++ l) = Some (n, l).
Proof.
  intros. unfold getnum_fixed, pad2. cbn [app].
  rewrite get_digit_char by div_lia. cbn [mbind option_bind].
  rewrite get_digit_char by div_lia. cbn. do 2 f_equal. div_lia.
Qed.

Lemma getnum_pad2 n l : 0 ≤ n < 100 → getnum (pad2 n ++ l) = Some (n, l).
Proof.
  intros. unfold getnum, pad2. cbn [app].
  rewrite get_digit_char by div_lia. cbn [mbind option_bind].
  rewrite get_digit_char by div_lia. do 2 f_equal. div_lia.
Qed.

Lemma get_year_fmt y l : 0 ≤ y ≤ 9999 → get_year (fmt_year y ++ l) = Some (y, l).
Proof.
  intros. unfold get_year, fmt_year, pad4.
  replace (y <? 0) with false by lia. replace (y <=? 9999) with true by lia.
  rewrite <- app_assoc, getnum_fixed_pad2 by div_lia. cbn [mbind option_bind].
  rewrite getnum_fixed_pad2 by div_lia. cbn. do 2 f_equal. div_lia.
Qed.

Lemma expect_eq c l : expect c (c :: l) = Some l.
Proof. simpl. by rewrite decide_True. Qed.

Lemma take_digits_app ds l :
  Forall (λ d, 0 ≤ d < 10) ds → (∀ c, head l = Some c → is_digit c = false) →
  take_digits (map digit_char ds ++ l) = (ds, l).
Proof.
  intros Hds Hl. induction Hds as [|d ds Hd _ IH]; simpl.
  - destruct l as [|c l]; simpl; [done|]. by rewrite (Hl c).
  - by rewrite is_digit_char, IH, digit_val_char.
Qed.

Lemma strip_zeros_app l : ∃ k, l = strip_zeros l ++ replicate k 0.
Proof.
  induction l as [|d l [k IH]]; [by exists O|]. simpl.
  destruct (strip_zeros l) as [|x l']; [|exists k; simpl in *; congruence].
  destruct (Z.eqb_spec d 0) as [->|]; simpl in *; subst; [by exists (S k)|by exists k].
Qed.

Lemma nano_digits_val n : 0 ≤ n < sec_ns → digits_val (nano_digits n) = n.
Proof. unfold sec_ns, nano_digits, digits_val. simpl. intros. div_lia. Qed.

Lemma nano_digits_range n : Forall (λ d, 0 ≤ d < 10) (nano_digits n).
Proof.
  unfold nano_digits. apply Forall_map, Forall_true. intros k. simpl.
  apply Z.mod_pos_bound. lia.
Qed.

Lemma fmt_zone_head off c :
  head (fmt_zone off) = Some c → is_digit c = false ∧ c ≠ "."%char ∧ c ≠ ","%char.
Proof.
  unfold fmt_zone. intros Hc.
  repeat (case_match; simplify_eq/=); by vm_compute.
Qed.

Lemma parse_frac_none l :
  (∀ c, head l = Some c → c ≠ "."%char ∧ c ≠ ","%char) → parse_frac l = (0, l).
Proof.
  intros Hl. destruct l as [|c [|c2 l]]; [done..|]. simpl.
  destruct (Hl c) as [??]; [done|]. by rewrite !bool_decide_eq_false_2.
Qed.

Lemma parse_frac_fmt n off :
  0 ≤ n < sec_ns → parse_frac (fmt_frac n ++ fmt_zone off) = (n, fmt_zone off).
Proof.
  intros Hn. unfold fmt_frac.
  destruct (strip_zeros_app (nano_digits n)) as [k Hk].
  pose proof (nano_digits_val n Hn) as Hv.
  pose proof (nano_digits_range n) as Hr.
  assert (Hlen : length (nano_digits n) = 9%nat) by done.
  revert Hk Hv Hr Hlen. generalize (nano_digits n). intros l Hk Hv Hr Hlen.
  destruct (strip_zeros l) as [|d ds] eqn:E.
  - rewrite parse_frac_none; [|intros c Hc; by destruct (fmt_zone_head off c Hc) as (_&?&?)].
    f_equal. rewrite <- Hv, Hk. clear. unfold digits_val. simpl.
    induction k as [|k IH]; [done|]. by simpl.
  - assert (Hds : Forall (λ d, 0 ≤ d < 10) (d :: ds)).
    { rewrite Hk in Hr. by apply Forall_app in Hr as [? _]. }
    cbn [app map]. unfold parse_frac at 1.
    rewrite (bool_decide_eq_true_2 ("."%char = "."%char)) by done.
    rewrite is_digit_char by by inversion Hds. cbn [orb andb drop].
    change (digit_char d :: map digit_char ds ++ fmt_zone off)
      with (map digit_char (d :: ds) ++ fmt_zone off).
    rewrite take_digits_app;
      [|done|intros c Hc; by destruct (fmt_zone_head off c Hc) as (?&_)].
    f_equal. rewrite <- Hv. f_equal. rewrite Hk at 1.
    rewrite Hk, length_app, length_replicate in Hlen.
    rewrite take_app_ge, take_replicate by lia. do 2 f_equal. lia.
Qed.

(** Offsets that RFC 3339 can carry: whole minutes, less than a day. *)
Definition zone_ok (off : Z) : Prop := off `mod` 60 = 0 ∧ -86400 < off < 86400.

Lemma parse_zone_fmt off : zone_ok off → parse_zone (fmt_zone off) = Some (off, []).
Proof.
  intros [Hm Hb]. unfold fmt_zone. destruct (Z.eqb_spec off 0) as [->|Hne]; [done|].
  assert (off `quot` 60 = off `div` 60 ∧ off = 60 * (off `div` 60)) as [-> Hoff].
  { rewrite (Z.div_mod off 60) at 1 by lia. rewrite Hm, Z.add_0_r.
    rewrite Z.mul_comm, Z.quot_mul by lia. div_lia. }
  set (q := off `div` 60) in *. clearbody q. subst off.
  set (s := if q <? 0 then _ else _).
  assert (Hs : s ≠ "Z"%char) by (subst s; by destruct (q <? 0)).
  unfold parse_zone. destruct (decide (s = "Z"%char)) as [|_]; [done|].
  transitivity (parse_zone (s :: pad2 (Z.abs q `div` 60) ++ ":"%char :: pad2 (Z.abs q `mod` 60)));
    [done|].
  unfold parse_zone at 1.
  rewrite getnum_fixed_pad2 by div_lia. cbn [mbind option_bind].
  rewrite expect_eq. cbn [mbind option_bind].
  rewrite <- (app_nil_r (pad2 (Z.abs q `mod` 60))).
  rewrite getnum_fixed_pad2 by div_lia. cbn [mbind option_bind].
  replace ((_ <=? 24) && (_ <=? 60)) with true by div_lia. cbn [guard_b mbind option_bind].
  subst s. destruct (Z.ltb_spec q 0); simpl; do 2 f_equal; div_lia.
Qed.

Lemma clock_sec_range t : 0 ≤ clock_sec t < day_sec.
Proof. apply Z.mod_pos_bound. done. Qed.

Lemma civil_eq t : civil t = (Year t, Month t, Day t).
Proof. unfold Year, Month, Day. by destruct (civil t) as [[??]?]. Qed.

Lemma days_from_civil_civil t :
  days_from_civil (Year t) (Month t) (Day t) = wall_sec t `div` day_sec.
Proof.
  pose proof (days_from_civil_from_days (wall_sec t `div` day_sec)) as H.
  fold (civil t) in H. by rewrite civil_eq in H.
Qed.

(** The day a [civil] date reports exists in its month. *)
Lemma civil_day_in_month t : Day t ≤ days_in (Month t) (Year t).
Proof.
  unfold Month, Day, Year, civil, civil_from_days. cbn [fst snd].
  set (z := _ + 719468).
  pose proof (Z.mod_pos_bound z 146097 ltac:(lia)) as Hdoe.
  set (era := z `div` 146097). set (doe := z `mod` 146097) in *.
  pose proof (year_of_era_range doe Hdoe) as Hyoe.
  assert (Hlast : ∀ yoe, yoe = (doe - doe `div` 1460 + doe `div` 36524 - doe `div` 146096) `div` 365 →
    doe - (365 * yoe + yoe `div` 4 - yoe `div` 100) = 365 →
    (yoe + 1) `mod` 4 = 0 ∧ ((yoe + 1) `mod` 100 ≠ 0 ∨ (yoe + 1) `mod` 400 = 0)).
  { clearbody doe. intros yoe Hy Hd. split; [div_lia|].
    destruct (decide ((yoe + 1) `mod` 400 = 0)); [by right|left]. div_lia. }
  set (yoe := _ `div` 365) in *. specialize (Hlast yoe eq_refl).
  pose proof (day_of_year_range doe yoe Hdoe eq_refl) as Hdoy.
  set (doy := doe - (365 * yoe + _ - _)) in *.
  pose proof (month_shift_range doy Hdoy) as Hmp.
  clearbody doy yoe era. clear z doe Hdoe.
  set (mp := (5 * doy + 2) `div` 153) in *.
  assert (Hd : 5 * doy + 2 = 153 * mp + (5 * doy + 2) `mod` 153 ∧
               0 ≤ (5 * doy + 2) `mod` 153 < 153) by (subst mp; div_lia).
  clearbody mp. destruct Hd as [Hd1 Hd2].
  unfold days_in. destruct (Z.ltb_spec mp 10).
  - replace (mp + 3 =? 2) with false by lia.
    destruct (_ || _) eqn:E; [|div_lia].
    assert (mp = 1 ∨ mp = 3 ∨ mp = 6 ∨ mp = 8) as Hc by lia.
    destruct Hc as [-> | [-> | [-> | ->]]]; div_lia.
  - destruct (Z.eqb_spec (mp - 9) 2).
    + assert (mp = 11) as -> by lia. replace (11 - 9 <=? 2) with true by lia.
      destruct (decide (doy = 365)) as [Hl|]; [|destruct (is_leap _); div_lia].
      assert (is_leap (yoe + era * 400 + 1) = true) as ->; [|div_lia].
      apply is_leap_spec. destruct (Hlast Hl) as [? [?|?]]; split; div_lia.
    + assert (mp = 10) as -> by lia. replace (_ || _) with false by lia. div_lia.
Qed.

Lemma parse_ymd_fmt y m d l :
  0 ≤ y ≤ 9999 → 1 ≤ m ≤ 12 → 1 ≤ d ≤ 31 →
  parse_ymd (fmt_year y ++ "-"%char :: pad2 m ++ "-"%char :: pad2 d ++ l) = Some (y, m, d, l).
Proof.
  intros. unfold parse_ymd. rewrite get_year_fmt by done. cbn [mbind option_bind].
  rewrite expect_eq. cbn [mbind option_bind].
  rewrite getnum_fixed_pad2 by lia. cbn [mbind option_bind].
  replace (_ && _) with true by lia. cbn [guard_b mbind option_bind].
  rewrite expect_eq. cbn [mbind option_bind].
  by rewrite getnum_fixed_pad2 by lia.
Qed.

Theorem Parse_Format_RFC3339Nano t :
  0 ≤ Year t ≤ 9999 → zone_ok (t_off t) →
  Parse_RFC3339 (Format_RFC3339Nano t) = Some t.
Proof.
  intros Hy Hz. unfold Parse_RFC3339, Format_RFC3339Nano, fmt_datetime.
  pose proof (civil_valid t) as [Hm Hd]. pose proof (civil_day_in_month t) as Hdm.
  pose proof (clock_sec_range t) as Hc. unfold day_sec in Hc.
  rewrite chars_str. repeat rewrite <- ?app_assoc, <- ?app_comm_cons.
  rewrite parse_ymd_fmt by done. cbn [mbind option_bind].
  set (s := clock_sec t) in *.
  rewrite expect_eq. cbn [mbind option_bind].
  rewrite getnum_pad2 by div_lia. cbn [mbind option_bind].
  replace (s `div` 3600 <? 24) with true by div_lia. cbn [guard_b mbind option_bind].
  rewrite expect_eq. cbn [mbind option_bind].
  rewrite getnum_fixed_pad2 by div_lia. cbn [mbind option_bind].
  replace (_ <? 60) with true by div_lia. cbn [guard_b mbind option_bind].
  rewrite expect_eq. cbn [mbind option_bind].
  rewrite getnum_fixed_pad2 by div_lia. cbn [mbind option_bind].
  replace (s `mod` 60 <? 60) with true by div_lia. cbn [guard_b mbind option_bind].
  rewrite parse_frac_fmt by (apply Z.mod_pos_bound; done).
  rewrite parse_zone_fmt by done. cbn [mbind option_bind].
  replace (_ && _) with true by lia. cbn [guard_b mbind option_bind].
  rewrite days_from_civil_civil.
  assert (Hs : s = wall_sec t `mod` day_sec) by done. clearbody s.
  destruct t as [ns off]. unfold wall_sec, Nanosecond, day_sec, sec_ns in *. simpl in *.
  do 2 f_equal. div_lia.
Qed.

(** A printed date is read back as midnight of that day, a printed month as the
    first of it. *)
Lemma Parse_Format_date t :
  0 ≤ Year t ≤ 9999 →
  Parse_date (Format_date t) = Some (DateUTC (Year t) (Month t) (Day t) 0 0 0 0).
Proof.
  intros Hy. pose proof (civil_valid t) as [Hm Hd]. pose proof (civil_day_in_month t).
  unfold Parse_date, Format_date. rewrite chars_str.
  rewrite <- (app_nil_r (pad2 (Day t))), parse_ymd_fmt by done. cbn [mbind option_bind].
  replace (_ && _) with true by lia. done.
Qed.

Lemma Parse_Format_month t :
  0 ≤ Year t ≤ 9999 → Parse_month (Format_month t) = Some (month_start t).
Proof.
  intros Hy. pose proof (civil_valid t) as [Hm Hd].
  unfold Parse_month, Format_month. rewrite chars_str.
  rewrite get_year_fmt by done. cbn [mbind option_bind].
  rewrite expect_eq. cbn [mbind option_bind].
  rewrite <- (app_nil_r (pad2 (Month t))), getnum_fixed_pad2 by lia. cbn [mbind option_bind].
  replace (_ && _) with true by lia. done.
Qed.

(** The day number of a time, and the fields of the midnight of a day. *)
Lemma civil_midnight d :
  let t := mkTime (d * day_ns) 0 in
  days_from_civil (Year t) (Month t) (Day t) = d.
Proof.
  intros t. rewrite days_from_civil_civil. unfold t, wall_sec, day_ns, day_sec, sec_ns. simpl.
  div_lia.
Qed.

Lemma DateUTC_civil t :
  t_off t = 0 → t_ns (DateUTC (Year t) (Month t) (Day t) 0 0 0 0) = t_ns t `div` day_ns * day_ns.
Proof.
  intros Ht. unfold DateUTC. simpl. rewrite days_from_civil_civil. unfold wall_sec. rewrite Ht.
  unfold day_ns, day_sec, sec_ns. div_lia.
Qed.
