(* ===== verification/Effects.v ===== *)
(** * Errors, results and the state-and-error monad

    The error values of the service ([internal/service/transactions.go]) and of
    the database driver, [errors.Is], and the monad in which statements, database
    transactions and services are written: a computation from a state to a result
    and a state.  An error does not undo the state: undoing is what a database
    rollback does (file World). *)
From S2P Require Import Prelude.
Local Open Scope Z_scope.

Inductive error :=
  | ErrAccountNotFound
  | ErrForbidden
  | ErrAccountInactive
  | ErrCurrencyMismatch
  | ErrUnbalanced
  | ErrZeroAmount
  | ErrIdempotencyConflict
  | ErrIdempotencyInFlight
  | ErrTxNotFound
  | ErrAlreadyReversed
  | ErrIsReversal
  | ErrNoRows                          (* pgx.ErrNoRows *)
  | PgError (sqlstate : string)        (* *pgconn.PgError *)
  | ErrConn                            (* connection lost, deadline exceeded *)
  | ErrMarshal                         (* json.Marshal *)
  | ErrUnmarshal                       (* json.Unmarshal *)
  | ErrParse                           (* time.Parse, strconv *)
  | ErrEnqueue                         (* asynq *)
  | ErrStorage                         (* export storage *)
  | Wrapped (e : error) (msg : string). (* fmt.Errorf("%w: msg", e) *)

#[global] Instance error_eq_dec : EqDecision error.
Proof. solve_decision. Defined.

(** [errors.Is(err, target)]: the error or one it wraps. *)
Fixpoint errors_is (err target : error) : bool :=
  bool_decide (err = target) ||
  match err with Wrapped e _ => errors_is e target | _ => false end.

(** SQLSTATE codes the schema can raise. *)
Definition unique_violation : string := "23505".
Definition foreign_key_violation : string := "23503".
Definition check_violation : string := "23514".
Definition raise_exception : string := "P0001".
Definition numeric_out_of_range : string := "22003".
Definition sequence_limit : string := "2200H".

(** [isUniqueViolation]: [errors.As] to a [PgError] with code 23505. *)
Fixpoint isUniqueViolation (err : error) : bool :=
  match err with
  | PgError c => bool_decide (c = unique_violation)
  | Wrapped e _ => isUniqueViolation e
  | _ => false
  end.

Inductive result (A : Type) := Ok (a : A) | Err (e : error).
Arguments Ok {A} a.
Arguments Err {A} e.

#[global] Instance result_eq_dec A `{!EqDecision A} : EqDecision (result A).
Proof. solve_decision. Defined.

(** ** The monad *)

Definition M (S A : Type) : Type := S → result A * S.

Definition ret {S A} (a : A) : M S A := λ s, (Ok a, s).
Definition fail {S A} (e : error) : M S A := λ s, (Err e, s).
Definition bind {S A B} (m : M S A) (k : A → M S B) : M S B := λ s,
  match m s with
  | (Ok a, s') => k a s'
  | (Err e, s') => (Err e, s')
  end.

(** Go's [x, err := m(); switch on err]: the error as a value. *)
Definition attempt {S A} (m : M S A) : M S (result A) := λ s,
  let '(r, s') := m s in (Ok r, s').

Notation "'let!' x := m 'in' k" := (bind m (λ x, k))
  (at level 10, x pattern, m at level 200, k at level 200) : ledger_scope.
Notation "m ;;; k" := (bind m (λ _, k)) (at level 190, right associativity) : ledger_scope.

Section laws.
Context {S : Type}.

Lemma bind_ret_l {A B} (a : A) (k : A → M S B) s : bind (ret a) k s = k a s.
Proof. done. Qed.

Lemma bind_ret_r {A} (m : M S A) s : bind m ret s = m s.
Proof. unfold bind. by destruct (m s) as [[]]. Qed.

Lemma bind_assoc {A B C} (m : M S A) (k : A → M S B) (h : B → M S C) s :
  bind (bind m k) h s = bind m (λ a, bind (k a) h) s.
Proof. unfold bind. by destruct (m s) as [[]]. Qed.

(** Inversion of a successful and of a failing sequence. *)
Lemma bind_Ok {A B} (m : M S A) (k : A → M S B) s b s' :
  bind m k s = (Ok b, s') ↔ ∃ a s1, m s = (Ok a, s1) ∧ k a s1 = (Ok b, s').
Proof.
  unfold bind. destruct (m s) as [[a|e] s1]; split; intros.
  - by exists a, s1.
  - destruct H as (?&?&[= <- <-]&?). done.
  - done.
  - by destruct H as (?&?&?&?).
Qed.

Lemma bind_Err {A B} (m : M S A) (k : A → M S B) s e s' :
  bind m k s = (Err e, s') ↔
  m s = (Err e, s') ∨ ∃ a s1, m s = (Ok a, s1) ∧ k a s1 = (Err e, s').
Proof.
  unfold bind. destruct (m s) as [[a|e'] s1]; split; intros H.
  - right. by exists a, s1.
  - destruct H as [?|(?&?&[= <- <-]&?)]; [done|done].
  - left. congruence.
  - destruct H as [[= <- <-]|(?&?&?&?)]; done.
Qed.

(** A relation between states that every step keeps is kept by a sequence,
    whatever the outcome. *)
Definition keeps {A} (R : S → S → Prop) (m : M S A) : Prop := ∀ s, R s (m s).2.

Lemma keeps_ret {A} R `{!Reflexive R} (a : A) : keeps R (ret a).
Proof. intros s. simpl. reflexivity. Qed.
Lemma keeps_fail {A} R `{!Reflexive R} e : keeps R (fail (A:=A) e).
Proof. intros s. simpl. reflexivity. Qed.
Lemma keeps_bind {A B} R `{!Transitive R} (m : M S A) (k : A → M S B) :
  keeps R m → (∀ a, keeps R (k a)) → keeps R (bind m k).
Proof.
  intros Hm Hk s. specialize (Hm s). unfold bind.
  destruct (m s) as [[a|e] s1]; simpl in *; [|done]. etrans; [done|]. apply Hk.
Qed.
Lemma keeps_attempt {A} R (m : M S A) : keeps R m → keeps R (attempt m).
Proof. intros Hm s. specialize (Hm s). unfold attempt. by destruct (m s). Qed.
End laws.

Create HintDb ledger.
#[export] Hint Resolve keeps_ret keeps_fail keeps_bind keeps_attempt : ledger.
