(* ===== verification/Json.v ===== *)
(** * JSON text (Go's [encoding/json])

    The program stores a response as JSON and replays it from that text, and
    hashes a request through its JSON.  This file has the text layer: UTF-8
    runes, string escapes with the HTML escapes of [json.Marshal], the printer
    and the decoder, and the proof that decoding inverts printing. *)
From S2P Require Import Prelude.
Local Open Scope Z_scope.

(** ** UTF-8 *)

Definition cont (c : ascii) : bool := (128 <=? code c) && (code c <=? 191).
Definition between (lo hi : Z) (c : ascii) : bool := (lo <=? code c) && (code c <=? hi).

Definition valid1 (c : ascii) : bool := code c <? 128.
Definition valid2 (c c1 : ascii) : bool := between 194 223 c && cont c1.
Definition valid3 (c c1 c2 : ascii) : bool :=
  ((code c =? 224) && between 160 191 c1
   || (between 225 236 c || between 238 239 c) && cont c1
   || (code c =? 237) && between 128 159 c1) && cont c2.
Definition valid4 (c c1 c2 c3 : ascii) : bool :=
  ((code c =? 240) && between 144 191 c1
   || between 241 243 c && cont c1
   || (code c =? 244) && between 128 143 c1) && cont c2 && cont c3.

(** A rune of a Go string: the bytes of a valid encoding, or one invalid byte
    ([utf8.DecodeRune] returns [RuneError, 1]). *)
Inductive rune := Rune (bs : list ascii) | Bad (c : ascii).

#[global] Instance rune_eq_dec : EqDecision rune.
Proof. solve_decision. Defined.

Fixpoint runes (l : list ascii) : list rune :=
  match l with
  | [] => []
  | c :: l1 =>
      if valid1 c then Rune [c] :: runes l1 else
      match l1 with
      | c1 :: l2 =>
          if valid2 c c1 then Rune [c; c1] :: runes l2 else
          match l2 with
          | c2 :: l3 =>
              if valid3 c c1 c2 then Rune [c; c1; c2] :: runes l3 else
              match l3 with
              | c3 :: l4 =>
                  if valid4 c c1 c2 c3 then Rune [c; c1; c2; c3] :: runes l4
                  else Bad c :: runes l1
              | [] => Bad c :: runes l1
              end
          | [] => Bad c :: runes l1
          end
      | [] => Bad c :: runes l1
      end
  end.

Definition valid_rune (bs : list ascii) : bool :=
  match bs with
  | [c] => valid1 c
  | [c; c1] => valid2 c c1
  | [c; c1; c2] => valid3 c c1 c2
  | [c; c1; c2; c3] => valid4 c c1 c2 c3
  | _ => false
  end.

(** A string is valid UTF-8 when every rune of it is. *)
Definition utf8_ok (s : string) : bool :=
  forallb (λ r, match r with Rune _ => true | Bad _ => false end) (runes (chars s)).

Lemma valid2_not1 c c1 : valid2 c c1 = true → valid1 c = false.
Proof. unfold valid1, valid2, between. lia. Qed.
Lemma valid3_not c c1 c2 : valid3 c c1 c2 = true → valid1 c = false ∧ valid2 c c1 = false.
Proof. unfold valid1, valid2, valid3, between. lia. Qed.
Lemma valid4_not c c1 c2 c3 :
  valid4 c c1 c2 c3 = true →
  valid1 c = false ∧ valid2 c c1 = false ∧ valid3 c c1 c2 = false.
Proof. unfold valid1, valid2, valid3, valid4, between. lia. Qed.

Lemma runes_cons bs l :
  valid_rune bs = true → runes (bs ++ l) = Rune bs :: runes l.
Proof.
  intros Hv. destruct bs as [|c [|c1 [|c2 [|c3 [|]]]]]; try done; simpl in *.
  - by rewrite Hv.
  - by rewrite (valid2_not1 _ _ Hv), Hv.
  - destruct (valid3_not _ _ _ Hv) as [-> ->]. by rewrite Hv.
  - destruct (valid4_not _ _ _ _ Hv) as (->&->&->). by rewrite Hv.
Qed.

(** A concatenation of valid runes is split back into them. *)
Lemma runes_concat rs :
  Forall (λ bs, valid_rune bs = true) rs → runes (concat rs) = map Rune rs.
Proof.
  induction 1 as [|bs rs Hv _ IH]; [done|]. simpl. by rewrite runes_cons, IH.
Qed.

(** One step of the splitting. *)
Lemma runes_step c l :
  (∃ bs l', c :: l = bs ++ l' ∧ valid_rune bs = true ∧ (length l' ≤ length l)%nat ∧
            runes (c :: l) = Rune bs :: runes l')
  ∨ runes (c :: l) = Bad c :: runes l.
Proof.
  cbn [runes]. destruct (valid1 c) eqn:E1; [left; by exists [c], l|].
  destruct l as [|c1 l2]; [by right|].
  destruct (valid2 c c1) eqn:E2; [left; exists [c; c1], l2; simpl; auto with lia|].
  destruct l2 as [|c2 l3]; [by right|].
  destruct (valid3 c c1 c2) eqn:E3; [left; exists [c; c1; c2], l3; simpl; auto with lia|].
  destruct l3 as [|c3 l4]; [by right|].
  destruct (valid4 c c1 c2 c3) eqn:E4;
    [left; exists [c; c1; c2; c3], l4; simpl; auto with lia|by right].
Qed.

Lemma runes_ind (P : list ascii → list rune → Prop) :
  P [] [] →
  (∀ bs l, valid_rune bs = true → P l (runes l) → P (bs ++ l) (Rune bs :: runes l)) →
  (∀ c l, P l (runes l) → P (c :: l) (Bad c :: runes l)) →
  ∀ l, P l (runes l).
Proof.
  intros Hnil Hrune Hbad l.
  induction l as [l IH] using (induction_ltof1 _ (@length ascii)); unfold ltof in IH.
  destruct l as [|c l]; [done|].
  destruct (runes_step c l) as [(bs&l'&Heq&Hv&Hl&->)| ->].
  - rewrite Heq. apply Hrune; [done|]. apply IH. simpl. lia.
  - apply Hbad, IH. simpl. lia.
Qed.

Definition rune_bytes (r : rune) : list ascii :=
  match r with Rune bs => bs | Bad c => [c] end.

Lemma runes_bytes l : concat (map rune_bytes (runes l)) = l.
Proof.
  apply (runes_ind (λ l rs, concat (map rune_bytes rs) = l)); simpl; congruence.
Qed.

Lemma runes_valid l bs : Rune bs ∈ runes l → valid_rune bs = true.
Proof.
  apply (runes_ind (λ l rs, Rune bs ∈ rs → valid_rune bs = true)); [inversion 1|..].
  - intros bs' l' Hv IH. rewrite elem_of_cons. intros [?|?]; simplify_eq; auto.
  - intros c l' IH. rewrite elem_of_cons. intros [?|?]; simplify_eq; auto.
Qed.

Lemma utf8_ok_runes s :
  utf8_ok s = true →
  ∃ rs, runes (chars s) = map Rune rs ∧ Forall (λ bs, valid_rune bs = true) rs ∧
        concat rs = chars s.
Proof.
  unfold utf8_ok. intros Hok.
  assert (∃ rs, runes (chars s) = map Rune rs) as [rs Hrs].
  { revert Hok. generalize (runes (chars s)). intros l.
    induction l as [|[bs|c] l IH]; simpl; intros Hok; [by exists []| |done].
    destruct (IH Hok) as [rs ->]. by exists (bs :: rs). }
  exists rs. split; [done|]. split.
  - apply Forall_forall. intros bs Hbs. apply (runes_valid (chars s)).
    rewrite Hrs. apply list_elem_of_fmap. eauto.
  - rewrite <- (runes_bytes (chars s)), Hrs, map_map. simpl. by rewrite map_id.
Qed.

(** ** Strings *)

Definition hex_digit (n : Z) : ascii := if n <? 10 then chr (48 + n) else chr (87 + n).

Definition lit (s : string) : list (list ascii) := map (λ c, [c]) (chars s).

(** [htmlSafeSet]: the ASCII bytes that [json.Marshal] copies. *)
Definition html_safe (c : ascii) : bool :=
  (32 <=? code c) && negb (bool_decide (c ∈ chars "\<>&")) && negb (code c =? 34).

(** [appendString(dst, src, escapeHTML = true)], one rune. *)
Definition esc_rune (r : rune) : list (list ascii) :=
  match r with
  | Rune [c] =>
      if html_safe c then [[c]]
      else if (code c =? 92) || (code c =? 34) then [["\"%char]; [c]]
      else if code c =? 8 then lit "\b"
      else if code c =? 12 then lit "\f"
      else if code c =? 10 then lit "\n"
      else if code c =? 13 then lit "\r"
      else if code c =? 9 then lit "\t"
      else lit "\u00" ++ [[hex_digit (code c `div` 16)]; [hex_digit (code c `mod` 16)]]
  | Rune bs =>
      if bool_decide (bs = [chr 226; chr 128; chr 168]) then lit "\u2028"
      else if bool_decide (bs = [chr 226; chr 128; chr 169]) then lit "\u2029"
      else [bs]
  | Bad _ => lit "\ufffd"
  end.

Definition esc (s : string) : list (list ascii) := concat (map esc_rune (runes (chars s))).

Definition utf8_encode (z : Z) : list ascii :=
  if z <? 128 then [chr z]
  else if z <? 2048 then [chr (192 + z `div` 64); chr (128 + z `mod` 64)]
  else if z <? 65536 then
    [chr (224 + z `div` 4096); chr (128 + (z `div` 64) `mod` 64); chr (128 + z `mod` 64)]
  else
    [chr (240 + z `div` 262144); chr (128 + (z `div` 4096) `mod` 64);
     chr (128 + (z `div` 64) `mod` 64); chr (128 + z `mod` 64)].

(** U+FFFD, which replaces invalid bytes and unpaired surrogates. *)
Definition replacement : list ascii := [chr 239; chr 191; chr 189].

Definition hex_val (c : ascii) : option Z :=
  if between 48 57 c then Some (code c - 48)
  else if between 97 102 c then Some (code c - 87)
  else if between 65 70 c then Some (code c - 55)
  else None.

Definition hex4 (l : list rune) : option (Z * list rune) :=
  match l with
  | Rune [a] :: Rune [b] :: Rune [c] :: Rune [d] :: l =>
      a ← hex_val a; b ← hex_val b; c ← hex_val c; d ← hex_val d;
      Some (((a * 16 + b) * 16 + c) * 16 + d, l)
  | _ => None
  end.

Definition simple_escape (c : ascii) : option ascii :=
  if (code c =? 34) || (code c =? 92) || (code c =? 47) then Some c
  else if code c =? 98 then Some (chr 8)
  else if code c =? 102 then Some (chr 12)
  else if code c =? 110 then Some (chr 10)
  else if code c =? 114 then Some (chr 13)
  else if code c =? 116 then Some (chr 9)
  else None.

Definition is_high (z : Z) : bool := (55296 <=? z) && (z <? 56320).
Definition is_low (z : Z) : bool := (56320 <=? z) && (z <? 57344).

(** The bytes an escaped code unit denotes, and the input after it: a high
    surrogate takes the low one that follows; an unpaired one is U+FFFD. *)
Definition unescape_u (l : list rune) : option (list ascii * list rune) :=
  '(rr, l1) ← hex4 l;
  if is_high rr || is_low rr then
    match (match l1 with
           | Rune ["\"%char] :: Rune ["u"%char] :: l2 => hex4 l2
           | _ => None
           end) with
    | Some (r2, l3) =>
        if is_high rr && is_low r2
        then Some (utf8_encode ((rr - 55296) * 1024 + (r2 - 56320) + 65536), l3)
        else Some (replacement, l1)
    | None => Some (replacement, l1)
    end
  else Some (utf8_encode rr, l1).

(** The string after its opening quote, up to the closing one. *)
Fixpoint pstring (fuel : nat) (l : list rune) : option (list ascii * list rune) :=
  match fuel with
  | O => None
  | S fuel =>
      let more bs l := '(s, r) ← pstring fuel l; Some (bs ++ s, r) in
      match l with
      | [] => None
      | Rune [c] :: l =>
          if code c =? 34 then Some ([], l)
          else if code c =? 92 then
            match l with
            | Rune [e] :: l =>
                if code e =? 117 then '(bs, l) ← unescape_u l; more bs l
                else c ← simple_escape e; more [c] l
            | _ => None
            end
          else if code c <? 32 then None
          else more [c] l
      | Rune bs :: l => more bs l
      | Bad _ :: l => more replacement l
      end
  end.

Lemma esc_rune_valid r :
  (∀ b, r = Rune b → valid_rune b = true) → forallb valid_rune (esc_rune r) = true.
Proof.
  intros Hr. destruct r as [b|c]; [specialize (Hr b eq_refl)|done].
  destruct b as [|c [|c1 b]]; [done|..].
  - destruct c as [[] [] [] [] [] [] [] []]; by vm_compute.
  - simpl. repeat case_bool_decide; [done..|]. cbn -[valid_rune]. by rewrite Hr.
Qed.

(** Reading back one escaped rune. *)
Lemma pstring_esc_rune bs fuel l s r :
  valid_rune bs = true → pstring fuel l = Some (s, r) →
  pstring (S fuel) (map Rune (esc_rune (Rune bs)) ++ l) = Some (bs ++ s, r).
Proof.
  intros Hv Hl. destruct bs as [|c [|c1 b]]; [done|..].
  - destruct c as [[] [] [] [] [] [] [] []]; try (by vm_compute in Hv);
      cbv -[pstring app]; cbn [app pstring]; cbv -[pstring app]; by rewrite Hl.
  - simpl esc_rune. case_bool_decide as H1; [|case_bool_decide as H2].
    + rewrite H1. cbv -[pstring app]; cbn [app pstring]; cbv -[pstring app]; by rewrite Hl.
    + rewrite H2. cbv -[pstring app]; cbn [app pstring]; cbv -[pstring app]; by rewrite Hl.
    + cbn [map app pstring]. by rewrite Hl.
Qed.

Definition quote : ascii := chr 34.

Lemma pstring_esc s r fuel :
  utf8_ok s = true → (length (runes (chars s)) < fuel)%nat →
  pstring fuel (map Rune (esc s) ++ Rune [quote] :: r) = Some (chars s, r).
Proof.
  intros Hok Hfuel. destruct (utf8_ok_runes s Hok) as (rs&Hrs&Hv&<-).
  unfold esc. rewrite Hrs in *. rewrite length_map in Hfuel. clear Hok Hrs.
  revert fuel Hfuel. induction Hv as [|bs rs Hbs _ IH]; intros fuel Hfuel.
  - destruct fuel; [simpl in Hfuel; lia|]. done.
  - destruct fuel as [|fuel]; [simpl in Hfuel; lia|].
    cbn [map concat]. rewrite map_app, <- app_assoc.
    apply pstring_esc_rune; [done|]. apply IH. simpl in Hfuel. lia.
Qed.

(** ** Values *)

(** A number keeps its literal, as Go's decoder does. *)
#[warnings="-register-all"]
Inductive json :=
  | JNull
  | JBool (b : bool)
  | JNum (l : list ascii)
  | JStr (s : string)
  | JArr (l : list json)
  | JObj (l : list (string * json)).

Definition JInt (z : Z) : json := JNum (itoa z).

Definition one (c : ascii) : list (list ascii) := [[c]].

Definition print_str (s : string) : list (list ascii) := one quote ++ esc s ++ one quote.

Fixpoint join (ls : list (list (list ascii))) : list (list ascii) :=
  match ls with
  | [] => []
  | [x] => x
  | x :: ls => x ++ one "," ++ join ls
  end.

Fixpoint print (j : json) : list (list ascii) :=
  match j with
  | JNull => lit "null"
  | JBool b => lit (if b then "true" else "false")
  | JNum l => map (λ c, [c]) l
  | JStr s => print_str s
  | JArr l => one "[" ++ join (map print l) ++ one "]"
  | JObj l =>
      one "{" ++ join (map (λ '(k, x), print_str k ++ one ":" ++ print x) l) ++ one "}"
  end.

(** The text of [json.Marshal]. *)
Definition json_text (j : json) : string := str (concat (print j)).

Definition is_ws (c : ascii) : bool :=
  (code c =? 32) || (code c =? 9) || (code c =? 10) || (code c =? 13).

Fixpoint skip_ws (l : list rune) : list rune :=
  match l with
  | Rune [c] :: l' => if is_ws c then skip_ws l' else l
  | _ => l
  end.

Fixpoint span_digits (l : list rune) : list ascii * list rune :=
  match l with
  | Rune [c] :: l' => if is_digit c then let '(a, r) := span_digits l' in (c :: a, r)
                      else ([], l)
  | _ => ([], l)
  end.

(** The number grammar: an optional minus sign, an integer part with no leading
    zero, an optional fraction, an optional exponent. *)
Definition pfrac (l : list rune) : option (list ascii * list rune) :=
  match l with
  | Rune ["."%char] :: l =>
      match span_digits l with
      | ([], _) => None
      | (ds, l) => Some ("."%char :: ds, l)
      end
  | _ => Some ([], l)
  end.

Definition psign (l : list rune) : list ascii * list rune :=
  match l with
  | Rune ["+"%char] :: l => (["+"%char], l)
  | Rune ["-"%char] :: l => (["-"%char], l)
  | _ => ([], l)
  end.

Definition pexp (l : list rune) : option (list ascii * list rune) :=
  match l with
  | Rune [e] :: l' =>
      if (code e =? 101) || (code e =? 69) then
        let '(sg, l') := psign l' in
        match span_digits l' with
        | ([], _) => None
        | (ds, l') => Some (e :: sg ++ ds, l')
        end
      else Some ([], l)
  | _ => Some ([], l)
  end.

Definition no_leading_zero (ds : list ascii) : bool :=
  match ds with [] => false | "0"%char :: _ :: _ => false | _ => true end.

Definition punsigned (l : list rune) : option (list ascii * list rune) :=
  let '(ip, l) := span_digits l in
  if no_leading_zero ip then
    '(fp, l) ← pfrac l; '(ep, l) ← pexp l; Some (ip ++ fp ++ ep, l)
  else None.

Definition pnumber (l : list rune) : option (list ascii * list rune) :=
  match l with
  | Rune ["-"%char] :: l => '(n, r) ← punsigned l; Some ("-"%char :: n, r)
  | _ => punsigned l
  end.

Fixpoint pword (w : list ascii) (l : list rune) : option (list rune) :=
  match w with
  | [] => Some l
  | c :: w => match l with
              | Rune [c'] :: l => if decide (c = c') then pword w l else None
              | _ => None
              end
  end.

(** The decoder.  Each level of nesting and each member takes one unit of fuel,
    so the number of runes of the text is enough ([pvalue_print]). *)
Fixpoint pvalue (fuel : nat) (l : list rune) : option (json * list rune) :=
  match fuel with
  | O => None
  | S fuel =>
      match skip_ws l with
      | Rune [c] :: l1 =>
          if code c =? 34 then
            '(s, r) ← pstring (length l1) l1; Some (JStr (str s), r)
          else if code c =? 91 then
            match skip_ws l1 with
            | Rune ["]"%char] :: r => Some (JArr [], r)
            | l2 => '(js, r) ← pelems fuel l2; Some (JArr js, r)
            end
          else if code c =? 123 then
            match skip_ws l1 with
            | Rune ["}"%char] :: r => Some (JObj [], r)
            | l2 => '(js, r) ← pmembers fuel l2; Some (JObj js, r)
            end
          else if code c =? 110 then r ← pword (chars "ull") l1; Some (JNull, r)
          else if code c =? 116 then r ← pword (chars "rue") l1; Some (JBool true, r)
          else if code c =? 102 then r ← pword (chars "alse") l1; Some (JBool false, r)
          else '(n, r) ← pnumber (Rune [c] :: l1); Some (JNum n, r)
      | _ => None
      end
  end
with pelems (fuel : nat) (l : list rune) : option (list json * list rune) :=
  match fuel with
  | O => None
  | S fuel =>
      '(j, l) ← pvalue fuel l;
      match skip_ws l with
      | Rune [","%char] :: l => '(js, r) ← pelems fuel l; Some (j :: js, r)
      | Rune ["]"%char] :: r => Some ([j], r)
      | _ => None
      end
  end
with pmembers (fuel : nat) (l : list rune) : option (list (string * json) * list rune) :=
  match fuel with
  | O => None
  | S fuel =>
      match skip_ws l with
      | Rune [c] :: l =>
          if code c =? 34 then
            '(k, l) ← pstring (length l) l;
            match skip_ws l with
            | Rune [":"%char] :: l =>
                '(j, l) ← pvalue fuel l;
                match skip_ws l with
                | Rune [","%char] :: l => '(js, r) ← pmembers fuel l; Some ((str k, j) :: js, r)
                | Rune ["}"%char] :: r => Some ([(str k, j)], r)
                | _ => None
                end
            | _ => None
            end
          else None
      | _ => None
      end
  end.

(** [json.Unmarshal] to a value tree: one value, then only white space. *)
Definition json_parse (s : string) : option json :=
  let l := runes (chars s) in
  '(j, r) ← pvalue (length l) l;
  match skip_ws r with [] => Some j | _ => None end.

Example json_ex :
  let j := JObj [("id", JInt 7); ("note", JStr "a<b\"); ("postings", JArr [JInt (-5); JNull]);
                 ("ok", JBool true); ("none", JObj [])] in
  json_text (JArr [JInt 12; JStr "x&y"]) = str (chars "[12," ++ [quote] ++ chars "x\u0026y" ++ [quote] ++ chars "]")
  ∧ json_parse (json_text j) = Some j.
Proof. vm_compute. done. Qed.

(** ** Decoding inverts printing *)

Section json_induction.
Variable P : json → Prop.
Hypothesis (HNull : P JNull) (HBool : ∀ b, P (JBool b)) (HNum : ∀ l, P (JNum l))
  (HStr : ∀ s, P (JStr s)) (HArr : ∀ l, Forall P l → P (JArr l))
  (HObj : ∀ l, Forall (λ kx, P kx.2) l → P (JObj l)).

Definition json_ind' : ∀ j, P j :=
  fix F j :=
    match j with
    | JNull => HNull
    | JBool b => HBool b
    | JNum l => HNum l
    | JStr s => HStr s
    | JArr l => HArr l ((fix G l : Forall P l :=
                           match l with
                           | [] => List.Forall_nil _
                           | x :: l => @List.Forall_cons _ _ x l (F x) (G l)
                           end) l)
    | JObj l => HObj l ((fix G l : Forall (λ kx, P kx.2) l :=
                           match l with
                           | [] => List.Forall_nil _
                           | (k, x) :: l => @List.Forall_cons _ _ (k, x) l (F x) (G l)
                           end) l)
    end.
End json_induction.

(** What the program prints: integers and valid UTF-8. *)
Definition int_literal (l : list ascii) : bool :=
  let ds := match l with "-"%char :: l => l | _ => l end in
  forallb is_digit ds && no_leading_zero ds.

Fixpoint json_ok (j : json) : bool :=
  match j with
  | JNum l => int_literal l
  | JStr s => utf8_ok s
  | JArr l => forallb json_ok l
  | JObj l => forallb (λ '(k, x), utf8_ok k && json_ok x) l
  | _ => true
  end.

(** The fuel a value needs. *)
Definition needs (ns : list nat) : nat := foldr (λ n m, S (Nat.max n m)) O ns.
Fixpoint need (j : json) : nat :=
  match j with
  | JArr l => S (needs (map need l))
  | JObj l => S (needs (map (λ '(k, x), need x) l))
  | _ => 1
  end.

(** What may follow a value inside an array or an object, or the end. *)
Definition delim (r : list rune) : bool :=
  match r with
  | [] => true
  | Rune [c] :: _ => (code c =? 44) || (code c =? 93) || (code c =? 125)
  | _ => false
  end.

Lemma dec_go_head fuel n acc :
  0 < n < 2 ^ Z.of_nat fuel → ∃ c l, dec_go fuel n acc = c :: l ∧ c ≠ "0"%char.
Proof.
  revert n acc; induction fuel as [|fuel IH]; intros n acc Hn; simpl; [lia|].
  destruct (Z.ltb_spec n 10).
  - rewrite Z.mod_small by lia. eexists _, _. split; [done|].
    intros Hc. apply (f_equal digit_val) in Hc. rewrite digit_val_char in Hc by lia.
    change (digit_val "0") with 0 in Hc. lia.
  - apply IH. rewrite Nat2Z.inj_succ, Z.pow_succ_r in Hn by lia.
    split; [apply Z.div_str_pos; lia|apply Z.div_lt_upper_bound; lia].
Qed.

Lemma dec_int_literal n :
  0 ≤ n → forallb is_digit (dec n) = true ∧
  no_leading_zero (dec n) = true ∧
  (∀ l, dec n ≠ "-"%char :: l).
Proof.
  intros Hn. destruct (dec_spec n Hn) as (Hne&Hf&_). split; [|split].
  - clear Hne. induction Hf as [|c l Hc _ IH]; [done|]. simpl. by rewrite Hc.
  - destruct (decide (n = 0)) as [->|]; [done|].
    destruct (dec_go_head (S (Z.to_nat (Z.log2 n))) n []) as (c&l&Hc&?).
    { rewrite Nat2Z.inj_succ, Z2Nat.id by apply Z.log2_nonneg.
      pose proof (Z.log2_spec n). lia. }
    unfold dec. rewrite Hc. by destruct c as [[] [] [] [] [] [] [] []].
  - intros l Hl. rewrite Hl in Hf. by apply Forall_cons in Hf as [? _].
Qed.

Lemma int_literal_itoa z : int_literal (itoa z) = true.
Proof.
  unfold itoa, int_literal. destruct (Z.ltb_spec z 0).
  - destruct (dec_int_literal (- z)) as (->&->&_); [lia|done].
  - destruct (dec_int_literal z) as (H1&H2&H3); [done|].
    destruct (dec z) as [|c l]; [done|].
    destruct (decide (c = "-"%char)) as [->|Hc]; [by destruct (H3 l)|].
    destruct c as [[] [] [] [] [] [] [] []]; try done; by apply andb_true_intro.
Qed.

Lemma span_digits_app ds r :
  forallb is_digit ds = true → (∀ c r', r = Rune [c] :: r' → is_digit c = false) →
  span_digits (map (λ c, Rune [c]) ds ++ r) = (ds, r).
Proof.
  intros Hds Hr. induction ds as [|c ds IH]; simpl in *.
  - destruct r as [|[[|c [|]]|] r]; simpl; try done. by rewrite (Hr c r).
  - apply andb_prop in Hds as [-> Hds]. by rewrite IH.
Qed.

Lemma delim_not_digit r c r' : delim r = true → r = Rune [c] :: r' → is_digit c = false.
Proof. intros Hr ->. simpl in Hr. unfold is_digit. lia. Qed.

Lemma punsigned_digits ds r :
  forallb is_digit ds = true → no_leading_zero ds = true → delim r = true →
  punsigned (map (λ c, Rune [c]) ds ++ r) = Some (ds, r).
Proof.
  intros Hds Hz Hr. unfold punsigned.
  rewrite span_digits_app, Hz by eauto using delim_not_digit.
  destruct r as [|[[|c [|]]|] r]; simpl in Hr; try done; [simpl; by rewrite app_nil_r|].
  destruct c as [[] [] [] [] [] [] [] []]; try done; simpl; by rewrite app_nil_r.
Qed.

Lemma pnumber_literal l r :
  int_literal l = true → delim r = true →
  pnumber (map (λ c, Rune [c]) l ++ r) = Some (l, r).
Proof.
  intros Hl Hr. unfold int_literal in Hl. apply andb_prop in Hl as [Hd Hs].
  unfold pnumber. destruct l as [|c l]; [done|].
  destruct (decide (c = "-"%char)) as [->|Hc]; [simpl; by rewrite punsigned_digits|].
  destruct c as [[] [] [] [] [] [] [] []]; try done; by apply (punsigned_digits (_ :: l)).
Qed.

Abbreviation toks l := (map Rune l).

Lemma toks_app l1 l2 r : toks (l1 ++ l2) ++ r = toks l1 ++ toks l2 ++ r.
Proof. by rewrite map_app, app_assoc. Qed.

Lemma esc_length s : (length (runes (chars s)) ≤ length (esc s))%nat.
Proof.
  unfold esc. induction (runes (chars s)) as [|r rs IH]; [done|]. simpl.
  rewrite length_app. enough (1 ≤ length (esc_rune r))%nat by lia.
  destruct r as [[|c [|c1 b]]|c]; simpl; repeat case_match; simpl; lia.
Qed.

Lemma pstring_print_str s r :
  utf8_ok s = true →
  pstring (length (toks (esc s ++ one quote) ++ r)) (toks (esc s ++ one quote) ++ r)
  = Some (chars s, r).
Proof.
  intros Hs. rewrite toks_app. apply pstring_esc; [done|].
  pose proof (esc_length s). rewrite !length_app, !length_map. simpl. lia.
Qed.

(** No printed value starts with white space or closes a bracket. *)
Lemma print_head j r :
  json_ok j = true →
  skip_ws (toks (print j) ++ r) = toks (print j) ++ r ∧
  ∃ c l, toks (print j) ++ r = Rune [c] :: l ∧ code c ≠ 93 ∧ code c ≠ 125.
Proof.
  intros Hj. destruct j as [|[]|l|s|l|l]; cbn [print one print_str app map];
    try (split; [done|by eexists _, _]).
  simpl in Hj. destruct l as [|c l]; [done|]. simpl.
  destruct c as [[] [] [] [] [] [] [] []]; try done; split; try done; by eexists _, _.
Qed.

Lemma join_cons x y l : join (x :: y :: l) = x ++ one "," ++ join (y :: l).
Proof. done. Qed.

Lemma skip_one c r :
  is_ws c = false → skip_ws (toks (one c) ++ r) = Rune [c] :: r.
Proof. intros Hc. simpl. by rewrite Hc. Qed.

Lemma pelems_S fuel l j l' :
  pvalue fuel l = Some (j, l') →
  pelems (S fuel) l =
  match skip_ws l' with
  | Rune [","%char] :: l => '(js, r) ← pelems fuel l; Some (j :: js, r)
  | Rune ["]"%char] :: r => Some ([j], r)
  | _ => None
  end.
Proof. intros H. cbn [pelems]. by rewrite H. Qed.

Lemma pmembers_S fuel k l j l' :
  utf8_ok k = true → pvalue fuel l = Some (j, l') →
  pmembers (S fuel) (toks (print_str k) ++ toks (one ":") ++ l) =
  match skip_ws l' with
  | Rune [","%char] :: l => '(js, r) ← pmembers fuel l; Some ((k, j) :: js, r)
  | Rune ["}"%char] :: r => Some ([(k, j)], r)
  | _ => None
  end.
Proof.
  intros Hk H. cbn [pmembers]. unfold print_str.
  rewrite toks_app, skip_one by done. change (code quote =? 34) with true. cbn iota.
  rewrite pstring_print_str by done. cbn [mbind option_bind].
  rewrite skip_one by done. rewrite H. cbn [mbind option_bind]. by rewrite str_chars.
Qed.

Lemma pvalue_digit c l tl fuel :
  int_literal (c :: l) = true →
  pvalue (S fuel) (Rune [c] :: tl) = '(n, r) ← pnumber (Rune [c] :: tl); Some (JNum n, r).
Proof. intros Hc. by destruct c as [[] [] [] [] [] [] [] []]. Qed.

Lemma pvalue_quote fuel l :
  pvalue (S fuel) (toks (one quote) ++ l) =
  '(s, r) ← pstring (length l) l; Some (JStr (str s), r).
Proof. done. Qed.

(** The first step of [pvalue] on an opening bracket. *)
Lemma pvalue_open (c : ascii) fuel l :
  (c = "["%char ∨ c = "{"%char) → pvalue (S fuel) (toks (one c) ++ l) =
  if code c =? 91 then
    match skip_ws l with
    | Rune ["]"%char] :: r => Some (JArr [], r)
    | l2 => '(js, r) ← pelems fuel l2; Some (JArr js, r)
    end
  else
    match skip_ws l with
    | Rune ["}"%char] :: r => Some (JObj [], r)
    | l2 => '(js, r) ← pmembers fuel l2; Some (JObj js, r)
    end.
Proof. by intros [-> | ->]. Qed.

Section pvalue_print.
Let good (j : json) : Prop :=
  json_ok j = true → ∀ fuel r, (need j ≤ fuel)%nat → delim r = true →
  pvalue fuel (toks (print j) ++ r) = Some (j, r).

Lemma pelems_print js fuel r :
  js ≠ [] → Forall good js → forallb json_ok js = true →
  (needs (map need js) ≤ fuel)%nat →
  pelems fuel (toks (join (map print js)) ++ Rune ["]"%char] :: r) = Some (js, r).
Proof.
  intros Hne Hgood. revert fuel Hne. induction Hgood as [|j js Hj Hjs IH];
    intros fuel Hne Hok Hfuel; [done|].
  simpl in Hok. apply andb_prop in Hok as [Hok1 Hok2].
  simpl in Hfuel. destruct fuel as [|fuel]; [lia|].
  destruct js as [|j' js].
  - cbn [map join]. by rewrite (pelems_S _ _ j (Rune ["]"%char] :: r)) by (apply Hj; done || lia).
  - cbn [map]. rewrite join_cons, !toks_app. erewrite pelems_S by (apply Hj; done || lia).
    rewrite skip_one by done. by rewrite IH by (done || lia).
Qed.

Lemma pmembers_print (kjs : list (string * json)) fuel r :
  kjs ≠ [] → Forall (λ kj, good kj.2) kjs →
  forallb (λ '(k, x), utf8_ok k && json_ok x) kjs = true →
  (needs (map (λ '(k, x), need x) kjs) ≤ fuel)%nat →
  pmembers fuel (toks (join (map (λ '(k, x), print_str k ++ one ":" ++ print x) kjs))
                 ++ Rune ["}"%char] :: r) = Some (kjs, r).
Proof.
  intros Hne Hgood. revert fuel Hne. induction Hgood as [|[k j] kjs Hj Hjs IH];
    intros fuel Hne Hok Hfuel; [done|].
  simpl in Hok. apply andb_prop in Hok as [Hok1 Hok2].
  apply andb_prop in Hok1 as [Hk Hok1]. simpl in Hj.
  simpl in Hfuel. destruct fuel as [|fuel]; [lia|].
  destruct kjs as [|kj' kjs].
  - cbn [map join]. rewrite !toks_app.
    by rewrite (pmembers_S _ _ _ j (Rune ["}"%char] :: r)) by (done || apply Hj; done || lia).
  - cbn [map]. rewrite join_cons, !toks_app.
    erewrite pmembers_S by (done || apply Hj; done || lia).
    rewrite skip_one by done. by rewrite IH by (done || lia).
Qed.

(** After the opening bracket of a non-empty array or object. *)
Lemma print_head_elems j js r :
  json_ok j = true →
  ∃ c l, toks (join (map print (j :: js))) ++ r = Rune [c] :: l ∧
    is_ws c = false ∧ code c ≠ 93.
Proof.
  intros Hj. assert (∃ r', toks (join (map print (j :: js))) ++ r = toks (print j) ++ r') as [r' ->].
  { destruct js; cbn [map join]; [by exists r|]. rewrite toks_app. eauto. }
  destruct j as [|[]|l|s|l|l]; cbn [print one print_str app map]; try by eexists _, _.
  simpl in Hj. destruct l as [|c l]; [done|].
  destruct c as [[] [] [] [] [] [] [] []]; try done; by eexists _, _.
Qed.

Lemma pvalue_print j : good j.
Proof.
  induction j as [|b|l|s|l IH|l IH] using json_ind'; intros Hok fuel r Hfuel Hr;
    (destruct fuel as [|fuel]; [simpl in Hfuel; lia|]).
  - done.
  - by destruct b.
  - cbn [print]. rewrite map_map. pose proof (pnumber_literal l r Hok Hr) as Hn.
    destruct l as [|c l]; [done|]. cbn [map app] in *.
    generalize dependent (map (λ c, Rune [c]) l ++ r). intros tl Hn.
    by rewrite (pvalue_digit c l), Hn.
  - cbn [print]. unfold print_str. rewrite toks_app, pvalue_quote.
    rewrite pstring_print_str by done. cbn. by rewrite str_chars.
  - cbn [print]. rewrite !toks_app. simpl in Hok, Hfuel.
    destruct l as [|j l]; [done|].
    rewrite pvalue_open by auto. change (code "[" =? 91) with true. cbn iota.
    pose proof (pelems_print (j :: l) fuel r ltac:(done) IH Hok ltac:(simpl in *; lia)) as Hp.
    simpl in Hok. apply andb_prop in Hok as [Hj _].
    destruct (print_head_elems j l (Rune ["]"%char] :: r) Hj) as (c&l'&Heq&Hws&Hc).
    change (toks (one "]") ++ r) with (Rune ["]"%char] :: r). rewrite Heq in *.
    simpl skip_ws. rewrite Hws.
    assert (c ≠ "]"%char) by by intros ->.
    destruct c as [[] [] [] [] [] [] [] []]; try done; by rewrite Hp.
  - cbn [print]. rewrite !toks_app. simpl in Hok, Hfuel.
    destruct l as [|[k j] l]; [done|].
    rewrite pvalue_open by auto. change (code "{" =? 91) with false. cbn iota.
    pose proof (pmembers_print ((k, j) :: l) fuel r ltac:(done) IH Hok ltac:(simpl in *; lia)) as Hp.
    change (toks (one "}") ++ r) with (Rune ["}"%char] :: r).
    assert (∃ l', toks (join (map (λ '(k, x), print_str k ++ one ":" ++ print x) ((k, j) :: l)))
                  ++ Rune ["}"%char] :: r = Rune [quote] :: l') as [l' Heq].
    { destruct l; cbn [map join]; unfold print_str; cbn [one app map]; eauto. }
    rewrite Heq in *.
    transitivity ('(js, r) ← pmembers fuel (Rune [quote] :: l'); Some (JObj js, r));
      [done|by rewrite Hp].
Qed.
End pvalue_print.

(** Enough fuel: one unit per rune. *)
Lemma needs_le (A : Type) (f : A → nat) (p : A → list (list ascii)) l :
  Forall (λ x, (f x ≤ length (p x))%nat) l →
  (needs (map f l) ≤ S (length (join (map p l))))%nat.
Proof.
  induction 1 as [|x l Hx _ IH]; [simpl; lia|].
  destruct l as [|y l]; [simpl in *; lia|].
  cbn [map]. rewrite join_cons, !length_app. cbn [map needs foldr] in *. simpl (length (one _)).
  unfold needs in *. cbn [foldr] in *. lia.
Qed.

Lemma need_le j : json_ok j = true → (need j ≤ length (print j))%nat.
Proof.
  induction j as [|[]|l|s|l IH|l IH] using json_ind'; intros Hok; cbn [need print];
    [simpl; lia..| |unfold print_str; simpl; lia| |].
  - simpl in Hok. destruct l; [done|]. simpl. lia.
  - rewrite !length_app. simpl (length (one _)). simpl in Hok.
    enough (needs (map need l) ≤ S (length (join (map print l))))%nat by lia.
    apply needs_le. rewrite Forall_forall in *. intros x Hx. apply IH; [done|].
    rewrite forallb_forall in Hok. apply Hok. by apply list_elem_of_In.
  - rewrite !length_app. simpl (length (one _)). simpl in Hok.
    set (p := λ '(k, x), print_str k ++ one ":" ++ print x).
    enough (needs (map (λ '(k, x), need x) l) ≤ S (length (join (map p l))))%nat by lia.
    apply needs_le. rewrite Forall_forall in *. intros [k x] Hx.
    rewrite forallb_forall in Hok. apply list_elem_of_In in Hx as Hin.
    specialize (Hok _ Hin). apply andb_prop in Hok as [_ Hok].
    specialize (IH _ Hx Hok). simpl in IH.
    change (need x ≤ length (print_str k ++ one ":" ++ print x))%nat.
    rewrite !length_app. lia.
Qed.

Lemma lit_valid l : forallb valid1 l = true → Forall (λ bs, valid_rune bs = true) (map (λ c, [c]) l).
Proof.
  induction l as [|c l IH]; simpl; [constructor|]. intros [??]%andb_prop. constructor; auto.
Qed.

Lemma print_str_valid s :
  utf8_ok s = true → Forall (λ bs, valid_rune bs = true) (print_str s).
Proof.
  intros Hs. unfold print_str, esc. rewrite !Forall_app. repeat split;
    [by repeat constructor| |by repeat constructor].
  destruct (utf8_ok_runes s Hs) as (rs&->&Hv&_).
  induction Hv as [|bs rs Hbs _ IH]; [constructor|].
  cbn [map concat]. apply Forall_app. split; [|done].
  apply Forall_forall. intros b Hb. eapply forallb_forall; [|by apply list_elem_of_In].
  apply esc_rune_valid. by intros ? [= <-].
Qed.

Lemma join_valid ls :
  Forall (Forall (λ bs, valid_rune bs = true)) ls → Forall (λ bs, valid_rune bs = true) (join ls).
Proof.
  induction 1 as [|x [|y ls] Hx _ IH]; [constructor|done|].
  rewrite join_cons, !Forall_app. repeat split; [done|by repeat constructor|done].
Qed.

Lemma int_literal_ascii l : int_literal l = true → forallb valid1 l = true.
Proof.
  assert (Hd : ∀ l, forallb is_digit l = true → forallb valid1 l = true).
  { intros l'. rewrite !forallb_forall. intros H x Hx. specialize (H x Hx).
    unfold is_digit, valid1 in *. lia. }
  unfold int_literal. intros [H _]%andb_prop. destruct l as [|c l]; [done|].
  destruct (decide (c = "-"%char)) as [->|]; [simpl; auto|].
  apply Hd. by destruct c as [[] [] [] [] [] [] [] []].
Qed.

Lemma print_valid j : json_ok j = true → Forall (λ bs, valid_rune bs = true) (print j).
Proof.
  induction j as [|[]|l|s|l IH|l IH] using json_ind'; intros Hok; cbn [print];
    [by repeat constructor..| |by apply print_str_valid| |].
  - by apply lit_valid, int_literal_ascii.
  - rewrite !Forall_app. repeat split; [by repeat constructor| |by repeat constructor].
    apply join_valid, Forall_map. simpl in Hok. rewrite forallb_forall in Hok.
    rewrite Forall_forall in *. intros x Hx. apply IH; [done|]. by apply Hok, list_elem_of_In.
  - rewrite !Forall_app. repeat split; [by repeat constructor| |by repeat constructor].
    apply join_valid, Forall_map. simpl in Hok. rewrite forallb_forall in Hok.
    rewrite Forall_forall in *. intros [k x] Hx. apply list_elem_of_In in Hx as Hin.
    specialize (Hok _ Hin). apply andb_prop in Hok as [Hk Hok].
    rewrite !Forall_app. repeat split; [by apply print_str_valid|by repeat constructor|].
    by apply (IH (k, x)).
Qed.

Theorem json_parse_text j : json_ok j = true → json_parse (json_text j) = Some j.
Proof.
  intros Hok. unfold json_parse, json_text. rewrite chars_str, runes_concat by by apply print_valid.
  rewrite length_map. rewrite <- (app_nil_r (toks (print j))).
  rewrite pvalue_print; [done|done|by apply need_le|done].
Qed.
