(* ===== verification/Store.v ===== *)
(** * The database: schema and statements

    The tables of [migrations/*.up.sql] with the row types of
    [internal/repo/sqlc/models.go], and one definition per statement of
    [internal/repo/sqlc/*.sql.go].  A table is the list of its rows in insertion
    order.  Identifiers come from sequences, which give a value out before the
    constraints of the row are checked, and never take one back.  Timestamps are
    microseconds since the epoch, dates are day numbers; [pg_time] is what a
    scanned timestamp is in Go.

    Parameters of the deployment are the class [Env]: the server's local zone, the
    session time zone of PostgreSQL, the driver's encoding of an instant as a
    [timestamptz], and SHA-256. *)
From S2P Require Import Prelude GoTime Effects Json.
Local Open Scope Z_scope.
Local Open Scope ledger_scope.

Class Env := {
  (* offset of time.Local at an instant (nanoseconds) *)
  Local_offset : Z → Z;
  (* offset of the session TimeZone at an instant (microseconds) *)
  Session_offset : Z → Z;
  (* pgx: nanoseconds to timestamptz *)
  enc_ts : Z → Z;
  (* hex(sha256(s)) *)
  sha256_hex : string → string
}.

(** What the program relies on: PostgreSQL stores microseconds exactly, the
    encoding is monotone, and zones are whole minutes within a day. *)
Class EnvOK `{Env} : Prop := {
  enc_ts_exact : ∀ u, enc_ts (1000 * u) = u;
  enc_ts_mono : ∀ a b, a ≤ b → enc_ts a ≤ enc_ts b;
  Local_offset_ok : ∀ t, zone_ok (Local_offset t)
}.

(** Two texts do not collide under SHA-256. *)
Definition no_collision `{Env} (a b : string) : Prop :=
  sha256_hex a = sha256_hex b → a = b.

(** A server and a database in UTC, a driver that truncates. *)
Definition utc_env : Env := {|
  Local_offset _ := 0; Session_offset _ := 0; enc_ts n := n `div` 1000;
  sha256_hex s := s
|}.

Lemma utc_env_ok : @EnvOK utc_env.
Proof.
  split; simpl.
  - intros u. rewrite Z.mul_comm. by apply Z.div_mul.
  - intros. apply Z.div_le_mono; lia.
  - done.
Qed.

Definition pg_time `{Env} (u : Z) : Time := mkTime (1000 * u) (Local_offset (1000 * u)).

(** ** Rows *)

Record User := mkUser {
  u_ID : Z; u_Email : string; u_PasswordHash : string; u_CreatedAt : Z }.

Record Account := mkAccount {
  a_ID : Z; a_UserID : Z; a_Name : string; a_Currency : string;
  a_IsActive : bool; a_CreatedAt : Z; a_Kind : string }.

Record Transaction := mkTransaction {
  t_ID : Z; t_UserID : Z; t_Currency : string; t_OccurredAt : Z;
  t_Note : option string; t_CreatedAt : Z; t_CategoryID : option Z;
  t_ReversalOf : option Z }.

Record Posting := mkPosting {
  p_ID : Z; p_TransactionID : Z; p_AccountID : Z; p_AmountMinor : Z; p_CreatedAt : Z }.

Record IdempotencyKey := mkIdempotencyKey {
  i_UserID : Z; i_Key : string; i_RequestHash : string; i_Status : string;
  i_ResponseJson : option string; i_CreatedAt : Z }.

Record BalanceSnapshot := mkBalanceSnapshot {
  s_ID : Z; s_AccountID : Z; s_AsOfDate : Z; s_BalanceMinor : Z; s_CreatedAt : Z }.

Record Export := mkExport {
  e_ID : Z; e_UserID : Z; e_Month : Z; e_Status : string; e_FilePath : option string;
  e_CreatedAt : Z; e_UpdatedAt : Z }.

Record Outbox := mkOutbox {
  o_ID : Z; o_EventType : string; o_Payload : json; o_CreatedAt : Z;
  o_ProcessedAt : option Z }.

Record Tables := mkTables {
  users : list User; accounts : list Account; transactions : list Transaction;
  postings : list Posting; idempotency_keys : list IdempotencyKey;
  balance_snapshots : list BalanceSnapshot; exports : list Export; outbox : list Outbox }.

Definition empty_tables : Tables := mkTables [] [] [] [] [] [] [] [].

Definition set_users (f : list User → list User) (t : Tables) : Tables :=
  let 'mkTables u a x p i s e o := t in mkTables (f u) a x p i s e o.
Definition set_accounts (f : list Account → list Account) (t : Tables) : Tables :=
  let 'mkTables u a x p i s e o := t in mkTables u (f a) x p i s e o.
Definition set_transactions (f : list Transaction → list Transaction) (t : Tables) : Tables :=
  let 'mkTables u a x p i s e o := t in mkTables u a (f x) p i s e o.
Definition set_postings (f : list Posting → list Posting) (t : Tables) : Tables :=
  let 'mkTables u a x p i s e o := t in mkTables u a x (f p) i s e o.
Definition set_idem (f : list IdempotencyKey → list IdempotencyKey) (t : Tables) : Tables :=
  let 'mkTables u a x p i s e o := t in mkTables u a x p (f i) s e o.
Definition set_snapshots (f : list BalanceSnapshot → list BalanceSnapshot) (t : Tables) : Tables :=
  let 'mkTables u a x p i s e o := t in mkTables u a x p i (f s) e o.
Definition set_exports (f : list Export → list Export) (t : Tables) : Tables :=
  let 'mkTables u a x p i s e o := t in mkTables u a x p i s (f e) o.
Definition set_outbox (f : list Outbox → list Outbox) (t : Tables) : Tables :=
  let 'mkTables u a x p i s e o := t in mkTables u a x p i s e (f o).

(** The [BIGSERIAL] sequences: the next value each gives out. *)
Inductive serial :=
  | SUsers | SAccounts | STransactions | SPostings | SSnapshots | SExports | SOutbox.
#[global] Instance serial_eq_dec : EqDecision serial.
Proof. solve_decision. Defined.

Definition Seqs : Type := serial → Z.
Definition bump (s : serial) (q : Seqs) : Seqs :=
  λ s', if decide (s' = s) then q s + 1 else q s'.

(** ** A session inside a database transaction

    The tables as the transaction sees them, the sequences, the transaction's
    timestamp (PostgreSQL's [now()]), and the transaction ids queued for the
    deferred constraint trigger [postings_balanced]. *)
Record Conn := mkConn {
  c_tab : Tables; c_seq : Seqs; c_now : Z; c_queue : list Z }.

Definition stmt (A : Type) : Type := M Conn A.

Definition on_tab (f : Tables → Tables) (c : Conn) : Conn :=
  mkConn (f (c_tab c)) (c_seq c) (c_now c) (c_queue c).

Definition read {A} (f : Conn → result A) : stmt A := λ c, (f c, c).
Definition write (f : Tables → Tables) : stmt () := λ c, (Ok (), on_tab f c).
Definition get_now : stmt Z := λ c, (Ok (c_now c), c).
Definition enqueue_check (tx : Z) : stmt () := λ c,
  (Ok (), mkConn (c_tab c) (c_seq c) (c_now c) (c_queue c ++ [tx])).

Definition nextval (s : serial) : stmt Z := λ c,
  if c_seq c s <=? max_int64
  then (Ok (c_seq c s), mkConn (c_tab c) (bump s (c_seq c)) (c_now c) (c_queue c))
  else (Err (PgError sequence_limit), c).

(** A constraint: the statement fails with the SQLSTATE unless it holds. *)
Definition constraint (sqlstate : string) (ok : Tables → bool) : stmt () := λ c,
  if ok (c_tab c) then (Ok (), c) else (Err (PgError sqlstate), c).

(** A text parameter: valid UTF-8 without NUL, or the statement fails before it
    does anything ([character_not_in_repertoire]). *)
Definition pg_text (s : string) : bool :=
  utf8_ok s && forallb (λ c, negb (code c =? 0)) (chars s).

Definition text_param (s : string) : stmt () :=
  constraint "22021" (λ _, pg_text s).

Definition one_row {A} (o : option A) : result A :=
  match o with Some a => Ok a | None => Err ErrNoRows end.

(** [SUM(..)::bigint] and the assignment of a [SUM] to a [BIGINT]: exact, and an
    error when out of range. *)
Definition as_bigint (z : Z) : result Z :=
  if decide (int64 z) then Ok z else Err (PgError numeric_out_of_range).

Definition has_user (uid : Z) (t : Tables) : bool :=
  existsb (λ u, u_ID u =? uid) (users t).
Definition has_account (id : Z) (t : Tables) : bool :=
  existsb (λ a, a_ID a =? id) (accounts t).
Definition has_transaction (id : Z) (t : Tables) : bool :=
  existsb (λ x, t_ID x =? id) (transactions t).
