(* ===== verification/Queries.v ===== *)
(** * The statements of [internal/repo/sqlc]

    One definition per generated query method, from its SQL text, with the
    constraints of [migrations/*.up.sql] it can violate. *)
From S2P Require Import Prelude GoTime Effects Json Store.
Local Open Scope Z_scope.
Local Open Scope ledger_scope.

Section queries.
Context `{Env}.

(** ** users.sql *)

(** INSERT INTO users: [email] is UNIQUE. *)
Definition CreateUser (email hash : string) : stmt User :=
  text_param email ;;;
  let! id := nextval SUsers in
  let! now := get_now in
  constraint unique_violation
    (λ t, negb (existsb (λ u, (u_ID u =? id) || bool_decide (u_Email u = email)) (users t))) ;;;
  let u := mkUser id email hash now in
  write (set_users (λ l, l ++ [u])) ;;; ret u.

Definition GetUserByEmail (email : string) : stmt User :=
  text_param email ;;;
  read (λ c, one_row (find (λ u, bool_decide (u_Email u = email)) (users (c_tab c)))).

Definition GetUserByID (id : Z) : stmt User :=
  read (λ c, one_row (find (λ u, u_ID u =? id) (users (c_tab c)))).

(** ** accounts.sql *)

(** The constraints of the accounts table: primary key, [UNIQUE (user_id, name)],
    one external account per user, [user_id REFERENCES users]. *)
Definition account_unique (a : Account) (t : Tables) : bool :=
  negb (existsb (λ b, (a_ID b =? a_ID a)
    || (a_UserID b =? a_UserID a) && bool_decide (a_Name b = a_Name a)
    || (a_UserID b =? a_UserID a) && bool_decide (a_Kind b = "external")
       && bool_decide (a_Kind a = "external")) (accounts t)).

Definition insert_account (uid : Z) (name currency kind : string) : stmt Account :=
  text_param name ;;;
  text_param currency ;;;
  let! id := nextval SAccounts in
  let! now := get_now in
  let a := mkAccount id uid name currency true now kind in
  constraint unique_violation (account_unique a) ;;;
  constraint foreign_key_violation (has_user uid) ;;;
  write (set_accounts (λ l, l ++ [a])) ;;; ret a.

Definition CreateAccount (uid : Z) (name currency : string) : stmt Account :=
  insert_account uid name currency "normal".

Definition CreateExternalAccount (uid : Z) (currency : string) : stmt Account :=
  insert_account uid "External" currency "external".

Definition DeactivateAccount (id : Z) : stmt () :=
  write (set_accounts (map (λ a,
    if a_ID a =? id
    then mkAccount (a_ID a) (a_UserID a) (a_Name a) (a_Currency a) false (a_CreatedAt a) (a_Kind a)
    else a))).

Definition GetAccount (id : Z) : stmt Account :=
  read (λ c, one_row (find (λ a, a_ID a =? id) (accounts (c_tab c)))).

Definition GetExternalAccount (uid : Z) : stmt Account :=
  read (λ c, one_row (find (λ a, (a_UserID a =? uid) && bool_decide (a_Kind a = "external"))
                           (accounts (c_tab c)))).

(** LIMIT and OFFSET: a negative count is an error. *)
Definition limit_offset {A} (limit offset : Z) (l : list A) : result (list A) :=
  if limit <? 0 then Err (PgError "2201W")
  else if offset <? 0 then Err (PgError "2201X")
  else Ok (take (Z.to_nat limit) (drop (Z.to_nat offset) l)).

Definition ListAccountsByUser (uid limit offset : Z) : stmt (list Account) :=
  read (λ c, limit_offset limit offset
    (merge_sort (desc a_CreatedAt)
       (List.filter (λ a, a_UserID a =? uid) (accounts (c_tab c))))).

(** ** transactions.sql *)

(** [reversal_of] is UNIQUE (NULLs do not conflict) and references a transaction;
    the category table stays empty: no statement writes it. *)
Definition CreateTransactionHeader (uid : Z) (currency : string) (category : option Z)
    (occurred : Time) (note : option string) (reversal_of : option Z) : stmt Transaction :=
  text_param currency ;;;
  text_param (default "" note) ;;;
  let! id := nextval STransactions in
  let! now := get_now in
  let x := mkTransaction id uid currency (enc_ts (t_ns occurred)) note now category reversal_of in
  constraint unique_violation (λ t,
    negb (existsb (λ y, (t_ID y =? id)
      || match t_ReversalOf y, reversal_of with
         | Some a, Some b => a =? b
         | _, _ => false
         end) (transactions t))) ;;;
  constraint foreign_key_violation (λ t,
    has_user uid t && bool_decide (category = None)
    && match reversal_of with Some r => has_transaction r t | None => true end) ;;;
  write (set_transactions (λ l, l ++ [x])) ;;; ret x.

(** CHECK (amount_minor <> 0), the two references, and the deferred trigger. *)
Definition CreatePosting (tx account amount : Z) : stmt Posting :=
  let! id := nextval SPostings in
  let! now := get_now in
  let p := mkPosting id tx account amount now in
  constraint check_violation (λ _, negb (amount =? 0)) ;;;
  constraint unique_violation (λ t, negb (existsb (λ q, p_ID q =? id) (postings t))) ;;;
  constraint foreign_key_violation (λ t, has_transaction tx t && has_account account t) ;;;
  write (set_postings (λ l, l ++ [p])) ;;;
  enqueue_check tx ;;; ret p.

Definition GetTransactionForUser (id uid : Z) : stmt Transaction :=
  read (λ c, one_row (find (λ x, (t_ID x =? id) && (t_UserID x =? uid)) (transactions (c_tab c)))).

Definition ListPostingsByTransaction (tx : Z) : stmt (list Posting) :=
  read (λ c, Ok (merge_sort (asc p_ID)
    (List.filter (λ p, p_TransactionID p =? tx) (postings (c_tab c))))).

(** JOIN transactions t ON t.id = p.transaction_id ([id] is the primary key). *)
Definition join_tx (t : Tables) : list (Posting * Transaction) :=
  omap (λ p, (p,.) <$> find (λ x, t_ID x =? p_TransactionID p) (transactions t)) (postings t).

Definition entry_ge (a b : Posting * Transaction) : Prop :=
  t_OccurredAt b.2 < t_OccurredAt a.2 ∨
  t_OccurredAt b.2 = t_OccurredAt a.2 ∧ p_ID b.1 ≤ p_ID a.1.

#[global] Instance entry_ge_dec : RelDecision entry_ge.
Proof. intros a b. unfold entry_ge. apply _. Defined.

(** (t.occurred_at, p.id) < (cursor, id), newest first. *)
Definition ListAccountEntries (account : Z) (cursorT : Time) (cursorID limit : Z)
    : stmt (list (Posting * Transaction)) :=
  read (λ c, limit_offset limit 0
    (merge_sort entry_ge
      (List.filter (λ '(p, x), (p_AccountID p =? account) &&
         ((t_OccurredAt x <? enc_ts (t_ns cursorT)) ||
          (t_OccurredAt x =? enc_ts (t_ns cursorT)) && (p_ID p <? cursorID)))
        (join_tx (c_tab c))))).

(** ** idempotency.sql *)

Definition idem_match (uid : Z) (key : string) (i : IdempotencyKey) : bool :=
  (i_UserID i =? uid) && bool_decide (i_Key i = key).

(** INSERT .. ON CONFLICT DO NOTHING RETURNING: no row when the key exists. *)
Definition InsertIdempotencyKey (uid : Z) (key hash : string) : stmt IdempotencyKey :=
  text_param key ;;;
  let! now := get_now in
  let! exists_ := read (λ c, Ok (existsb (idem_match uid key) (idempotency_keys (c_tab c)))) in
  if (exists_ : bool) then fail ErrNoRows else
  constraint foreign_key_violation (has_user uid) ;;;
  let i := mkIdempotencyKey uid key hash "started" None now in
  write (set_idem (λ l, l ++ [i])) ;;; ret i.

Definition GetIdempotency (uid : Z) (key : string) : stmt IdempotencyKey :=
  text_param key ;;;
  read (λ c, one_row (find (idem_match uid key) (idempotency_keys (c_tab c)))).

Definition mark_succeeded (resp : string) (i : IdempotencyKey) : IdempotencyKey :=
  mkIdempotencyKey (i_UserID i) (i_Key i) (i_RequestHash i) "succeeded" (Some resp) (i_CreatedAt i).

Definition MarkIdempotencySuccess (uid : Z) (key hash resp : string) : stmt () :=
  write (set_idem (map (λ i,
    if idem_match uid key i && bool_decide (i_RequestHash i = hash)
    then mark_succeeded resp i else i))).

(** ** outbox.sql *)

Definition CreateOutboxEvent (event_type : string) (payload : json) : stmt Outbox :=
  let! id := nextval SOutbox in
  let! now := get_now in
  let o := mkOutbox id event_type payload now None in
  constraint unique_violation (λ t, negb (existsb (λ p, o_ID p =? id) (outbox t))) ;;;
  write (set_outbox (λ l, l ++ [o])) ;;; ret o.

(** ** balance_snapshots.sql and workers.sql *)

Definition sum_amounts (f : Posting → bool) (t : Tables) : Z :=
  sumZ (map p_AmountMinor (List.filter f (postings t))).

Definition SumPostingsSince (account : Z) (since : Time) : stmt Z :=
  read (λ c, as_bigint (sum_amounts
    (λ p, (p_AccountID p =? account) && (enc_ts (t_ns since) <? p_CreatedAt p)) (c_tab c))).

Definition SumPostingsUpTo (account : Z) (cutoff : Time) : stmt Z :=
  read (λ c, as_bigint (sum_amounts
    (λ p, (p_AccountID p =? account) && (p_CreatedAt p <=? enc_ts (t_ns cutoff))) (c_tab c))).

(** A Go time as a DATE: its civil day. *)
Definition pg_date (t : Time) : Z := days_from_civil (Year t) (Month t) (Day t).

Definition GetLatestSnapshot (account : Z) : stmt BalanceSnapshot :=
  read (λ c, one_row (head (merge_sort (desc s_AsOfDate)
    (List.filter (λ s, s_AccountID s =? account) (balance_snapshots (c_tab c)))))).

Definition snapshot_match (account date : Z) (s : BalanceSnapshot) : bool :=
  (s_AccountID s =? account) && (s_AsOfDate s =? date).

Definition GetSnapshotOnDate (account : Z) (date : Time) : stmt BalanceSnapshot :=
  read (λ c, one_row (find (snapshot_match account (pg_date date)) (balance_snapshots (c_tab c)))).

(** INSERT .. ON CONFLICT (account_id, as_of_date) DO UPDATE SET balance_minor. *)
Definition UpsertBalanceSnapshot (account : Z) (date : Time) (balance : Z) : stmt () :=
  let! id := nextval SSnapshots in
  let! now := get_now in
  let! exists_ := read (λ c, Ok (existsb (snapshot_match account (pg_date date))
                                   (balance_snapshots (c_tab c)))) in
  if (exists_ : bool) then
    write (set_snapshots (map (λ s,
      if snapshot_match account (pg_date date) s
      then mkBalanceSnapshot (s_ID s) (s_AccountID s) (s_AsOfDate s) balance (s_CreatedAt s)
      else s)))
  else
    constraint unique_violation
      (λ t, negb (existsb (λ s, s_ID s =? id) (balance_snapshots t))) ;;;
    constraint foreign_key_violation (has_account account) ;;;
    write (set_snapshots (λ l, l ++ [mkBalanceSnapshot id account (pg_date date) balance now])).

Definition ListAllAccountIDs : stmt (list Z) :=
  read (λ c, Ok (merge_sort (asc id) (map a_ID (List.filter a_IsActive (accounts (c_tab c)))))).

(** ** summary.sql *)

(** The month of a timestamp in the session time zone: two timestamps have the
    same [date_trunc('month', ..)] when their months are equal. *)
Definition month_of_ts (u : Z) : Z * Z := (civil (mkTime (1000 * u) (Session_offset u))).1.

Record MonthlySummaryRow := mkSummaryRow { r_Inflow : Z; r_Outflow : Z; r_Net : Z }.

Definition month_amounts (account : Z) (month : Time) (t : Tables) : list Z :=
  map (λ px, p_AmountMinor px.1)
    (List.filter (λ '(p, x), (p_AccountID p =? account) &&
        bool_decide (month_of_ts (t_OccurredAt x) = month_of_ts (enc_ts (t_ns month))))
      (join_tx t)).

(** [-p.amount_minor] is a BIGINT: negating the least one is an error. *)
Definition GetMonthlySummary (account : Z) (month : Time) : stmt MonthlySummaryRow :=
  read (λ c,
    let l := month_amounts account month (c_tab c) in
    if existsb (λ z, z =? min_int64) l then Err (PgError numeric_out_of_range) else
    match as_bigint (sumZ (map (λ z, if 0 <? z then z else 0) l)),
          as_bigint (sumZ (map (λ z, if z <? 0 then - z else 0) l)), as_bigint (sumZ l) with
    | Ok i, Ok o, Ok n => Ok (mkSummaryRow i o n)
    | _, _, _ => Err (PgError numeric_out_of_range)
    end).

(** ** exports.sql *)

Definition CreateExport (uid : Z) (month : Time) : stmt Export :=
  let! id := nextval SExports in
  let! now := get_now in
  let e := mkExport id uid (pg_date month) "pending" None now now in
  constraint unique_violation (λ t, negb (existsb (λ x, e_ID x =? id) (exports t))) ;;;
  constraint foreign_key_violation (has_user uid) ;;;
  write (set_exports (λ l, l ++ [e])) ;;; ret e.

Definition GetExportByID (id : Z) : stmt Export :=
  read (λ c, one_row (find (λ e, e_ID e =? id) (exports (c_tab c)))).

Definition UpdateExportStatus (id : Z) (status : string) (path : option string) : stmt () :=
  let! now := get_now in
  write (set_exports (map (λ e,
    if e_ID e =? id
    then mkExport (e_ID e) (e_UserID e) (e_Month e) status path (e_CreatedAt e) now else e))).

(** ORDER BY t.occurred_at, p.id. *)
Definition entry_le (a b : Posting * Transaction * Account) : Prop :=
  t_OccurredAt a.1.2 < t_OccurredAt b.1.2 ∨
  t_OccurredAt a.1.2 = t_OccurredAt b.1.2 ∧ p_ID a.1.1 ≤ p_ID b.1.1.

#[global] Instance entry_le_dec : RelDecision entry_le.
Proof. intros a b. unfold entry_le. apply _. Defined.

Definition ListPostingsForMonth (uid : Z) (month : Time)
    : stmt (list (Posting * Transaction * Account)) :=
  read (λ c, Ok (merge_sort entry_le
    (List.filter (λ '(p, x, a), (t_UserID x =? uid) && bool_decide (a_Kind a = "normal") &&
        bool_decide (month_of_ts (t_OccurredAt x) = month_of_ts (enc_ts (t_ns month))))
      (omap (λ px, (px,.) <$> find (λ a, a_ID a =? p_AccountID px.1) (accounts (c_tab c)))
        (join_tx (c_tab c)))))).

(** ** The deferred constraint trigger *)

(** [check_transaction_balanced]: the exact sum, as a BIGINT, must be zero. *)
Definition check_transaction_balanced (tx : Z) (t : Tables) : result () :=
  match as_bigint (sum_amounts (λ p, p_TransactionID p =? tx) t) with
  | Err e => Err e
  | Ok total => if total =? 0 then Ok () else Err (PgError raise_exception)
  end.

Fixpoint check_queue (q : list Z) (t : Tables) : result () :=
  match q with
  | [] => Ok ()
  | tx :: q => match check_transaction_balanced tx t with
               | Ok () => check_queue q t
               | Err e => Err e
               end
  end.

End queries.
