(* ===== verification/World.v ===== *)
(** * The world a service runs in: database, Redis, faults

    A service call sees PostgreSQL (tables and sequences), Redis, and the faults
    of the run: each request to a server may be lost before it is executed, or
    executed with its reply lost.  A theorem about all fault lists covers every
    point at which a crash, a timeout or a lost connection can happen.

    Redis is the class [Redis], with the documented behaviour of GET, SET (with
    and without an expiry) and DEL; a [gmap] instance shows that it can hold. *)
From S2P Require Import Prelude GoTime Effects Json Store Queries.
Local Open Scope Z_scope.
Local Open Scope ledger_scope.

(** ** Redis *)

(** Times are nanoseconds; [ttl] is [None] for a key without expiry. *)
Class Redis (R : Type) := {
  r_get : R → Z → string → option string;
  r_set : R → Z → string → string → option Z → R;
  r_del : R → string → R
}.

Class RedisOK (R : Type) `{!Redis R} : Prop := {
  r_get_set : ∀ r t t' k v ttl,
    match ttl with Some d => t' < t + d | None => True end →
    r_get (r_set r t k v ttl) t' k = Some v;
  r_get_set_ne : ∀ r t t' k k' v ttl, k ≠ k' →
    r_get (r_set r t k v ttl) t' k' = r_get r t' k';
  r_get_del : ∀ r t k, r_get (r_del r k) t k = None;
  r_get_del_ne : ∀ r t k k', k ≠ k' → r_get (r_del r k) t k' = r_get r t k';
  r_get_expired : ∀ r t t' k, t ≤ t' → r_get r t k = None → r_get r t' k = None;
  r_get_later : ∀ r t t' k v, t ≤ t' → r_get r t' k = Some v → r_get r t k = Some v
}.

Definition map_redis : Type := gmap string (string * option Z).

#[global] Instance map_redis_ops : Redis map_redis := {|
  r_get r t k := match (r : gmap string (string * option Z)) !! k with
                 | Some (v, Some e) => if t <? e then Some v else None
                 | Some (v, None) => Some v
                 | None => None
                 end;
  r_set r t k v ttl := <[k := (v, (λ d, t + d) <$> ttl)]> (r : gmap string (string * option Z));
  r_del r k := delete k (r : gmap string (string * option Z))
|}.

#[global] Instance map_redis_ok : RedisOK map_redis.
Proof.
  split; simpl; unfold map_redis; intros.
  - rewrite lookup_insert_eq. destruct ttl; simpl; [|done].
    by replace (_ <? _) with true by lia.
  - by rewrite lookup_insert_ne.
  - by rewrite lookup_delete_eq.
  - by rewrite lookup_delete_ne.
  - destruct (r !! k) as [[v [e|]]|]; try done.
    destruct (Z.ltb_spec t e); [done|]. by replace (_ <? _) with false by lia.
  - destruct (r !! k) as [[v' [e|]]|]; try done.
    destruct (Z.ltb_spec t' e); [|done]. by replace (_ <? _) with true by lia.
Qed.

(** ** Faults and the world *)

Inductive fault := NoFault | Lost | ReplyLost.

Definition pop (fs : list fault) : fault * list fault :=
  match fs with [] => (NoFault, []) | f :: fs => (f, fs) end.

Record World (R : Type) := mkWorld {
  w_tab : Tables; w_seq : Seqs; w_redis : R; w_faults : list fault }.
Arguments mkWorld {R}. Arguments w_tab {R}. Arguments w_seq {R}.
Arguments w_redis {R}. Arguments w_faults {R}.

(** ** Statements inside a transaction *)

Definition TxS : Type := Conn * list fault.

Definition exec {A} (s : stmt A) : M TxS A := λ '(c, fs),
  let '(f, fs) := pop fs in
  match f with
  | NoFault => let '(r, c') := s c in (r, (c', fs))
  | Lost => (Err ErrConn, (c, fs))
  | ReplyLost => let '(_, c') := s c in (Err ErrConn, (c', fs))
  end.

(** How the body of a service's transaction ends when it does not fail: it returns
    with the transaction still open (the deferred [Rollback] undoes it), or it
    reaches [tx.Commit]. *)
Inductive outcome (A : Type) := Return (a : A) | Commit (a : A).
Arguments Return {A} a.
Arguments Commit {A} a.

Section world.
Context `{Env} {R : Type}.

Abbreviation W := (World R).

Definition begin_conn (now : Z) (w : W) : Conn := mkConn (w_tab w) (w_seq w) now [].

(** The world after a rollback: tables as before, sequences as the transaction
    left them. *)
Definition rollback (w : W) (c : Conn) (fs : list fault) : W :=
  mkWorld (w_tab w) (c_seq c) (w_redis w) fs.
Definition commit (w : W) (c : Conn) (fs : list fault) : W :=
  mkWorld (c_tab c) (c_seq c) (w_redis w) fs.

(** [tx.Commit]: the deferred trigger runs at the server; a lost reply leaves the
    caller with an error and the transaction committed. *)
Definition do_commit {A} (a : A) (w : W) (c : Conn) (fs : list fault)
    : result (outcome A) * W :=
  let '(f, fs) := pop fs in
  match f with
  | Lost => (Err ErrConn, rollback w c fs)
  | _ =>
      match check_queue (c_queue c) (c_tab c) with
      | Err e => (Err (if f is ReplyLost then ErrConn else e), rollback w c fs)
      | Ok () => (if f is ReplyLost then Err ErrConn else Ok (Commit a), commit w c fs)
      end
  end.

(** [pool.Begin] at [now], the body, and [tx.Commit] or the deferred rollback. *)
Definition in_tx {A} (now : Z) (body : M TxS (outcome A)) : M W (outcome A) := λ w,
  let '(f, fs) := pop (w_faults w) in
  match f with
  | NoFault =>
      let '(r, (c, fs)) := body (begin_conn now w, fs) in
      match r with
      | Err e => (Err e, rollback w c fs)
      | Ok (Return a) => (Ok (Return a), rollback w c fs)
      | Ok (Commit a) => do_commit a w c fs
      end
  | _ => (Err ErrConn, mkWorld (w_tab w) (w_seq w) (w_redis w) fs)
  end.

(** A statement on the pool is its own transaction. *)
Definition on_pool {A} (now : Z) (s : stmt A) : M W A := λ w,
  let '(f, fs) := pop (w_faults w) in
  match f with
  | Lost => (Err ErrConn, mkWorld (w_tab w) (w_seq w) (w_redis w) fs)
  | _ =>
      let '(r, c) := s (begin_conn now w) in
      let answer r := if f is ReplyLost then Err ErrConn else r in
      match r with
      | Err e => (answer (Err e), rollback w c fs)
      | Ok a => match check_queue (c_queue c) (c_tab c) with
                | Err e => (answer (Err e), rollback w c fs)
                | Ok () => (answer (Ok a), commit w c fs)
                end
      end
  end.

(** A request to Redis whose error the caller ignores. *)
Definition redis_do (f : R → R) : M W () := λ w,
  let '(fl, fs) := pop (w_faults w) in
  (Ok (), mkWorld (w_tab w) (w_seq w)
            (if fl is Lost then w_redis w else f (w_redis w)) fs).

(** A read from Redis: [None] is [redis.Nil] or a transport error. *)
Definition redis_get `{!Redis R} (now : Z) (k : string) : M W (option string) := λ w,
  let '(fl, fs) := pop (w_faults w) in
  (Ok (if fl is NoFault then r_get (w_redis w) now k else None),
   mkWorld (w_tab w) (w_seq w) (w_redis w) fs).

(** ** What a transaction can do to the world *)

(** Every run of [in_tx] either leaves the tables alone, or commits what the body
    built, with every queued transaction balanced. *)
Lemma in_tx_cases {A} now (body : M TxS (outcome A)) w r w' :
  in_tx now body w = (r, w') →
  w_redis w' = w_redis w ∧
  ( (w_tab w' = w_tab w ∧
     ((∃ e, r = Err e) ∨
      ∃ a c fs fs', body (begin_conn now w, fs) = (Ok (Return a), (c, fs')) ∧ r = Ok (Return a)))
  ∨ (∃ a c fs fs', body (begin_conn now w, fs) = (Ok (Commit a), (c, fs')) ∧
       check_queue (c_queue c) (c_tab c) = Ok () ∧
       w_tab w' = c_tab c ∧ w_seq w' = c_seq c ∧ (r = Ok (Commit a) ∨ r = Err ErrConn))).
Proof.
  unfold in_tx, do_commit. destruct (pop (w_faults w)) as [f fs].
  destruct f; [|intros [= <- <-]; naive_solver..].
  destruct (body _) as [[[a|a]|e] [c fs']] eqn:Hb; [intros [= <- <-]; naive_solver| |intros [= <- <-]; naive_solver].
  destruct (pop fs') as [f2 fs2].
  destruct f2; [|intros [= <- <-]; naive_solver|];
    destruct (check_queue _ _) as [[]|e] eqn:Hq; intros [= <- <-];
    (split; [done|]); [|left; naive_solver| |left; naive_solver]; right;
    exists a, c, fs, fs'; simpl; auto 10.
Qed.

Lemma on_pool_cases {A} now (s : stmt A) w r w' :
  on_pool now s w = (r, w') →
  w_redis w' = w_redis w ∧
  ( (w_tab w' = w_tab w ∧ ∃ e, r = Err e)
  ∨ (∃ a c, s (begin_conn now w) = (Ok a, c) ∧ check_queue (c_queue c) (c_tab c) = Ok () ∧
       w_tab w' = c_tab c ∧ w_seq w' = c_seq c ∧ (r = Ok a ∨ r = Err ErrConn))).
Proof.
  unfold on_pool. destruct (pop (w_faults w)) as [f fs].
  destruct f; [| |]; try (intros [= <- <-]; naive_solver);
    destruct (s _) as [[a|e] c] eqn:Hs; try (intros [= <- <-]; naive_solver);
    destruct (check_queue _ _) as [[]|e] eqn:Hq; intros [= <- <-];
    (split; [done|]); [|left; naive_solver| |left; naive_solver]; right;
    exists a, c; simpl; auto 10.
Qed.

End world.
