(* ===== verification/JsonStruct.v ===== *)
(** * JSON and Go structs

    How [encoding/json] fills the fields of a struct: members are taken in order,
    a key names a field up to case, [null] leaves an integer, a string or a time
    alone, and a value of the wrong kind is an error. *)
From S2P Require Import Prelude GoTime Json.
Local Open Scope Z_scope.

(** [foldName]: ASCII letters to lower case, and the two other runes that fold to
    an ASCII letter (U+212A and U+017F). *)
Definition fold_rune (r : rune) : list ascii :=
  match r with
  | Rune [c] => [if between 65 90 c then chr (code c + 32) else c]
  | Rune bs => if bool_decide (bs = [chr 226; chr 132; chr 170]) then ["k"%char]
               else if bool_decide (bs = [chr 197; chr 191]) then ["s"%char] else bs
  | Bad c => [c]
  end.

Definition fold_name (k : string) : string :=
  str (concat (map fold_rune (runes (chars k)))).

Definition int_field (v : json) (old : Z) : option Z :=
  match v with JNull => Some old | JNum l => ParseInt l | _ => None end.
Definition string_field (v : json) (old : string) : option string :=
  match v with JNull => Some old | JStr s => Some s | _ => None end.

(** [time.Time.UnmarshalJSON] and [MarshalJSON]: RFC 3339, four-digit years, zone
    hours below 24. *)
Definition time_field (v : json) (old : Time) : option Time :=
  match v with JNull => Some old | JStr s => Parse_RFC3339 s | _ => None end.

Definition time_json (t : Time) : option json :=
  if (0 <=? Year t) && (Year t <=? 9999) && (Z.abs (t_off t `quot` 60) `div` 60 <? 24)
  then Some (JStr (Format_RFC3339Nano t)) else None.

(** The members of an object, applied in order to a struct. *)
Fixpoint fill {A} (f : string → json → A → option A) (ms : list (string * json)) (a : A)
    : option A :=
  match ms with
  | [] => Some a
  | (k, v) :: ms => a ← f (fold_name k) v a; fill f ms a
  end.

(** Evaluates the folded names of literal keys. *)
Ltac fold_names :=
  repeat match goal with |- context [fold_name ?k] =>
    let k' := eval vm_compute in (fold_name k) in change (fold_name k) with k' end.

Lemma time_json_inv t j :
  time_json t = Some j → j = JStr (Format_RFC3339Nano t) ∧ 0 ≤ Year t ≤ 9999.
Proof. unfold time_json. case_match eqn:E; [|done]. intros [= <-]. split; [done|lia]. Qed.

Lemma time_field_json t j old :
  time_json t = Some j → zone_ok (t_off t) → time_field j old = Some t.
Proof.
  intros [-> ?]%time_json_inv ?. by apply Parse_Format_RFC3339Nano.
Qed.

(** Printed times are ASCII. *)
Definition ascii_text (l : list ascii) : bool := forallb valid1 l.

Lemma ascii_utf8_ok l : ascii_text l = true → utf8_ok (str l) = true.
Proof.
  unfold utf8_ok, ascii_text. rewrite chars_str. induction l as [|c l IH]; [done|]. simpl.
  intros [Hc Hl]%andb_prop. rewrite Hc. simpl. auto.
Qed.

Lemma ascii_text_app l1 l2 : ascii_text (l1 ++ l2) = ascii_text l1 && ascii_text l2.
Proof. apply forallb_app. Qed.

Lemma digit_char_valid d : 0 ≤ d < 10 → valid1 (digit_char d) = true.
Proof. intros. unfold valid1, digit_char. rewrite code_chr; lia. Qed.

Lemma pad2_ascii n : 0 ≤ n < 100 → ascii_text (pad2 n) = true.
Proof. intros. simpl. rewrite !digit_char_valid by div_lia. done. Qed.

Lemma strip_zeros_Forall P l : Forall P l → Forall P (strip_zeros l).
Proof.
  intros Hl. destruct (strip_zeros_app l) as [k Hk]. rewrite Hk in Hl.
  by apply Forall_app in Hl as [? _].
Qed.

Lemma fmt_frac_ascii n : ascii_text (fmt_frac n) = true.
Proof.
  unfold fmt_frac. pose proof (strip_zeros_Forall _ _ (nano_digits_range n)) as Hl.
  destruct (strip_zeros _) as [|d l]; [done|]. simpl. unfold ascii_text.
  change (forallb valid1 (map digit_char (d :: l)) = true).
  rewrite forallb_forall. intros c Hc. apply in_map_iff in Hc as (x&<-&Hx).
  apply digit_char_valid. rewrite Forall_forall in Hl. apply Hl. by apply list_elem_of_In.
Qed.

Lemma Format_RFC3339Nano_utf8 t :
  0 ≤ Year t ≤ 9999 → zone_ok (t_off t) → utf8_ok (Format_RFC3339Nano t) = true.
Proof.
  intros Hy [Hz Hz2]. unfold Format_RFC3339Nano, fmt_datetime, fmt_year, pad4, fmt_zone.
  pose proof (civil_valid t) as [Hm Hd]. pose proof (clock_sec_range t) as Hc.
  unfold day_sec in Hc. apply ascii_utf8_ok.
  replace (Year t <? 0) with false by lia. replace (Year t <=? 9999) with true by lia.
  repeat (rewrite ascii_text_app || rewrite <- app_comm_cons || cbn [ascii_text forallb]).
  change (λ l, forallb valid1 l) with ascii_text. fold ascii_text.
  rewrite fmt_frac_ascii, !pad2_ascii by div_lia.
  destruct (Z.eqb_spec (t_off t) 0); [done|].
  assert (Z.abs (t_off t `quot` 60) < 1440) by (Z.quot_rem_to_equations; lia).
  assert (0 ≤ Z.abs (t_off t `quot` 60)) by lia.
  set (q := Z.abs (t_off t `quot` 60)) in *. clearbody q.
  rewrite app_comm_cons, ascii_text_app. cbn [ascii_text forallb].
  fold (ascii_text (pad2 (q `mod` 60))). fold (ascii_text (pad2 (q `div` 60))).
  rewrite !pad2_ascii by div_lia. by destruct (_ <? 0).
Qed.
