(* ===== verification/Summary.v ===== *)
(** * Monthly summaries and their cache ([internal/service/summary.go])

    [SummaryService] answers from Redis when it can, else from the database, and
    stores the answer for five minutes.  [Invalidate] is what the transaction
    service calls after a commit. *)
From S2P Require Import Prelude GoTime Effects Json Store Queries World JsonStruct.
Local Open Scope Z_scope.
Local Open Scope ledger_scope.

Record MonthlySummary := mkMonthlySummary { m_Inflow : Z; m_Outflow : Z; m_Net : Z }.

Definition zero_summary : MonthlySummary := mkMonthlySummary 0 0 0.

#[global] Instance MonthlySummary_eq_dec : EqDecision MonthlySummary.
Proof. solve_decision. Defined.

(** [fmt.Sprintf("summary:%d:%s", accountID, month.Format("2006-01"))] *)
Definition summary_key (account : Z) (month : Time) : string :=
  str (chars "summary:" ++ itoa account ++ chars ":" ++ chars (Format_month month)).

Definition summary_ttl : Z := 5 * 60 * sec_ns.

Definition summary_json (m : MonthlySummary) : json :=
  JObj [("inflow", JInt (m_Inflow m)); ("outflow", JInt (m_Outflow m)); ("net", JInt (m_Net m))].

(** One member into the struct; a value of the wrong kind is skipped: the decoder
    records the error and goes on, and the caller drops it. *)
Definition summary_field (k : string) (v : json) (m : MonthlySummary) : option MonthlySummary :=
  let keep old := default old (int_field v old) in
  Some (if bool_decide (k = "inflow") then
          mkMonthlySummary (keep (m_Inflow m)) (m_Outflow m) (m_Net m)
        else if bool_decide (k = "outflow") then
          mkMonthlySummary (m_Inflow m) (keep (m_Outflow m)) (m_Net m)
        else if bool_decide (k = "net") then
          mkMonthlySummary (m_Inflow m) (m_Outflow m) (keep (m_Net m))
        else m).

(** [_ = json.Unmarshal([]byte(val), &ms)] on the zero value. *)
Definition unmarshal_summary (s : string) : MonthlySummary :=
  match json_parse s with
  | Some (JObj ms) => default zero_summary (fill summary_field ms zero_summary)
  | _ => zero_summary
  end.

Section service.
Context `{Env} {R : Type} `{!Redis R}.

(** [t1] and [t2] are the times of the two Redis requests, [now] the time of the
    database request between them. *)
Definition SummaryService_GetMonthlySummary (t1 now t2 : Z) (account : Z) (month : Time)
    : M (World R) MonthlySummary :=
  let key := summary_key account month in
  let! val := redis_get t1 key in
  match val with
  | Some val => ret (unmarshal_summary val)
  | None =>
      let! row := on_pool now (GetMonthlySummary account month) in
      let ms := mkMonthlySummary (r_Inflow row) (r_Outflow row) (r_Net row) in
      redis_do (λ r, r_set r t2 key (json_text (summary_json ms)) (Some summary_ttl)) ;;;
      ret ms
  end.

(** Bust cache when a new transaction happens; the error is ignored. *)
Definition Invalidate (account : Z) (month : Time) : M (World R) () :=
  redis_do (λ r, r_del r (summary_key account month)).

End service.

(** ** The stored text gives the summary back *)

Lemma json_ok_summary m : json_ok (summary_json m) = true.
Proof. simpl. rewrite !int_literal_itoa. vm_compute. done. Qed.

Definition summary_int64 (m : MonthlySummary) : Prop :=
  int64 (m_Inflow m) ∧ int64 (m_Outflow m) ∧ int64 (m_Net m).

Lemma int_field_JInt z old : int64 z → int_field (JInt z) old = Some z.
Proof. apply ParseInt_itoa. Qed.

Lemma unmarshal_summary_json m :
  summary_int64 m → unmarshal_summary (json_text (summary_json m)) = m.
Proof.
  intros (Hi&Ho&Hn). unfold unmarshal_summary.
  rewrite json_parse_text by apply json_ok_summary.
  unfold summary_json. cbn [fill].
  fold_names. unfold summary_field.
  cbn -[ParseInt itoa].
  rewrite !ParseInt_itoa by done. by destruct m.
Qed.

(** Distinct accounts and months have distinct cache keys. *)
Lemma dec_no_colon n : 0 ≤ n → ":"%char ∉ dec n.
Proof.
  intros Hn Hin. destruct (dec_spec n Hn) as (_&Hf&_).
  rewrite Forall_forall in Hf. by specialize (Hf _ Hin).
Qed.

Lemma itoa_no_colon z : ":"%char ∉ itoa z.
Proof.
  unfold itoa. destruct (Z.ltb_spec z 0).
  - rewrite not_elem_of_cons. split; [done|]. apply dec_no_colon. lia.
  - by apply dec_no_colon.
Qed.

Lemma app_sep_inj (c : ascii) l1 r1 l2 r2 :
  c ∉ l1 → c ∉ l2 → l1 ++ c :: r1 = l2 ++ c :: r2 → l1 = l2 ∧ r1 = r2.
Proof.
  revert l2; induction l1 as [|a l1 IH]; intros [|b l2]; simpl;
    rewrite ?not_elem_of_cons; intros H1 H2 E; simplify_eq; try naive_solver.
Qed.

Lemma itoa_inj a b : int64 a → int64 b → itoa a = itoa b → a = b.
Proof.
  intros Ha Hb E. apply ParseInt_itoa in Ha, Hb. rewrite E in Ha. congruence.
Qed.

Lemma chars_inj a b : chars a = chars b → a = b.
Proof. intros E. by rewrite <- (str_chars a), <- (str_chars b), E. Qed.

Lemma str_inj a b : str a = str b → a = b.
Proof. intros E. by rewrite <- (chars_str a), <- (chars_str b), E. Qed.

Lemma summary_key_inj a1 m1 a2 m2 :
  int64 a1 → int64 a2 → summary_key a1 m1 = summary_key a2 m2 →
  a1 = a2 ∧ Format_month m1 = Format_month m2.
Proof.
  intros Ha1 Ha2 E. unfold summary_key in E. apply str_inj, app_inv_head in E.
  change (chars ":") with [":"%char] in E. simpl in E.
  apply app_sep_inj in E as [E1 E2]; [|apply itoa_no_colon..].
  split; [by apply itoa_inj|by apply chars_inj].
Qed.
