(* ===== verification/Dto.v ===== *)
(** * The data of the transaction service and its JSON
    ([internal/service/transactions.go])

    Legs, inputs and the response [TransactionDTO]; [json.Marshal] and
    [json.Unmarshal] of the response, which is stored with the idempotency key and
    replayed; the canonical request texts that are hashed; the outbox payload. *)
From S2P Require Import Prelude GoTime Effects Json Store JsonStruct.
Local Open Scope Z_scope.

Record Leg := mkLeg { l_AccountID : Z; l_AmountMinor : Z }.

Record PostingDTO := mkPostingDTO { pd_ID : Z; pd_AccountID : Z; pd_AmountMinor : Z }.

Record TransactionDTO := mkTransactionDTO {
  d_ID : Z; d_UserID : Z; d_Currency : string; d_OccurredAt : Time; d_Note : string;
  d_ReversalOf : Z; d_Postings : list PostingDTO; d_CreatedAt : Time }.

Record CreateInput := mkCreateInput {
  ci_UserID : Z; ci_AccountID : Z; ci_AmountMinor : Z; ci_Currency : string;
  ci_OccurredAt : Time; ci_Note : string; ci_IdempotencyKey : string }.

Record TransferInput := mkTransferInput {
  ti_UserID : Z; ti_FromAccountID : Z; ti_ToAccountID : Z; ti_AmountMinor : Z;
  ti_Currency : string; ti_OccurredAt : Time; ti_Note : string; ti_IdempotencyKey : string }.

Record balancedInput := mkBalancedInput {
  b_UserID : Z; b_Legs : list Leg; b_UseExternalLeg : bool; b_Currency : string;
  b_OccurredAt : Time; b_Note : string; b_IdempotencyKey : string }.

Record ReverseInput := mkReverseInput {
  ri_UserID : Z; ri_TransactionID : Z; ri_IdempotencyKey : string }.

#[global] Instance Leg_eq_dec : EqDecision Leg.
Proof. solve_decision. Defined.
#[global] Instance PostingDTO_eq_dec : EqDecision PostingDTO.
Proof. solve_decision. Defined.
#[global] Instance Time_eq_dec : EqDecision Time.
Proof. solve_decision. Defined.
#[global] Instance TransactionDTO_eq_dec : EqDecision TransactionDTO.
Proof. solve_decision. Defined.

(** [var dto TransactionDTO] *)
Definition zero_dto : TransactionDTO := mkTransactionDTO 0 0 "" zero_time "" 0 [] zero_time.
Definition zero_posting_dto : PostingDTO := mkPostingDTO 0 0 0.

(** ** Marshalling *)

(** A nil slice is [null]. *)
Definition slice_json (l : list json) : json := if l is [] then JNull else JArr l.

Definition leg_json (l : Leg) : json :=
  JObj [("account_id", JInt (l_AccountID l)); ("amount_minor", JInt (l_AmountMinor l))].

Definition posting_json (p : PostingDTO) : json :=
  JObj [("id", JInt (pd_ID p)); ("account_id", JInt (pd_AccountID p));
        ("amount_minor", JInt (pd_AmountMinor p))].

Definition postings_json (l : list PostingDTO) : json := slice_json (map posting_json l).

(** [omitempty] *)
Definition omit_string (k s : string) : list (string * json) :=
  if bool_decide (s = "") then [] else [(k, JStr s)].
Definition omit_int (k : string) (z : Z) : list (string * json) :=
  if z =? 0 then [] else [(k, JInt z)].

Definition dto_json (d : TransactionDTO) : option json :=
  occurred ← time_json (d_OccurredAt d);
  created ← time_json (d_CreatedAt d);
  Some (JObj ([("id", JInt (d_ID d)); ("user_id", JInt (d_UserID d));
               ("currency", JStr (d_Currency d)); ("occurred_at", occurred)]
              ++ omit_string "note" (d_Note d)
              ++ omit_int "reversal_of" (d_ReversalOf d)
              ++ [("postings", postings_json (d_Postings d)); ("created_at", created)])).

Definition marshal_dto (d : TransactionDTO) : option string := json_text <$> dto_json d.

(** ** Unmarshalling *)

Definition posting_field (k : string) (v : json) (p : PostingDTO) : option PostingDTO :=
  let 'mkPostingDTO id acc amt := p in
  if String.eqb k "id" then id ← int_field v id; Some (mkPostingDTO id acc amt)
  else if String.eqb k "account_id" then
    acc ← int_field v acc; Some (mkPostingDTO id acc amt)
  else if String.eqb k "amount_minor" then
    amt ← int_field v amt; Some (mkPostingDTO id acc amt)
  else Some p.

Definition posting_of_json (v : json) (old : PostingDTO) : option PostingDTO :=
  match v with JNull => Some old | JObj ms => fill posting_field ms old | _ => None end.

(** The elements of an array are decoded into those the slice already has. *)
Fixpoint postings_of (vs : list json) (old : list PostingDTO) : option (list PostingDTO) :=
  match vs with
  | [] => Some []
  | v :: vs =>
      p ← posting_of_json v (hd zero_posting_dto old);
      ps ← postings_of vs (tl old);
      Some (p :: ps)
  end.

Definition postings_field (v : json) (old : list PostingDTO) : option (list PostingDTO) :=
  match v with JNull => Some [] | JArr vs => postings_of vs old | _ => None end.

Definition dto_field (k : string) (v : json) (d : TransactionDTO) : option TransactionDTO :=
  let 'mkTransactionDTO id uid cur occ note rev ps cre := d in
  if String.eqb k "id" then
    id ← int_field v id; Some (mkTransactionDTO id uid cur occ note rev ps cre)
  else if String.eqb k "user_id" then
    uid ← int_field v uid; Some (mkTransactionDTO id uid cur occ note rev ps cre)
  else if String.eqb k "currency" then
    cur ← string_field v cur; Some (mkTransactionDTO id uid cur occ note rev ps cre)
  else if String.eqb k "occurred_at" then
    occ ← time_field v occ; Some (mkTransactionDTO id uid cur occ note rev ps cre)
  else if String.eqb k "note" then
    note ← string_field v note; Some (mkTransactionDTO id uid cur occ note rev ps cre)
  else if String.eqb k "reversal_of" then
    rev ← int_field v rev; Some (mkTransactionDTO id uid cur occ note rev ps cre)
  else if String.eqb k "postings" then
    ps ← postings_field v ps; Some (mkTransactionDTO id uid cur occ note rev ps cre)
  else if String.eqb k "created_at" then
    cre ← time_field v cre; Some (mkTransactionDTO id uid cur occ note rev ps cre)
  else Some d.

Definition dto_of_json (v : json) : option TransactionDTO :=
  match v with
  | JNull => Some zero_dto
  | JObj ms => fill dto_field ms zero_dto
  | _ => None
  end.

Definition unmarshal_dto (s : string) : option TransactionDTO := json_parse s ≫= dto_of_json.

(** ** Hashes and events *)

Section hashes.
Context `{Env}.

Definition request_json (b : balancedInput) : option json :=
  occurred ← time_json (UTC (b_OccurredAt b));
  Some (JObj [("user_id", JInt (b_UserID b)); ("legs", slice_json (map leg_json (b_Legs b)));
              ("external", JBool (b_UseExternalLeg b)); ("currency", JStr (b_Currency b));
              ("occurred_at", occurred); ("note", JStr (b_Note b))]).

(** [b, _ := json.Marshal(payload)]: no bytes when it fails. *)
Definition request_text (b : balancedInput) : string :=
  match request_json b with Some j => json_text j | None => "" end.

Definition requestHash (b : balancedInput) : string := sha256_hex (request_text b).

Definition reverse_text (r : ReverseInput) : string :=
  json_text (JObj [("user_id", JInt (ri_UserID r)); ("op", JStr "reverse");
                   ("transaction_id", JInt (ri_TransactionID r))]).

Definition reverseHash (r : ReverseInput) : string := sha256_hex (reverse_text r).

End hashes.

(** [json.Marshal(map[string]any{..})]: keys in order. *)
Definition event_json (reversal_of : option Z) (d : TransactionDTO) : option json :=
  occurred ← time_json (d_OccurredAt d);
  Some (JObj ([("currency", JStr (d_Currency d)); ("occurred_at", occurred);
               ("postings", postings_json (d_Postings d))]
              ++ match reversal_of with Some r => [("reversal_of", JInt r)] | None => [] end
              ++ [("transaction_id", JInt (d_ID d)); ("user_id", JInt (d_UserID d))])).

(** ** The round trip of the stored response *)

(** What a response must satisfy for its text to give it back: machine integers,
    valid UTF-8, whole-minute zones.  (That the years fit is marshalling's own
    check.) *)
Definition dto_ok (d : TransactionDTO) : Prop :=
  int64 (d_ID d) ∧ int64 (d_UserID d) ∧ int64 (d_ReversalOf d) ∧
  utf8_ok (d_Currency d) = true ∧ utf8_ok (d_Note d) = true ∧
  zone_ok (t_off (d_OccurredAt d)) ∧ zone_ok (t_off (d_CreatedAt d)) ∧
  Forall (λ p, int64 (pd_ID p) ∧ int64 (pd_AccountID p) ∧ int64 (pd_AmountMinor p)) (d_Postings d).

Lemma posting_json_ok p : json_ok (posting_json p) = true.
Proof. simpl. by rewrite !int_literal_itoa. Qed.

Lemma postings_json_ok l : json_ok (postings_json l) = true.
Proof.
  destruct l as [|p l]; [done|]. unfold postings_json, slice_json. simpl map.
  cbn [json_ok]. apply forallb_forall. intros j Hj.
  change (In j (map posting_json (p :: l))) in Hj.
  apply in_map_iff in Hj as (q&<-&_). apply posting_json_ok.
Qed.

Lemma posting_of_posting_json p old :
  int64 (pd_ID p) → int64 (pd_AccountID p) → int64 (pd_AmountMinor p) →
  posting_of_json (posting_json p) old = Some p.
Proof.
  intros H1 H2 H3. destruct old as [a b c]. unfold posting_json, posting_of_json.
  cbn [fill]. fold_names. cbn -[ParseInt itoa].
  repeat (rewrite ParseInt_itoa by done; cbn -[ParseInt itoa]). by destruct p.
Qed.

Lemma postings_of_map l old :
  Forall (λ p, int64 (pd_ID p) ∧ int64 (pd_AccountID p) ∧ int64 (pd_AmountMinor p)) l →
  postings_of (map posting_json l) old = Some l.
Proof.
  intros Hl. revert old. induction Hl as [|p l (?&?&?) _ IH]; intros old; [done|].
  cbn [map postings_of]. rewrite posting_of_posting_json by done. cbn. by rewrite IH.
Qed.

Lemma postings_field_json l old :
  Forall (λ p, int64 (pd_ID p) ∧ int64 (pd_AccountID p) ∧ int64 (pd_AmountMinor p)) l →
  postings_field (postings_json l) old = Some l.
Proof. intros Hl. destruct l; [done|]. by apply (postings_of_map (_ :: _)). Qed.

Lemma fill_app {A} f ms1 ms2 (a : A) :
  fill f (ms1 ++ ms2) a = fill f ms1 a ≫= fill f ms2.
Proof.
  revert a. induction ms1 as [|[k v] ms1 IH]; intros a; [done|]. simpl.
  destruct (f _ _ _); simpl; auto.
Qed.

Lemma time_json_ok t j :
  time_json t = Some j → zone_ok (t_off t) → json_ok j = true.
Proof.
  intros [-> ?]%time_json_inv Hz. simpl. by apply Format_RFC3339Nano_utf8.
Qed.

Lemma dto_json_ok d j : dto_ok d → dto_json d = Some j → json_ok j = true.
Proof.
  intros (_&_&_&Hc&Hn&Hz1&Hz2&_) Hj. unfold dto_json in Hj.
  destruct (time_json (d_OccurredAt d)) as [jo|] eqn:Eo; [|done].
  destruct (time_json (d_CreatedAt d)) as [jc|] eqn:Ec; [|done]. simpl in Hj.
  injection Hj as <-. apply time_json_ok in Eo, Ec; [|done..].
  pose proof (postings_json_ok (d_Postings d)) as Hp.
  unfold omit_string, omit_int. destruct (bool_decide _), (_ =? 0);
    cbn [app json_ok forallb fst snd JInt];
    by rewrite ?int_literal_itoa, ?Hc, ?Hn, ?Eo, ?Ec, ?Hp.
Qed.

Lemma dto_of_dto_json d j : dto_ok d → dto_json d = Some j → dto_of_json j = Some d.
Proof.
  intros (Hi&Hu&Hr&_&_&Hz1&Hz2&Hp) Hj. unfold dto_json in Hj.
  destruct (time_json (d_OccurredAt d)) as [jo|] eqn:Eo; [|done].
  destruct (time_json (d_CreatedAt d)) as [jc|] eqn:Ec; [|done]. simpl in Hj.
  injection Hj as <-.
  pose proof (λ old, time_field_json _ _ old Eo Hz1) as Fo.
  pose proof (λ old, time_field_json _ _ old Ec Hz2) as Fc.
  destruct d as [id uid cur occ note rev ps cre]. cbn [d_ID d_UserID d_Currency d_OccurredAt d_Note d_ReversalOf d_Postings d_CreatedAt] in *.
  pose proof (λ old, postings_field_json ps old Hp) as Fp.
  unfold omit_string, omit_int, dto_of_json.
  destruct (bool_decide_reflect (note = "")) as [->|], (Z.eqb_spec rev 0) as [->|].
  all: cbn [app fill]; fold_names.
  all: repeat (cbn -[ParseInt itoa time_field postings_field postings_json];
    first [rewrite ParseInt_itoa by done | rewrite Fo | rewrite Fp | rewrite Fc]).
  all: done.
Qed.

Lemma unmarshal_marshal_dto d s : dto_ok d → marshal_dto d = Some s → unmarshal_dto s = Some d.
Proof.
  intros Hd Hs. unfold marshal_dto in Hs. destruct (dto_json d) as [j|] eqn:Hj; [|done].
  injection Hs as <-. unfold unmarshal_dto.
  rewrite json_parse_text by (by eapply dto_json_ok). by apply dto_of_dto_json.
Qed.
