(* ===== verification/Transactions.v ===== *)
(** * The transaction service ([internal/service/transactions.go])

    [Create], [Transfer] and [Reverse], each with its database transaction as one
    body in [M TxS] and the best-effort cache invalidation after the commit.  [now]
    is the timestamp of the database transaction (microseconds), [clock] the Go
    clock (nanoseconds). *)
From S2P Require Import Prelude GoTime Effects Json Store Queries World Summary Dto.
Local Open Scope Z_scope.
Local Open Scope ledger_scope.

(** [for _, l := range legs { sum += l.AmountMinor }] *)
Definition leg_sum (legs : list Leg) : Z :=
  foldl (λ sum l, wrap64 (sum + l_AmountMinor l)) 0 legs.

Fixpoint validate_loop (legs : list Leg) (sum : Z) : result Z :=
  match legs with
  | [] => Ok sum
  | l :: legs =>
      if l_AmountMinor l =? 0 then Err ErrZeroAmount
      else validate_loop legs (wrap64 (sum + l_AmountMinor l))
  end.

Definition validateLegs (legs : list Leg) (useExternalLeg : bool) : result () :=
  match validate_loop legs 0 with
  | Err e => Err e
  | Ok sum => if negb useExternalLeg && negb (sum =? 0) then Err ErrUnbalanced else Ok ()
  end.

Definition or_fail {S A} (e : error) (o : option A) : M S A :=
  match o with Some a => ret a | None => fail e end.

(** [for _, l := range ls { .. return err .. }] *)
Fixpoint mapM {S A B} (f : A → M S B) (l : list A) : M S (list B) :=
  match l with
  | [] => ret []
  | a :: l => let! b := f a in let! bs := mapM f l in ret (b :: bs)
  end.

Definition note_param (note : string) : option string :=
  if bool_decide (note = "") then None else Some note.

Section service.
Context `{Env}.

Definition claimIdempotency (uid : Z) (key hash : string) : M TxS (option TransactionDTO) :=
  if bool_decide (key = "") then ret None else
  let! r := attempt (exec (InsertIdempotencyKey uid key hash)) in
  match r with
  | Ok _ => ret None
  | Err e =>
      if negb (errors_is e ErrNoRows) then fail e else
      let! rec := exec (GetIdempotency uid key) in
      if negb (bool_decide (i_RequestHash rec = hash)) then fail ErrIdempotencyConflict else
      match i_ResponseJson rec with
      | Some resp =>
          if bool_decide (i_Status rec = "succeeded")
          then let! dto := or_fail ErrUnmarshal (unmarshal_dto resp) in ret (Some dto)
          else fail ErrIdempotencyInFlight
      | None => fail ErrIdempotencyInFlight
      end
  end.

(** Step 2: the id of the user's external account, created when there is none. *)
Definition external_account (uid : Z) (currency : string) : M TxS Z :=
  let! r := attempt (exec (GetExternalAccount uid)) in
  match r with
  | Ok ext => ret (a_ID ext)
  | Err e =>
      if errors_is e ErrNoRows
      then let! created := exec (CreateExternalAccount uid currency) in ret (a_ID created)
      else fail e
  end.

Definition resolve_legs (b : balancedInput) : M TxS (list Leg) :=
  if b_UseExternalLeg b then
    let! extID := external_account (b_UserID b) (b_Currency b) in
    ret (b_Legs b ++ [mkLeg extID (wrap64 (- leg_sum (b_Legs b)))])
  else ret (b_Legs b).

(** Step 3: ownership, state and currency of one leg's account. *)
Definition check_leg (uid : Z) (currency : string) (l : Leg) : M TxS () :=
  let! r := attempt (exec (GetAccount (l_AccountID l))) in
  match r with
  | Err e => if errors_is e ErrNoRows then fail ErrAccountNotFound else fail e
  | Ok acc =>
      if negb (a_UserID acc =? uid) then fail ErrForbidden
      else if negb (a_IsActive acc) then fail ErrAccountInactive
      else if negb (bool_decide (a_Kind acc = "external"))
              && negb (bool_decide (a_Currency acc = currency)) then fail ErrCurrencyMismatch
      else ret ()
  end.

Definition create_posting (tx : Z) (l : Leg) : M TxS PostingDTO :=
  let! p := exec (CreatePosting tx (l_AccountID l) (l_AmountMinor l)) in
  ret (mkPostingDTO (p_ID p) (p_AccountID p) (p_AmountMinor p)).

Definition header_dto (x : Transaction) (note : string) (reversal_of : Z)
    (ps : list PostingDTO) : TransactionDTO :=
  mkTransactionDTO (t_ID x) (t_UserID x) (t_Currency x) (pg_time (t_OccurredAt x)) note
    reversal_of ps (pg_time (t_CreatedAt x)).

(** Step 6: cache the response for idempotent replays. *)
Definition store_response (uid : Z) (key hash : string) (dto : TransactionDTO) : M TxS () :=
  if bool_decide (key = "") then ret () else
  let! resp := or_fail ErrMarshal (marshal_dto dto) in
  exec (MarkIdempotencySuccess uid key hash resp).

Definition createBalanced_body (b : balancedInput) : M TxS (outcome (TransactionDTO * list Leg)) :=
  let hash := requestHash b in
  let! cached := claimIdempotency (b_UserID b) (b_IdempotencyKey b) hash in
  match cached with
  | Some dto => ret (Return (dto, []))
  | None =>
      let! legs := resolve_legs b in
      mapM (check_leg (b_UserID b) (b_Currency b)) legs ;;;
      let! header := exec (CreateTransactionHeader (b_UserID b) (b_Currency b) None
                             (b_OccurredAt b) (note_param (b_Note b)) None) in
      let! ps := mapM (create_posting (t_ID header)) legs in
      let dto := header_dto header (b_Note b) 0 ps in
      let! event := or_fail ErrMarshal (event_json None dto) in
      exec (CreateOutboxEvent "TransactionCreated" event) ;;;
      store_response (b_UserID b) (b_IdempotencyKey b) hash dto ;;;
      ret (Commit (dto, legs))
  end.

Definition reversal_note (id : Z) : string := str (chars "reversal of transaction " ++ itoa id).

Definition Reverse_body (clock : Z) (r : ReverseInput)
    : M TxS (outcome (TransactionDTO * (Transaction * list Posting))) :=
  let hash := reverseHash r in
  let! cached := claimIdempotency (ri_UserID r) (ri_IdempotencyKey r) hash in
  match cached with
  | Some dto => ret (Return (dto, (mkTransaction 0 0 "" 0 None 0 None None, [])))
  | None =>
      let! ro := attempt (exec (GetTransactionForUser (ri_TransactionID r) (ri_UserID r))) in
      match ro with
      | Err e => if errors_is e ErrNoRows then fail ErrTxNotFound else fail e
      | Ok orig =>
          if bool_decide (is_Some (t_ReversalOf orig)) then fail ErrIsReversal else
          let! origPostings := exec (ListPostingsByTransaction (t_ID orig)) in
          match origPostings with
          | [] => fail ErrTxNotFound
          | _ =>
              let note := reversal_note (t_ID orig) in
              let! rh := attempt (exec (CreateTransactionHeader (ri_UserID r) (t_Currency orig)
                           None (mkTime clock 0) (Some note) (Some (t_ID orig)))) in
              match rh with
              | Err e => if isUniqueViolation e then fail ErrAlreadyReversed else fail e
              | Ok header =>
                  let! ps := mapM (create_posting (t_ID header))
                    (map (λ p, mkLeg (p_AccountID p) (wrap64 (- p_AmountMinor p))) origPostings) in
                  let dto := header_dto header note (t_ID orig) ps in
                  let! event := or_fail ErrMarshal (event_json (Some (t_ID orig)) dto) in
                  exec (CreateOutboxEvent "TransactionReversed" event) ;;;
                  store_response (ri_UserID r) (ri_IdempotencyKey r) hash dto ;;;
                  ret (Commit (dto, (orig, origPostings)))
              end
          end
      end
  end.

Context {R : Type} `{!Redis R}.

(** Step 7: the month is the calendar month of the instant in its own zone. *)
Definition invalidate_legs (occurred : Time) (legs : list Leg) : M (World R) () :=
  mapM (λ l, Invalidate (l_AccountID l) (month_start occurred)) legs ;;; ret ().

Definition createBalanced (now : Z) (b : balancedInput) : M (World R) TransactionDTO :=
  match validateLegs (b_Legs b) (b_UseExternalLeg b) with
  | Err e => fail e
  | Ok () =>
      let! o := in_tx now (createBalanced_body b) in
      match o with
      | Return (dto, _) => ret dto
      | Commit (dto, legs) => invalidate_legs (b_OccurredAt b) legs ;;; ret dto
      end
  end.

Definition create_request (i : CreateInput) : balancedInput :=
  mkBalancedInput (ci_UserID i) [mkLeg (ci_AccountID i) (ci_AmountMinor i)] true
    (ci_Currency i) (ci_OccurredAt i) (ci_Note i) (ci_IdempotencyKey i).

Definition Create (now : Z) (i : CreateInput) : M (World R) TransactionDTO :=
  if ci_AmountMinor i =? 0 then fail ErrZeroAmount
  else createBalanced now (create_request i).

Definition transfer_request (i : TransferInput) : balancedInput :=
  mkBalancedInput (ti_UserID i)
    [mkLeg (ti_FromAccountID i) (wrap64 (- ti_AmountMinor i));
     mkLeg (ti_ToAccountID i) (ti_AmountMinor i)] false
    (ti_Currency i) (ti_OccurredAt i) (ti_Note i) (ti_IdempotencyKey i).

Definition Transfer (now : Z) (i : TransferInput) : M (World R) TransactionDTO :=
  if ti_AmountMinor i <=? 0 then
    fail (Wrapped ErrZeroAmount "transfer amount must be positive")
  else if ti_FromAccountID i =? ti_ToAccountID i then
    fail (Wrapped ErrUnbalanced "cannot transfer to the same account")
  else createBalanced now (transfer_request i).

(** Both affected months are invalidated: the original's, in the zone a scanned
    time has, and the reversal's. *)
Definition Reverse (now clock : Z) (r : ReverseInput) : M (World R) TransactionDTO :=
  let! o := in_tx now (Reverse_body clock r) in
  match o with
  | Return (dto, _) => ret dto
  | Commit (dto, (orig, origPostings)) =>
      mapM (λ p,
        Invalidate (p_AccountID p) (month_start (pg_time (t_OccurredAt orig))) ;;;
        Invalidate (p_AccountID p) (month_start (mkTime clock 0))) origPostings ;;;
      ret dto
  end.

End service.
