(* ===== verification/TxRun.v ===== *)
(** * Runs inside a database transaction

    [runs m c a c'] says that the transaction code [m], started in session [c],
    can succeed with [a] in session [c'] for some behaviour of the network.  Its
    inversion lemmas, with those of the statements, turn a successful body into
    the rows it inserted. *)
From S2P Require Import Prelude GoTime Effects Json Store Queries World Summary Dto Transactions.
Local Open Scope Z_scope.
Local Open Scope ledger_scope.

Definition runs {A} (m : M TxS A) (c : Conn) (a : A) (c' : Conn) : Prop :=
  ∃ fs fs', m (c, fs) = (Ok a, (c', fs')).

Lemma runs_ret {A} (a : A) c b c' : runs (ret a) c b c' → b = a ∧ c' = c.
Proof. by intros (?&?&[= <- <- <-]). Qed.

Lemma runs_fail {A} e c (a : A) c' : ¬ runs (fail e) c a c'.
Proof. by intros (?&?&?). Qed.

Lemma runs_or_fail {A} e (o : option A) c a c' : runs (or_fail e o) c a c' → o = Some a ∧ c' = c.
Proof. destruct o; simpl; [by intros [-> ->]%runs_ret|by intros ?%runs_fail]. Qed.

Lemma runs_bind {A B} (m : M TxS A) (k : A → M TxS B) c b c' :
  runs (bind m k) c b c' → ∃ a c1, runs m c a c1 ∧ runs (k a) c1 b c'.
Proof.
  intros (fs&fs'&(a&[c1 fs1]&?&?)%bind_Ok). exists a, c1. split; [by exists fs, fs1|by exists fs1, fs'].
Qed.

Lemma runs_exec {A} (s : stmt A) c a c' : runs (exec s) c a c' → s c = (Ok a, c').
Proof.
  intros (fs&fs'&E). unfold exec in E. destruct (pop fs) as [[] ?]; [| |].
  - destruct (s c) as [r c1]. by simplify_eq.
  - done.
  - by destruct (s c).
Qed.

(** A statement whose error is inspected either ran, or the connection was lost. *)
Lemma runs_attempt {A} (s : stmt A) c r c' :
  runs (attempt (exec s)) c r c' → s c = (r, c') ∨ r = Err ErrConn.
Proof.
  intros (fs&fs'&E). unfold attempt, exec in E. destruct (pop fs) as [[] ?]; [| |].
  - destruct (s c) as [r1 c1]. simplify_eq. by left.
  - simplify_eq. by right.
  - destruct (s c). simplify_eq. by right.
Qed.

(** ** Inversion of the primitive statements *)

Lemma read_inv {A} (f : Conn → result A) c r c' : read f c = (r, c') → r = f c ∧ c' = c.
Proof. by intros [= <- <-]. Qed.

Lemma constraint_inv e ok c u c' :
  constraint e ok c = (Ok u, c') → ok (c_tab c) = true ∧ c' = c.
Proof. unfold constraint. destruct (ok _); by intros [= <- <-]. Qed.

Lemma text_param_inv s c u c' : text_param s c = (Ok u, c') → pg_text s = true ∧ c' = c.
Proof. apply constraint_inv. Qed.

Lemma nextval_inv s c id c' :
  nextval s c = (Ok id, c') →
  id = c_seq c s ∧ c_seq c s ≤ max_int64 ∧
  c' = mkConn (c_tab c) (bump s (c_seq c)) (c_now c) (c_queue c).
Proof. unfold nextval. destruct (Z.leb_spec (c_seq c s) max_int64); by intros [= <- <-]. Qed.

Lemma one_row_inv {A} (o : option A) a : one_row o = Ok a → o = Some a.
Proof. destruct o; by intros [= <-]. Qed.

(** Breaks a successful statement into its primitive steps. *)
Ltac inv_stmt :=
  repeat match goal with
  | H : bind _ _ _ = (Ok _, _) |- _ => apply bind_Ok in H; destruct H as (?&?&?&?)
  | H : text_param _ _ = (Ok _, _) |- _ => apply text_param_inv in H; destruct H as [? ->]
  | H : constraint _ _ _ = (Ok _, _) |- _ => apply constraint_inv in H; destruct H as [? ->]
  | H : nextval _ _ = (Ok _, _) |- _ => apply nextval_inv in H; destruct H as (->&?&->)
  | H : get_now _ = (Ok _, _) |- _ => injection H as <- <-
  | H : write _ _ = (Ok _, _) |- _ => injection H as <- <-
  | H : enqueue_check _ _ = (Ok _, _) |- _ => injection H as <- <-
  | H : ret _ _ = (Ok _, _) |- _ => injection H as <- <-
  | H : fail _ _ = (Ok _, _) |- _ => discriminate H
  | H : read _ _ = (_, _) |- _ => apply read_inv in H; destruct H as [? ->]
  end; simpl in *.

(** Breaks a successful transaction into its statements. *)
Ltac inv_runs :=
  repeat match goal with
  | H : runs (ret _) _ _ _ |- _ => apply runs_ret in H; destruct H as [? ->]
  | H : runs (fail _) _ _ _ |- _ => by apply runs_fail in H
  | H : runs (or_fail _ _) _ _ _ |- _ => apply runs_or_fail in H; destruct H as [? ->]
  | H : runs (bind _ _) _ _ _ |- _ => apply runs_bind in H; destruct H as (?&?&?&?)
  | H : runs (exec _) _ _ _ |- _ => apply runs_exec in H
  end; simplify_eq.

Lemma negb_existsb {A} (f : A → bool) l :
  negb (existsb f l) = true ↔ Forall (λ a, f a = false) l.
Proof.
  rewrite negb_true_iff. induction l as [|a l IH]; simpl.
  - split; auto.
  - rewrite orb_false_iff, Forall_cons, IH. done.
Qed.

Lemma find_first {A} (f : A → bool) l a :
  find f l = Some a ↔ ∃ l1 l2, l = l1 ++ a :: l2 ∧ Forall (λ b, f b = false) l1 ∧ f a = true.
Proof.
  induction l as [|b l IH]; simpl.
  - split; [done|]. by intros ([]&?&?&_).
  - destruct (f b) eqn:E; split.
    + intros [= <-]. exists [], l. auto.
    + intros ([|b' l1]&l2&Hl&Hf&Ha); simplify_eq/=; [done|].
      apply Forall_cons in Hf as [? _]. congruence.
    + intros (l1&l2&->&?&?)%IH. exists (b :: l1), l2. auto.
    + intros ([|b' l1]&l2&Hl&Hf&Ha); simplify_eq/=; [congruence|].
      apply Forall_cons in Hf as [_ Hf]. apply IH. eauto.
Qed.

Lemma find_In {A} (f : A → bool) l a : find f l = Some a → a ∈ l ∧ f a = true.
Proof. rewrite find_first. intros (l1&l2&->&_&?). split; [set_solver|done]. Qed.

Lemma find_none_Forall {A} (f : A → bool) l : find f l = None ↔ Forall (λ a, f a = false) l.
Proof.
  induction l as [|b l IH]; simpl; [by split|].
  destruct (f b) eqn:E; rewrite Forall_cons; [|naive_solver].
  split; [done|]. intros [? _]. congruence.
Qed.

Lemma existsb_In {A} (f : A → bool) l : existsb f l = true ↔ ∃ a, a ∈ l ∧ f a = true.
Proof.
  rewrite existsb_exists. by setoid_rewrite list_elem_of_In.
Qed.

(** ** The statements that insert *)

Section statements.
Context `{Env}.

Definition insert_seq (s : serial) (f : Tables → Tables) (c : Conn) : Conn :=
  mkConn (f (c_tab c)) (bump s (c_seq c)) (c_now c) (c_queue c).

Lemma CreateExternalAccount_inv uid cur c a c' :
  CreateExternalAccount uid cur c = (Ok a, c') →
  a = mkAccount (c_seq c SAccounts) uid "External" cur true (c_now c) "external" ∧
  c' = insert_seq SAccounts (set_accounts (λ l, l ++ [a])) c ∧
  c_seq c SAccounts ≤ max_int64 ∧ pg_text cur = true ∧
  account_unique a (c_tab c) = true ∧ has_user uid (c_tab c) = true.
Proof. intros E. unfold CreateExternalAccount, insert_account in E. inv_stmt. split_and!; auto. Qed.

Lemma CreateTransactionHeader_inv uid cur cat occ note rev c x c' :
  CreateTransactionHeader uid cur cat occ note rev c = (Ok x, c') →
  x = mkTransaction (c_seq c STransactions) uid cur (enc_ts (t_ns occ)) note (c_now c) cat rev ∧
  c' = insert_seq STransactions (set_transactions (λ l, l ++ [x])) c ∧
  c_seq c STransactions ≤ max_int64 ∧ pg_text cur = true ∧ pg_text (default "" note) = true ∧
  has_user uid (c_tab c) = true ∧ cat = None ∧
  (∀ r, rev = Some r → has_transaction r (c_tab c) = true ∧
                        Forall (λ y, t_ReversalOf y ≠ Some r) (transactions (c_tab c))).
Proof.
  intros E. unfold CreateTransactionHeader in E. inv_stmt.
  rewrite negb_existsb in *.
  match goal with H : _ && _ && _ = true |- _ => apply andb_prop in H as [[? ?%bool_decide_eq_true]%andb_prop Hr] end.
  subst. split_and!; auto. intros r ->. split; [done|].
  eapply Forall_impl; [done|]. intros y [_ Hy]%orb_false_iff Hy2. simpl in Hy.
  rewrite Hy2 in Hy. lia.
Qed.

Lemma CreatePosting_inv tx acc amt c p c' :
  CreatePosting tx acc amt c = (Ok p, c') →
  p = mkPosting (c_seq c SPostings) tx acc amt (c_now c) ∧
  c' = mkConn (set_postings (λ l, l ++ [p]) (c_tab c)) (bump SPostings (c_seq c)) (c_now c)
         (c_queue c ++ [tx]) ∧
  c_seq c SPostings ≤ max_int64 ∧ amt ≠ 0 ∧ has_account acc (c_tab c) = true ∧
  has_transaction tx (c_tab c) = true.
Proof.
  intros E. unfold CreatePosting in E. inv_stmt.
  match goal with H : _ && _ = true |- _ => apply andb_prop in H as [??] end.
  repeat split; auto. lia.
Qed.

Lemma CreateOutboxEvent_inv kind payload c o c' :
  CreateOutboxEvent kind payload c = (Ok o, c') →
  o = mkOutbox (c_seq c SOutbox) kind payload (c_now c) None ∧
  c' = insert_seq SOutbox (set_outbox (λ l, l ++ [o])) c ∧ c_seq c SOutbox ≤ max_int64.
Proof. intros E. unfold CreateOutboxEvent in E. inv_stmt. auto. Qed.

Lemma InsertIdempotencyKey_cases uid key hash c r c' :
  InsertIdempotencyKey uid key hash c = (r, c') →
  (∃ i, r = Ok i ∧ i = mkIdempotencyKey uid key hash "started" None (c_now c) ∧
     c' = on_tab (set_idem (λ l, l ++ [i])) c ∧ pg_text key = true ∧
     has_user uid (c_tab c) = true ∧
     Forall (λ i, idem_match uid key i = false) (idempotency_keys (c_tab c))) ∨
  (∃ e, r = Err e ∧ c' = c ∧
     (e = ErrNoRows → existsb (idem_match uid key) (idempotency_keys (c_tab c)) = true)).
Proof.
  unfold InsertIdempotencyKey, text_param, constraint, bind, get_now, read, write, fail, ret.
  destruct (pg_text key); simpl; [|intros [= <- <-]; right; naive_solver].
  destruct (existsb _ _) eqn:Hex; [intros [= <- <-]; right; naive_solver|].
  destruct (has_user _ _) eqn:Hu; [|intros [= <- <-]; right; naive_solver].
  intros [= <- <-]. left. eexists. split_and!; [done..|].
  by apply negb_existsb; rewrite Hex.
Qed.

Lemma GetIdempotency_inv uid key c i c' :
  GetIdempotency uid key c = (Ok i, c') →
  c' = c ∧ find (idem_match uid key) (idempotency_keys (c_tab c)) = Some i ∧ pg_text key = true.
Proof.
  intros E. unfold GetIdempotency in E. inv_stmt.
  match goal with H : Ok _ = one_row _ |- _ => symmetry in H; apply one_row_inv in H end. auto.
Qed.

End statements.
