(* ===== verification/TxSpec.v ===== *)
(** * What a successful database transaction of the service did

    The bodies of [createBalanced] and [Reverse] are inverted: when one reaches
    its commit, the tables are those it started from plus one header, one posting
    per leg with consecutive ids, one outbox event, the idempotency row with the
    stored response, and at most one external account. *)
From S2P Require Import Prelude GoTime Effects Json Store Queries World Summary Dto Transactions.
From S2P Require Import TxRun.
Local Open Scope Z_scope.
Local Open Scope ledger_scope.

(** The postings of the legs, with consecutive ids. *)
Fixpoint mk_postings (tx now id : Z) (legs : list Leg) : list Posting :=
  match legs with
  | [] => []
  | l :: legs =>
      mkPosting id tx (l_AccountID l) (l_AmountMinor l) now :: mk_postings tx now (id + 1) legs
  end.

Definition posting_dto (p : Posting) : PostingDTO :=
  mkPostingDTO (p_ID p) (p_AccountID p) (p_AmountMinor p).

(** The tables with the rows of one ledger transaction added. *)
Definition posted (t : Tables) (accs : list Account) (x : Transaction) (ps : list Posting)
    (idems : list IdempotencyKey) (ev : Outbox) : Tables :=
  mkTables (users t) (accounts t ++ accs) (transactions t ++ [x]) (postings t ++ ps)
    (idempotency_keys t ++ idems) (balance_snapshots t) (exports t) (outbox t ++ [ev]).

Definition find_account (id : Z) (t : Tables) : option Account :=
  find (λ a, a_ID a =? id) (accounts t).

(** A leg's account exists, is the user's, is active, and is the external account
    or has the currency of the transaction. *)
Definition leg_ok (uid : Z) (cur : string) (t : Tables) (l : Leg) : Prop :=
  ∃ a, find_account (l_AccountID l) t = Some a ∧ a_UserID a = uid ∧ a_IsActive a = true ∧
       (a_Kind a = "external" ∨ a_Currency a = cur).

Definition find_external (uid : Z) (t : Tables) : option Account :=
  find (λ a, (a_UserID a =? uid) && bool_decide (a_Kind a = "external")) (accounts t).

Definition external_row (id uid : Z) (cur : string) (now : Z) : Account :=
  mkAccount id uid "External" cur true now "external".

Definition idem_row (uid : Z) (key hash resp : string) (now : Z) : IdempotencyKey :=
  mkIdempotencyKey uid key hash "succeeded" (Some resp) now.

Definition find_idem (uid : Z) (key : string) (t : Tables) : option IdempotencyKey :=
  find (idem_match uid key) (idempotency_keys t).

Section spec.
Context `{Env}.

(** ** Claiming the key *)

Inductive claimed (uid : Z) (key hash : string) (c : Conn) : Conn → Prop :=
  | claimed_none : key = "" → claimed uid key hash c c
  | claimed_row : key ≠ "" → find_idem uid key (c_tab c) = None → pg_text key = true →
      claimed uid key hash c
        (on_tab (set_idem (λ l, l ++ [mkIdempotencyKey uid key hash "started" None (c_now c)])) c).

Lemma claim_fresh uid key hash c c' :
  runs (claimIdempotency uid key hash) c None c' → claimed uid key hash c c'.
Proof.
  unfold claimIdempotency. destruct (bool_decide_reflect (key = "")) as [->|Hk].
  { intros [_ ->]%runs_ret. by constructor. }
  intros (r&c1&Hr&Hk')%runs_bind. apply runs_attempt in Hr as [Hr| ->].
  - apply InsertIdempotencyKey_cases in Hr as [(i&->&->&->&?&?&?)|(e&->&->&He)].
    + apply runs_ret in Hk' as [_ ->]. constructor; [done| |done].
      by apply find_none_Forall.
    + destruct (errors_is e ErrNoRows); simpl in Hk'; [|inv_runs].
      apply runs_bind in Hk' as (i&c2&_&Hk').
      destruct (bool_decide _); simpl in Hk'; [|inv_runs].
      destruct (i_ResponseJson i); [|inv_runs].
      destruct (bool_decide _); inv_runs.
  - simpl in Hk'. inv_runs.
Qed.

Lemma claim_replay uid key hash c d c' :
  runs (claimIdempotency uid key hash) c (Some d) c' →
  key ≠ "" ∧ pg_text key = true ∧ ∃ i resp, find_idem uid key (c_tab c) = Some i ∧ i_RequestHash i = hash ∧
    i_Status i = "succeeded" ∧ i_ResponseJson i = Some resp ∧ unmarshal_dto resp = Some d.
Proof.
  unfold claimIdempotency. destruct (bool_decide_reflect (key = "")) as [->|Hk].
  { by intros [? _]%runs_ret. }
  intros (r&c1&Hr&Hk')%runs_bind. split; [done|].
  apply runs_attempt in Hr as [Hr| ->]; [|simpl in Hk'; inv_runs].
  apply InsertIdempotencyKey_cases in Hr as [(i&->&->&->&_)|(e&->&->&He)];
    [by apply runs_ret in Hk' as [? _]|].
  destruct (errors_is e ErrNoRows); simpl in Hk'; [|inv_runs].
  apply runs_bind in Hk' as (i&c2&(->&Hf&?)%runs_exec%GetIdempotency_inv&Hk').
  destruct (bool_decide_reflect (i_RequestHash i = hash)); simpl in Hk'; [|inv_runs].
  destruct (i_ResponseJson i) eqn:Hresp; [|inv_runs].
  destruct (bool_decide_reflect (i_Status i = "succeeded")); [|inv_runs].
  inv_runs. eauto 10.
Qed.

(** ** The external account *)

Inductive ext_resolved (uid : Z) (cur : string) (c : Conn) : Z → list Account → Conn → Prop :=
  | ext_found a : find_external uid (c_tab c) = Some a → ext_resolved uid cur c (a_ID a) [] c
  | ext_created a :
      find_external uid (c_tab c) = None →
      a = external_row (c_seq c SAccounts) uid cur (c_now c) →
      account_unique a (c_tab c) = true → has_user uid (c_tab c) = true → pg_text cur = true →
      c_seq c SAccounts ≤ max_int64 →
      ext_resolved uid cur c (a_ID a) [a] (insert_seq SAccounts (set_accounts (λ l, l ++ [a])) c).

Lemma external_account_inv uid cur c id c' :
  runs (external_account uid cur) c id c' → ∃ accs, ext_resolved uid cur c id accs c'.
Proof.
  unfold external_account. intros (r&c1&Hr&Hk)%runs_bind.
  apply runs_attempt in Hr as [Hr| ->]; [|simpl in Hk; inv_runs].
  apply read_inv in Hr as [Hr ->]. change (find _ _) with (find_external uid (c_tab c)) in Hr.
  destruct (find_external uid (c_tab c)) as [a|] eqn:Hf; subst r; simpl in Hk.
  - apply runs_ret in Hk as [-> ->]. exists []. by constructor.
  - apply runs_bind in Hk as (a&c2&Ha%runs_exec%CreateExternalAccount_inv&Hk).
    apply runs_ret in Hk as [-> ->]. destruct Ha as (->&->&?&?&?&?).
    eexists. by apply ext_created.
Qed.

(** ** Checks on the legs *)

Lemma check_leg_inv uid cur l c u c' :
  runs (check_leg uid cur l) c u c' → c' = c ∧ leg_ok uid cur (c_tab c) l.
Proof.
  unfold check_leg. intros (r&c1&Hr&Hk)%runs_bind.
  apply runs_attempt in Hr as [Hr| ->]; [|simpl in Hk; inv_runs].
  apply read_inv in Hr as [Hr ->]. fold (find_account (l_AccountID l) (c_tab c)) in Hr.
  destruct (find_account _ _) as [a|] eqn:Hf; subst r; simpl in Hk; [|inv_runs].
  destruct (Z.eqb_spec (a_UserID a) uid); simpl in Hk; [|inv_runs].
  destruct (a_IsActive a) eqn:?; simpl in Hk; [|inv_runs].
  destruct (bool_decide_reflect (a_Kind a = "external")),
    (bool_decide_reflect (a_Currency a = cur)); simpl in Hk; try (inv_runs; done).
  all: apply runs_ret in Hk as [_ ->]; split; [done|]; exists a; auto.
Qed.

Lemma check_legs_inv uid cur legs c us c' :
  runs (mapM (check_leg uid cur) legs) c us c' →
  c' = c ∧ Forall (leg_ok uid cur (c_tab c)) legs.
Proof.
  revert us c'; induction legs as [|l legs IH]; intros us c'; simpl.
  - intros [_ ->]%runs_ret. auto.
  - intros (u&c1&[-> ?]%check_leg_inv&(us'&c2&[-> ?]%IH&[_ ->]%runs_ret)%runs_bind)%runs_bind.
    auto.
Qed.

(** ** Postings *)

Lemma create_postings_inv tx legs c ps c' :
  runs (mapM (create_posting tx) legs) c ps c' →
  let new := mk_postings tx (c_now c) (c_seq c SPostings) legs in
  ps = map posting_dto new ∧
  c_tab c' = set_postings (λ l, l ++ new) (c_tab c) ∧ c_now c' = c_now c ∧
  c_queue c' = c_queue c ++ replicate (length legs) tx ∧
  c_seq c' SPostings = c_seq c SPostings + Z.of_nat (length legs) ∧
  (∀ s, s ≠ SPostings → c_seq c' s = c_seq c s) ∧
  (legs ≠ [] → c_seq c SPostings + Z.of_nat (length legs) ≤ max_int64 + 1) ∧
  Forall (λ l, l_AmountMinor l ≠ 0 ∧ has_account (l_AccountID l) (c_tab c) = true) legs.
Proof.
  revert c ps c'; induction legs as [|l legs IH]; intros c ps c'; simpl.
  - intros [-> ->]%runs_ret. rewrite app_nil_r. split_and!; auto; [|lia|done].
    destruct (c_tab c). simpl. by rewrite app_nil_r.
  - intros (pd&c1&Hp&(pds&c2&Hk&[-> ->]%runs_ret)%runs_bind)%runs_bind.
    unfold create_posting in Hp.
    apply runs_bind in Hp as (p&c3&Hp%runs_exec%CreatePosting_inv&[-> ->]%runs_ret).
    destruct Hp as (->&->&Hs&Hamt&Hacc&_).
    apply IH in Hk as (->&Ht&Hn&Hq&Hs1&Hs2&Hs3&Hl). simpl in *.
    unfold bump in *. rewrite decide_True in * by done.
    rewrite Ht, Hn, Hq, Hs1. destruct (c_tab c) as [u a x ps' i s e o]; simpl.
    rewrite <- !app_assoc. simpl. split_and!; auto; [lia|..].
    + intros s' ?. rewrite Hs2 by done. by rewrite decide_False.
    + intros _. destruct legs; [simpl; lia|]. specialize (Hs3 ltac:(done)). simpl in *. lia.
Qed.

(** ** The shared tail: postings, event, stored response *)

Definition stored_rows (uid : Z) (key hash : string) (now : Z) (dto : TransactionDTO)
    (idems : list IdempotencyKey) : Prop :=
  (key = "" ∧ idems = []) ∨
  (key ≠ "" ∧ ∃ resp, marshal_dto dto = Some resp ∧ idems = [idem_row uid key hash resp now]).

Lemma mark_claimed uid key hash resp now l :
  Forall (λ i, idem_match uid key i = false) l →
  map (λ i, if idem_match uid key i && bool_decide (i_RequestHash i = hash)
            then mark_succeeded resp i else i)
    (l ++ [mkIdempotencyKey uid key hash "started" None now]) = l ++ [idem_row uid key hash resp now].
Proof.
  intros Hl. rewrite map_app. f_equal.
  - induction Hl as [|i l Hi _ IH]; simpl; [done|]. by rewrite Hi, IH.
  - simpl. unfold idem_match. simpl. rewrite Z.eqb_refl, !bool_decide_true by done. done.
Qed.

Lemma store_response_inv uid key hash dto c u c' old :
  claimed uid key hash old c → 
  ∀ c1, idempotency_keys (c_tab c1) = idempotency_keys (c_tab c) → c_now old = c_now c1 →
  runs (store_response uid key hash dto) c1 u c' →
  ∃ idems, stored_rows uid key hash (c_now old) dto idems ∧
    c' = on_tab (set_idem (λ _, idempotency_keys (c_tab old) ++ idems)) c1.
Proof.
  intros Hc c1 Hi Hn Hs. unfold store_response in Hs.
  destruct Hc as [->|Hk Hf Ht].
  - rewrite bool_decide_true in Hs by done. apply runs_ret in Hs as [_ ->].
    exists []. split; [by left|]. destruct c1 as [[] ???]. unfold on_tab. simpl in *.
    by rewrite app_nil_r, Hi.
  - rewrite bool_decide_false in Hs by done. inv_runs.
    match goal with H : marshal_dto _ = Some ?r |- _ => rename r into resp; rename H into Hm end.
    exists [idem_row uid key hash resp (c_now old)]. split; [right; eauto|].
    match goal with H : MarkIdempotencySuccess _ _ _ _ _ = _ |- _ => rename H into Hw end.
    injection Hw as <- <-. apply find_none_Forall in Hf.
    rewrite <- (mark_claimed uid key hash resp (c_now old) _ Hf).
    destruct c1 as [[] ???], old as [[] ???]. unfold on_tab in *. simpl in *. by subst.
Qed.

Definition new_rows (c0 : Conn) (x : Transaction) (legs : list Leg) : list Posting :=
  mk_postings (t_ID x) (c_now c0) (c_seq c0 SPostings) legs.

(** What both bodies have done when they reach their commit, from session [c0]. *)
Record Posted (c0 : Conn) (accs : list Account) (x : Transaction) (legs : list Leg)
    (kind key hash note : string) (dto : TransactionDTO) (c' : Conn) : Prop := {
  po_dto : dto = header_dto x note (default 0 (t_ReversalOf x)) (map posting_dto (new_rows c0 x legs));
  po_tab : ∃ idems payload,
    stored_rows (t_UserID x) key hash (c_now c0) dto idems ∧
    event_json (t_ReversalOf x) dto = Some payload ∧
    c_tab c' = posted (c_tab c0) accs x (new_rows c0 x legs) idems
                 (mkOutbox (c_seq c0 SOutbox) kind payload (c_now c0) None);
  po_key : key = "" ∨
    (key ≠ "" ∧ pg_text key = true ∧ find_idem (t_UserID x) key (c_tab c0) = None);
  po_queue : c_queue c' = c_queue c0 ++ replicate (length legs) (t_ID x);
  po_legs : Forall (λ l, l_AmountMinor l ≠ 0) legs;
  po_seq : ∀ s, c_seq c' s = c_seq c0 s +
    match s with
    | SAccounts => Z.of_nat (length accs) | STransactions => 1
    | SPostings => Z.of_nat (length legs) | SOutbox => 1 | _ => 0
    end;
  po_max : c_seq c' SAccounts ≤ Z.max (c_seq c0 SAccounts) (max_int64 + 1) ∧
    c_seq c' STransactions ≤ max_int64 + 1 ∧ c_seq c' SOutbox ≤ max_int64 + 1 ∧
    (legs ≠ [] → c_seq c' SPostings ≤ max_int64 + 1)
}.

(** The session after the key is claimed, the accounts added and the header
    inserted. *)
Record Headed (c0 c : Conn) (accs : list Account) (x : Transaction) (key hash : string)
    (c1 : Conn) : Prop := {
  he_claim : claimed (t_UserID x) key hash c0 c;
  he_tab : c_tab c1 = set_transactions (λ l, l ++ [x]) (set_accounts (λ l, l ++ accs) (c_tab c));
  he_now : c_now c1 = c_now c0;
  he_queue : c_queue c1 = c_queue c0;
  he_seq : ∀ s, c_seq c1 s = c_seq c0 s +
    match s with SAccounts => Z.of_nat (length accs) | STransactions => 1 | _ => 0 end;
  he_max : c_seq c1 SAccounts ≤ Z.max (c_seq c0 SAccounts) (max_int64 + 1) ∧
           c_seq c1 STransactions ≤ max_int64 + 1
}.

Definition post_tail {A} (x : Transaction) (legs : list Leg) (note : string) (rev : Z)
    (kind key hash : string) (uid : Z) (reversal_of : option Z) (a : A)
    : M TxS (outcome (TransactionDTO * A)) :=
  let! ps := mapM (create_posting (t_ID x)) legs in
  let dto := header_dto x note rev ps in
  let! event := or_fail ErrMarshal (event_json reversal_of dto) in
  exec (CreateOutboxEvent kind event) ;;;
  store_response uid key hash dto ;;;
  ret (Commit (dto, a)).

Lemma claimed_rows uid key hash c0 c :
  claimed uid key hash c0 c →
  c_now c = c_now c0 ∧ c_queue c = c_queue c0 ∧ c_seq c = c_seq c0 ∧
  (key = "" ∨ (key ≠ "" ∧ pg_text key = true ∧ find_idem uid key (c_tab c0) = None)) ∧
  ∃ idems, c_tab c = set_idem (λ l, l ++ idems) (c_tab c0).
Proof.
  intros [->|]; split_and!; auto 10.
  - exists []. destruct (c_tab c0). simpl. by rewrite app_nil_r.
  - eexists. done.
Qed.

Lemma post_tail_inv {A} c0 c accs x key hash c1 legs note kind (a : A) out c' :
  Headed c0 c accs x key hash c1 →
  runs (post_tail x legs note (default 0 (t_ReversalOf x)) kind key hash (t_UserID x)
          (t_ReversalOf x) a) c1 out c' →
  ∃ dto, out = Commit (dto, a) ∧ Posted c0 accs x legs kind key hash note dto c'.
Proof.
  intros [Hcl Ht Hn Hq Hs [Hm1 Hm2]] Hr. unfold post_tail in Hr.
  apply runs_bind in Hr as (ps&c2&Hps%create_postings_inv&Hr).
  destruct Hps as (->&Ht2&Hn2&Hq2&Hs2&Hs2'&Hmax&Hl). rewrite Hn, (Hs SPostings), Z.add_0_r in *.
  set (dto := header_dto x note _ _) in Hr.
  apply runs_bind in Hr as (ev&c3&[Hev ->]%runs_or_fail&Hr).
  apply runs_bind in Hr as (o&c4&(->&->&Hmo)%runs_exec%CreateOutboxEvent_inv&Hr).
  apply runs_bind in Hr as (u&c5&Hst&[-> ->]%runs_ret).
  exists dto. split; [done|].
  destruct (claimed_rows _ _ _ _ _ Hcl) as (_&_&_&Hkey&idems0&Hct).
  eapply (store_response_inv _ _ _ _ _ _ _ _ Hcl) in Hst as (idems&Hsr&->); cycle 1.
  { simpl. rewrite Ht2, Ht. destruct (c_tab c). done. }
  { simpl. congruence. }
  assert (∀ s, s ≠ SPostings → c_seq c2 s = c_seq c0 s +
    match s with SAccounts => Z.of_nat (length accs) | STransactions => 1 | _ => 0 end) as Hs3.
  { intros s ?. rewrite Hs2' by done. apply Hs. }
  split; simpl; auto.
  - exists idems, ev. split_and!; auto. rewrite Ht2, Ht, Hct, Hn2, Hs3 by done.
    rewrite Z.add_0_r. destruct (c_tab c0); simpl. done.
  - by rewrite Hq2, Hq.
  - eapply Forall_impl; [done|]. by intros ? [].
  - intros s. unfold bump. destruct (decide (s = SOutbox)) as [->|].
    + rewrite Hs3 by done. lia.
    + destruct (decide (s = SPostings)) as [->|]; [rewrite Hs2; lia|]. rewrite Hs3 by done.
      by destruct s.
  - unfold bump; simpl. rewrite Hs2.
    rewrite (Hs2' SAccounts), (Hs2' STransactions) by done.
    split_and!; [lia|lia|lia|]. intros ?%Hmax. lia.
Qed.

(** The external account of a session, and the rows it needs. *)
Inductive ext_rows (uid : Z) (cur : string) (c : Conn) : Z → list Account → Prop :=
  | ext_rows_found a : find_external uid (c_tab c) = Some a → ext_rows uid cur c (a_ID a) []
  | ext_rows_new a :
      find_external uid (c_tab c) = None →
      a = external_row (c_seq c SAccounts) uid cur (c_now c) →
      account_unique a (c_tab c) = true → pg_text cur = true →
      ext_rows uid cur c (c_seq c SAccounts) [a].

Inductive legs_rows (b : balancedInput) (c : Conn) : list Leg → list Account → Prop :=
  | legs_plain : b_UseExternalLeg b = false → legs_rows b c (b_Legs b) []
  | legs_external id accs :
      b_UseExternalLeg b = true → ext_rows (b_UserID b) (b_Currency b) c id accs →
      legs_rows b c (b_Legs b ++ [mkLeg id (wrap64 (- leg_sum (b_Legs b)))]) accs.

Definition header_row (c : Conn) (uid : Z) (cur : string) (occ : Time) (note : option string)
    (rev : option Z) : Transaction :=
  mkTransaction (c_seq c STransactions) uid cur (enc_ts (t_ns occ)) note (c_now c) None rev.

Definition created_header (b : balancedInput) (c : Conn) : Transaction :=
  header_row c (b_UserID b) (b_Currency b) (b_OccurredAt b) (note_param (b_Note b)) None.

(** A committed [createBalanced]. *)
Record Created (b : balancedInput) (c : Conn) (accs : list Account) (legs : list Leg)
    (dto : TransactionDTO) (c' : Conn) : Prop := {
  cr_posted : Posted c accs (created_header b c) legs "TransactionCreated" (b_IdempotencyKey b) (requestHash b)
                (b_Note b) dto c';
  cr_legs : legs_rows b c legs accs;
  cr_ok : Forall (leg_ok (b_UserID b) (b_Currency b)
                    (set_accounts (λ l, l ++ accs) (c_tab c))) legs;
  cr_user : has_user (b_UserID b) (c_tab c) = true;
  cr_text : pg_text (b_Currency b) = true ∧ pg_text (b_Note b) = true
}.

(** A replay: the stored response of a succeeded row with the same hash. *)
Definition Replayed (uid : Z) (key hash : string) (t : Tables) (d : TransactionDTO) : Prop :=
  key ≠ "" ∧ pg_text key = true ∧ ∃ i resp, find_idem uid key t = Some i ∧ i_RequestHash i = hash ∧
    i_Status i = "succeeded" ∧ i_ResponseJson i = Some resp ∧ unmarshal_dto resp = Some d.

Lemma resolve_legs_inv b c0 c legs c' :
  claimed (b_UserID b) (b_IdempotencyKey b) (requestHash b) c0 c →
  runs (resolve_legs b) c legs c' →
  ∃ accs, legs_rows b c0 legs accs ∧
    c_tab c' = set_accounts (λ l, l ++ accs) (c_tab c) ∧ c_now c' = c_now c ∧
    c_queue c' = c_queue c ∧ c_seq c' SAccounts ≤ Z.max (c_seq c0 SAccounts) (max_int64 + 1) ∧
    ∀ s, c_seq c' s = c_seq c s +
      match s with SAccounts => Z.of_nat (length accs) | _ => 0 end.
Proof.
  intros Hcl Hr. unfold resolve_legs in Hr.
  destruct (claimed_rows _ _ _ _ _ Hcl) as (Hn&Hq&Hs&_&idems&Ht).
  assert (∀ c, c_tab c = set_accounts (λ l, l ++ []) (c_tab c)) as Hnil.
  { intros [[] ???]. simpl. by rewrite app_nil_r. }
  destruct (b_UseExternalLeg b) eqn:Hext.
  - apply runs_bind in Hr as (id&c1&[accs Hx]%external_account_inv&[-> ->]%runs_ret).
    exists accs. destruct Hx as [a Hf|a Hf -> Hu Hh Hp Hm].
    + rewrite Hs. split_and!; auto; [|lia|by intros []; rewrite Z.add_0_r].
      apply legs_external; [done|]. constructor. by rewrite Ht in Hf; destruct (c_tab c0).
    + rewrite Ht, Hs, Hn in *. simpl. split_and!; auto.
      * apply legs_external; [done|]. eapply ext_rows_new; [|done| |done].
        -- by destruct (c_tab c0).
        -- by destruct (c_tab c0).
      * by rewrite Ht.
      * unfold bump. simpl. rewrite ?Hs. lia.
      * intros s. unfold bump. rewrite ?Hs. destruct (decide _) as [->|]; [done|].
        destruct s; simpl; by rewrite ?Z.add_0_r.
  - apply runs_ret in Hr as [-> ->]. exists []. rewrite Hs. split_and!; auto; [|lia|].
    + by constructor.
    + intros []; simpl; by rewrite Z.add_0_r.
Qed.

Lemma createBalanced_body_inv b c out c' :
  runs (createBalanced_body b) c out c' →
  (∃ d, out = Return (d, []) ∧
        Replayed (b_UserID b) (b_IdempotencyKey b) (requestHash b) (c_tab c) d) ∨
  (∃ accs legs dto, out = Commit (dto, legs) ∧ Created b c accs legs dto c').
Proof.
  intros (cached&c1&Hcl&Hr)%runs_bind. destruct cached as [d|].
  { apply runs_ret in Hr as [-> _]. left. exists d. split; [done|].
    by apply claim_replay in Hcl. }
  right. apply claim_fresh in Hcl.
  apply runs_bind in Hr as (legs&c2&Hl&Hr).
  apply (resolve_legs_inv _ _ _ _ _ Hcl) in Hl as (accs&Hrows&Ht2&Hn2&Hq2&Hm2&Hs2).
  apply runs_bind in Hr as (us&c3&[-> Hok]%check_legs_inv&Hr).
  apply runs_bind in Hr as (x&c4&Hx%runs_exec%CreateTransactionHeader_inv&Hr).
  destruct Hx as (->&->&Hmx&Hp1&Hp2&Hu&_&_).
  destruct (claimed_rows _ _ _ _ _ Hcl) as (Hn&Hq&Hs&_&idems&Ht).
  set (x := header_row c (b_UserID b) (b_Currency b) (b_OccurredAt b) (note_param (b_Note b)) None).
  assert (mkTransaction (c_seq c2 STransactions) (b_UserID b) (b_Currency b)
    (enc_ts (t_ns (b_OccurredAt b))) (note_param (b_Note b)) (c_now c2) None None = x) as Hx.
  { unfold x, header_row. f_equal; [rewrite Hs2, Hs; lia|congruence]. }
  rewrite Hx in Hr.
  eapply (post_tail_inv c c1 accs x) in Hr as (dto&->&Hpo).
  - exists accs, legs, dto. split; [done|]. split; [done|done| | |].
    + eapply Forall_impl; [done|]. intros l. rewrite Ht2, Ht. by destruct (c_tab c).
    + rewrite Ht2, Ht in Hu. by destruct (c_tab c).
    + split; [done|]. revert Hp2. unfold note_param. case_bool_decide as E; [by rewrite E|done].
  - split; simpl; [done| |congruence|congruence| |].
    + by rewrite Ht2.
    + intros s. unfold bump. destruct (decide _) as [->|]; [rewrite Hs2, Hs; lia|].
      rewrite Hs2, Hs. by destruct s.
    + unfold bump. simpl. split; [|lia]. done.
Qed.

Definition find_tx (id uid : Z) (t : Tables) : option Transaction :=
  find (λ x, (t_ID x =? id) && (t_UserID x =? uid)) (transactions t).

Definition tx_postings (id : Z) (t : Tables) : list Posting :=
  List.filter (λ p, p_TransactionID p =? id) (postings t).

Definition reversal_leg (p : Posting) : Leg := mkLeg (p_AccountID p) (wrap64 (- p_AmountMinor p)).

Definition reversal_header (clock : Z) (r : ReverseInput) (orig : Transaction) (c : Conn)
    : Transaction :=
  header_row c (ri_UserID r) (t_Currency orig) (mkTime clock 0)
    (Some (reversal_note (t_ID orig))) (Some (t_ID orig)).

(** A committed [Reverse]. *)
Record Reversed (clock : Z) (r : ReverseInput) (c : Conn) (orig : Transaction)
    (ps : list Posting) (dto : TransactionDTO) (c' : Conn) : Prop := {
  rv_orig : find_tx (ri_TransactionID r) (ri_UserID r) (c_tab c) = Some orig;
  rv_plain : t_ReversalOf orig = None;
  rv_ps : ps = merge_sort (asc p_ID) (tx_postings (t_ID orig) (c_tab c));
  rv_some : ps ≠ [];
  rv_posted : Posted c [] (reversal_header clock r orig c) (map reversal_leg ps) "TransactionReversed"
                (ri_IdempotencyKey r) (reverseHash r) (reversal_note (t_ID orig)) dto c';
  rv_first : Forall (λ y, t_ReversalOf y ≠ Some (t_ID orig)) (transactions (c_tab c));
  rv_user : has_user (ri_UserID r) (c_tab c) = true;
  rv_text : pg_text (t_Currency orig) = true
}.

Lemma Reverse_body_inv clock r c out c' :
  runs (Reverse_body clock r) c out c' →
  (∃ d y, out = Return (d, y) ∧
        Replayed (ri_UserID r) (ri_IdempotencyKey r) (reverseHash r) (c_tab c) d) ∨
  (∃ orig ps dto, out = Commit (dto, (orig, ps)) ∧ Reversed clock r c orig ps dto c').
Proof.
  intros (cached&c1&Hcl&Hr)%runs_bind. destruct cached as [d|].
  { apply runs_ret in Hr as [-> _]. left. eexists d, _. split; [done|].
    by apply claim_replay in Hcl. }
  right. apply claim_fresh in Hcl.
  destruct (claimed_rows _ _ _ _ _ Hcl) as (Hn&Hq&Hs&_&idems&Ht).
  apply runs_bind in Hr as (ro&c2&Ho&Hr).
  apply runs_attempt in Ho as [Ho| ->]; [|simpl in Hr; inv_runs].
  apply read_inv in Ho as [-> ->].
  fold (find_tx (ri_TransactionID r) (ri_UserID r) (c_tab c1)) in Hr.
  destruct (find_tx _ _ _) as [orig|] eqn:Hfo; simpl in Hr; [|inv_runs].
  case_bool_decide as Hrev; [inv_runs|]. rewrite <- eq_None_not_Some in Hrev.
  apply runs_bind in Hr as (ps&c3&[Hps ->]%runs_exec%read_inv&Hr). injection Hps as Hps.
  destruct ps as [|p0 ps0]; [inv_runs|]. set (ps := p0 :: ps0) in *.
  apply runs_bind in Hr as (rh&c4&Hx&Hr).
  apply runs_attempt in Hx as [Hx| ->]; [|simpl in Hr; inv_runs].
  destruct rh as [x|e]; [|destruct (isUniqueViolation e); inv_runs].
  apply CreateTransactionHeader_inv in Hx as (->&->&Hmx&Hp1&_&Hu&_&Hfirst).
  destruct (Hfirst _ eq_refl) as [_ Hf].
  set (x := header_row c (ri_UserID r) (t_Currency orig) (mkTime clock 0)
              (Some (reversal_note (t_ID orig))) (Some (t_ID orig))).
  assert (mkTransaction (c_seq c1 STransactions) (ri_UserID r) (t_Currency orig)
    (enc_ts (t_ns (mkTime clock 0))) (Some (reversal_note (t_ID orig))) (c_now c1) None
    (Some (t_ID orig)) = x) as Hx.
  { unfold x, header_row. by rewrite Hs, Hn. }
  rewrite Hx in Hr.
  eapply (post_tail_inv c c1 [] x) in Hr as (dto&->&Hpo).
  - exists orig, ps, dto. split; [done|]. rewrite Ht in *.
    split; try done; by destruct (c_tab c).
  - split; simpl; [done| |congruence|congruence| |].
    + destruct (c_tab c1). simpl. by rewrite app_nil_r.
    + intros s. unfold bump. rewrite Hs. destruct (decide _) as [->|]; [done|].
      destruct s; simpl; by rewrite ?Z.add_0_r.
    + unfold bump. rewrite Hs in *. simpl. split; lia.
Qed.

End spec.

Arguments po_dto {_ _ _ _ _ _ _ _ _ _ _} _.
Arguments po_tab {_ _ _ _ _ _ _ _ _ _ _} _.
Arguments po_key {_ _ _ _ _ _ _ _ _ _ _} _.
Arguments po_queue {_ _ _ _ _ _ _ _ _ _ _} _.
Arguments po_legs {_ _ _ _ _ _ _ _ _ _ _} _.
Arguments po_seq {_ _ _ _ _ _ _ _ _ _ _} _.
Arguments po_max {_ _ _ _ _ _ _ _ _ _ _} _.
Arguments cr_posted {_ _ _ _ _ _ _} _.
Arguments cr_legs {_ _ _ _ _ _ _} _.
Arguments cr_ok {_ _ _ _ _ _ _} _.
Arguments cr_user {_ _ _ _ _ _ _} _.
Arguments cr_text {_ _ _ _ _ _ _} _.
Arguments rv_orig {_ _ _ _ _ _ _ _} _.
Arguments rv_plain {_ _ _ _ _ _ _ _} _.
Arguments rv_ps {_ _ _ _ _ _ _ _} _.
Arguments rv_some {_ _ _ _ _ _ _ _} _.
Arguments rv_posted {_ _ _ _ _ _ _ _} _.
Arguments rv_first {_ _ _ _ _ _ _ _} _.
Arguments rv_user {_ _ _ _ _ _ _ _} _.
Arguments rv_text {_ _ _ _ _ _ _ _} _.
