(* ===== verification/Invariant.v ===== *)
(** * The ledger invariant

    What holds of the committed tables at every moment: identifiers, ownership
    and currency of postings, balance of every transaction, reversals, the
    idempotency registry and the outbox.  [post_ok] shows that adding the rows of
    one ledger transaction keeps it. *)
From S2P Require Import Prelude GoTime Effects Json Store Queries World Summary Dto Transactions.
From S2P Require Import TxRun TxSpec.
Local Open Scope Z_scope.
Local Open Scope ledger_scope.

(** An identifier a sequence has given out. *)
Definition id_ok (q : Seqs) (s : serial) (id : Z) : Prop := 1 ≤ id < q s ∧ id ≤ max_int64.

Definition amounts (ps : list Posting) : Z := sumZ (map p_AmountMinor ps).

(** A posting is for an existing transaction, on an account of the same user that
    is the external account or has the transaction's currency. *)
Definition posting_ok (t : Tables) (p : Posting) : Prop :=
  ∃ x a, x ∈ transactions t ∧ t_ID x = p_TransactionID p ∧
         a ∈ accounts t ∧ a_ID a = p_AccountID p ∧ a_UserID a = t_UserID x ∧
         (a_Kind a = "external" ∨ a_Currency a = t_Currency x).

(** [x] is the reversal of [y]: same owner and currency, every amount negated. *)
Definition reverses (t : Tables) (x y : Transaction) : Prop :=
  t_ReversalOf y = None ∧ t_UserID y = t_UserID x ∧ t_Currency y = t_Currency x ∧
  map (λ p, (p_AccountID p, p_AmountMinor p)) (tx_postings (t_ID x) t) =
  map (λ p, (p_AccountID p, - p_AmountMinor p)) (tx_postings (t_ID y) t).

Section invariant.
Context `{Env}.

(** The response the service gives for a transaction. *)
Definition tx_dto (t : Tables) (x : Transaction) : TransactionDTO :=
  header_dto x (default "" (t_Note x)) (default 0 (t_ReversalOf x))
    (map posting_dto (tx_postings (t_ID x) t)).

(** The event the outbox holds for a transaction. *)
Definition tx_event (t : Tables) (x : Transaction) : string * option json :=
  (if t_ReversalOf x is Some _ then "TransactionReversed" else "TransactionCreated",
   event_json (t_ReversalOf x) (tx_dto t x)).

(** An idempotency row holds the response of a transaction of its user. *)
Definition idem_ok (t : Tables) (i : IdempotencyKey) : Prop :=
  i_Key i ≠ "" ∧ i_Status i = "succeeded" ∧
  ∃ resp x, i_ResponseJson i = Some resp ∧ x ∈ transactions t ∧ t_UserID x = i_UserID i ∧
            unmarshal_dto resp = Some (tx_dto t x).

Record LedgerOK (t : Tables) (q : Seqs) : Prop := {
  ok_seq : ∀ s, 1 ≤ q s;
  ok_users : Forall (λ u, id_ok q SUsers (u_ID u)) (users t);
  ok_accounts : Forall (λ a, id_ok q SAccounts (a_ID a)) (accounts t);
  ok_account_ids : NoDup (map a_ID (accounts t));
  ok_names : NoDup (map (λ a, (a_UserID a, a_Name a)) (accounts t));
  ok_external : NoDup (map a_UserID
                  (List.filter (λ a, bool_decide (a_Kind a = "external")) (accounts t)));
  ok_txs : Forall (λ x, id_ok q STransactions (t_ID x) ∧ has_user (t_UserID x) t = true)
             (transactions t);
  ok_tx_ids : NoDup (map t_ID (transactions t));
  ok_postings : Forall (λ p, id_ok q SPostings (p_ID p)) (postings t);
  ok_sorted : StronglySorted Z.lt (map p_ID (postings t));
  ok_amounts : Forall (λ p, p_AmountMinor p ≠ 0 ∧ - max_int64 ≤ p_AmountMinor p ≤ max_int64)
                 (postings t);
  ok_posting : Forall (posting_ok t) (postings t);
  ok_some : Forall (λ x, tx_postings (t_ID x) t ≠ []) (transactions t);
  ok_balanced : Forall (λ x, amounts (tx_postings (t_ID x) t) = 0) (transactions t);
  ok_reversals : ∀ x r, x ∈ transactions t → t_ReversalOf x = Some r →
                 ∃ y, y ∈ transactions t ∧ t_ID y = r ∧ reverses t x y;
  ok_once : NoDup (omap t_ReversalOf (transactions t));
  ok_keys : NoDup (map (λ i, (i_UserID i, i_Key i)) (idempotency_keys t));
  ok_idem : Forall (idem_ok t) (idempotency_keys t);
  ok_outbox : map (λ o, (o_EventType o, Some (o_Payload o))) (outbox t)
              = map (tx_event t) (transactions t);
  ok_outbox_ids : Forall (λ o, id_ok q SOutbox (o_ID o)) (outbox t) ∧ NoDup (map o_ID (outbox t))
}.

(** ** Generic facts *)

Lemma id_ok_mono q q' s id : id_ok q s id → q s ≤ q' s → id_ok q' s id.
Proof. unfold id_ok. lia. Qed.

Lemma NoDup_snoc {A} (l : list A) a : NoDup l → a ∉ l → NoDup (l ++ [a]).
Proof. intros Hl Ha. apply NoDup_app. split; [done|]. split; [set_solver|apply NoDup_singleton]. Qed.

Lemma NoDup_map_inj {A B} (f : A → B) l a b :
  NoDup (map f l) → a ∈ l → b ∈ l → f a = f b → a = b.
Proof.
  induction l as [|x l IH]; simpl; [set_solver|]. intros [Hx Hl]%NoDup_cons Ha Hb E.
  apply elem_of_cons in Ha as [-> |Ha], Hb as [-> |Hb]; auto.
  - destruct Hx. rewrite E. by apply list_elem_of_fmap_2.
  - destruct Hx. rewrite <- E. by apply list_elem_of_fmap_2.
Qed.

Lemma fresh_not_in {A} (f : A → Z) l q s :
  Forall (λ a, id_ok q s (f a)) l → q s ∉ map f l.
Proof.
  intros Hl (a&Ha&Hin)%list_elem_of_fmap. rewrite Forall_forall in Hl.
  apply Hl in Hin. unfold id_ok in Hin. lia.
Qed.

Lemma filter_none {A} (f : A → bool) l : Forall (λ a, f a = false) l → List.filter f l = [].
Proof. induction 1 as [|a l Ha _ IH]; simpl; [done|]. by rewrite Ha. Qed.

Lemma filter_all {A} (f : A → bool) l : Forall (λ a, f a = true) l → List.filter f l = l.
Proof. induction 1 as [|a l Ha _ IH]; simpl; [done|]. by rewrite Ha, IH. Qed.

Lemma elem_of_filter {A} (f : A → bool) l a : a ∈ List.filter f l ↔ f a = true ∧ a ∈ l.
Proof. rewrite !list_elem_of_In, filter_In. tauto. Qed.

Lemma filter_Permutation {A} (f : A → bool) (l1 l2 : list A) :
  l1 ≡ₚ l2 → List.filter f l1 ≡ₚ List.filter f l2.
Proof.
  induction 1 as [|a l1 l2 _ IH|a b l|l1 l2 l3 _ IH1 _ IH2]; simpl.
  - done.
  - destruct (f a); [by constructor|done].
  - destruct (f a), (f b); try done. constructor.
  - by etrans.
Qed.

Lemma filter_filter {A} (f g : A → bool) l :
  List.filter f (List.filter g l) = List.filter (λ a, g a && f a) l.
Proof.
  induction l as [|a l IH]; simpl; [done|]. destruct (g a); simpl; [|done].
  destruct (f a); by rewrite IH.
Qed.

Lemma NoDup_map_filter {A B} (g : A → B) (f : A → bool) l :
  NoDup (map g l) → NoDup (map g (List.filter f l)).
Proof.
  induction l as [|a l IH]; simpl; [done|]. intros [Ha Hl]%NoDup_cons.
  destruct (f a); simpl; [|auto]. constructor; [|auto].
  intros (b&Hb&[_ Hin]%elem_of_filter)%list_elem_of_fmap. destruct Ha. rewrite Hb.
  by apply list_elem_of_fmap_2.
Qed.

(** ** The new postings *)

Lemma mk_postings_tx tx now id legs :
  Forall (λ p, p_TransactionID p = tx ∧ p_CreatedAt p = now) (mk_postings tx now id legs).
Proof. revert id; induction legs as [|l legs IH]; intros id; simpl; auto. Qed.

Lemma mk_postings_legs tx now id legs :
  map (λ p, mkLeg (p_AccountID p) (p_AmountMinor p)) (mk_postings tx now id legs) = legs.
Proof.
  revert id; induction legs as [|[a z] legs IH]; intros id; simpl; [done|]. by rewrite IH.
Qed.

Lemma mk_postings_ids tx now id legs :
  Forall (λ p, id ≤ p_ID p < id + Z.of_nat (length legs)) (mk_postings tx now id legs).
Proof.
  revert id; induction legs as [|l legs IH]; intros id; simpl; constructor; simpl; [lia|].
  eapply Forall_impl; [apply IH|]. simpl. intros. lia.
Qed.

Lemma mk_postings_sorted tx now id legs :
  StronglySorted Z.lt (map p_ID (mk_postings tx now id legs)).
Proof.
  revert id; induction legs as [|l legs IH]; intros id; simpl; constructor; [apply IH|].
  rewrite Forall_map. eapply Forall_impl; [apply mk_postings_ids|]. simpl. intros. lia.
Qed.

Lemma mk_postings_Forall (P : Leg → Prop) tx now id legs :
  Forall P legs →
  Forall (λ p, P (mkLeg (p_AccountID p) (p_AmountMinor p))) (mk_postings tx now id legs).
Proof.
  intros Hl. rewrite <- (mk_postings_legs tx now id legs) in Hl. by rewrite Forall_map in Hl.
Qed.

Lemma mk_postings_amounts tx now id legs :
  amounts (mk_postings tx now id legs) = sumZ (map l_AmountMinor legs).
Proof.
  unfold amounts. rewrite <- (mk_postings_legs tx now id legs) at 2. by rewrite map_map.
Qed.

Lemma mk_postings_nil tx now id legs : mk_postings tx now id legs = [] ↔ legs = [].
Proof. by destruct legs. Qed.

Lemma StronglySorted_app_Z l1 l2 b :
  StronglySorted Z.lt l1 → StronglySorted Z.lt l2 →
  Forall (λ z, z < b) l1 → Forall (λ z, b ≤ z) l2 → StronglySorted Z.lt (l1 ++ l2).
Proof.
  intros H1 H2 Hl Hr. induction H1 as [|z l1 _ IH Hz]; simpl; [done|].
  apply Forall_cons in Hl as [Hz' Hl]. constructor; [auto|].
  apply Forall_app. split; [done|]. eapply Forall_impl; [done|]. simpl. lia.
Qed.

(** ** Tables that only grew *)

(** [t'] has the rows of [t], more accounts and transactions, and the same postings
    for the transactions of [t]. *)
Record extends (t t' : Tables) : Prop := {
  ex_accounts : ∀ a, a ∈ accounts t → a ∈ accounts t';
  ex_txs : ∀ x, x ∈ transactions t → x ∈ transactions t';
  ex_postings : ∀ x, x ∈ transactions t → tx_postings (t_ID x) t' = tx_postings (t_ID x) t
}.

Lemma tx_dto_extends t t' x : extends t t' → x ∈ transactions t → tx_dto t' x = tx_dto t x.
Proof. intros He Hx. unfold tx_dto. by rewrite (ex_postings _ _ He). Qed.

Lemma tx_event_extends t t' x : extends t t' → x ∈ transactions t → tx_event t' x = tx_event t x.
Proof. intros He Hx. unfold tx_event. by rewrite (tx_dto_extends _ _ _ He). Qed.

Lemma posting_ok_extends t t' p : extends t t' → posting_ok t p → posting_ok t' p.
Proof. intros [Ha Hx _] (x&a&?&?&?&?&?&?). exists x, a. auto 10. Qed.

Lemma idem_ok_extends t t' i : extends t t' → idem_ok t i → idem_ok t' i.
Proof.
  intros He (?&?&resp&x&?&?&?&Hu). split_and!; [done..|]. exists resp, x.
  rewrite (tx_dto_extends _ _ _ He) by done. split_and!; auto. by apply He.
Qed.

Lemma reverses_extends t t' x y :
  extends t t' → x ∈ transactions t → y ∈ transactions t → reverses t x y → reverses t' x y.
Proof.
  intros He Hx Hy. unfold reverses. by rewrite !(ex_postings _ _ He) by done.
Qed.

End invariant.

Arguments ok_seq {_ _ _} _.
Arguments ok_users {_ _ _} _.
Arguments ok_accounts {_ _ _} _.
Arguments ok_account_ids {_ _ _} _.
Arguments ok_names {_ _ _} _.
Arguments ok_external {_ _ _} _.
Arguments ok_txs {_ _ _} _.
Arguments ok_tx_ids {_ _ _} _.
Arguments ok_postings {_ _ _} _.
Arguments ok_sorted {_ _ _} _.
Arguments ok_amounts {_ _ _} _.
Arguments ok_posting {_ _ _} _.
Arguments ok_some {_ _ _} _.
Arguments ok_balanced {_ _ _} _.
Arguments ok_reversals {_ _ _} _.
Arguments ok_once {_ _ _} _.
Arguments ok_keys {_ _ _} _.
Arguments ok_idem {_ _ _} _.
Arguments ok_outbox {_ _ _} _.
Arguments ok_outbox_ids {_ _ _} _.
Arguments ex_accounts {_ _} _.
Arguments ex_txs {_ _} _.
Arguments ex_postings {_ _} _.
