(* ===== verification/Posting.v ===== *)
(** * Adding a ledger transaction keeps the invariant

    One section for what [createBalanced] and [Reverse] share: from a session
    that satisfies the invariant, the rows of a [Posted] transaction whose legs
    are owned, balanced and in range lead to tables that satisfy it again. *)
From S2P Require Import Prelude GoTime Effects Json JsonStruct Store Queries World Summary Dto.
From S2P Require Import Transactions TxRun TxSpec Invariant.
Local Open Scope Z_scope.
Local Open Scope ledger_scope.

Definition leg_range (l : Leg) : Prop :=
  l_AmountMinor l ≠ 0 ∧ - max_int64 ≤ l_AmountMinor l ≤ max_int64.

Definition leg_owned (uid : Z) (cur : string) (accs : list Account) (l : Leg) : Prop :=
  ∃ a, a ∈ accs ∧ a_ID a = l_AccountID l ∧ a_UserID a = uid ∧
       (a_Kind a = "external" ∨ a_Currency a = cur).

Section post.
Context `{Env} `{!EnvOK}.
Context (c c' : Conn) (accs : list Account) (x : Transaction) (legs : list Leg)
  (kind key hash note : string) (dto : TransactionDTO).

(** What the caller of the shared part guarantees. *)
Record Postable : Prop := {
  pa_user : has_user (t_UserID x) (c_tab c) = true;
  pa_note : note = default "" (t_Note x);
  pa_text : utf8_ok (t_Currency x) = true ∧ utf8_ok note = true;
  pa_kind : kind = if t_ReversalOf x is Some _ then "TransactionReversed" else "TransactionCreated";
  pa_accs : accs = [] ∨ ∃ a, accs = [a] ∧ a_ID a = c_seq c SAccounts ∧
                             c_seq c' SAccounts ≤ max_int64 + 1 ∧ account_unique a (c_tab c) = true;
  pa_some : legs ≠ [];
  pa_sum : sumZ (map l_AmountMinor legs) = 0;
  pa_range : Forall leg_range legs;
  pa_owned : Forall (leg_owned (t_UserID x) (t_Currency x) (accounts (c_tab c) ++ accs)) legs;
  pa_reversal : ∀ r, t_ReversalOf x = Some r →
    Forall (λ y, t_ReversalOf y ≠ Some r) (transactions (c_tab c)) ∧
    ∃ y, y ∈ transactions (c_tab c) ∧ t_ID y = r ∧ t_ReversalOf y = None ∧
         t_UserID y = t_UserID x ∧ t_Currency y = t_Currency x ∧
         map (λ l, (l_AccountID l, l_AmountMinor l)) legs =
         map (λ p, (p_AccountID p, - p_AmountMinor p)) (tx_postings r (c_tab c))
}.

Context (Hok : LedgerOK (c_tab c) (c_seq c)).
Context (Hpo : Posted c accs x legs kind key hash note dto c').
Context (Hid : t_ID x = c_seq c STransactions).

Abbreviation t := (c_tab c).
Abbreviation q := (c_seq c).
Abbreviation t' := (c_tab c').
Abbreviation new := (new_rows c x legs).

Lemma post_rows : ∃ idems payload,
  stored_rows (t_UserID x) key hash (c_now c) dto idems ∧
  event_json (t_ReversalOf x) dto = Some payload ∧
  t' = posted t accs x new idems (mkOutbox (q SOutbox) kind payload (c_now c) None).
Proof. exact (po_tab Hpo). Qed.

Lemma post_seq_le s : q s ≤ c_seq c' s.
Proof. rewrite (po_seq Hpo s). destruct s; lia. Qed.

Lemma old_id_ok s id : id_ok q s id → id_ok (c_seq c') s id.
Proof. intros. eapply id_ok_mono; [done|]. apply post_seq_le. Qed.

Lemma old_not_new y : y ∈ transactions t → t_ID y ≠ t_ID x.
Proof.
  intros Hy. rewrite Hid. pose proof (ok_txs Hok) as Hx.
  rewrite Forall_forall in Hx. destruct (Hx _ Hy) as [[? _] _]. lia.
Qed.

Lemma new_tx_false z : z ≠ t_ID x → Forall (λ p, (p_TransactionID p =? z) = false) new.
Proof.
  intros Hz. eapply Forall_impl; [apply mk_postings_tx|]. simpl. intros p [-> _]. lia.
Qed.

Lemma post_extends : extends t t'.
Proof.
  destruct post_rows as (idems&payload&_&_&->). split; simpl.
  - set_solver.
  - set_solver.
  - intros y Hy. unfold tx_postings. simpl. rewrite List.filter_app.
    rewrite (filter_none _ new), app_nil_r; [done|]. by apply new_tx_false, old_not_new.
Qed.

Lemma new_postings : tx_postings (t_ID x) t' = new.
Proof.
  destruct post_rows as (idems&payload&_&_&->). unfold tx_postings. simpl. rewrite List.filter_app.
  rewrite filter_none, filter_all; [done|..].
  - eapply Forall_impl; [apply mk_postings_tx|]. simpl. intros p [-> _]. lia.
  - eapply Forall_impl; [apply (ok_posting Hok)|]. simpl.
    intros p (y&_&Hy&<-&_). apply old_not_new in Hy. lia.
Qed.

Context (Hpa : Postable).

Lemma new_dto : tx_dto t' x = dto.
Proof.
  unfold tx_dto. rewrite new_postings, (po_dto Hpo), (pa_note Hpa). done.
Qed.

Lemma new_tx_max : q STransactions ≤ max_int64.
Proof.
  destruct (po_max Hpo) as (_&?&_).
  pose proof (po_seq Hpo STransactions). simpl in *. lia.
Qed.

Lemma user_int64 uid : has_user uid t = true → int64 uid.
Proof.
  intros (u&Hu&?)%existsb_In. pose proof (ok_users Hok) as Hus. rewrite Forall_forall in Hus.
  apply Hus in Hu. unfold id_ok in Hu. unfold int64, min_int64. lia.
Qed.

Lemma new_ids : Forall (λ p, id_ok (c_seq c') SPostings (p_ID p)) new.
Proof.
  eapply Forall_impl; [apply mk_postings_ids|]. simpl. intros p Hp.
  destruct (po_max Hpo) as (_&_&_&Hm). specialize (Hm (pa_some Hpa)).
  pose proof (po_seq Hpo SPostings) as Hs. simpl in Hs.
  pose proof (ok_seq Hok SPostings). unfold id_ok. lia.
Qed.

Lemma id_ok_int64 q0 s id : id_ok q0 s id → int64 id.
Proof. unfold id_ok, int64, min_int64. lia. Qed.

Lemma new_dto_ok : dto_ok dto.
Proof.
  rewrite (po_dto Hpo). destruct (pa_text Hpa) as [Hc Hn].
  pose proof new_tx_max. pose proof (ok_seq Hok STransactions).
  unfold dto_ok. simpl. split_and!; [| | |done|done|apply Local_offset_ok|apply Local_offset_ok|].
  - rewrite Hid. unfold int64, min_int64. lia.
  - by apply user_int64, (pa_user Hpa).
  - destruct (t_ReversalOf x) as [r|] eqn:Hr; simpl; [|unfold int64, min_int64, max_int64; lia].
    destruct (pa_reversal Hpa _ Hr) as (_&y&Hy&<-&_).
    pose proof (ok_txs Hok) as Hx. rewrite Forall_forall in Hx.
    destruct (Hx _ Hy) as [? _]. by eapply id_ok_int64.
  - rewrite Forall_map. pose proof new_ids as Hids.
    pose proof (mk_postings_Forall _ (t_ID x) (c_now c) (q SPostings) _ (pa_range Hpa)) as Hr.
    pose proof (mk_postings_Forall _ (t_ID x) (c_now c) (q SPostings) _ (pa_owned Hpa)) as Ho.
    rewrite Forall_forall in *. intros p Hp. simpl.
    specialize (Hids _ Hp). specialize (Hr _ Hp). destruct (Ho _ Hp) as (a&Ha&Hai&_). simpl in *.
    split_and!; [by eapply id_ok_int64| |destruct Hr as [_ Hr]; simpl in Hr; unfold int64, min_int64, max_int64 in *; lia].
    rewrite <- Hai. apply elem_of_app in Ha as [Ha|Ha].
    + pose proof (ok_accounts Hok) as Hac. rewrite Forall_forall in Hac.
      by eapply id_ok_int64, Hac.
    + pose proof (ok_seq Hok SAccounts).
      destruct (pa_accs Hpa) as [E|(a'&E&Ha'&Hm&_)]; rewrite E in Ha; [set_solver|].
      apply list_elem_of_singleton in Ha as ->. rewrite Ha'.
      pose proof (po_seq Hpo SAccounts) as Hs. rewrite E in Hs. simpl in Hs.
      unfold int64, min_int64. lia.
Qed.

(** ** Accounts *)

Lemma account_unique_inv (a : Account) (t0 : Tables) :
  account_unique a t0 = true → ∀ b, b ∈ accounts t0 →
  a_ID b ≠ a_ID a ∧ (a_UserID b = a_UserID a → a_Name b ≠ a_Name a) ∧
  (a_UserID b = a_UserID a → a_Kind b = "external" → a_Kind a ≠ "external").
Proof.
  unfold account_unique. rewrite negb_existsb, Forall_forall. intros Hu b Hb.
  specialize (Hu b Hb). simpl in Hu.
  destruct (Z.eqb_spec (a_ID b) (a_ID a)); [done|]. split; [done|].
  destruct (Z.eqb_spec (a_UserID b) (a_UserID a)); [|done]. simpl in Hu.
  repeat case_bool_decide; done.
Qed.

Lemma accounts_snoc (a : Account) (l : list Account) :
  let t0 := mkTables [] l [] [] [] [] [] [] in
  account_unique a t0 = true →
  NoDup (map a_ID l) → NoDup (map (λ a, (a_UserID a, a_Name a)) l) →
  NoDup (map a_UserID (List.filter (λ a, bool_decide (a_Kind a = "external")) l)) →
  NoDup (map a_ID (l ++ [a])) ∧ NoDup (map (λ a, (a_UserID a, a_Name a)) (l ++ [a])) ∧
  NoDup (map a_UserID (List.filter (λ a, bool_decide (a_Kind a = "external")) (l ++ [a]))).
Proof.
  intros t0 Hu0 H1 H2 H3. pose proof (account_unique_inv _ _ Hu0) as Hu. simpl in Hu.
  rewrite List.filter_app, !map_app. split_and!.
  - apply NoDup_snoc; [done|]. intros (b&Hb&Hin)%list_elem_of_fmap.
    by destruct (Hu b Hin) as [Hb' _].
  - apply NoDup_snoc; [done|]. intros (b&[= Hb1 Hb2]&Hin)%list_elem_of_fmap.
    destruct (Hu b Hin) as (_&Hb'&_). by apply Hb'.
  - simpl. case_bool_decide; simpl; [|by rewrite app_nil_r].
    apply NoDup_snoc; [done|]. intros (b&Hb&Hin)%list_elem_of_fmap.
    apply elem_of_filter in Hin as [Hk%bool_decide_eq_true Hin].
    destruct (Hu b Hin) as (_&_&Hb'). by apply Hb'.
Qed.

Lemma post_accounts :
  Forall (λ a, id_ok (c_seq c') SAccounts (a_ID a)) (accounts t') ∧
  NoDup (map a_ID (accounts t')) ∧
  NoDup (map (λ a, (a_UserID a, a_Name a)) (accounts t')) ∧
  NoDup (map a_UserID (List.filter (λ a, bool_decide (a_Kind a = "external")) (accounts t'))).
Proof.
  destruct post_rows as (idems&payload&_&_&->). simpl.
  pose proof (Forall_impl _ _ _ (ok_accounts Hok) (λ a, old_id_ok _ _)) as Hids.
  destruct (pa_accs Hpa) as [->|(a&Ea&Ha&Hm&Hu)].
  - rewrite !app_nil_r. split_and!; [done|apply (ok_account_ids Hok)|apply (ok_names Hok)|
      apply (ok_external Hok)].
  - rewrite Ea. split.
    + apply Forall_app. split; [done|]. constructor; [|done].
      pose proof (po_seq Hpo SAccounts) as Hs. rewrite Ea in Hs. simpl in Hs.
      pose proof (ok_seq Hok SAccounts). unfold id_ok. lia.
    + apply accounts_snoc; [done|apply (ok_account_ids Hok)|apply (ok_names Hok)|
        apply (ok_external Hok)].
Qed.

(** ** Postings and transactions *)

Lemma post_postings :
  Forall (λ p, id_ok (c_seq c') SPostings (p_ID p)) (postings t') ∧
  StronglySorted Z.lt (map p_ID (postings t')) ∧
  Forall (λ p, p_AmountMinor p ≠ 0 ∧ - max_int64 ≤ p_AmountMinor p ≤ max_int64) (postings t') ∧
  Forall (posting_ok t') (postings t').
Proof.
  pose proof post_extends as Hex. pose proof new_ids as Hnew.
  destruct post_rows as (idems&payload&_&_&E). rewrite E in *. simpl. split_and!.
  - apply Forall_app. split; [|done].
    eapply Forall_impl; [apply (ok_postings Hok)|]. intros p. apply old_id_ok.
  - rewrite map_app. apply (StronglySorted_app_Z _ _ (q SPostings)).
    + apply (ok_sorted Hok).
    + apply mk_postings_sorted.
    + rewrite Forall_map. eapply Forall_impl; [apply (ok_postings Hok)|].
      unfold id_ok. simpl. lia.
    + rewrite Forall_map. eapply Forall_impl; [apply mk_postings_ids|]. simpl. lia.
  - apply Forall_app. split; [apply (ok_amounts Hok)|].
    apply (mk_postings_Forall _ _ _ _ _ (pa_range Hpa)).
  - apply Forall_app. split.
    + eapply Forall_impl; [apply (ok_posting Hok)|]. intros p. by apply posting_ok_extends.
    + pose proof (mk_postings_Forall _ (t_ID x) (c_now c) (q SPostings) _ (pa_owned Hpa)) as Ho.
      pose proof (mk_postings_tx (t_ID x) (c_now c) (q SPostings) legs) as Ht.
      rewrite Forall_forall in *. intros p Hp.
      destruct (Ho p Hp) as (a&?&?&?&?). destruct (Ht p Hp) as [? _].
      exists x, a. simpl in *. split_and!; auto. set_solver.
Qed.

Lemma post_txs :
  Forall (λ x, id_ok (c_seq c') STransactions (t_ID x) ∧ has_user (t_UserID x) t' = true)
    (transactions t') ∧
  NoDup (map t_ID (transactions t')) ∧
  Forall (λ x, tx_postings (t_ID x) t' ≠ []) (transactions t') ∧
  Forall (λ x, amounts (tx_postings (t_ID x) t') = 0) (transactions t').
Proof.
  pose proof post_extends as Hex. pose proof new_postings as Hn.
  assert (transactions t' = transactions t ++ [x] ∧ users t' = users t) as [Ht Hus].
  { destruct post_rows as (?&?&_&_&->). done. }
  rewrite Ht. split_and!.
  - unfold has_user. rewrite Hus. apply Forall_app. split.
    + eapply Forall_impl; [apply (ok_txs Hok)|]. intros y [Hy ?]. split; [|done].
      by apply old_id_ok.
    + constructor; [|done]. split; [|apply (pa_user Hpa)]. pose proof new_tx_max.
      pose proof (ok_seq Hok STransactions). pose proof (po_seq Hpo STransactions).
      rewrite Hid. simpl in *. unfold id_ok. lia.
  - rewrite map_app. apply NoDup_snoc; [apply (ok_tx_ids Hok)|].
    intros (y&Hy&Hin)%list_elem_of_fmap. by apply (old_not_new y).
  - apply Forall_app. split.
    + pose proof (ok_some Hok) as Hs. rewrite Forall_forall in *. intros y Hy.
      rewrite (ex_postings Hex) by done. auto.
    + constructor; [|done]. rewrite Hn. intros ?%mk_postings_nil. by apply (pa_some Hpa).
  - apply Forall_app. split.
    + pose proof (ok_balanced Hok) as Hs. rewrite Forall_forall in *. intros y Hy.
      rewrite (ex_postings Hex) by done. auto.
    + constructor; [|done]. rewrite Hn. unfold new_rows. rewrite mk_postings_amounts.
      apply (pa_sum Hpa).
Qed.

Lemma post_reversals :
  (∀ y r, y ∈ transactions t' → t_ReversalOf y = Some r →
     ∃ z, z ∈ transactions t' ∧ t_ID z = r ∧ reverses t' y z) ∧
  NoDup (omap t_ReversalOf (transactions t')).
Proof.
  pose proof post_extends as Hex. pose proof new_postings as Hn.
  assert (transactions t' = transactions t ++ [x]) as Ht.
  { destruct post_rows as (?&?&_&_&->). done. }
  split.
  - intros y r Hy Hr. rewrite Ht in Hy. apply elem_of_app in Hy as [Hy|Hy].
    + destruct (ok_reversals Hok _ _ Hy Hr) as (z&?&?&?). exists z.
      split_and!; [by apply (ex_txs Hex)|done|by eapply reverses_extends].
    + apply list_elem_of_singleton in Hy as ->.
      destruct (pa_reversal Hpa _ Hr) as (_&z&Hz&Hzr&?&?&?&Hm). exists z.
      split_and!; [by apply (ex_txs Hex)|done|]. split_and!; [done..|].
      rewrite Hn, (ex_postings Hex), Hzr by done. rewrite <- Hm.
      rewrite <- (mk_postings_legs (t_ID x) (c_now c) (q SPostings) legs) at 2.
      by rewrite map_map.
  - rewrite Ht, omap_app. simpl. destruct (t_ReversalOf x) as [r|] eqn:Hr;
      [|rewrite app_nil_r; apply (ok_once Hok)].
    apply NoDup_snoc; [apply (ok_once Hok)|].
    intros (y&Hy&Hyr)%list_elem_of_omap. destruct (pa_reversal Hpa _ Hr) as [Hf _].
    rewrite Forall_forall in Hf. by apply (Hf y).
Qed.

(** ** Idempotency rows and the outbox *)

Lemma post_idem :
  NoDup (map (λ i, (i_UserID i, i_Key i)) (idempotency_keys t')) ∧
  Forall (idem_ok t') (idempotency_keys t').
Proof.
  pose proof post_extends as Hex. pose proof new_dto as Hd. pose proof new_dto_ok as Hdok.
  assert (Forall (idem_ok t') (idempotency_keys t)) as Hold.
  { eapply Forall_impl; [apply (ok_idem Hok)|]. intros i. by apply idem_ok_extends. }
  destruct post_rows as (idems&payload&Hst&_&E).
  assert (idempotency_keys t' = idempotency_keys t ++ idems ∧ x ∈ transactions t') as [-> Hx].
  { rewrite E. simpl. split; [done|set_solver]. }
  destruct Hst as [[-> ->]|(Hk&resp&Hm&->)].
  - rewrite app_nil_r. split; [apply (ok_keys Hok)|done].
  - rewrite map_app. split.
    + apply NoDup_snoc; [apply (ok_keys Hok)|]. intros (i&[= Hi1 Hi2]&Hi)%list_elem_of_fmap.
      destruct (po_key Hpo) as [|(_&_&Hf)]; [done|]. apply find_none_Forall in Hf.
      rewrite Forall_forall in Hf. specialize (Hf i Hi). unfold idem_match in Hf.
      rewrite <- Hi1, <- Hi2, Z.eqb_refl, bool_decide_true in Hf by done. done.
    + apply Forall_app. split; [done|]. constructor; [|done].
      split; [done|]. split; [done|]. exists resp, x. split_and!; [done..|].
      rewrite Hd. by apply unmarshal_marshal_dto.
Qed.

Lemma post_outbox :
  map (λ o, (o_EventType o, Some (o_Payload o))) (outbox t') = map (tx_event t') (transactions t') ∧
  Forall (λ o, id_ok (c_seq c') SOutbox (o_ID o)) (outbox t') ∧ NoDup (map o_ID (outbox t')).
Proof.
  pose proof post_extends as Hex. pose proof new_dto as Hd.
  destruct (ok_outbox_ids Hok) as [Hoi Hon].
  assert (map (tx_event t') (transactions t) = map (tx_event t) (transactions t)) as Hev.
  { apply map_ext_in. intros y Hy. apply tx_event_extends; [done|]. by apply list_elem_of_In. }
  destruct post_rows as (idems&payload&_&Hp&E).
  assert (outbox t' = outbox t ++ [mkOutbox (q SOutbox) kind payload (c_now c) None] ∧
          transactions t' = transactions t ++ [x]) as [-> ->] by by rewrite E.
  rewrite !map_app, Hev, <- (ok_outbox Hok). split_and!.
  - simpl. unfold tx_event. by rewrite Hd, Hp, (pa_kind Hpa).
  - apply Forall_app. split; [eapply Forall_impl; [done|]; intros o; apply old_id_ok|].
    constructor; [|done]. simpl. destruct (po_max Hpo) as (_&_&?&_).
    pose proof (po_seq Hpo SOutbox). pose proof (ok_seq Hok SOutbox). simpl in *.
    unfold id_ok. lia.
  - apply NoDup_snoc; [done|]. by apply fresh_not_in.
Qed.

Lemma post_ok : LedgerOK t' (c_seq c').
Proof.
  destruct post_accounts as (?&?&?&?), post_postings as (?&?&?&?), post_txs as (?&?&?&?),
    post_reversals as [??], post_idem as [??], post_outbox as [? ?].
  split; try done.
  - intros s. pose proof (ok_seq Hok s). pose proof (post_seq_le s). lia.
  - assert (users t' = users t) as -> by (destruct post_rows as (?&?&_&_&->); done).
    eapply Forall_impl; [apply (ok_users Hok)|]. intros u. apply old_id_ok.
Qed.

End post.
