(* ===== verification/Growth.v ===== *)
(** * Sequences never go back

    PostgreSQL does not roll sequences back, so a failed or rolled-back
    transaction may leave them advanced.  Every statement, every body and every
    service call only advances them; a table invariant that bounds identifiers by
    the sequences therefore survives a rollback. *)
From S2P Require Import Prelude GoTime Effects Json Store Queries World Summary Dto Transactions.
Local Open Scope Z_scope.
Local Open Scope ledger_scope.

Definition seq_le (q q' : Seqs) : Prop := ∀ s, q s ≤ q' s.

#[global] Instance seq_le_refl : Reflexive seq_le.
Proof. intros q s. lia. Qed.
#[global] Instance seq_le_trans : Transitive seq_le.
Proof. intros q1 q2 q3 H1 H2 s. specialize (H1 s). specialize (H2 s). lia. Qed.

Definition conn_le (c c' : Conn) : Prop := seq_le (c_seq c) (c_seq c').
Definition tx_le (s s' : TxS) : Prop := conn_le s.1 s'.1.

#[global] Instance conn_le_refl : Reflexive conn_le.
Proof. intros c. unfold conn_le. reflexivity. Qed.
#[global] Instance conn_le_trans : Transitive conn_le.
Proof. intros c1 c2 c3. unfold conn_le. apply seq_le_trans. Qed.
#[global] Instance tx_le_refl : Reflexive tx_le.
Proof. intros s. unfold tx_le. reflexivity. Qed.
#[global] Instance tx_le_trans : Transitive tx_le.
Proof. intros s1 s2 s3. unfold tx_le. apply conn_le_trans. Qed.

Abbreviation grows := (keeps conn_le).
Abbreviation tx_grows := (keeps tx_le).

Lemma grows_read {A} (f : Conn → result A) : grows (read f).
Proof. intros c. simpl. reflexivity. Qed.
Lemma grows_write f : grows (write f).
Proof. intros c. simpl. unfold conn_le. reflexivity. Qed.
Lemma grows_now : grows get_now.
Proof. intros c. simpl. reflexivity. Qed.
Lemma grows_enqueue tx : grows (enqueue_check tx).
Proof. intros c. simpl. unfold conn_le. reflexivity. Qed.
Lemma grows_nextval s : grows (nextval s).
Proof.
  intros c. unfold nextval. destruct (_ <=? _); simpl; [|reflexivity].
  intros s'. simpl. unfold bump. destruct (decide _) as [->|]; lia.
Qed.
Lemma grows_constraint e ok : grows (constraint e ok).
Proof. intros c. unfold constraint. destruct (ok _); simpl; reflexivity. Qed.
Lemma grows_text s : grows (text_param s).
Proof. apply grows_constraint. Qed.

#[export] Hint Resolve grows_read grows_write grows_now grows_enqueue grows_nextval
  grows_constraint grows_text : ledger.

Lemma grows_exec {A} (s : stmt A) : grows s → tx_grows (exec s).
Proof.
  intros Hs [c fs]. specialize (Hs c). unfold exec. destruct (pop fs) as [[] ?]; simpl.
  - by destruct (s c).
  - unfold tx_le. reflexivity.
  - by destruct (s c).
Qed.

Lemma grows_mapM {A B} (f : A → M TxS B) l : (∀ a, tx_grows (f a)) → tx_grows (mapM f l).
Proof. intros Hf. induction l; simpl; auto with ledger typeclass_instances. Qed.

Lemma grows_or_fail {A} e (o : option A) : tx_grows (or_fail e o).
Proof. destruct o; simpl; auto with ledger typeclass_instances. Qed.

#[export] Hint Resolve grows_exec grows_mapM grows_or_fail : ledger.

(** Case analysis down to binds of statements, then the database. *)
Ltac grow :=
  repeat first
    [ progress intros
    | apply keeps_bind; [apply _| |intros ?]
    | apply keeps_ret; apply _
    | apply keeps_fail; apply _
    | apply keeps_attempt
    | apply grows_exec
    | apply grows_mapM
    | solve [eauto with ledger typeclass_instances]
    | case_match ].

Section statements.
Context `{Env}.

Lemma grows_CreateExternalAccount uid cur : grows (CreateExternalAccount uid cur).
Proof. unfold CreateExternalAccount, insert_account. grow. Qed.
Lemma grows_CreateTransactionHeader uid cur cat occ note rev :
  grows (CreateTransactionHeader uid cur cat occ note rev).
Proof. unfold CreateTransactionHeader. grow. Qed.
Lemma grows_CreatePosting tx acc amt : grows (CreatePosting tx acc amt).
Proof. unfold CreatePosting. grow. Qed.
Lemma grows_InsertIdempotencyKey uid key hash : grows (InsertIdempotencyKey uid key hash).
Proof. unfold InsertIdempotencyKey. grow. Qed.
Lemma grows_CreateOutboxEvent kind payload : grows (CreateOutboxEvent kind payload).
Proof. unfold CreateOutboxEvent. grow. Qed.

Lemma grows_claim uid key hash : tx_grows (claimIdempotency uid key hash).
Proof. unfold claimIdempotency, GetIdempotency. grow; try apply grows_InsertIdempotencyKey; grow. Qed.

Lemma grows_store uid key hash dto : tx_grows (store_response uid key hash dto).
Proof. unfold store_response, MarkIdempotencySuccess. grow. Qed.

Lemma grows_create_posting tx l : tx_grows (create_posting tx l).
Proof. unfold create_posting. grow; try apply grows_CreatePosting; grow. Qed.

Lemma grows_check_leg uid cur l : tx_grows (check_leg uid cur l).
Proof. unfold check_leg, GetAccount. grow. Qed.

Lemma grows_resolve b : tx_grows (resolve_legs b).
Proof.
  unfold resolve_legs, external_account, GetExternalAccount.
  grow; try apply grows_CreateExternalAccount; grow.
Qed.

#[local] Hint Resolve grows_claim grows_store grows_create_posting grows_check_leg grows_resolve
  grows_CreateTransactionHeader grows_CreateOutboxEvent : ledger.

Lemma grows_createBalanced_body b : tx_grows (createBalanced_body b).
Proof. unfold createBalanced_body. grow. Qed.

Lemma grows_Reverse_body clock r : tx_grows (Reverse_body clock r).
Proof.
  unfold Reverse_body, GetTransactionForUser, ListPostingsByTransaction.
  grow.
Qed.

Context {R : Type}.

Lemma in_tx_grows {A} now (body : M TxS (outcome A)) (w : World R) :
  tx_grows body → seq_le (w_seq w) (w_seq (in_tx now body w).2).
Proof.
  intros Hb. unfold in_tx, do_commit. destruct (pop (w_faults w)) as [f fs].
  destruct f; simpl; [|reflexivity..].
  specialize (Hb (begin_conn now w, fs)). destruct (body _) as [[[a|a]|e] [c fs']]; simpl; [done| |done].
  destruct (pop fs') as [f2 fs2]. destruct f2; simpl; try done; by destruct (check_queue _ _) as [[]|].
Qed.

Lemma on_pool_grows {A} now (s : stmt A) (w : World R) :
  grows s → seq_le (w_seq w) (w_seq (on_pool now s w).2).
Proof.
  intros Hs. unfold on_pool. destruct (pop (w_faults w)) as [f fs].
  specialize (Hs (begin_conn now w)).
  destruct f; simpl; [|reflexivity|];
    destruct (s _) as [[a|e] c]; simpl; try done; by destruct (check_queue _ _) as [[]|].
Qed.

End statements.
