(* ===== verification/Ledger.v ===== *)
(** * The services keep the ledger invariant

    [Create], [Transfer] and [Reverse] keep [LedgerOK], whatever the request and
    whatever requests to the servers are lost.  The section [steps] relates each
    call to what it did to the tables. *)
From S2P Require Import Prelude GoTime Effects Json JsonStruct Store Queries World Summary Dto.
From S2P Require Import Transactions TxRun TxSpec Invariant Posting Growth.
Local Open Scope Z_scope.
Local Open Scope ledger_scope.

(** ** The deferred trigger *)

Lemma check_queue_balanced n tx t :
  check_queue (replicate (S n) tx) t = Ok () → amounts (tx_postings tx t) = 0.
Proof.
  simpl. unfold check_transaction_balanced, as_bigint, sum_amounts.
  fold (tx_postings tx t). fold (amounts (tx_postings tx t)).
  destruct (decide _); [|done]. destruct (Z.eqb_spec (amounts (tx_postings tx t)) 0); done.
Qed.

Lemma pg_text_utf8 s : pg_text s = true → utf8_ok s = true.
Proof. by intros [? _]%andb_prop. Qed.

Lemma find_account_owned uid cur t l :
  leg_ok uid cur t l → leg_owned uid cur (accounts t) l.
Proof. intros (a&[Ha Hid]%find_In&?&_&?). exists a. simpl in Hid. split_and!; auto. lia. Qed.

Section steps.
Context `{Env} `{!EnvOK}.

(** ** [createBalanced] *)

Section created.
Context (b : balancedInput) (c c' : Conn) (accs : list Account) (legs : list Leg)
  (dto : TransactionDTO).
Context (Hok : LedgerOK (c_tab c) (c_seq c)) (Hcr : Created b c accs legs dto c')
  (Hq : c_queue c = []) (Hck : check_queue (c_queue c') (c_tab c') = Ok ())
  (Hne : b_Legs b ≠ []).

Lemma created_legs : legs ≠ [].
Proof. destruct (cr_legs Hcr) as [|id ac]; [done|]. by destruct (b_Legs b). Qed.

(** The trigger has checked the exact sum. *)
Lemma created_sum : sumZ (map l_AmountMinor legs) = 0.
Proof.
  pose proof created_legs as Hl. rewrite (po_queue (cr_posted Hcr)), Hq in Hck.
  destruct legs as [|l0 ls] eqn:E; [done|]. rewrite <- E in *.
  rewrite <- (mk_postings_amounts (t_ID (created_header b c)) (c_now c) (c_seq c SPostings)).
  fold (new_rows c (created_header b c) legs).
  rewrite <- (new_postings _ _ _ _ _ _ _ _ _ _ Hok (cr_posted Hcr) eq_refl).
  apply (check_queue_balanced (length ls)). rewrite E in Hck. exact Hck.
Qed.

Lemma created_accs :
  accs = [] ∨ ∃ a, accs = [a] ∧ a_ID a = c_seq c SAccounts ∧
    c_seq c' SAccounts ≤ max_int64 + 1 ∧ account_unique a (c_tab c) = true.
Proof.
  destruct (po_max (cr_posted Hcr)) as (Hm&_). pose proof (po_seq (cr_posted Hcr) SAccounts) as Hs.
  destruct (cr_legs Hcr) as [|id ac _ [a Hf|a Hf Ha Hu _]]; auto.
  right. exists a. simpl in *. split_and!; auto; [by rewrite Ha|lia].
Qed.

Lemma created_postable :
  Forall leg_range legs →
  Postable c c' accs (created_header b c) legs "TransactionCreated" (b_Note b).
Proof.
  intros Hr. destruct (cr_text Hcr) as [Hc%pg_text_utf8 Hn%pg_text_utf8]. split; simpl.
  - apply (cr_user Hcr).
  - unfold note_param. by case_bool_decide as E; rewrite ?E.
  - done.
  - done.
  - apply created_accs.
  - apply created_legs.
  - apply created_sum.
  - done.
  - eapply Forall_impl; [apply (cr_ok Hcr)|]. intros l Hl.
    apply find_account_owned in Hl. by destruct (c_tab c).
  - done.
Qed.

Lemma created_ok : Forall leg_range legs → LedgerOK (c_tab c') (c_seq c').
Proof.
  intros Hr. eapply post_ok; [exact Hok|exact (cr_posted Hcr)|done|by apply created_postable].
Qed.

Lemma created_dto_ok : Forall leg_range legs → dto_ok dto.
Proof.
  intros Hr. eapply new_dto_ok; [exact Hok|exact (cr_posted Hcr)|done|by apply created_postable].
Qed.

End created.

(** The legs of the two kinds of request, once balanced, are within range. *)
Lemma create_range i c accs legs dto c' :
  int64 (ci_AmountMinor i) → ci_AmountMinor i ≠ 0 →
  Created (create_request i) c accs legs dto c' → sumZ (map l_AmountMinor legs) = 0 →
  Forall leg_range legs ∧ ∃ ext, legs = [mkLeg (ci_AccountID i) (ci_AmountMinor i);
                                         mkLeg ext (- ci_AmountMinor i)].
Proof.
  intros Hi Hnz Hcr Hs. destruct (cr_legs Hcr) as [He|ext ac _ _]; [done|]. simpl in *.
  unfold leg_sum in *. simpl in *. rewrite (wrap64_id (0 + _)) in * by (by rewrite Z.add_0_l).
  rewrite Z.add_0_l in *.
  assert (wrap64 (- ci_AmountMinor i) = - ci_AmountMinor i) as E by lia. rewrite E in *.
  pose proof (wrap64_range (- ci_AmountMinor i)) as Hr. rewrite E in Hr.
  unfold int64, min_int64, max_int64 in *. split; [|by eexists].
  repeat constructor; unfold leg_range, max_int64; simpl; lia.
Qed.

Lemma transfer_range i c accs legs dto c' :
  int64 (ti_AmountMinor i) → 0 < ti_AmountMinor i →
  Created (transfer_request i) c accs legs dto c' →
  Forall leg_range legs ∧ legs = [mkLeg (ti_FromAccountID i) (- ti_AmountMinor i);
                                  mkLeg (ti_ToAccountID i) (ti_AmountMinor i)].
Proof.
  intros Hi Hpos Hcr. destruct (cr_legs Hcr) as [_|ext ac He _]; [|done]. simpl.
  unfold int64, min_int64, max_int64 in Hi.
  rewrite wrap64_id by (unfold int64, min_int64, max_int64; lia). split; [|done].
  repeat constructor; unfold leg_range, max_int64; simpl; lia.
Qed.

(** ** [Reverse] *)

Lemma merge_sort_sorted (l : list Posting) :
  StronglySorted Z.lt (map p_ID l) → merge_sort (asc p_ID) l = l.
Proof.
  intros Hl. apply (StronglySorted_unique_strong (asc p_ID)).
  - intros p1 p2 Hp1 Hp2 H1 H2. unfold asc in *. assert (p_ID p1 = p_ID p2) as E by lia.
    rewrite (merge_sort_Permutation (asc p_ID) l) in Hp1.
    clear H1 H2. induction l as [|p l IH]; [set_solver|].
    simpl in Hl. apply StronglySorted_inv in Hl as [Hl Hf]. rewrite Forall_map, Forall_forall in Hf.
    apply elem_of_cons in Hp1 as [-> |Hp1], Hp2 as [-> |Hp2]; auto.
    + specialize (Hf _ Hp2). simpl in Hf. lia.
    + specialize (Hf _ Hp1). simpl in Hf. lia.
  - apply (StronglySorted_merge_sort _).
  - induction l as [|p l IH]; constructor; simpl in Hl; apply StronglySorted_inv in Hl as [Hl Hf];
      [auto|].
    rewrite Forall_map in Hf. eapply Forall_impl; [done|]. unfold asc. simpl. lia.
  - apply merge_sort_Permutation.
Qed.

Lemma sorted_filter (f : Posting → bool) l :
  StronglySorted Z.lt (map p_ID l) → StronglySorted Z.lt (map p_ID (List.filter f l)).
Proof.
  induction l as [|p l IH]; simpl; [done|]. intros [Hl Hf]%StronglySorted_inv.
  destruct (f p); simpl; [|auto]. constructor; [auto|].
  rewrite Forall_map, Forall_forall in *. intros a [_ Ha]%elem_of_filter. auto.
Qed.

Lemma reversal_note_utf8 id : utf8_ok (reversal_note id) = true.
Proof.
  unfold reversal_note. apply ascii_utf8_ok. rewrite ascii_text_app. apply andb_true_intro.
  split; [done|]. unfold ascii_text. apply int_literal_ascii, int_literal_itoa.
Qed.

Section reversed.
Context (clock : Z) (r : ReverseInput) (c c' : Conn) (orig : Transaction) (ps : list Posting)
  (dto : TransactionDTO).
Context (Hok : LedgerOK (c_tab c) (c_seq c)) (Hrv : Reversed clock r c orig ps dto c').

Lemma reversed_ps : ps = tx_postings (t_ID orig) (c_tab c).
Proof.
  rewrite (rv_ps Hrv). apply merge_sort_sorted, sorted_filter, (ok_sorted Hok).
Qed.

Lemma reversed_orig :
  orig ∈ transactions (c_tab c) ∧ t_ID orig = ri_TransactionID r ∧ t_UserID orig = ri_UserID r.
Proof. destruct (find_In _ _ _ (rv_orig Hrv)) as [? Hx]. simpl in Hx. split; [done|lia]. Qed.

Lemma reversed_range : Forall leg_range (map reversal_leg ps).
Proof.
  rewrite Forall_map, reversed_ps. pose proof (ok_amounts Hok) as Ha. rewrite Forall_forall in *.
  intros p [_ Hp]%elem_of_filter. specialize (Ha p Hp). unfold leg_range, reversal_leg. simpl.
  rewrite wrap64_id; unfold int64, min_int64, max_int64 in *; lia.
Qed.

Lemma reversed_amounts :
  map (λ l, (l_AccountID l, l_AmountMinor l)) (map reversal_leg ps) =
  map (λ p, (p_AccountID p, - p_AmountMinor p)) ps.
Proof.
  rewrite map_map. rewrite reversed_ps. apply map_ext_in. intros p Hp%list_elem_of_In.
  apply elem_of_filter in Hp as [_ Hp]. pose proof (ok_amounts Hok) as Ha.
  rewrite Forall_forall in Ha. specialize (Ha p Hp). simpl.
  rewrite wrap64_id; [done|]. unfold int64, min_int64, max_int64 in *. lia.
Qed.

Lemma reversed_sum : sumZ (map l_AmountMinor (map reversal_leg ps)) = 0.
Proof.
  pose proof (f_equal (map snd) reversed_amounts) as E. rewrite !map_map in E. simpl in E.
  rewrite map_map. simpl. rewrite E, <- (map_map p_AmountMinor Z.opp), sumZ_opp, reversed_ps.
  pose proof (ok_balanced Hok) as Hb. rewrite Forall_forall in Hb.
  destruct reversed_orig as [Ho _]. specialize (Hb _ Ho). unfold amounts in Hb. lia.
Qed.

Lemma reversed_owned :
  Forall (leg_owned (ri_UserID r) (t_Currency orig) (accounts (c_tab c))) (map reversal_leg ps).
Proof.
  rewrite Forall_map, reversed_ps. pose proof (ok_posting Hok) as Hp. rewrite Forall_forall in *.
  intros p [Htx Hin]%elem_of_filter. destruct (Hp p Hin) as (x&a&Hx&Hxi&Ha&Hai&Hau&Hcur).
  destruct reversed_orig as (Ho&_&Hu).
  assert (x = orig) as ->.
  { eapply (NoDup_map_inj t_ID); [apply (ok_tx_ids Hok)|done..|]. lia. }
  exists a. split_and!; auto; congruence.
Qed.

Lemma reversed_postable :
  Postable c c' [] (reversal_header clock r orig c) (map reversal_leg ps) "TransactionReversed"
    (reversal_note (t_ID orig)).
Proof.
  destruct reversed_orig as (Ho&_&Hu). pose proof (pg_text_utf8 _ (rv_text Hrv)) as Ht.
  split; simpl; auto.
  - apply (rv_user Hrv).
  - split; [done|apply reversal_note_utf8].
  - pose proof (rv_some Hrv). by destruct ps.
  - apply reversed_sum.
  - apply reversed_range.
  - rewrite app_nil_r. apply reversed_owned.
  - intros ? [= <-]. split; [apply (rv_first Hrv)|]. exists orig.
    split_and!; auto; [apply (rv_plain Hrv)|]. by rewrite reversed_amounts, <- reversed_ps.
Qed.

Lemma reversed_ok : LedgerOK (c_tab c') (c_seq c').
Proof.
  eapply post_ok; [exact Hok|exact (rv_posted Hrv)|done|apply reversed_postable].
Qed.

Lemma reversed_dto_ok : dto_ok dto.
Proof.
  eapply new_dto_ok; [exact Hok|exact (rv_posted Hrv)|done|apply reversed_postable].
Qed.

End reversed.

End steps.
