(* ===== verification/Services.v ===== *)
(** * The three ledger operations as steps on the world

    Each call either leaves the tables alone (an error, or the replay of a stored
    response) or commits one ledger transaction; in the second case the caller has
    its response, or an error when the reply to the commit was lost. *)
From S2P Require Import Prelude GoTime Effects Json JsonStruct Store Queries World Summary Dto.
From S2P Require Import Transactions TxRun TxSpec Invariant Posting Growth Ledger.
Local Open Scope Z_scope.
Local Open Scope ledger_scope.

Section services.
Context `{Env} {R : Type} `{!Redis R}.
Abbreviation W := (World R).

(** ** Cache invalidation touches only Redis and cannot fail *)

Definition redis_only {A} (m : M W A) : Prop := ∀ w,
  ∃ a, (m w).1 = Ok a ∧ w_tab (m w).2 = w_tab w ∧ w_seq (m w).2 = w_seq w.

Lemma redis_only_do f : redis_only (redis_do f).
Proof. intros w. unfold redis_do. destruct (pop _). simpl. by exists (). Qed.

Lemma redis_only_ret {A} (a : A) : redis_only (ret a).
Proof. intros w. by exists a. Qed.

Lemma redis_only_bind {A B} (m : M W A) (k : A → M W B) :
  redis_only m → (∀ a, redis_only (k a)) → redis_only (bind m k).
Proof.
  intros Hm Hk w. destruct (Hm w) as (a&E&Ht&Hs). unfold bind.
  destruct (m w) as [r w1]. simpl in *. subst r. destruct (Hk a w1) as (b&?&?&?).
  exists b. split_and!; congruence.
Qed.

Lemma redis_only_mapM {A B} (f : A → M W B) l : (∀ a, redis_only (f a)) → redis_only (mapM f l).
Proof.
  intros Hf. induction l; simpl; [apply redis_only_ret|].
  repeat (apply redis_only_bind; [done|intros ?]). apply redis_only_ret.
Qed.

Lemma redis_only_then {A B} (m : M W A) (b : B) w :
  redis_only m → ∃ w1, (m ;;; ret b) w = (Ok b, w1) ∧ w_tab w1 = w_tab w ∧ w_seq w1 = w_seq w.
Proof.
  intros Hm. destruct (Hm w) as (a&E&Ht&Hs). unfold bind. destruct (m w) as [r w1].
  simpl in *. subst r. by exists w1.
Qed.

Lemma invalidate_legs_only occ legs : redis_only (invalidate_legs occ legs).
Proof.
  apply redis_only_bind; [|intros; apply redis_only_ret].
  apply redis_only_mapM. intros l. apply redis_only_do.
Qed.

(** ** The cases of a call *)

Inductive createBalanced_case (now : Z) (b : balancedInput) (w : W)
    : result TransactionDTO → W → Prop :=
  | cb_error e w' :
      w_tab w' = w_tab w → seq_le (w_seq w) (w_seq w') →
      createBalanced_case now b w (Err e) w'
  | cb_replay d w' :
      w_tab w' = w_tab w → seq_le (w_seq w) (w_seq w') →
      Replayed (b_UserID b) (b_IdempotencyKey b) (requestHash b) (w_tab w) d →
      createBalanced_case now b w (Ok d) w'
  | cb_commit accs legs dto c r w' :
      Created b (begin_conn now w) accs legs dto c →
      check_queue (c_queue c) (c_tab c) = Ok () →
      w_tab w' = c_tab c → w_seq w' = c_seq c → r = Ok dto ∨ r = Err ErrConn →
      validateLegs (b_Legs b) (b_UseExternalLeg b) = Ok () →
      createBalanced_case now b w r w'.

Lemma createBalanced_cases now b w r w' :
  createBalanced now b w = (r, w') → createBalanced_case now b w r w'.
Proof.
  intros E. unfold createBalanced in E.
  destruct (validateLegs _ _) as [[]|e] eqn:Hv; [|injection E as <- <-; by constructor].
  pose proof (in_tx_grows now (createBalanced_body b) w (grows_createBalanced_body b)) as Hg.
  unfold bind at 1 in E.
  destruct (in_tx now (createBalanced_body b) w) as [ro w1] eqn:Ht. simpl in Hg.
  apply in_tx_cases in Ht as [_ [[Ht [[e ->]|(a&c&fs&fs'&Hb&->)]]|
    (a&c&fs&fs'&Hb&Hck&Ht&Hs&Hr)]].
  - injection E as <- <-. by apply cb_error.
  - destruct (createBalanced_body_inv b (begin_conn now w) (Return a) c) as
      [(d&[= ->]&Hrep)|(?&?&?&?&_)]; [by exists fs, fs'| |done].
    injection E as <- <-. by apply cb_replay.
  - destruct (createBalanced_body_inv b (begin_conn now w) (Commit a) c) as
      [(d&?&_)|(accs&legs&dto&[= ->]&Hcr)]; [by exists fs, fs'|done|].
    destruct Hr as [-> | ->]; [|injection E as <- <-; eapply cb_commit; eauto].
    destruct (redis_only_then (invalidate_legs (b_OccurredAt b) legs) dto w1
      (invalidate_legs_only _ _)) as (w2&E2&?&?).
    rewrite E2 in E. injection E as <- <-. eapply cb_commit; eauto; congruence.
Qed.

Inductive Reverse_case (now clock : Z) (i : ReverseInput) (w : W)
    : result TransactionDTO → W → Prop :=
  | rc_error e w' :
      w_tab w' = w_tab w → seq_le (w_seq w) (w_seq w') → Reverse_case now clock i w (Err e) w'
  | rc_replay d w' :
      w_tab w' = w_tab w → seq_le (w_seq w) (w_seq w') →
      Replayed (ri_UserID i) (ri_IdempotencyKey i) (reverseHash i) (w_tab w) d →
      Reverse_case now clock i w (Ok d) w'
  | rc_commit orig ps dto c r w' :
      Reversed clock i (begin_conn now w) orig ps dto c →
      check_queue (c_queue c) (c_tab c) = Ok () →
      w_tab w' = c_tab c → w_seq w' = c_seq c → r = Ok dto ∨ r = Err ErrConn →
      Reverse_case now clock i w r w'.

Lemma Reverse_cases now clock i w r w' :
  Reverse now clock i w = (r, w') → Reverse_case now clock i w r w'.
Proof.
  intros E. unfold Reverse in E.
  pose proof (in_tx_grows now (Reverse_body clock i) w (grows_Reverse_body clock i)) as Hg.
  unfold bind at 1 in E.
  destruct (in_tx now (Reverse_body clock i) w) as [ro w1] eqn:Ht. simpl in Hg.
  apply in_tx_cases in Ht as [_ [[Ht [[e ->]|(a&c&fs&fs'&Hb&->)]]|
    (a&c&fs&fs'&Hb&Hck&Ht&Hs&Hr)]].
  - injection E as <- <-. by apply rc_error.
  - destruct (Reverse_body_inv clock i (begin_conn now w) (Return a) c) as
      [(d&y&[= ->]&Hrep)|(?&?&?&?&_)]; [by exists fs, fs'| |done].
    injection E as <- <-. by apply rc_replay.
  - destruct (Reverse_body_inv clock i (begin_conn now w) (Commit a) c) as
      [(d&y&?&_)|(orig&ps&dto&[= ->]&Hcr)]; [by exists fs, fs'|done|].
    destruct Hr as [-> | ->]; [|injection E as <- <-; eapply rc_commit; eauto].
    match type of E with (?m ;;; _) _ = _ =>
      destruct (redis_only_then m dto w1) as (w2&E2&?&?) end.
    { apply redis_only_mapM. intros p. apply redis_only_bind; [|intros _]; apply redis_only_do. }
    rewrite E2 in E. injection E as <- <-. eapply rc_commit; eauto; congruence.
Qed.

(** ** Preservation *)

Lemma LedgerOK_mono t q q' : LedgerOK t q → seq_le q q' → LedgerOK t q'.
Proof.
  intros Hok Hle.
  assert (∀ s id, id_ok q s id → id_ok q' s id) as Hid.
  { intros s id Hi. by apply (id_ok_mono q). }
  split; try apply Hok.
  - intros s. pose proof (ok_seq Hok s). specialize (Hle s). lia.
  - eapply Forall_impl; [apply (ok_users Hok)|]. eauto.
  - eapply Forall_impl; [apply (ok_accounts Hok)|]. eauto.
  - eapply Forall_impl; [apply (ok_txs Hok)|]. intros x [? ?]. split; eauto.
  - eapply Forall_impl; [apply (ok_postings Hok)|]. eauto.
  - destruct (ok_outbox_ids Hok) as [Hi ?]. split; [|done]. eapply Forall_impl; [apply Hi|]. eauto.
Qed.

Definition world_ok (w : W) : Prop := LedgerOK (w_tab w) (w_seq w).

Lemma world_ok_same w w' :
  world_ok w → w_tab w' = w_tab w → seq_le (w_seq w) (w_seq w') → world_ok w'.
Proof. intros Hok Ht Hs. unfold world_ok. rewrite Ht. by eapply LedgerOK_mono. Qed.

Context `{!EnvOK}.

Lemma createBalanced_ok now b w r w' :
  world_ok w → b_Legs b ≠ [] →
  (∀ accs legs dto c, Created b (begin_conn now w) accs legs dto c →
     sumZ (map l_AmountMinor legs) = 0 → Forall leg_range legs) →
  createBalanced now b w = (r, w') → world_ok w'.
Proof.
  intros Hok Hne Hrange E%createBalanced_cases.
  destruct E as [e w' Ht Hs|d w' Ht Hs _|accs legs dto c r w' Hcr Hck Ht Hs _ _];
    [by eapply world_ok_same..|].
  unfold world_ok. rewrite Ht, Hs.
  pose proof (created_sum b (begin_conn now w) c accs legs dto Hok Hcr eq_refl Hck Hne) as Hsum.
  eapply (created_ok b (begin_conn now w)); eauto.
Qed.

Lemma Create_ok now i w r w' :
  world_ok w → int64 (ci_AmountMinor i) → Create now i w = (r, w') → world_ok w'.
Proof.
  intros Hok Hi E. unfold Create in E. destruct (Z.eqb_spec (ci_AmountMinor i) 0).
  { by injection E as <- <-. }
  eapply createBalanced_ok; [done| | |done]; [done|].
  intros accs legs dto c Hcr Hs. by eapply create_range.
Qed.

Lemma Transfer_ok now i w r w' :
  world_ok w → int64 (ti_AmountMinor i) → Transfer now i w = (r, w') → world_ok w'.
Proof.
  intros Hok Hi E. unfold Transfer in E. destruct (Z.leb_spec (ti_AmountMinor i) 0).
  { by injection E as <- <-. }
  destruct (_ =? _); [by injection E as <- <-|].
  eapply createBalanced_ok; [done| | |done]; [done|].
  intros accs legs dto c Hcr Hs. by eapply transfer_range.
Qed.

Lemma Reverse_ok now clock i w r w' :
  world_ok w → Reverse now clock i w = (r, w') → world_ok w'.
Proof.
  intros Hok E%Reverse_cases.
  destruct E as [e w' Ht Hs|d w' Ht Hs _|orig ps dto c r w' Hrv Hck Ht Hs _];
    [by eapply world_ok_same..|].
  unfold world_ok. rewrite Ht, Hs. by eapply (reversed_ok clock i (begin_conn now w)).
Qed.

End services.
