(* ===== verification/Balance.v ===== *)
(** * Balances and snapshots
    ([internal/service/balance.go], [internal/worker/snapshot_worker.go])

    A balance is the latest daily snapshot plus the postings created after its
    day; the snapshot worker computes a snapshot as the sum of the postings created
    up to the end of the day. *)
From S2P Require Import Prelude GoTime Effects Json JsonStruct Store Queries World TxRun.
From S2P Require Import Transactions Dto Growth.
Local Open Scope Z_scope.
Local Open Scope ledger_scope.

Record BalanceResult := mkBalanceResult { br_AccountID : Z; br_AsOfISO : string; br_Balance : Z }.

(** A DATE scanned into a [time.Time]: midnight UTC. *)
Definition date_time (d : Z) : Time := mkTime (d * day_ns) 0.

(** [time.Date(d.Year(), d.Month(), d.Day(), 23, 59, 59, 999999999, time.UTC)] *)
Definition end_of_day (d : Time) : Time :=
  DateUTC (Year d) (Month d) (Day d) 23 59 59 999999999.

(** ** Tasks of the snapshot queue ([internal/worker/jobs.go]) *)

Record SnapshotAllPayload := mkSnapshotAll { sa_Date : string }.
Record SnapshotAccountPayload := mkSnapshotAccount { sp_AccountID : Z; sp_Date : string }.

Definition snapshot_all_field (k : string) (v : json) (p : SnapshotAllPayload)
    : option SnapshotAllPayload :=
  if String.eqb k "date" then d ← string_field v (sa_Date p); Some (mkSnapshotAll d) else Some p.

Definition snapshot_account_field (k : string) (v : json) (p : SnapshotAccountPayload)
    : option SnapshotAccountPayload :=
  let 'mkSnapshotAccount a d := p in
  if String.eqb k "account_id" then a ← int_field v a; Some (mkSnapshotAccount a d)
  else if String.eqb k "date" then d ← string_field v d; Some (mkSnapshotAccount a d)
  else Some p.

(** [json.Unmarshal] of a payload into the zero value of its struct. *)
Definition unmarshal_payload {A} (f : string → json → A → option A) (zero : A) (s : string)
    : option A :=
  j ← json_parse s;
  match j with JNull => Some zero | JObj ms => fill f ms zero | _ => None end.

(** [MustJSON]: neither struct can fail to marshal. *)
Definition snapshot_all_text (p : SnapshotAllPayload) : string :=
  json_text (JObj [("date", JStr (sa_Date p))]).
Definition snapshot_account_text (p : SnapshotAccountPayload) : string :=
  json_text (JObj [("account_id", JInt (sp_AccountID p)); ("date", JStr (sp_Date p))]).

(** A task handed to the queue: its type, payload and the id that dedupes it. *)
Record Task := mkTask { tk_type : string; tk_payload : string; tk_id : option string }.

Definition NewTaskSnapshotAll (p : SnapshotAllPayload) : Task :=
  mkTask "snapshot:all" (snapshot_all_text p) None.
Definition NewTaskSnapshotAccount (p : SnapshotAccountPayload) : Task :=
  mkTask "snapshot:account" (snapshot_account_text p) None.

(** [asynq.TaskID(id)] *)
Definition with_id (id : string) (t : Task) : Task := mkTask (tk_type t) (tk_payload t) (Some id).

Definition snapshotKey (account : Z) (date : Time) : string :=
  str (chars "snapshot:" ++ itoa account ++ chars ":" ++ chars (Format_date date)).

Section services.
Context `{Env} {R : Type}.

(** [CurrentBalance]: an error of the first query, whichever it is, counts as "no
    snapshot".  [now] is the argument of the same name; [n1], [n2] are the times of
    the two statements. *)
Definition CurrentBalance (n1 n2 : Z) (account : Z) (now : Time) : M (World R) BalanceResult :=
  let! r := attempt (on_pool n1 (GetLatestSnapshot account)) in
  let '(snapCutoff, snapBal) :=
    match r with
    | Ok snap => (end_of_day (UTC (date_time (s_AsOfDate snap))), s_BalanceMinor snap)
    | Err _ => (zero_time, 0)
    end in
  let! delta := on_pool n2 (SumPostingsSince account snapCutoff) in
  ret (mkBalanceResult account (Format_RFC3339 (UTC now)) (wrap64 (snapBal + delta))).

Definition yesterday (clock : Z) : string := Format_date (mkTime (clock - day_ns) 0).

(** [handleSnapshotAll]: the tasks it hands to the queue (whose answer it
    ignores). *)
Definition handleSnapshotAll (now clock : Z) (payload : string) : M (World R) (list Task) :=
  let! p := or_fail ErrUnmarshal
              (unmarshal_payload snapshot_all_field (mkSnapshotAll "") payload) in
  let date_s := if bool_decide (sa_Date p = "") then yesterday clock else sa_Date p in
  let! ids := on_pool now ListAllAccountIDs in
  let! date := or_fail ErrParse (Parse_date date_s) in
  ret (map (λ id, with_id (snapshotKey id date)
                    (NewTaskSnapshotAccount (mkSnapshotAccount id date_s))) ids).

(** [n1], [n2] are the times of the two statements. *)
Definition handleSnapshotAccount (n1 n2 : Z) (payload : string) : M (World R) () :=
  let! p := or_fail ErrUnmarshal
              (unmarshal_payload snapshot_account_field (mkSnapshotAccount 0 "") payload) in
  let! date := or_fail ErrParse (Parse_date (sp_Date p)) in
  let! sum := on_pool n1 (SumPostingsUpTo (sp_AccountID p) (end_of_day date)) in
  on_pool n2 (UpsertBalanceSnapshot (sp_AccountID p) date sum).

End services.

(** ** The balance is the sum of the postings *)

Definition account_postings (account : Z) (t : Tables) : list Posting :=
  List.filter (λ p, p_AccountID p =? account) (postings t).

(** The exact balance of an account. *)
Definition account_total (account : Z) (t : Tables) : Z :=
  sum_amounts (λ p, p_AccountID p =? account) t.

Section sums.
Context `{Env}.

(** The cutoff of a snapshot's day, as the database compares it. *)
Definition day_cutoff (d : Z) : Z := enc_ts (t_ns (end_of_day (date_time d))).

Definition created_upto (account c : Z) (t : Tables) : Z :=
  sum_amounts (λ p, (p_AccountID p =? account) && (p_CreatedAt p <=? c)) t.
Definition created_since (account c : Z) (t : Tables) : Z :=
  sum_amounts (λ p, (p_AccountID p =? account) && (c <? p_CreatedAt p)) t.

Lemma created_split account c t :
  created_upto account c t + created_since account c t = account_total account t.
Proof.
  unfold created_upto, created_since, account_total, sum_amounts.
  induction (postings t) as [|p l IH]; simpl; [done|].
  destruct (Z.eqb_spec (p_AccountID p) account); simpl; [|done].
  destruct (Z.leb_spec (p_CreatedAt p) c), (Z.ltb_spec c (p_CreatedAt p)); simpl; lia.
Qed.

(** A snapshot holds the sum of what was created up to the end of its day. *)
Definition snapshot_ok (t : Tables) (s : BalanceSnapshot) : Prop :=
  s_BalanceMinor s = created_upto (s_AccountID s) (day_cutoff (s_AsOfDate s)) t.

Definition snapshots_ok (t : Tables) : Prop := Forall (snapshot_ok t) (balance_snapshots t).

(** Every posting was created after year 1. *)
Definition postings_dated (t : Tables) : Prop :=
  Forall (λ p, enc_ts (t_ns zero_time) < p_CreatedAt p) (postings t).

Lemma created_since_zero account t :
  postings_dated t → created_since account (enc_ts (t_ns zero_time)) t = account_total account t.
Proof.
  unfold postings_dated. generalize (enc_ts (t_ns zero_time)). intros z Hd.
  unfold created_since, account_total, sum_amounts.
  induction Hd as [|p l Hp _ IH]; simpl; [done|].
  replace (z <? p_CreatedAt p) with true by lia. rewrite andb_true_r.
  destruct (_ =? _); simpl; lia.
Qed.

Lemma GetLatestSnapshot_inv account c s c' :
  GetLatestSnapshot account c = (Ok s, c') →
  c' = c ∧ s ∈ balance_snapshots (c_tab c) ∧ s_AccountID s = account.
Proof.
  intros [E ->]%read_inv. symmetry in E. apply one_row_inv in E. split; [done|].
  assert (s ∈ List.filter (λ s, s_AccountID s =? account) (balance_snapshots (c_tab c))) as Hs.
  { rewrite <- (merge_sort_Permutation (desc s_AsOfDate)).
    destruct (merge_sort _ _); [done|]. injection E as ->. by left. }
  rewrite list_elem_of_In, filter_In, <- list_elem_of_In in Hs. destruct Hs. split; [done|lia].
Qed.

Lemma SumPostingsSince_inv account since c z c' :
  SumPostingsSince account since c = (Ok z, c') →
  c' = c ∧ z = created_since account (enc_ts (t_ns since)) (c_tab c) ∧ int64 z.
Proof.
  intros [E ->]%read_inv. unfold as_bigint in E. destruct (decide _); [|done].
  injection E as ->. done.
Qed.

Lemma SumPostingsUpTo_inv account cutoff c z c' :
  SumPostingsUpTo account cutoff c = (Ok z, c') →
  c' = c ∧ z = created_upto account (enc_ts (t_ns cutoff)) (c_tab c) ∧ int64 z.
Proof.
  intros [E ->]%read_inv. unfold as_bigint in E. destruct (decide _); [|done].
  injection E as ->. done.
Qed.

End sums.

(** A statement that only reads: its answer, and the world unchanged up to the
    consumed faults. *)
Lemma on_pool_read `{Env} {R A} now (f : Conn → result A) (w w' : World R) r :
  on_pool now (read f) w = (r, w') →
  w_tab w' = w_tab w ∧ w_seq w' = w_seq w ∧ w_redis w' = w_redis w ∧
  (r = f (begin_conn now w) ∨ r = Err ErrConn).
Proof.
  unfold on_pool, read. destruct (pop (w_faults w)) as [fl fs].
  destruct fl; [|intros [= <- <-]; auto|]; simpl; destruct (f _) as [a|e];
    intros [= <- <-]; auto.
Qed.

Section balance.
Context `{Env} {R : Type}.

Lemma CurrentBalance_total n1 n2 account now (w w' : World R) res :
  snapshots_ok (w_tab w) → postings_dated (w_tab w) →
  CurrentBalance n1 n2 account now w = (Ok res, w') →
  w_tab w' = w_tab w ∧ br_AccountID res = account ∧
  br_Balance res = wrap64 (account_total account (w_tab w)).
Proof.
  intros Hs Hd E. unfold CurrentBalance in E.
  apply bind_Ok in E as (r&w1&Hr&E). unfold attempt in Hr.
  destruct (on_pool n1 _ w) as [r1 w1'] eqn:Hq. injection Hr as <- <-.
  pose proof Hq as Hq'. apply on_pool_read in Hq' as (Ht&_&_&Hcase).
  assert (∃ cut bal, (match r1 with
    | Ok snap => (end_of_day (UTC (date_time (s_AsOfDate snap))), s_BalanceMinor snap)
    | Err _ => (zero_time, 0) end) = (cut, bal) ∧
    bal + created_since account (enc_ts (t_ns cut)) (w_tab w) = account_total account (w_tab w))
    as (cut&bal&Ecut&Hsum).
  { destruct r1 as [snap|e]; do 2 eexists; (split; [done|]); [|by apply created_since_zero].
    destruct Hcase as [Hcase|]; [|done].
    destruct (GetLatestSnapshot_inv account (begin_conn n1 w) snap (begin_conn n1 w)) as (_&Hin&Ha).
    { by rewrite Hcase. }
    unfold snapshots_ok in Hs. rewrite Forall_forall in Hs. rewrite (Hs snap Hin), Ha.
    apply created_split. }
  rewrite Ecut in E. apply bind_Ok in E as (delta&w2&Hdl&E). injection E as <- <-.
  apply on_pool_read in Hdl as (Ht2&_&_&[Hdl|]); [|done].
  destruct (SumPostingsSince_inv account cut (begin_conn n2 w1') delta (begin_conn n2 w1'))
    as (_&->&_). { by rewrite Hdl. }
  simpl. rewrite Ht2, Ht. split; [done|]. split; [done|]. f_equal. done.
Qed.

End balance.
