(* ===== verification/Outbox.v ===== *)
(** * The outbox worker ([internal/worker/outbox.go])

    [ProcessBatch] selects at most fifty unprocessed events, oldest first, skipping
    rows locked by other workers, publishes each to its channel, marks those whose
    publication was acknowledged, and commits.  Publications are not undone by a
    rollback: the messages are an output of their own. *)
From S2P Require Import Prelude GoTime Effects Json Store Queries World TxRun Invariant.
Local Open Scope Z_scope.
Local Open Scope ledger_scope.

(** PUBLISH channel payload *)
Record Message := mkMessage { msg_channel : string; msg_payload : json }.

(** A session in a transaction, and the messages published so far. *)
Definition PubS : Type := TxS * list Message.

Definition on_tx {A} (m : M TxS A) : M PubS A := λ '(s, ms),
  let '(r, s') := m s in (r, (s', ms)).

(** A publication whose reply is lost has happened. *)
Definition publish (m : Message) : M PubS () := λ '((c, fs), ms),
  let '(f, fs) := pop fs in
  match f with
  | NoFault => (Ok (), ((c, fs), ms ++ [m]))
  | Lost => (Err ErrConn, ((c, fs), ms))
  | ReplyLost => (Err ErrConn, ((c, fs), ms ++ [m]))
  end.

Definition unprocessed (o : Outbox) : bool := bool_decide (o_ProcessedAt o = None).

(** SELECT .. WHERE processed_at IS NULL ORDER BY created_at LIMIT 50 FOR UPDATE
    SKIP LOCKED *)
Definition SelectBatch (locked : list Z) : stmt (list Outbox) :=
  read (λ c, limit_offset 50 0
    (merge_sort (asc o_CreatedAt)
      (List.filter (λ o, unprocessed o && negb (bool_decide (o_ID o ∈ locked)))
        (outbox (c_tab c))))).

Definition mark_processed (ids : list Z) (now : Z) (o : Outbox) : Outbox :=
  if bool_decide (o_ID o ∈ ids)
  then mkOutbox (o_ID o) (o_EventType o) (o_Payload o) (o_CreatedAt o) (Some now) else o.

(** UPDATE outbox SET processed_at = now() WHERE id = ANY($1) *)
Definition MarkProcessed (ids : list Z) : stmt () :=
  let! now := get_now in write (set_outbox (map (mark_processed ids now))).

Definition event_message (o : Outbox) : Message :=
  mkMessage (str (chars "events:" ++ chars (o_EventType o))) (o_Payload o).

Fixpoint publish_loop (batch : list Outbox) : M PubS (list Z) :=
  match batch with
  | [] => ret []
  | e :: batch =>
      let! r := attempt (publish (event_message e)) in
      let! processed := publish_loop batch in
      ret (match r with Ok _ => o_ID e :: processed | Err _ => processed end)
  end.

Definition ProcessBatch_body (locked : list Z) : M PubS () :=
  let! batch := on_tx (exec (SelectBatch locked)) in
  let! processed := publish_loop batch in
  match processed with
  | [] => ret ()
  | _ => on_tx (exec (MarkProcessed processed))
  end.

Section worker.
Context {R : Type}.

(** Errors are logged, never returned. *)
Definition ProcessBatch (now : Z) (locked : list Z) (w : World R) : list Message * World R :=
  let '(f, fs) := pop (w_faults w) in
  match f with
  | NoFault =>
      let '(r, ((c, fs), ms)) := ProcessBatch_body locked ((begin_conn now w, fs), []) in
      match r with
      | Err _ => (ms, rollback w c fs)
      | Ok () => (ms, (do_commit () w c fs).2)
      end
  | _ => ([], mkWorld (w_tab w) (w_seq w) (w_redis w) fs)
  end.

(** What the [select] of the loop has chosen: the ticker, with the time of the batch,
    the rows locked by others and the faults it meets, or the cancelled context. *)
Inductive select_case := TickCase (now : Z) (locked : list Z) (fs : list fault) | DoneCase.

(** [Start], for the cases chosen so far. *)
Fixpoint Start (cases : list select_case) (w : World R) : list Message * World R :=
  match cases with
  | [] | DoneCase :: _ => ([], w)
  | TickCase now locked fs :: cases =>
      let '(ms, w1) := ProcessBatch now locked (mkWorld (w_tab w) (w_seq w) (w_redis w) fs) in
      let '(ms', w2) := Start cases w1 in (ms ++ ms', w2)
  end.

End worker.

(** ** The publishing loop *)

(** The loop leaves the session alone, publishes in order, and reports only events
    it has published. *)
Lemma publish_loop_spec batch c fs ms :
  ∃ ids fs' new,
    publish_loop batch ((c, fs), ms) = (Ok ids, ((c, fs'), ms ++ map event_message new)) ∧
    sublist new batch ∧ sublist ids (map o_ID new).
Proof.
  revert fs ms. induction batch as [|e batch IH]; intros fs ms; simpl.
  - exists [], fs, []. rewrite app_nil_r. split_and!; [done|constructor..].
  - unfold bind, attempt, publish. destruct (pop fs) as [[] fs1].
    + destruct (IH fs1 (ms ++ [event_message e])) as (ids&fs'&new&->&Hn&Hi).
      exists (o_ID e :: ids), fs', (e :: new). rewrite <- app_assoc. simpl.
      split_and!; [done|by constructor..].
    + destruct (IH fs1 ms) as (ids&fs'&new&->&Hn&Hi).
      exists ids, fs', new. split_and!; [done|by constructor|done].
    + destruct (IH fs1 (ms ++ [event_message e])) as (ids&fs'&new&->&Hn&Hi).
      exists ids, fs', (e :: new). rewrite <- app_assoc. simpl.
      split_and!; [done|by constructor|by constructor].
Qed.

(** Without faults everything is published and reported. *)
Lemma publish_loop_all batch c ms :
  publish_loop batch ((c, []), ms) =
  (Ok (map o_ID batch), ((c, []), ms ++ map event_message batch)).
Proof.
  revert ms. induction batch as [|e batch IH]; intros ms; simpl; [by rewrite app_nil_r|].
  unfold bind, attempt, publish. simpl. rewrite IH. by rewrite <- app_assoc.
Qed.

Definition batch_of (locked : list Z) (t : Tables) : list Outbox :=
  take 50 (merge_sort (asc o_CreatedAt)
    (List.filter (λ o, unprocessed o && negb (bool_decide (o_ID o ∈ locked))) (outbox t))).

Lemma SelectBatch_eq locked c : SelectBatch locked c = (Ok (batch_of locked (c_tab c)), c).
Proof. done. Qed.

Lemma batch_of_spec locked t o :
  o ∈ batch_of locked t → o ∈ outbox t ∧ o_ProcessedAt o = None ∧ o_ID o ∉ locked.
Proof.
  unfold batch_of. intros Ho%elem_of_take. destruct Ho as (i&Ho&_).
  apply list_elem_of_lookup_2 in Ho. rewrite merge_sort_Permutation in Ho.
  apply elem_of_filter in Ho as [[Hu Hl]%andb_prop Ho].
  unfold unprocessed in Hu. apply bool_decide_eq_true in Hu.
  apply negb_true_iff, bool_decide_eq_false in Hl. done.
Qed.

Lemma batch_of_length locked t : (length (batch_of locked t) ≤ 50)%nat.
Proof. unfold batch_of. rewrite length_take. lia. Qed.

(** ** What a run does *)

Section run.
Context {R : Type}.

(** Every run publishes a part of the batch, in order, and either leaves the tables
    alone or marks a part of what it published. *)
Lemma ProcessBatch_cases now locked (w w' : World R) ms :
  ProcessBatch now locked w = (ms, w') →
  w_redis w' = w_redis w ∧ w_seq w' = w_seq w ∧
  ∃ new ids, ms = map event_message new ∧ sublist new (batch_of locked (w_tab w)) ∧
    sublist ids (map o_ID new) ∧
    w_tab w' = set_outbox (map (mark_processed ids now)) (w_tab w).
Proof.
  assert (∀ t, t = set_outbox (map (mark_processed [] now)) t) as Hnil.
  { intros []. simpl. f_equal. rewrite (map_ext _ id), map_id; [done|]. by intros []. }
  assert (∀ l : list Outbox, sublist [] l) as Hsub by (intros; apply sublist_nil_l).
  unfold ProcessBatch. destruct (pop (w_faults w)) as [f fs].
  destruct f; [|intros [= <- <-]; simpl; split_and!; [done..|]; exists [], []; simpl; auto..].
  unfold ProcessBatch_body, bind, on_tx. unfold exec at 1. rewrite SelectBatch_eq.
  destruct (pop fs) as [f2 fs2]. destruct f2;
    [|intros [= <- <-]; simpl; split_and!; [done..|]; exists [], []; simpl; auto..].
  destruct (publish_loop_spec (batch_of locked (w_tab w)) (begin_conn now w) fs2 [])
    as (ids&fs3&new&E&Hn&Hi). cbn [c_tab begin_conn].
  match goal with |- context [publish_loop ?b ?s] => replace (publish_loop b s) with
    (Ok ids, ((begin_conn now w, fs3), map event_message new)) by (symmetry; exact E) end.
  destruct ids as [|i ids0].
  - simpl. unfold do_commit. destruct (pop fs3) as [[] ?]; intros [= <- <-]; simpl;
      (split_and!; [done..|]); exists new, []; split_and!; auto using sublist_nil_l.
  - set (ids := i :: ids0) in *. unfold exec. destruct (pop fs3) as [[] fs4]; simpl.
    + unfold do_commit. destruct (pop fs4) as [[] ?]; intros [= <- <-]; simpl;
        (split_and!; [done..|]); exists new; [exists ids|exists []|exists ids];
        split_and!; auto using sublist_nil_l.
    + intros [= <- <-]; simpl; split_and!; [done..|]; exists new, [];
        split_and!; auto using sublist_nil_l.
    + intros [= <- <-]; simpl; split_and!; [done..|]; exists new, [];
        split_and!; auto using sublist_nil_l.
Qed.

(** A run without faults publishes the whole batch and marks all of it. *)
Lemma ProcessBatch_all now locked (w : World R) :
  w_faults w = [] →
  let batch := batch_of locked (w_tab w) in
  ProcessBatch now locked w =
  (map event_message batch,
   mkWorld (set_outbox (map (mark_processed (map o_ID batch) now)) (w_tab w))
     (w_seq w) (w_redis w) []).
Proof.
  intros Hf batch. unfold ProcessBatch. rewrite Hf. cbn [pop].
  unfold ProcessBatch_body, bind, on_tx. unfold exec at 1. rewrite SelectBatch_eq.
  cbn [pop c_tab begin_conn]. fold batch.
  match goal with |- context [publish_loop ?b ?s] => replace (publish_loop b s) with
    (Ok (map o_ID batch), ((begin_conn now w, [] : list fault), map event_message batch))
    by (symmetry; apply publish_loop_all) end.
  destruct (map o_ID batch) eqn:E; [|reflexivity].
  unfold do_commit, commit. simpl. repeat f_equal.
  destruct (w_tab w) as [u a x p i s e o]. simpl. f_equal.
  rewrite (map_ext _ id), map_id; [done|]. by intros [].
Qed.

End run.
