(* ===== verification/Tables.v ===== *)
(** * Statements outside the ledger operations keep the invariant

    Users, accounts, exports, snapshots and the marking of outbox events. *)
From S2P Require Import Prelude GoTime Effects Json Store Queries World Summary Dto Transactions.
From S2P Require Import TxRun TxSpec Invariant Posting Growth Services Outbox.
Local Open Scope Z_scope.
Local Open Scope ledger_scope.

Section tables.
Context `{Env}.

(** The invariant reads neither snapshots nor exports. *)
Lemma LedgerOK_derived t q f g :
  LedgerOK t q → LedgerOK (set_exports g (set_snapshots f t)) q.
Proof. intros []. destruct t. by split. Qed.

Lemma LedgerOK_mark t q ids now :
  LedgerOK t q → LedgerOK (set_outbox (map (mark_processed ids now)) t) q.
Proof.
  intros Hok.
  assert (∀ o, o_ID (mark_processed ids now o) = o_ID o ∧
    o_EventType (mark_processed ids now o) = o_EventType o ∧
    o_Payload (mark_processed ids now o) = o_Payload o) as Hm.
  { intros o. unfold mark_processed. by case_bool_decide. }
  destruct Hok as []. destruct t as [u a x p i s e o]. split; try done; simpl in *.
  - etrans; [|exact ok_outbox]. rewrite map_map. apply map_ext. intros o'. by destruct (Hm o') as (_&->&->).
  - destruct ok_outbox_ids as [Hi Hn]. split.
    + rewrite Forall_map. eapply Forall_impl; [done|]. intros o'. simpl.
      by destruct (Hm o') as (->&_&_).
    + rewrite map_map. erewrite map_ext; [done|]. intros o'. by destruct (Hm o') as (->&_&_).
Qed.

Lemma bump_le s q : seq_le q (bump s q).
Proof. intros s'. unfold bump. destruct (decide _) as [->|]; lia. Qed.

Lemma bump_eq s q : bump s q s = q s + 1.
Proof. unfold bump. by rewrite decide_True. Qed.

Lemma LedgerOK_account t q a :
  LedgerOK t q → a_ID a = q SAccounts → q SAccounts ≤ max_int64 → account_unique a t = true →
  LedgerOK (set_accounts (λ l, l ++ [a]) t) (bump SAccounts q).
Proof.
  intros Hok Hid Hm Hu.
  pose proof (LedgerOK_mono _ _ _ Hok (bump_le SAccounts q)) as Hok'.
  destruct (accounts_snoc a (accounts t) Hu (ok_account_ids Hok) (ok_names Hok) (ok_external Hok))
    as (?&?&?).
  pose proof (ok_accounts Hok') as Ha. pose proof (ok_posting Hok') as Hp.
  pose proof (ok_seq Hok SAccounts). pose proof (bump_eq SAccounts q).
  destruct Hok' as []. destruct t as [u ac x p i s e o]. split; try done; simpl in *.
  - apply Forall_app. split; [done|]. constructor; [|done]. unfold id_ok. lia.
  - eapply Forall_impl; [apply Hp|]. intros p' (y&b&?&?&?&?&?&?). exists y, b. simpl.
    split_and!; auto. set_solver.
Qed.

Lemma LedgerOK_user t q u :
  LedgerOK t q → u_ID u = q SUsers → q SUsers ≤ max_int64 →
  LedgerOK (set_users (λ l, l ++ [u]) t) (bump SUsers q).
Proof.
  intros Hok Hid Hm.
  pose proof (LedgerOK_mono _ _ _ Hok (bump_le SUsers q)) as Hok'.
  pose proof (ok_users Hok') as Ha. pose proof (ok_txs Hok') as Hx.
  pose proof (ok_seq Hok SUsers). pose proof (bump_eq SUsers q).
  destruct Hok' as []. destruct t as [us ac x p i s e o]. split; try done; simpl in *.
  - apply Forall_app. split; [done|]. constructor; [|done]. unfold id_ok. lia.
  - eapply Forall_impl; [apply Hx|]. intros y [? Hy]. split; [done|].
    unfold has_user in *. simpl in *. by rewrite existsb_app, Hy.
Qed.

(** ** The statements *)

Lemma CreateUser_inv email hash c u c' :
  CreateUser email hash c = (Ok u, c') →
  u = mkUser (c_seq c SUsers) email hash (c_now c) ∧ c_seq c SUsers ≤ max_int64 ∧
  c' = insert_seq SUsers (set_users (λ l, l ++ [u])) c ∧
  Forall (λ v, u_Email v ≠ email) (users (c_tab c)).
Proof.
  intros E. unfold CreateUser in E. inv_stmt. rewrite negb_existsb in *. split_and!; auto.
  eapply Forall_impl; [done|]. intros v [_ Hv]%orb_false_iff. by apply bool_decide_eq_false in Hv.
Qed.

Lemma CreateAccount_inv uid name cur c a c' :
  CreateAccount uid name cur c = (Ok a, c') →
  a = mkAccount (c_seq c SAccounts) uid name cur true (c_now c) "normal" ∧
  c_seq c SAccounts ≤ max_int64 ∧ account_unique a (c_tab c) = true ∧
  has_user uid (c_tab c) = true ∧
  c' = insert_seq SAccounts (set_accounts (λ l, l ++ [a])) c.
Proof. intros E. unfold CreateAccount, insert_account in E. inv_stmt. split_and!; auto. Qed.

Lemma CreateUser_ok email hash c u c' :
  LedgerOK (c_tab c) (c_seq c) → CreateUser email hash c = (Ok u, c') →
  LedgerOK (c_tab c') (c_seq c').
Proof. intros Hok (->&?&->&_)%CreateUser_inv. by apply LedgerOK_user. Qed.

Lemma CreateAccount_ok uid name cur c a c' :
  LedgerOK (c_tab c) (c_seq c) → CreateAccount uid name cur c = (Ok a, c') →
  LedgerOK (c_tab c') (c_seq c').
Proof. intros Hok (->&?&?&_&->)%CreateAccount_inv. by apply LedgerOK_account. Qed.

Lemma grows_CreateUser email hash : grows (CreateUser email hash).
Proof. unfold CreateUser. grow. Qed.
Lemma grows_CreateAccount uid name cur : grows (CreateAccount uid name cur).
Proof. unfold CreateAccount, insert_account. grow. Qed.
Lemma grows_CreateExport uid month : grows (CreateExport uid month).
Proof. unfold CreateExport. grow. Qed.
Lemma grows_UpdateExportStatus id st path : grows (UpdateExportStatus id st path).
Proof. unfold UpdateExportStatus. grow. Qed.
Lemma grows_Upsert account date balance : grows (UpsertBalanceSnapshot account date balance).
Proof. unfold UpsertBalanceSnapshot. grow. Qed.

(** A statement run on the pool keeps the invariant when it does so as a
    transaction. *)
Lemma on_pool_ok {R A} now (s : stmt A) (w w' : World R) r :
  world_ok w → grows s →
  (∀ c a c', LedgerOK (c_tab c) (c_seq c) → s c = (Ok a, c') → LedgerOK (c_tab c') (c_seq c')) →
  on_pool now s w = (r, w') → world_ok w'.
Proof.
  intros Hok Hg Hs E. pose proof (on_pool_grows now s w Hg) as Hle. rewrite E in Hle. simpl in Hle.
  apply on_pool_cases in E as [_ [[Ht _]|(a&c&E&_&Ht&Hq&_)]]; [by eapply world_ok_same|].
  unfold world_ok. rewrite Ht, Hq. by eapply Hs; [|done].
Qed.

(** Statements that write only snapshots and exports. *)
Definition derived_only {A} (s : stmt A) : Prop := ∀ c a c', s c = (Ok a, c') →
  seq_le (c_seq c) (c_seq c') ∧ c_queue c' = c_queue c ∧
  ∃ f g, c_tab c' = set_exports g (set_snapshots f (c_tab c)).

Lemma derived_only_ok {A} (s : stmt A) c a c' :
  derived_only s → LedgerOK (c_tab c) (c_seq c) → s c = (Ok a, c') → LedgerOK (c_tab c') (c_seq c').
Proof.
  intros Hd Hok (Hle&_&f&g&->)%Hd. by apply LedgerOK_derived, (LedgerOK_mono _ (c_seq c)).
Qed.

Lemma set_id_l t : t = set_exports id (set_snapshots id t).
Proof. by destruct t. Qed.

Lemma derived_CreateExport uid month : derived_only (CreateExport uid month).
Proof.
  intros c a c' E. unfold CreateExport in E. inv_stmt. split; [apply bump_le|]. split; [done|].
  destruct (c_tab c). eexists id, _. done.
Qed.

Lemma derived_UpdateExportStatus id st path : derived_only (UpdateExportStatus id st path).
Proof.
  intros c a c' E. unfold UpdateExportStatus in E. inv_stmt. split; [reflexivity|]. split; [done|].
  destruct (c_tab c). eexists Datatypes.id, _. done.
Qed.

Lemma derived_read {A} (f : Conn → result A) : derived_only (read f).
Proof.
  intros c a c' [_ ->]%read_inv. split; [reflexivity|]. split; [done|].
  exists id, id. apply set_id_l.
Qed.

(** After an upsert, the rows of that account and day hold the balance, and the
    others are unchanged. *)
Lemma UpsertBalanceSnapshot_inv account date balance c u c' :
  UpsertBalanceSnapshot account date balance c = (Ok u, c') →
  ∃ f, c' = insert_seq SSnapshots (set_snapshots f) c ∧
    (∃ s, s ∈ f (balance_snapshots (c_tab c)) ∧ snapshot_match account (pg_date date) s = true) ∧
    ∀ s, s ∈ f (balance_snapshots (c_tab c)) →
      if snapshot_match account (pg_date date) s then s_BalanceMinor s = balance
      else s ∈ balance_snapshots (c_tab c).
Proof.
  intros E. unfold UpsertBalanceSnapshot in E. inv_stmt.
  match goal with H : Ok ?b = Ok _ |- _ => injection H as -> end.
  destruct (existsb _ _) eqn:Hex; inv_stmt; eexists; (split; [done|]); simpl.
  - split.
    + apply existsb_In in Hex as (s&Hs&Hm). eexists. split; [by apply list_elem_of_fmap_2|].
      simpl. by rewrite Hm.
    + intros s (s0&->&Hs)%list_elem_of_fmap.
      destruct (snapshot_match account (pg_date date) s0) eqn:Hm; simpl; [|by rewrite Hm].
      unfold snapshot_match in *. simpl. by rewrite Hm.
  - split.
    + eexists. split; [apply elem_of_app; right; by left|].
      unfold snapshot_match. simpl. by rewrite !Z.eqb_refl.
    + intros s [Hs| ->%list_elem_of_singleton]%elem_of_app.
      * destruct (snapshot_match account (pg_date date) s) eqn:Hm; [|done].
        assert (existsb (snapshot_match account (pg_date date)) (balance_snapshots (c_tab c)) = true);
          [apply existsb_In; eauto|congruence].
      * unfold snapshot_match. simpl. by rewrite !Z.eqb_refl.
Qed.

Lemma derived_Upsert account date balance : derived_only (UpsertBalanceSnapshot account date balance).
Proof.
  intros c a c' (f&->&_)%UpsertBalanceSnapshot_inv. split; [apply bump_le|]. split; [done|].
  exists f, id. simpl. by destruct (c_tab c).
Qed.

End tables.
