(* ===== verification/System.v ===== *)
(** * The system as a transition system

    A step is one operation of the program, at a time not before the previous
    one, with any behaviour of the network.  [reachable] is the closure of the
    steps from an empty database.  [sys_ok] is its inductive invariant: the ledger
    invariant, and that every snapshot holds the sum it stands for. *)
From S2P Require Import Prelude GoTime Effects Json JsonStruct Store Queries World Summary Dto.
From S2P Require Import Transactions TxRun TxSpec Invariant Posting Growth Ledger Services.
From S2P Require Import Balance Outbox Tables.
Local Open Scope Z_scope.
Local Open Scope ledger_scope.

(** The operations that reach the database. *)
Inductive op :=
  | OpRegister (email hash : string)
  | OpAccount (uid : Z) (name currency : string)
  | OpCreate (i : CreateInput)
  | OpTransfer (i : TransferInput)
  | OpReverse (clock : Z) (i : ReverseInput)
  | OpSnapshot (payload : string)
  | OpPublish (locked : list Z)
  | OpBalance (account : Z) (at_ : Time)
  | OpSummary (account : Z) (month : Time)
  | OpExport (uid : Z) (month : Time)
  | OpExportStatus (id : Z) (status : string) (path : option string).

Section system.
Context `{Env} {R : Type} `{!Redis R}.
Abbreviation W := (World R).

Definition run_op (now : Z) (o : op) (w : W) : W :=
  match o with
  | OpRegister email hash => (on_pool now (CreateUser email hash) w).2
  | OpAccount uid name cur => (on_pool now (CreateAccount uid name cur) w).2
  | OpCreate i => (Create now i w).2
  | OpTransfer i => (Transfer now i w).2
  | OpReverse clock i => (Reverse now clock i w).2
  | OpSnapshot payload => (handleSnapshotAccount now now payload w).2
  | OpPublish locked => (ProcessBatch now locked w).2
  | OpBalance account at_ => (CurrentBalance now now account at_ w).2
  | OpSummary account month =>
      (SummaryService_GetMonthlySummary (1000 * now) now (1000 * now) account month w).2
  | OpExport uid month => (on_pool now (CreateExport uid month) w).2
  | OpExportStatus id st path => (on_pool now (UpdateExportStatus id st path) w).2
  end.

(** What the callers guarantee: amounts are machine integers; a snapshot task is
    for a day that is over ([snapshot_all_dates] below shows it of the tasks the
    worker creates). *)
Definition op_ok (now : Z) (o : op) : Prop :=
  match o with
  | OpCreate i => int64 (ci_AmountMinor i)
  | OpTransfer i => int64 (ti_AmountMinor i)
  | OpSnapshot payload => ∀ p date,
      unmarshal_payload snapshot_account_field (mkSnapshotAccount 0 "") payload = Some p →
      Parse_date (sp_Date p) = Some date → enc_ts (t_ns (end_of_day date)) < now
  | _ => True
  end.

Definition with_faults (fs : list fault) (w : W) : W :=
  mkWorld (w_tab w) (w_seq w) (w_redis w) fs.

(** The state of the system: the time of the last step, and the world.  Redis is
    shared with the rate limiter, the queue and other processes: it may change in
    any way between two operations. *)
Inductive step : Z * W → Z * W → Prop :=
  | step_op last now o fs w :
      last ≤ now → op_ok now o → step (last, w) (now, run_op now o (with_faults fs w))
  | step_redis last now r fs w :
      last ≤ now → step (last, w) (now, mkWorld (w_tab w) (w_seq w) r fs).

Definition init (r : R) : W := mkWorld empty_tables (λ _, 1) r [].

Definition reachable (t0 : Z) (r : R) (s : Z * W) : Prop := rtc step (t0, init r) s.

(** ** The invariant *)

Record sys_ok (s : Z * W) : Prop := {
  so_world : world_ok s.2;
  so_now : enc_ts (t_ns zero_time) < s.1;
  so_dated : postings_dated (w_tab s.2);
  so_snapshots : snapshots_ok (w_tab s.2);
  so_past : Forall (λ x, day_cutoff (s_AsOfDate x) < s.1) (balance_snapshots (w_tab s.2))
}.

(** Tables that gained only postings created [now], and kept their snapshots. *)
Definition adds (now : Z) (t t' : Tables) : Prop :=
  balance_snapshots t' = balance_snapshots t ∧
  ∃ new, postings t' = postings t ++ new ∧ Forall (λ p, p_CreatedAt p = now) new.

Lemma adds_refl now t t' :
  balance_snapshots t' = balance_snapshots t → postings t' = postings t → adds now t t'.
Proof. intros Hb Hp. split; [done|]. exists []. by rewrite app_nil_r. Qed.

Lemma created_upto_adds account cut now t t' :
  adds now t t' → cut < now → created_upto account cut t' = created_upto account cut t.
Proof.
  intros (_&new&Hp&Hn) Hc. unfold created_upto, sum_amounts.
  rewrite Hp, List.filter_app, map_app, sumZ_app.
  rewrite (filter_none _ new); [simpl; lia|]. eapply Forall_impl; [done|].
  simpl. intros p ->. rewrite andb_false_iff. right. lia.
Qed.

Lemma sys_ok_adds last now w w' :
  sys_ok (last, w) → last ≤ now → world_ok w' → adds now (w_tab w) (w_tab w') → sys_ok (now, w').
Proof.
  intros [Hw Hnow Hd Hs Hp] Hle Hw' Ha. simpl in *.
  assert (Forall (λ x, day_cutoff (s_AsOfDate x) < now) (balance_snapshots (w_tab w))) as Hp'.
  { eapply Forall_impl; [done|]. simpl. lia. }
  pose proof Ha as (Hb&new&Hpo&Hn). split; simpl; [done|lia| | |].
  - unfold postings_dated in *. rewrite Hpo. apply Forall_app. split; [done|].
    eapply Forall_impl; [done|]. simpl. lia.
  - unfold snapshots_ok in *. rewrite Hb, Forall_forall in *. intros s Hin.
    unfold snapshot_ok in *. rewrite (created_upto_adds _ _ now (w_tab w)); auto.
  - by rewrite Hb.
Qed.

(** ** What each operation adds *)

Lemma adds_posted now c accs x legs kind key hash note dto c' :
  Posted c accs x legs kind key hash note dto c' → c_now c = now → adds now (c_tab c) (c_tab c').
Proof.
  intros Hpo Hn. destruct (po_tab Hpo) as (idems&payload&_&_&->). split; [done|].
  exists (new_rows c x legs). split; [done|]. eapply Forall_impl; [apply mk_postings_tx|].
  simpl. intros p [_ ->]. done.
Qed.

Lemma adds_createBalanced now b w r w' :
  createBalanced now b w = (r, w') → adds now (w_tab w) (w_tab w').
Proof.
  intros E%createBalanced_cases.
  destruct E as [e w' Ht _|d w' Ht _ _|accs legs dto c r w' Hcr _ Ht _ _ _].
  - rewrite Ht. by apply adds_refl.
  - rewrite Ht. by apply adds_refl.
  - rewrite Ht. by apply (adds_posted now (begin_conn now w) _ _ _ _ _ _ _ _ _ (cr_posted Hcr)).
Qed.

Lemma adds_Create now i w : adds now (w_tab w) (w_tab (Create now i w).2).
Proof.
  unfold Create. destruct (_ =? _); [by apply adds_refl|].
  destruct (createBalanced now _ w) as [r w'] eqn:E. by eapply adds_createBalanced.
Qed.

Lemma adds_Transfer now i w : adds now (w_tab w) (w_tab (Transfer now i w).2).
Proof.
  unfold Transfer. destruct (_ <=? _); [by apply adds_refl|].
  destruct (_ =? _); [by apply adds_refl|].
  destruct (createBalanced now _ w) as [r w'] eqn:E. by eapply adds_createBalanced.
Qed.

Lemma adds_Reverse now clock i w : adds now (w_tab w) (w_tab (Reverse now clock i w).2).
Proof.
  destruct (Reverse now clock i w) as [r w'] eqn:E. apply Reverse_cases in E. simpl.
  destruct E as [e w' Ht _|d w' Ht _ _|orig ps dto c r w' Hrv _ Ht _ _].
  - rewrite Ht. by apply adds_refl.
  - rewrite Ht. by apply adds_refl.
  - rewrite Ht. by apply (adds_posted now (begin_conn now w) _ _ _ _ _ _ _ _ _ (rv_posted Hrv)).
Qed.

Lemma adds_on_pool {A} now (s : stmt A) (w : W) :
  (∀ c a c', s c = (Ok a, c') → adds now (c_tab c) (c_tab c')) →
  adds now (w_tab w) (w_tab (on_pool now s w).2).
Proof.
  intros Hs. destruct (on_pool now s w) as [r w'] eqn:E. simpl.
  apply on_pool_cases in E as [_ [[Ht _]|(a&c&E&_&Ht&_&_)]]; rewrite Ht.
  - by apply adds_refl.
  - by eapply (Hs (begin_conn now w)).
Qed.

Lemma adds_ProcessBatch now locked (w : W) : adds now (w_tab w) (w_tab (ProcessBatch now locked w).2).
Proof.
  destruct (ProcessBatch now locked w) as [ms w'] eqn:E.
  apply ProcessBatch_cases in E as (_&_&new&ids&_&_&_&Ht). simpl. rewrite Ht.
  destruct (w_tab w). by apply adds_refl.
Qed.

(** ** Reads *)

Lemma balance_tables n1 n2 account at_ (w w' : W) r :
  CurrentBalance n1 n2 account at_ w = (r, w') → w_tab w' = w_tab w ∧ w_seq w' = w_seq w.
Proof.
  unfold CurrentBalance, bind at 1, attempt.
  destruct (on_pool n1 _ w) as [r1 w1] eqn:E1. apply on_pool_read in E1 as (Ht1&Hs1&_).
  destruct (match r1 with Ok _ => _ | Err _ => _ end) as [cut bal].
  unfold bind. destruct (on_pool n2 _ w1) as [r2 w2] eqn:E2.
  apply on_pool_read in E2 as (Ht2&Hs2&_). destruct r2; intros [= <- <-]; split; congruence.
Qed.

Lemma summary_tables t1 now t2 account month (w w' : W) r :
  SummaryService_GetMonthlySummary t1 now t2 account month w = (r, w') →
  w_tab w' = w_tab w ∧ w_seq w' = w_seq w.
Proof.
  unfold SummaryService_GetMonthlySummary, bind at 1, redis_get.
  destruct (pop (w_faults w)) as [f fs].
  destruct (match f with NoFault => _ | _ => _ end); [by intros [= <- <-]|].
  unfold bind at 1. destruct (on_pool now _ _) as [r1 w1] eqn:E.
  apply on_pool_read in E as (Ht&Hs&_). simpl in *.
  destruct r1 as [row|]; [|by intros [= <- <-]].
  unfold redis_do, bind. destruct (pop (w_faults w1)). by intros [= <- <-].
Qed.

(** ** The snapshot worker *)

(** The end of a day depends only on the day. *)
Lemma end_of_day_date d :
  end_of_day (date_time (pg_date d)) = end_of_day d.
Proof.
  unfold end_of_day, DateUTC. unfold date_time. by rewrite civil_midnight.
Qed.

Lemma handleSnapshotAccount_cases n1 n2 payload (w w' : W) r :
  handleSnapshotAccount n1 n2 payload w = (r, w') →
  (w_tab w' = w_tab w ∧ seq_le (w_seq w) (w_seq w')) ∨
  ∃ p date u c,
    unmarshal_payload snapshot_account_field (mkSnapshotAccount 0 "") payload = Some p ∧
    Parse_date (sp_Date p) = Some date ∧
    UpsertBalanceSnapshot (sp_AccountID p) date
      (created_upto (sp_AccountID p) (enc_ts (t_ns (end_of_day date))) (w_tab w))
      (mkConn (w_tab w) (w_seq w) n2 []) = (Ok u, c) ∧
    w_tab w' = c_tab c ∧ w_seq w' = c_seq c.
Proof.
  unfold handleSnapshotAccount. destruct (unmarshal_payload _ _ _) as [p|];
    [|intros [= <- <-]; left; split; reflexivity].
  unfold or_fail, ret, bind at 1. destruct (Parse_date (sp_Date p)) as [date|] eqn:Hd;
    [|intros [= <- <-]; left; split; reflexivity].
  unfold bind at 1, bind at 1.
  destruct (on_pool n1 (SumPostingsUpTo (sp_AccountID p) (end_of_day date)) w) as [[sum|e] w1] eqn:E1;
    apply on_pool_read in E1 as (Ht1&Hs1&_&Hr);
    [|intros [= <- <-]; left; split; [done|rewrite Hs1; reflexivity]].
  destruct Hr as [Hr|]; [|discriminate].
  destruct (SumPostingsUpTo_inv (sp_AccountID p) (end_of_day date) (begin_conn n1 w) sum
              (begin_conn n1 w)) as (_&Hsum&_).
  { rewrite Hr. reflexivity. }
  intros E2. pose proof (on_pool_grows n2 (UpsertBalanceSnapshot (sp_AccountID p) date sum) w1
    (grows_Upsert _ _ _)) as Hg. rewrite E2, Hs1 in Hg.
  apply on_pool_cases in E2 as [_ [[Ht2 _]|(u&c&E2&_&Ht2&Hs2&_)]].
  - left. split; [congruence|exact Hg].
  - right. exists p, date, u, c. unfold begin_conn in E2. rewrite Ht1, Hs1, Hsum in E2.
    split_and!; [reflexivity|exact Hd|exact E2|exact Ht2|exact Hs2].
Qed.

Lemma snapshot_world_ok n1 n2 payload (w w' : W) r :
  world_ok w → handleSnapshotAccount n1 n2 payload w = (r, w') → world_ok w'.
Proof.
  intros Hok [[Ht Hs]|(p&date&u&c&_&_&E&Ht&Hs)]%handleSnapshotAccount_cases.
  - by eapply world_ok_same.
  - unfold world_ok. rewrite Ht, Hs. eapply derived_only_ok; [apply derived_Upsert| |exact E].
    exact Hok.
Qed.

(** The upserted row holds the sum for its day; the other rows keep theirs, as the
    postings are the same. *)
Lemma snapshot_rows now n2 p date w u c :
  sys_ok (now, w) → enc_ts (t_ns (end_of_day date)) < now →
  UpsertBalanceSnapshot (sp_AccountID p) date
    (created_upto (sp_AccountID p) (enc_ts (t_ns (end_of_day date))) (w_tab w))
    (mkConn (w_tab w) (w_seq w) n2 []) = (Ok u, c) →
  postings (c_tab c) = postings (w_tab w) ∧ snapshots_ok (c_tab c) ∧
  Forall (λ x, day_cutoff (s_AsOfDate x) < now) (balance_snapshots (c_tab c)).
Proof.
  intros [_ _ _ Hsn Hpast] Hcut (f&->&_&Hf)%UpsertBalanceSnapshot_inv.
  cbn [fst snd c_tab insert_seq] in *.
  assert (postings (set_snapshots f (w_tab w)) = postings (w_tab w) ∧
    balance_snapshots (set_snapshots f (w_tab w)) = f (balance_snapshots (w_tab w))) as [Hpo Hbs].
  { destruct (w_tab w). split; reflexivity. }
  assert (day_cutoff (pg_date date) = enc_ts (t_ns (end_of_day date))) as Hday.
  { unfold day_cutoff. rewrite end_of_day_date. reflexivity. }
  split; [exact Hpo|]. unfold snapshots_ok in *. rewrite Hbs.
  rewrite Forall_forall in Hsn, Hpast. rewrite !Forall_forall.
  assert (∀ s, s ∈ f (balance_snapshots (w_tab w)) →
    snapshot_ok (w_tab w) s ∧ day_cutoff (s_AsOfDate s) < now) as Hall.
  { intros s Hs. specialize (Hf s Hs). unfold snapshot_match in Hf.
    destruct (Z.eqb_spec (s_AccountID s) (sp_AccountID p)) as [Ha|];
      [destruct (Z.eqb_spec (s_AsOfDate s) (pg_date date)) as [Hdt|]|]; cbn [andb] in Hf; [|by auto..].
    unfold snapshot_ok. rewrite Hf, Ha, Hdt, Hday. auto. }
  split; intros s Hs; [|apply (Hall s Hs)].
  destruct (Hall s Hs) as [Hsok _]. unfold snapshot_ok, created_upto, sum_amounts in *.
  rewrite Hpo. exact Hsok.
Qed.

Lemma snapshot_step last now n1 n2 payload w r w' :
  sys_ok (last, w) → last ≤ now → op_ok now (OpSnapshot payload) →
  handleSnapshotAccount n1 n2 payload w = (r, w') → sys_ok (now, w').
Proof.
  intros Hok Hle Hop E.
  pose proof (snapshot_world_ok _ _ _ _ _ _ (so_world _ Hok) E) as Hw.
  assert (∀ w1, world_ok w1 → w_tab w1 = w_tab w → sys_ok (now, w1)) as Hsame.
  { intros w1 Hw1 Ht. eapply sys_ok_adds; [exact Hok|exact Hle|exact Hw1|].
    rewrite Ht. by apply adds_refl. }
  apply handleSnapshotAccount_cases in E as [[Ht Hs]|(p&date&u&c&Hp&Hd&E&Ht&Hs)].
  { by apply Hsame. }
  pose proof (Hsame w (so_world _ Hok) eq_refl) as Hnow.
  destruct (snapshot_rows now n2 p date w u c Hnow (Hop p date Hp Hd) E) as (Hpo&Hsn&Hpast).
  destruct Hnow as [_ Hnow Hdt _ _]. rewrite <- Ht in Hpo, Hsn, Hpast.
  split; [exact Hw|exact Hnow| |exact Hsn|exact Hpast].
  cbn [fst snd] in *. unfold postings_dated in *. rewrite Hpo. exact Hdt.
Qed.

(** ** Every step keeps the invariant *)

Context `{!EnvOK}.

Lemma run_op_world_ok now o w : world_ok w → op_ok now o → world_ok (run_op now o w).
Proof.
  intros Hok Hop. destruct o; simpl in *.
  - destruct (on_pool _ _ _) as [r w'] eqn:E. eapply on_pool_ok; [done|apply grows_CreateUser| |done].
    intros c a c'. apply CreateUser_ok.
  - destruct (on_pool _ _ _) as [r w'] eqn:E.
    eapply on_pool_ok; [done|apply grows_CreateAccount| |done]. intros c a c'. apply CreateAccount_ok.
  - destruct (Create now i w) as [r w'] eqn:E. by eapply Create_ok.
  - destruct (Transfer now i w) as [r w'] eqn:E. by eapply Transfer_ok.
  - destruct (Reverse now clock i w) as [r w'] eqn:E. by eapply Reverse_ok.
  - destruct (handleSnapshotAccount now now payload w) as [r w'] eqn:E.
    by eapply snapshot_world_ok.
  - destruct (ProcessBatch now locked w) as [ms w'] eqn:E.
    apply ProcessBatch_cases in E as (_&Hs&new&ids&_&_&_&Ht). unfold world_ok. simpl.
    rewrite Ht, Hs. by apply LedgerOK_mark.
  - destruct (CurrentBalance _ _ _ _ _) as [r w'] eqn:E. apply balance_tables in E as [? Hq].
    eapply world_ok_same; [done|done|simpl; rewrite Hq; reflexivity].
  - destruct (SummaryService_GetMonthlySummary _ _ _ _ _ _) as [r w'] eqn:E.
    apply summary_tables in E as [? Hq].
    eapply world_ok_same; [done|done|simpl; rewrite Hq; reflexivity].
  - destruct (on_pool _ _ _) as [r w'] eqn:E.
    eapply on_pool_ok; [done|apply grows_CreateExport| |done].
    intros c a c'. apply derived_only_ok, derived_CreateExport.
  - destruct (on_pool _ _ _) as [r w'] eqn:E.
    eapply on_pool_ok; [done|apply grows_UpdateExportStatus| |done].
    intros c a c'. apply derived_only_ok, derived_UpdateExportStatus.
Qed.

Lemma step_adds now o w :
  match o with OpSnapshot _ => True | _ => adds now (w_tab w) (w_tab (run_op now o w)) end.
Proof.
  destruct o; simpl; try done.
  - apply adds_on_pool. intros c a c' (->&_&->&_)%CreateUser_inv. simpl.
    destruct (c_tab c). by apply adds_refl.
  - apply adds_on_pool. intros c a c' (->&_&_&_&->)%CreateAccount_inv. simpl.
    destruct (c_tab c). by apply adds_refl.
  - apply adds_Create.
  - apply adds_Transfer.
  - apply adds_Reverse.
  - apply adds_ProcessBatch.
  - destruct (CurrentBalance _ _ _ _ _) as [r w'] eqn:E. apply balance_tables in E as [Ht _].
    simpl. rewrite Ht. by apply adds_refl.
  - destruct (SummaryService_GetMonthlySummary _ _ _ _ _ _) as [r w'] eqn:E.
    apply summary_tables in E as [Ht _]. simpl. rewrite Ht. by apply adds_refl.
  - apply adds_on_pool. intros c a c' E. unfold CreateExport in E. inv_stmt.
    destruct (c_tab c). by apply adds_refl.
  - apply adds_on_pool. intros c a c' E. unfold UpdateExportStatus in E. inv_stmt.
    destruct (c_tab c). by apply adds_refl.
Qed.

Lemma step_ok s s' : sys_ok s → step s s' → sys_ok s'.
Proof.
  intros Hok Hst. destruct Hst as [last now o fs w Hle Hop|last now r fs w Hle].
  2: { eapply sys_ok_adds; [exact Hok|exact Hle|exact (so_world _ Hok)|by apply adds_refl]. }
  assert (sys_ok (last, with_faults fs w)) as Hok' by (by destruct Hok; split).
  pose proof (run_op_world_ok now o _ (so_world _ Hok') Hop) as Hw.
  pose proof (step_adds now o (with_faults fs w)) as Ha.
  destruct o; try (by eapply sys_ok_adds).
  unfold run_op. destruct (handleSnapshotAccount _ _ _ _) as [r w'] eqn:E.
  exact (snapshot_step _ _ _ _ _ _ _ _ Hok' Hle Hop E).
Qed.

Lemma init_ok t0 r : enc_ts (t_ns zero_time) < t0 → sys_ok (t0, init r).
Proof.
  intros Ht. split; simpl; [|done|constructor..].
  split; simpl; try constructor; try done; try lia; try constructor.
  intros x r0 Hx. set_solver.
Qed.

Lemma reachable_ok t0 r s : enc_ts (t_ns zero_time) < t0 → reachable t0 r s → sys_ok s.
Proof.
  intros Ht Hr. unfold reachable in Hr. remember (t0, init r) as s0.
  assert (sys_ok s0) as Hs0 by (subst; by apply init_ok). clear Heqs0.
  induction Hr as [|s0 s1 s2 Hst _ IH]; [done|]. apply IH. by eapply step_ok.
Qed.

Lemma world_ok_faults fs w : world_ok w → world_ok (with_faults fs w).
Proof. exact id. Qed.

Lemma reachable_world_ok t0 r last w :
  enc_ts (t_ns zero_time) < t0 → reachable t0 r (last, w) → world_ok w.
Proof. intros Ht Hr. exact (so_world _ (reachable_ok _ _ _ Ht Hr)). Qed.

End system.
