(* ===== verification/Workers.v ===== *)
(** * The outbox workers at work

    The loop of one worker, with faults, and several workers on the same table: their
    transactions interleave, each holding the rows of its batch locked, and the
    result is that of runs of [ProcessBatch] one after the other. *)
From S2P Require Import Prelude GoTime Effects Json JsonStruct Store Queries World Summary Dto.
From S2P Require Import Transactions TxRun TxSpec Invariant Posting Growth Ledger Services.
From S2P Require Import Balance Outbox Tables System.
Local Open Scope Z_scope.
Local Open Scope ledger_scope.

Section outbox.
Context `{Env} {R : Type}.
Abbreviation W := (World R).

Lemma mark_processed_ids ids now o : o_ID (mark_processed ids now o) = o_ID o.
Proof. unfold mark_processed. by case_bool_decide. Qed.

(** Events waiting to be published. *)
Definition pending (t : Tables) : list Outbox := List.filter unprocessed (outbox t).

(** Marking removes exactly the marked events from the waiting ones. *)
Lemma pending_marked ids now t :
  pending (set_outbox (map (mark_processed ids now)) t) =
  List.filter (λ o, negb (bool_decide (o_ID o ∈ ids))) (pending t).
Proof.
  unfold pending. rewrite filter_filter. destruct t as [u a x p i s e o]. simpl.
  induction o as [|b o IH]; simpl; [done|]. unfold mark_processed at 1 2.
  destruct (bool_decide_reflect (o_ID b ∈ ids)); simpl.
  - by rewrite andb_false_r.
  - rewrite andb_true_r. destruct (unprocessed b); by rewrite IH.
Qed.

Lemma pending_batch now (w : W) :
  world_ok w →
  let batch := batch_of [] (w_tab w) in
  pending (w_tab w) ≡ₚ
  batch ++ pending (set_outbox (map (mark_processed (map o_ID batch) now)) (w_tab w)) ∧
  length batch = Nat.min 50 (length (pending (w_tab w))).
Proof.
  intros Hok batch. set (s := merge_sort (asc o_CreatedAt) (pending (w_tab w))).
  assert (s ≡ₚ pending (w_tab w)) as Hs by apply merge_sort_Permutation.
  assert (batch = take 50 s) as Hbatch.
  { unfold batch, batch_of, s, pending. do 2 f_equal. apply List.filter_ext. intros o.
    rewrite bool_decide_false by apply not_elem_of_nil. by rewrite andb_true_r. }
  assert (NoDup (map o_ID s)) as Hnd.
  { rewrite Hs. apply NoDup_map_filter. apply (ok_outbox_ids Hok). }
  split.
  - rewrite pending_marked. set (f := λ o, negb _).
    assert (List.filter f s = drop 50 s) as Hdrop.
    { rewrite <- (take_drop 50 s), map_app in Hnd. apply NoDup_app in Hnd as (_&Hdis&_).
      rewrite <- (take_drop 50 s) at 1. rewrite List.filter_app.
      rewrite (filter_none _ (take 50 s)), (filter_all _ (drop 50 s)); [done|..];
        apply Forall_forall; intros o Ho; unfold f; rewrite Hbatch.
      - rewrite bool_decide_false; [done|]. intros Hin. apply (Hdis _ Hin).
        by apply list_elem_of_fmap_2.
      - rewrite bool_decide_true; [done|]. by apply list_elem_of_fmap_2. }
    rewrite <- (filter_Permutation f _ _ Hs), Hdrop, Hbatch, take_drop. by rewrite Hs.
  - rewrite Hbatch, length_take. by rewrite Hs.
Qed.


(** ** The loop *)

(** A tick at which nothing fails and no other worker holds rows. *)
Definition calm (now : Z) : select_case := TickCase now [] [].

Definition ticking (cases : list select_case) : bool :=
  forallb (λ c, match c with DoneCase => false | _ => true end) cases.

Lemma Start_app c1 c2 (w : W) :
  ticking c1 = true →
  Start (c1 ++ c2) w =
  let '(ms1, w1) := Start c1 w in let '(ms2, w2) := Start c2 w1 in (ms1 ++ ms2, w2).
Proof.
  revert w. induction c1 as [|[now locked fs|] c1 IH]; intros w Ht; simpl in *; [|..|done].
  - by destruct (Start c2 w).
  - destruct (ProcessBatch now locked _) as [ms w1]. rewrite IH by done.
    destruct (Start c1 w1) as [ms1 w2]. destruct (Start c2 w2) as [ms2 w3]. by rewrite app_assoc.
Qed.

(** Marking some of the events of a batch. *)
Lemma pending_kept ids now t o :
  NoDup (map o_ID (outbox t)) → o ∈ pending t →
  o_ID o ∈ ids ∨ o ∈ pending (set_outbox (map (mark_processed ids now)) t).
Proof.
  intros Hn Ho. destruct (decide (o_ID o ∈ ids)); [by left|right].
  rewrite pending_marked. apply elem_of_filter. rewrite bool_decide_false by done. done.
Qed.

(** Whatever fails, an event that was waiting is published or still waits. *)
Lemma Start_faulty cases (w : W) :
  world_ok w →
  let '(ms, w') := Start cases w in
  world_ok w' ∧ (length (pending (w_tab w')) ≤ length (pending (w_tab w)))%nat ∧
  ∀ o, o ∈ pending (w_tab w) → event_message o ∈ ms ∨ o ∈ pending (w_tab w').
Proof.
  revert w. induction cases as [|[now locked fs|] cases IH]; intros w Hok; cbn [Start];
    [by split_and!; auto| |by split_and!; auto].
  destruct (ProcessBatch now locked _) as [ms w1] eqn:E.
  apply ProcessBatch_cases in E as (_&Hs&new&ids&->&Hn&Hi&Ht). cbn [w_tab w_seq] in *.
  assert (world_ok w1) as Hok1 by (unfold world_ok; rewrite Ht, Hs; by apply LedgerOK_mark).
  specialize (IH w1 Hok1). destruct (Start cases w1) as [ms' w2]. destruct IH as (Hok2&Hle&Hkept).
  split_and!; [done| |].
  - etrans; [exact Hle|]. rewrite Ht, pending_marked. apply List.filter_length_le.
  - intros o Ho. rewrite elem_of_app.
    destruct (pending_kept ids now _ o (proj2 (ok_outbox_ids Hok)) Ho) as [Hin|Hp].
    + left. left. assert (o_ID o ∈ map o_ID new) as (b&Hb&Hnew)%list_elem_of_fmap by (by eapply elem_of_sublist).
      destruct (batch_of_spec locked (w_tab w) b) as (Hbo&_&_); [by eapply elem_of_sublist|].
      apply elem_of_filter in Ho as [_ Ho].
      assert (o = b) as -> by (apply (NoDup_map_inj o_ID (outbox (w_tab w))); [apply (ok_outbox_ids Hok)|done..]).
      by apply list_elem_of_fmap_2.
    + rewrite <- Ht in Hp. destruct (Hkept o Hp); auto.
Qed.

(** Undisturbed ticks publish everything once. *)
Lemma Start_calm nows (w : W) :
  world_ok w → (length (pending (w_tab w)) ≤ 50 * length nows)%nat →
  let '(ms, w') := Start (map calm nows) w in
  pending (w_tab w') = [] ∧ ms ≡ₚ map event_message (pending (w_tab w)).
Proof.
  revert w. induction nows as [|now nows IH]; intros w Hok Hlen; cbn [map Start calm].
  - simpl in Hlen. destruct (pending (w_tab w)) eqn:E; [done|simpl in Hlen; lia].
  - rewrite ProcessBatch_all by done. cbn [w_tab w_seq w_redis].
    set (batch := batch_of [] (w_tab w)). set (w1 := mkWorld _ _ _ _).
    destruct (pending_batch now w Hok) as [Hp Hb]. fold batch in Hp, Hb.
    assert (w_tab w1 = set_outbox (map (mark_processed (map o_ID batch) now)) (w_tab w)) as Ht by done.
    rewrite <- Ht in Hp. specialize (IH w1).
    destruct (Start (map calm nows) w1) as [ms' w2]. destruct IH as [Hz Hm].
    + unfold world_ok. rewrite Ht. by apply LedgerOK_mark.
    + apply Permutation_length in Hp. rewrite length_app in Hp. simpl in Hlen. lia.
    + split; [done|]. rewrite Hm, <- map_app. apply (Permutation_map event_message). by rewrite Hp.
Qed.

(** Whatever the loop has met before, enough undisturbed ticks publish what waits. *)
Lemma Start_drains cases nows (w : W) :
  world_ok w → ticking cases = true → (length (pending (w_tab w)) ≤ 50 * length nows)%nat →
  let '(ms, w') := Start (cases ++ map calm nows) w in
  pending (w_tab w') = [] ∧ Forall (λ o, event_message o ∈ ms) (pending (w_tab w)) ∧
  (cases = [] → ms ≡ₚ map event_message (pending (w_tab w))).
Proof.
  intros Hok Hc Hlen. rewrite Start_app by done.
  pose proof (Start_faulty cases w Hok) as Hpre. destruct (Start cases w) as [ms1 w1] eqn:E1.
  destruct Hpre as (Hok1&Hle&Hkept).
  pose proof (Start_calm nows w1 Hok1) as Hpost. destruct (Start (map calm nows) w1) as [ms2 w2].
  destruct Hpost as [Hz Hm]; [lia|]. split_and!; [done| |].
  - apply Forall_forall. intros o Ho. apply elem_of_app. destruct (Hkept o Ho) as [?|Hin]; [by left|right].
    rewrite Hm. by apply list_elem_of_fmap_2.
  - intros ->. by injection E1 as <- <-.
Qed.

End outbox.

(** ** Several workers *)

(** A worker inside its transaction: the time it began, the rows of its batch it has
    tried to publish, each with what happened, and the rows left. *)
Record worker := mkWorker { wk_now : Z; wk_tried : list (Outbox * fault); wk_left : list Outbox }.

(** The rows it holds locked. *)
Definition wk_batch (k : worker) : list Outbox := map fst (wk_tried k) ++ wk_left k.
Definition locked_ids (ks : list worker) : list Z := concat (map (λ k, map o_ID (wk_batch k)) ks).

Definition sent (p : Outbox * fault) : bool := match p.2 with Lost => false | _ => true end.
Definition acked (p : Outbox * fault) : bool := match p.2 with NoFault => true | _ => false end.

Definition wk_sent (k : worker) : list Outbox := map fst (List.filter sent (wk_tried k)).
Definition wk_ids (k : worker) : list Z := map o_ID (map fst (List.filter acked (wk_tried k))).

Definition is_publish (o : op) : bool := match o with OpPublish _ => true | _ => false end.

Section concurrent.
Context `{Env} {R : Type} `{!Redis R}.
Abbreviation W := (World R).

(** The database, the workers in a transaction, and the events published so far.
    Any other operation of the system may come in between.  A worker begins and
    selects its batch, skipping what the others hold; publishes row by row; marks the
    acknowledged rows and commits; or fails anywhere, and is rolled back.  In a calm
    run nothing fails. *)
Inductive wstep (calm : bool) : W * list worker * list Outbox → W * list worker * list Outbox → Prop :=
  | ws_other w ks log now o fs :
      is_publish o = false → op_ok now o →
      wstep calm (w, ks, log) (run_op now o (with_faults fs w), ks, log)
  | ws_begin w ks log now ext :
      wstep calm (w, ks, log)
        (w, mkWorker now [] (batch_of (locked_ids ks ++ ext) (w_tab w)) :: ks, log)
  | ws_publish w ks1 ks2 log now tried e left f :
      (calm = true → f = NoFault) →
      wstep calm (w, ks1 ++ mkWorker now tried (e :: left) :: ks2, log)
        (w, ks1 ++ mkWorker now (tried ++ [(e, f)]) left :: ks2,
         log ++ (if sent (e, f) then [e] else []))
  | ws_commit w ks1 k ks2 log :
      wk_left k = [] →
      wstep calm (w, ks1 ++ k :: ks2, log)
        (mkWorld (set_outbox (map (mark_processed (wk_ids k) (wk_now k))) (w_tab w)) (w_seq w) (w_redis w) [],
         ks1 ++ ks2, log)
  | ws_abort w ks1 k ks2 log :
      calm = false →
      wstep calm (w, ks1 ++ k :: ks2, log) (with_faults [] w, ks1 ++ ks2, log).

(** One worker at a time. *)
Inductive serial : W * list Message → W * list Message → Prop :=
  | serial_other w ms now o fs :
      is_publish o = false → op_ok now o → serial (w, ms) (run_op now o (with_faults fs w), ms)
  | serial_batch w ms now locked fs w' ms' :
      ProcessBatch now locked (with_faults fs w) = (ms', w') → serial (w, ms) (w', ms ++ ms').

(** *** Other operations leave the events alone *)

Definition appends (t t' : Tables) : Prop := ∃ new,
  outbox t' = outbox t ++ new ∧ Forall (λ o, o_ProcessedAt o = None) new.

Lemma appends_same t t' : outbox t' = outbox t → appends t t'.
Proof. intros E. exists []. by rewrite app_nil_r. Qed.

Lemma appends_posted c accs x legs kind key hash note dto c' :
  Posted c accs x legs kind key hash note dto c' → appends (c_tab c) (c_tab c').
Proof.
  intros Hpo. destruct (po_tab Hpo) as (idems&payload&_&_&->). eexists. by split; [|repeat constructor].
Qed.

Lemma appends_createBalanced now b (w : W) r w' :
  createBalanced now b w = (r, w') → appends (w_tab w) (w_tab w').
Proof.
  intros E%createBalanced_cases.
  destruct E as [e w' Ht _|d w' Ht _ _|accs legs dto c r w' Hcr _ Ht _ _ _]; rewrite Ht;
    [by apply appends_same..|].
  apply (appends_posted (begin_conn now w) _ _ _ _ _ _ _ _ _ (cr_posted Hcr)).
Qed.

Lemma appends_on_pool {A} now (s : stmt A) (w : W) :
  (∀ c a c', s c = (Ok a, c') → outbox (c_tab c') = outbox (c_tab c)) →
  appends (w_tab w) (w_tab (on_pool now s w).2).
Proof.
  intros Hs. destruct (on_pool now s w) as [r w'] eqn:E.
  apply on_pool_cases in E as [_ [[Ht _]|(a&c&E&_&Ht&_&_)]]; apply appends_same; simpl; rewrite Ht; [done|].
  by apply Hs in E.
Qed.

Lemma run_op_appends now o (w : W) :
  is_publish o = false → appends (w_tab w) (w_tab (run_op now o w)).
Proof.
  destruct o; intros Hp; cbn [run_op]; try done.
  - apply appends_on_pool. intros c a c' (->&_&->&_)%CreateUser_inv. simpl. by destruct (c_tab c).
  - apply appends_on_pool. intros c a c' (->&_&_&_&->)%CreateAccount_inv. simpl. by destruct (c_tab c).
  - unfold Create. destruct (_ =? _); [by apply appends_same|].
    destruct (createBalanced now _ w) as [r w'] eqn:E. by eapply appends_createBalanced.
  - unfold Transfer. destruct (_ <=? _); [by apply appends_same|]. destruct (_ =? _); [by apply appends_same|].
    destruct (createBalanced now _ w) as [r w'] eqn:E. by eapply appends_createBalanced.
  - destruct (Reverse now clock i w) as [r w'] eqn:E. apply Reverse_cases in E. simpl.
    destruct E as [e w' Ht _|d w' Ht _ _|orig ps dto c r w' Hrv _ Ht _ _]; rewrite Ht;
      [by apply appends_same..|].
    apply (appends_posted (begin_conn now w) _ _ _ _ _ _ _ _ _ (rv_posted Hrv)).
  - destruct (handleSnapshotAccount now now payload w) as [r w'] eqn:E. simpl.
    apply handleSnapshotAccount_cases in E as [[Ht _]|(p&date&u&c&_&_&E&Ht&_)]; rewrite Ht;
      [by apply appends_same|].
    apply UpsertBalanceSnapshot_inv in E as (f&->&_&_). apply appends_same. simpl. by destruct (w_tab w).
  - destruct (CurrentBalance _ _ _ _ _) as [r w'] eqn:E. apply balance_tables in E as [Ht _].
    simpl. rewrite Ht. by apply appends_same.
  - destruct (SummaryService_GetMonthlySummary _ _ _ _ _ _) as [r w'] eqn:E.
    apply summary_tables in E as [Ht _]. simpl. rewrite Ht. by apply appends_same.
  - apply appends_on_pool. intros c a c' E. unfold CreateExport in E. inv_stmt. by destruct (c_tab c).
  - apply appends_on_pool. intros c a c' E. unfold UpdateExportStatus in E. inv_stmt. by destruct (c_tab c).
Qed.

(** *** A worker's transaction as a run of [ProcessBatch] *)

Lemma publish_loop_outcomes (out : Outbox → fault) batch c fs ms :
  publish_loop batch ((c, map out batch ++ fs), ms) =
  (Ok (map o_ID (List.filter (λ o, acked (o, out o)) batch)),
   ((c, fs), ms ++ map event_message (List.filter (λ o, sent (o, out o)) batch))).
Proof.
  revert ms. induction batch as [|e batch IH]; intros ms; simpl; [by rewrite app_nil_r|].
  unfold bind, attempt, publish, sent, acked. simpl.
  destruct (out e); rewrite IH; simpl; by rewrite <- ?app_assoc.
Qed.

(** What happened to a row: nothing, when the worker did not get to it. *)
Definition outcome_of (tried : list (Outbox * fault)) (o : Outbox) : fault :=
  default Lost (snd <$> find (λ p, o_ID p.1 =? o_ID o) tried).

Lemma outcome_In tried o f :
  NoDup (map o_ID (map fst tried)) → (o, f) ∈ tried → outcome_of tried o = f.
Proof.
  unfold outcome_of. induction tried as [|[o' f'] tried IH]; intros Hn Hin; [by apply not_elem_of_nil in Hin|].
  simpl in *. apply NoDup_cons in Hn as [Hk Hn]. apply elem_of_cons in Hin as [[= <- <-]|Hin].
  - by rewrite Z.eqb_refl.
  - destruct (Z.eqb_spec (o_ID o') (o_ID o)) as [E|]; [|auto]. destruct Hk. rewrite E.
    by apply list_elem_of_fmap_2, (list_elem_of_fmap_2 fst _ (o, f)).
Qed.

Lemma outcome_notin tried o : o_ID o ∉ map o_ID (map fst tried) → outcome_of tried o = Lost.
Proof.
  unfold outcome_of. induction tried as [|[o' f'] tried IH]; [done|]. simpl.
  intros [? ?]%not_elem_of_cons. destruct (Z.eqb_spec (o_ID o') (o_ID o)); [congruence|auto].
Qed.

Lemma filter_outcomes (f : Outbox * fault → bool) k :
  (∀ o, f (o, Lost) = false) → NoDup (map o_ID (wk_batch k)) →
  List.filter (λ o, f (o, outcome_of (wk_tried k) o)) (wk_batch k) =
  map fst (List.filter f (wk_tried k)).
Proof.
  intros Hf. unfold wk_batch. rewrite map_app, List.filter_app. intros (Hn&Hd&_)%NoDup_app.
  rewrite (filter_none _ (wk_left k)), app_nil_r.
  - rewrite filter_map_swap. f_equal. apply List.filter_ext_in. intros [o x] Hin%list_elem_of_In. simpl.
    by rewrite (outcome_In _ _ x).
  - apply Forall_forall. intros o Ho. rewrite outcome_notin; [done|]. intros Hin. apply (Hd _ Hin).
    by apply list_elem_of_fmap_2.
Qed.

(** A worker's rows are still there, and unprocessed. *)
Record wk_ok (t : Tables) (k : worker) : Prop := {
  wo_rows : ∀ o, o ∈ wk_batch k → o ∈ outbox t ∧ o_ProcessedAt o = None;
  wo_ids : NoDup (map o_ID (wk_batch k));
  wo_length : (length (wk_batch k) ≤ 50)%nat
}.

Definition all_but (k : worker) (t : Tables) : list Z :=
  List.filter (λ i, negb (bool_decide (i ∈ map o_ID (wk_batch k)))) (map o_ID (outbox t)).

(** With everything else locked, the select returns the worker's rows. *)
Lemma batch_exact t k :
  NoDup (map o_ID (outbox t)) → wk_ok t k → batch_of (all_but k t) t ≡ₚ wk_batch k.
Proof.
  intros Hn [Hrows Hids Hlen]. unfold batch_of.
  set (l := List.filter _ (outbox t)).
  assert (l ≡ₚ wk_batch k) as Hl.
  { apply NoDup_Permutation; [by apply (NoDup_fmap_1 o_ID), NoDup_map_filter|by apply (NoDup_fmap_1 o_ID)|].
    intros o. unfold l. rewrite elem_of_filter. unfold unprocessed. split.
    - intros [[_ Hb%negb_true_iff%bool_decide_eq_false]%andb_prop Ho].
      destruct (decide (o_ID o ∈ map o_ID (wk_batch k))) as [(b&Hob&Hbk)%list_elem_of_fmap|Hno].
      + assert (o = b) as ->; [|done].
        apply (NoDup_map_inj o_ID (outbox t)); [done|done|by apply Hrows|done].
      + destruct Hb. apply elem_of_filter. rewrite bool_decide_false by done.
        split; [done|by apply list_elem_of_fmap_2].
    - intros Hb. destruct (Hrows o Hb) as [Ho Hp]. rewrite Hp, bool_decide_true by done. split; [|done].
      simpl. rewrite bool_decide_false; [done|]. intros [Hneg _]%elem_of_filter.
      rewrite bool_decide_true in Hneg; [done|]. by apply list_elem_of_fmap_2. }
  rewrite take_ge; rewrite merge_sort_Permutation; [done|]. by rewrite Hl.
Qed.

(** The run of [ProcessBatch] that does what the worker did, and then finds the
    network in the state [tail]. *)
Definition replay_faults (k : worker) (t : Tables) (tail : list fault) : list fault :=
  NoFault :: NoFault :: map (outcome_of (wk_tried k)) (batch_of (all_but k t) t) ++ tail.

Lemma replay_body k (w : W) tail :
  world_ok w → wk_ok (w_tab w) k →
  ∃ ms ids, ms ≡ₚ map event_message (wk_sent k) ∧ (∀ i, i ∈ ids ↔ i ∈ wk_ids k) ∧
    ProcessBatch (wk_now k) (all_but k (w_tab w))
      (with_faults (replay_faults k (w_tab w) tail) w) =
    let '(r, ((c, fs), ms)) :=
      match ids with
      | [] => (Ok (), ((begin_conn (wk_now k) w, tail), ms))
      | _ => on_tx (exec (MarkProcessed ids)) ((begin_conn (wk_now k) w, tail), ms)
      end in
    match r with
    | Err _ => (ms, rollback w c fs)
    | Ok () => (ms, (do_commit () w c fs).2)
    end.
Proof.
  intros Hok Hk. pose proof (batch_exact _ k (proj2 (ok_outbox_ids Hok)) Hk) as Hb.
  set (B := batch_of (all_but k (w_tab w)) (w_tab w)) in *.
  set (out := outcome_of (wk_tried k)).
  exists (map event_message (List.filter (λ o, sent (o, out o)) B)),
         (map o_ID (List.filter (λ o, acked (o, out o)) B)). split_and!.
  - unfold wk_sent. rewrite <- (filter_outcomes sent k) by (done || apply (wo_ids _ _ Hk)).
    by apply Permutation_map, filter_Permutation.
  - intros i. unfold wk_ids. rewrite <- (filter_outcomes acked k) by (done || apply (wo_ids _ _ Hk)).
    by rewrite <- (Permutation_map o_ID (filter_Permutation _ _ _ Hb)).
  - unfold ProcessBatch, replay_faults. cbn [pop w_faults with_faults].
    unfold ProcessBatch_body, bind at 1, on_tx at 1. unfold exec at 1. rewrite SelectBatch_eq.
    cbn [pop begin_conn c_tab with_faults w_tab]. fold B. fold out. unfold bind.
    rewrite (publish_loop_outcomes out B _ tail []).
    destruct (map o_ID (List.filter _ B)); reflexivity.
Qed.

Lemma mark_ids_ext ids ids' now t :
  (∀ i, i ∈ ids ↔ i ∈ ids') →
  set_outbox (map (mark_processed ids now)) t = set_outbox (map (mark_processed ids' now)) t.
Proof.
  intros E. destruct t as [u a x p i s e o]. unfold set_outbox. simpl. f_equal.
  apply map_ext. intros r. unfold mark_processed. by rewrite (bool_decide_ext _ _ (E (o_ID r))).
Qed.

Lemma mark_none now t : set_outbox (map (mark_processed [] now)) t = t.
Proof.
  destruct t as [u a x p i s e o]. unfold set_outbox. simpl. f_equal.
  rewrite <- (map_id o) at 2. apply map_ext. by intros [].
Qed.

Lemma replay_commit k (w : W) :
  world_ok w → wk_ok (w_tab w) k →
  ∃ locked fs ms,
    ProcessBatch (wk_now k) locked (with_faults fs w) =
      (ms, mkWorld (set_outbox (map (mark_processed (wk_ids k) (wk_now k))) (w_tab w)) (w_seq w) (w_redis w) []) ∧
    ms ≡ₚ map event_message (wk_sent k).
Proof.
  intros Hok Hk. destruct (replay_body k w [] Hok Hk) as (ms&ids&Hms&Hids&E).
  exists (all_but k (w_tab w)), (replay_faults k (w_tab w) []), ms. split; [|done]. rewrite E.
  rewrite <- (mark_ids_ext _ _ (wk_now k) (w_tab w) Hids).
  destruct ids as [|i ids]; [|reflexivity]. rewrite mark_none. reflexivity.
Qed.

Lemma replay_abort k (w : W) :
  world_ok w → wk_ok (w_tab w) k →
  ∃ locked fs ms, ProcessBatch (wk_now k) locked (with_faults fs w) = (ms, with_faults [] w) ∧
    ms ≡ₚ map event_message (wk_sent k).
Proof.
  intros Hok Hk. destruct (replay_body k w [Lost] Hok Hk) as (ms&ids&Hms&Hids&E).
  exists (all_but k (w_tab w)), (replay_faults k (w_tab w) [Lost]), ms. split; [|done]. rewrite E.
  by destruct ids as [|i ids].
Qed.

(** *** The invariant: batches are disjoint, locked rows stay unprocessed *)

Context `{!EnvOK}.

Record wsys_ok (w : W) (ks : list worker) : Prop := {
  wso_world : world_ok w;
  wso_workers : Forall (wk_ok (w_tab w)) ks;
  wso_disjoint : NoDup (locked_ids ks)
}.

Lemma locked_app ks1 ks2 : locked_ids (ks1 ++ ks2) = locked_ids ks1 ++ locked_ids ks2.
Proof. unfold locked_ids. by rewrite map_app, concat_app. Qed.

Lemma locked_cons k ks : locked_ids (k :: ks) = map o_ID (wk_batch k) ++ locked_ids ks.
Proof. done. Qed.

Lemma locked_perm ks1 k ks2 :
  locked_ids (ks1 ++ k :: ks2) ≡ₚ map o_ID (wk_batch k) ++ locked_ids (ks1 ++ ks2).
Proof. rewrite !locked_app, locked_cons. solve_Permutation. Qed.

Lemma locked_In k ks i : k ∈ ks → i ∈ map o_ID (wk_batch k) → i ∈ locked_ids ks.
Proof.
  intros Hk Hi. unfold locked_ids. apply list_elem_of_In, in_concat.
  exists (map o_ID (wk_batch k)). split; [|by apply list_elem_of_In].
  apply in_map_iff. exists k. split; [done|by apply list_elem_of_In].
Qed.

(** Putting a worker elsewhere in its transaction, with the same rows. *)
Lemma wsys_replace w ks1 k k' ks2 :
  wk_batch k' = wk_batch k → wsys_ok w (ks1 ++ k :: ks2) → wsys_ok w (ks1 ++ k' :: ks2).
Proof.
  intros E [Hw Hks Hn]. split; [done| |].
  - apply Forall_app in Hks as [H1 [[Hr Hi Hl] H2]%Forall_cons].
    apply Forall_app; split; [done|]. apply Forall_cons; split; [|done]. split; by rewrite E.
  - rewrite locked_perm, E. by rewrite locked_perm in Hn.
Qed.

Lemma wsys_drop w ks1 k ks2 : wsys_ok w (ks1 ++ k :: ks2) → wsys_ok w (ks1 ++ ks2).
Proof.
  intros [Hw Hks Hn]. split; [done| |].
  - apply Forall_app in Hks as [H1 [_ H2]%Forall_cons]. by apply Forall_app.
  - rewrite locked_perm in Hn. by apply NoDup_app in Hn as (_&_&?).
Qed.

Lemma wk_ok_rows t t' k :
  (∀ o, o ∈ wk_batch k → o ∈ outbox t → o ∈ outbox t') → wk_ok t k → wk_ok t' k.
Proof. intros Hs [Hr Hi Hl]. split; [|done..]. intros o Ho. destruct (Hr o Ho). auto. Qed.

Lemma batch_of_ids locked t : NoDup (map o_ID (outbox t)) → NoDup (map o_ID (batch_of locked t)).
Proof.
  intros Hn. unfold batch_of. rewrite <- firstn_map. eapply sublist_NoDup; [|apply sublist_take].
  rewrite merge_sort_Permutation. by apply NoDup_map_filter.
Qed.

Lemma marked_row ids now t o : o ∈ outbox t → o_ID o ∉ ids → o ∈ outbox (set_outbox (map (mark_processed ids now)) t).
Proof.
  intros Ho Hi. destruct t as [u a x p i s e l]. simpl in *. apply list_elem_of_fmap. exists o.
  split; [|done]. unfold mark_processed. by rewrite bool_decide_false.
Qed.

Lemma wk_ids_batch k i : i ∈ wk_ids k → i ∈ map o_ID (wk_batch k).
Proof.
  unfold wk_ids, wk_batch. rewrite map_app. intros (o&->&([o' f]&->&[_ Hin]%elem_of_filter)%list_elem_of_fmap)%list_elem_of_fmap.
  apply elem_of_app. left. by apply list_elem_of_fmap_2, list_elem_of_fmap_2.
Qed.

Lemma wsys_commit w ks1 k ks2 :
  wsys_ok w (ks1 ++ k :: ks2) →
  wsys_ok (mkWorld (set_outbox (map (mark_processed (wk_ids k) (wk_now k))) (w_tab w)) (w_seq w) (w_redis w) [])
    (ks1 ++ ks2).
Proof.
  intros Hs. destruct (wsys_drop _ _ _ _ Hs) as [Hw Hks Hn]. split; [by apply LedgerOK_mark| |done].
  rewrite Forall_forall in *. intros k' Hk'. apply (wk_ok_rows (w_tab w)); [|auto].
  intros o Ho Hin. apply marked_row; [done|]. intros Hi%wk_ids_batch.
  pose proof (wso_disjoint _ _ Hs) as Hd. rewrite locked_perm in Hd. apply NoDup_app in Hd as (_&Hd&_).
  apply (Hd _ Hi), (locked_In k'); [done|by apply list_elem_of_fmap_2].
Qed.

Lemma wstep_ok cb w ks log w' ks' log' :
  wstep cb (w, ks, log) (w', ks', log') → wsys_ok w ks → wsys_ok w' ks'.
Proof.
  intros Hst Hs. inversion Hst; subst.
  - destruct Hs as [Hw Hks Hn]. split; [by apply run_op_world_ok| |done].
    eapply Forall_impl; [done|]. intros k. apply wk_ok_rows. intros o0 _ Ho0.
    destruct (run_op_appends now o (with_faults fs w)) as (new&E&_); [done|].
    rewrite E. apply elem_of_app. by left.
  - destruct Hs as [Hw Hks Hn]. pose proof (batch_of_ids (locked_ids ks ++ ext) _ (proj2 (ok_outbox_ids Hw))) as Hb.
    split; [done| |].
    + apply Forall_cons. split; [|done]. split; [|done|apply batch_of_length].
      intros o Ho. by destruct (batch_of_spec _ _ _ Ho) as (?&?&_).
    + rewrite locked_cons. apply NoDup_app. split_and!; [done| |done].
      intros i (o&->&Ho)%list_elem_of_fmap Hin. apply batch_of_spec in Ho as (_&_&Hl).
      destruct Hl. apply elem_of_app. by left.
  - eapply wsys_replace; [|done]. unfold wk_batch. simpl. by rewrite map_app, <- app_assoc.
  - by apply wsys_commit.
  - apply wsys_drop in Hs as [Hw Hks Hn]. by split.
Qed.

(** *** Refinement *)

(** The published events are those of the serial runs and of the workers still in a
    transaction. *)
Definition serialized (w0 : W) (w : W) (ks : list worker) (log : list Outbox) : Prop :=
  ∃ ms, rtc serial (w0, []) (w, ms) ∧
    map event_message log ≡ₚ ms ++ map event_message (concat (map wk_sent ks)).

Lemma sent_perm ks1 k ks2 :
  concat (map wk_sent (ks1 ++ k :: ks2)) ≡ₚ wk_sent k ++ concat (map wk_sent (ks1 ++ ks2)).
Proof. rewrite !map_app, !concat_app. simpl. solve_Permutation. Qed.

(** A worker that leaves with the effect of a run of [ProcessBatch]. *)
Lemma serialized_leave w0 w w' ks1 k ks2 log locked fs ms :
  serialized w0 w (ks1 ++ k :: ks2) log →
  ProcessBatch (wk_now k) locked (with_faults fs w) = (ms, w') →
  ms ≡ₚ map event_message (wk_sent k) → serialized w0 w' (ks1 ++ ks2) log.
Proof.
  intros (ms0&Hr&Hp) E Hm. exists (ms0 ++ ms). split; [eapply rtc_r; [done|by econstructor]|].
  rewrite Hp, sent_perm, map_app, Hm. solve_Permutation.
Qed.

Lemma wstep_serialized cb w0 w ks log w' ks' log' :
  wstep cb (w, ks, log) (w', ks', log') → wsys_ok w ks →
  serialized w0 w ks log → serialized w0 w' ks' log'.
Proof.
  intros Hst Hs Hser. inversion Hst; subst.
  - destruct Hser as (ms&Hr&Hp). exists ms. split; [|done]. eapply rtc_r; [done|by constructor].
  - destruct Hser as (ms&Hr&Hp). by exists ms.
  - destruct Hser as (ms&Hr&Hp). exists ms. split; [done|]. rewrite map_app, Hp, !sent_perm.
    unfold wk_sent at 3. cbn [wk_tried]. rewrite List.filter_app, !map_app. cbn [List.filter].
    destruct (sent (e, f)); simpl; solve_Permutation.
  - assert (wk_ok (w_tab w) k) as Hk.
    { destruct Hs as [_ Hks _]. by apply Forall_app in Hks as [_ [? _]%Forall_cons]. }
    destruct (replay_commit k w (wso_world _ _ Hs) Hk) as (locked&fs&ms&E&Hm). by eapply serialized_leave.
  - assert (wk_ok (w_tab w) k) as Hk.
    { destruct Hs as [_ Hks _]. by apply Forall_app in Hks as [_ [? _]%Forall_cons]. }
    destruct (replay_abort k w (wso_world _ _ Hs) Hk) as (locked&fs&ms&E&Hm). by eapply serialized_leave.
Qed.

Lemma wsteps_serialized cb (w0 w : W) ks log :
  world_ok w0 → rtc (wstep cb) (w0, [], []) (w, ks, log) →
  wsys_ok w ks ∧ serialized w0 w ks log.
Proof.
  intros Hok Hr.
  enough (∀ p, rtc (wstep cb) (w0, [], []) p → wsys_ok p.1.1 p.1.2 ∧ serialized w0 p.1.1 p.1.2 p.2) as Hall
    by (exact (Hall _ Hr)).
  apply rtc_ind_r.
  - simpl. split; [split; [done|by constructor|by apply NoDup_nil]|]. exists []. by split.
  - intros [[w1 ks1] log1] [[w2 ks2] log2] _ Hst [IH1 IH2]. simpl in *. split; [by eapply wstep_ok|by eapply wstep_serialized].
Qed.

(** *** Exactly once, when nothing fails *)

Definition processed_in (t : Tables) (i : Z) : Prop :=
  ∃ o, o ∈ outbox t ∧ o_ID o = i ∧ o_ProcessedAt o ≠ None.

Definition tried_ids (k : worker) : list Z := map o_ID (map fst (wk_tried k)).

Record once_ok (t : Tables) (ks : list worker) (log : list Outbox) : Prop := {
  oo_once : NoDup (map o_ID log);
  oo_acked : Forall (λ k, Forall (λ p, acked p = true) (wk_tried k)) ks;
  oo_where : ∀ i, i ∈ map o_ID log → processed_in t i ∨ ∃ k, k ∈ ks ∧ i ∈ tried_ids k
}.

Lemma processed_appends t t' i : appends t t' → processed_in t i → processed_in t' i.
Proof. intros (new&E&_) (o&Ho&?&?). exists o. rewrite E, elem_of_app. auto. Qed.

Lemma processed_mark ids now t i :
  processed_in t i → processed_in (set_outbox (map (mark_processed ids now)) t) i.
Proof.
  intros (o&Ho&Hi&Hp). exists (mark_processed ids now o). split; [|by rewrite mark_processed_ids; split;
    [done|unfold mark_processed; case_bool_decide]].
  destruct t. simpl in *. by apply list_elem_of_fmap_2.
Qed.

Lemma mark_processes ids now t o :
  o ∈ outbox t → o_ID o ∈ ids → processed_in (set_outbox (map (mark_processed ids now)) t) (o_ID o).
Proof.
  intros Ho Hi. exists (mark_processed ids now o). rewrite mark_processed_ids. split_and!; [|done|].
  - destruct t. simpl in *. by apply list_elem_of_fmap_2.
  - unfold mark_processed. by rewrite bool_decide_true.
Qed.

Lemma all_acked k : Forall (λ p, acked p = true) (wk_tried k) → wk_ids k = tried_ids k.
Proof. intros Ha. unfold wk_ids, tried_ids. by rewrite filter_all. Qed.

(** The row a worker is about to publish has not been published. *)
Lemma next_fresh w ks1 now tried e left ks2 log :
  wsys_ok w (ks1 ++ mkWorker now tried (e :: left) :: ks2) →
  once_ok (w_tab w) (ks1 ++ mkWorker now tried (e :: left) :: ks2) log → o_ID e ∉ map o_ID log.
Proof.
  intros [Hw Hks Hn] [_ _ Hwh] Hin. set (k := mkWorker now tried (e :: left)) in *.
  assert (e ∈ wk_batch k) as He by (unfold wk_batch; simpl; set_solver).
  rewrite Forall_forall in Hks. destruct (Hks k) as [Hrows Hids _]; [set_solver|].
  destruct (Hwh _ Hin) as [(o&Ho&Hi&Hp)|(k'&Hk'&Hi)].
  - destruct (Hrows e He) as [Hen Hun]. destruct Hp.
    assert (o = e) as ->; [|done].
    apply (NoDup_map_inj o_ID (outbox (w_tab w))); [apply (ok_outbox_ids Hw)|done..].
  - assert (k' = k ∨ k' ∈ ks1 ++ ks2) as [-> |Hk2] by set_solver.
    + unfold wk_batch in Hids. rewrite map_app in Hids. apply NoDup_app in Hids as (_&Hd&_).
      apply (Hd _ Hi). simpl. by left.
    + rewrite locked_perm in Hn. apply NoDup_app in Hn as (_&Hd&_).
      apply (Hd (o_ID e)); [by apply list_elem_of_fmap_2|]. apply (locked_In k'); [done|].
      unfold wk_batch. rewrite map_app. apply elem_of_app. by left.
Qed.

Lemma wstep_once w ks log w' ks' log' :
  wstep true (w, ks, log) (w', ks', log') → wsys_ok w ks →
  once_ok (w_tab w) ks log → once_ok (w_tab w') ks' log'.
Proof.
  intros Hst Hs Ho. inversion Hst; subst; try done.
  - destruct Ho as [Hn Ha Hwh]. split; [done..|]. intros i [?|?]%Hwh; [left|by right].
    eapply processed_appends; [by apply run_op_appends|done].
  - destruct Ho as [Hn Ha Hwh]. split; [done|by constructor|]. intros i [?|(k&?&?)]%Hwh; [by left|right].
    exists k. split; [by right|done].
  - pose proof (next_fresh _ _ _ _ _ _ _ _ Hs Ho) as Hfr. destruct Ho as [Hn Ha Hwh].
    assert (f = NoFault) as -> by auto. simpl. split.
    + rewrite map_app. by apply NoDup_snoc.
    + apply Forall_app in Ha as [Ha1 [Ha2 Ha3]%Forall_cons]. apply Forall_app; split; [done|].
      apply Forall_cons; split; [|done]. simpl in *. apply Forall_app. by split; [|repeat constructor].
    + set (k' := mkWorker now (tried ++ [(e, NoFault)]) left).
      intros i. rewrite map_app, elem_of_app. intros [[?|(k&Hk&Hi)]%Hwh|Hi].
      * by left.
      * right. apply elem_of_app in Hk as [?|[-> |?]%elem_of_cons].
        -- exists k. set_solver.
        -- exists k'. split; [set_solver|]. unfold tried_ids in *. simpl in *. rewrite !map_app. set_solver.
        -- exists k. set_solver.
      * right. exists k'. split; [set_solver|]. unfold tried_ids. simpl. rewrite !map_app. set_solver.
  - destruct Ho as [Hn Ha Hwh]. pose proof Ha as [_ [Hk _]%Forall_cons]%Forall_app. split; [done|..].
    + apply Forall_app in Ha as [Ha1 [_ Ha2]%Forall_cons]. by apply Forall_app.
    + intros i [Hp|(k'&Hk'&Hi)]%Hwh; [left; by apply processed_mark|].
      assert (k' = k ∨ k' ∈ ks1 ++ ks2) as [-> |?] by set_solver; [left|right; by exists k'].
      unfold tried_ids in Hi. apply list_elem_of_fmap in Hi as (o&->&Hin).
      destruct Hs as [_ Hks _]. apply Forall_app in Hks as [_ [[Hrows _ _] _]%Forall_cons].
      apply mark_processes.
      * apply Hrows. unfold wk_batch. apply elem_of_app. by left.
      * rewrite all_acked by done. by apply list_elem_of_fmap_2.
Qed.

Lemma wsteps_once (w0 w : W) ks log :
  world_ok w0 → rtc (wstep true) (w0, [], []) (w, ks, log) → NoDup (map o_ID log).
Proof.
  intros Hok Hr.
  enough (∀ p, rtc (wstep true) (w0, [], []) p → wsys_ok p.1.1 p.1.2 ∧ once_ok (w_tab p.1.1) p.1.2 p.2) as Hall
    by (apply (Hall _ Hr)).
  apply rtc_ind_r.
  - simpl. split; [split; [done|by constructor|by apply NoDup_nil]|].
    split; [by apply NoDup_nil|by constructor|]. intros i Hi. by apply not_elem_of_nil in Hi.
  - intros [[w1 ks1] log1] [[w2 ks2] log2] _ Hst [IH1 IH2]. simpl in *.
    split; [by eapply wstep_ok|by eapply wstep_once].
Qed.

(** *** A processed event has been published *)

Definition published_ok (s : W * list Message) : Prop :=
  world_ok s.1 ∧ ∀ o, o ∈ outbox (w_tab s.1) → o_ProcessedAt o ≠ None → event_message o ∈ s.2.

Lemma serial_published s s' : serial s s' → published_ok s → published_ok s'.
Proof.
  intros Hst [Hw Hp]. destruct Hst as [w ms now o fs Hn Hop|w ms now locked fs w' ms' E]; cbn [fst snd] in *.
  - split; [by apply run_op_world_ok|]. cbn [fst snd].
    destruct (run_op_appends now o (with_faults fs w) Hn) as (new&Eo&Hnew).
    intros x. rewrite Eo. intros [Hx|Hx]%elem_of_app Hpr; [by apply Hp|].
    rewrite Forall_forall in Hnew. by apply Hnew in Hx.
  - apply ProcessBatch_cases in E as (_&Hs&new&ids&->&Hsub&Hi&Ht). cbn [with_faults w_tab w_seq] in *.
    split; [unfold world_ok; cbn [fst]; rewrite Ht, Hs; by apply LedgerOK_mark|]. cbn [fst snd].
    assert (outbox (w_tab w') = map (mark_processed ids now) (outbox (w_tab w))) as ->
      by (rewrite Ht; by destruct (w_tab w)).
    intros x (o&->&Ho)%list_elem_of_fmap Hpr. apply elem_of_app.
    assert (event_message (mark_processed ids now o) = event_message o) as ->
      by (unfold mark_processed; by case_bool_decide).
    unfold mark_processed in Hpr. case_bool_decide as Hin; [right|left; by apply Hp].
    assert (o_ID o ∈ map o_ID new) as (b&Hb&Hnew)%list_elem_of_fmap by (by eapply elem_of_sublist).
    destruct (batch_of_spec locked (w_tab w) b) as (Hbo&_&_); [by eapply elem_of_sublist|].
    assert (o = b) as -> by (apply (NoDup_map_inj o_ID (outbox (w_tab w))); [apply (ok_outbox_ids Hw)|done..]).
    by apply list_elem_of_fmap_2.
Qed.

Lemma serials_published s s' : rtc serial s s' → published_ok s → published_ok s'.
Proof. induction 1 as [|s1 s2 s3 Hst _ IH]; [done|]. intros Hp. by eapply IH, serial_published. Qed.

Lemma init_published r : published_ok (init r, []).
Proof.
  split.
  - apply (so_world (enc_ts (t_ns zero_time) + 1, init r)), init_ok. lia.
  - intros o Ho. by apply not_elem_of_nil in Ho.
Qed.

(** The message of a transaction. *)
Definition tx_message (t : Tables) (x : Transaction) : option Message :=
  (λ j, mkMessage (str (chars "events:" ++ chars (if t_ReversalOf x is Some _ then "TransactionReversed"
                                                   else "TransactionCreated"))) j)
    <$> event_json (t_ReversalOf x) (tx_dto t x).

(** Every transaction has an event. *)
Lemma tx_has_event (w : W) x :
  world_ok w → x ∈ transactions (w_tab w) →
  ∃ o, o ∈ outbox (w_tab w) ∧ tx_message (w_tab w) x = Some (event_message o).
Proof.
  intros Hok Hx.
  assert (tx_event (w_tab w) x ∈ map (λ o, (o_EventType o, Some (o_Payload o))) (outbox (w_tab w))) as Hin
    by (rewrite (ok_outbox Hok); by apply list_elem_of_fmap_2).
  apply list_elem_of_fmap in Hin as (o&Eo&Ho). exists o. split; [done|].
  unfold tx_event in Eo. injection Eo as E1 E2. unfold tx_message, event_message. by rewrite E2, <- E1.
Qed.

End concurrent.
