(* ===== verification/Snapshots.v ===== *)
(** * The tasks of the snapshot worker

    What the nightly job puts into the queue, and that each task is for a day that
    is over when it runs. *)
From S2P Require Import Prelude GoTime Effects Json JsonStruct Store Queries World Summary Dto.
From S2P Require Import Transactions TxRun TxSpec Invariant Posting Growth Ledger Services.
From S2P Require Import Balance Outbox Tables System.
Local Open Scope Z_scope.
Local Open Scope ledger_scope.

Lemma snapshot_account_roundtrip p :
  int64 (sp_AccountID p) → utf8_ok (sp_Date p) = true →
  unmarshal_payload snapshot_account_field (mkSnapshotAccount 0 "") (snapshot_account_text p) = Some p.
Proof.
  intros Hi Hd. unfold unmarshal_payload, snapshot_account_text. rewrite json_parse_text.
  - cbn [mbind option_bind fill]. fold_names. cbn -[ParseInt itoa].
    rewrite ParseInt_itoa by done. by destruct p.
  - cbn [json_ok forallb fst snd JInt]. by rewrite int_literal_itoa, Hd.
Qed.

Lemma fmt_year_ascii y : 0 ≤ y ≤ 9999 → ascii_text (fmt_year y) = true.
Proof.
  intros Hy. unfold fmt_year. replace (y <? 0) with false by lia.
  replace (y <=? 9999) with true by lia. unfold pad4. rewrite ascii_text_app.
  rewrite !pad2_ascii by div_lia. done.
Qed.

Lemma Format_date_utf8 t : 0 ≤ Year t ≤ 9999 → utf8_ok (Format_date t) = true.
Proof.
  intros Hy. pose proof (civil_valid t) as [Hm Hd]. unfold Format_date. apply ascii_utf8_ok.
  rewrite ascii_text_app, fmt_year_ascii by done. cbn [ascii_text forallb].
  change (forallb valid1) with ascii_text. rewrite ascii_text_app, pad2_ascii by lia.
  cbn [ascii_text forallb]. change (forallb valid1) with ascii_text. by rewrite pad2_ascii by lia.
Qed.

Lemma end_of_day_ns d : t_ns (end_of_day d) = (pg_date d + 1) * day_ns - 1.
Proof.
  unfold end_of_day, DateUTC, pg_date. cbn [t_ns].
  generalize (days_from_civil (Year d) (Month d) (Day d)). intros n.
  unfold day_ns, day_sec, sec_ns. lia.
Qed.

Lemma pg_date_midnight d : pg_date (DateUTC (Year d) (Month d) (Day d) 0 0 0 0) = pg_date d.
Proof.
  pose proof (civil_valid d) as [Hm Hd]. pose proof (civil_day_in_month d) as Hl.
  pose proof (civil_DateUTC (Year d) (Month d) (Day d) 0 0 0 0) as E.
  unfold pg_date. set (m := DateUTC _ _ _ _ _ _ _) in *. rewrite civil_eq in E.
  assert ((Year m, Month m, Day m) = (Year d, Month d, Day d)) as [= -> -> ->].
  { apply E; [split; lia|lia..|]. unfold sec_ns. lia. }
  reflexivity.
Qed.

(** The end of the day before [clock] is before the midnight that precedes it. *)
Lemma yesterday_end clock :
  let d := mkTime (clock - day_ns) 0 in
  t_ns (end_of_day (DateUTC (Year d) (Month d) (Day d) 0 0 0 0)) < clock `div` day_ns * day_ns.
Proof.
  intros d. rewrite end_of_day_ns, pg_date_midnight. unfold pg_date.
  rewrite days_from_civil_civil. unfold wall_sec, d. cbn [t_ns t_off].
  unfold day_ns, day_sec, sec_ns. div_lia.
Qed.

Section snapshots.
Context `{Env} `{!EnvOK} {R : Type} `{!Redis R}.
Abbreviation W := (World R).

(** The run with the empty payload: one task per active account, each for the day
    before. *)
Lemma handleSnapshotAll_tasks now clock (w w' : W) tasks :
  world_ok w → 0 ≤ Year (mkTime (clock - day_ns) 0) ≤ 9999 →
  handleSnapshotAll now clock (snapshot_all_text (mkSnapshotAll "")) w = (Ok tasks, w') →
  map (λ k, sp_AccountID <$> unmarshal_payload snapshot_account_field (mkSnapshotAccount 0 "")
              (tk_payload k)) tasks
    = map (λ a, Some a) (merge_sort (asc id) (map a_ID (List.filter a_IsActive (accounts (w_tab w))))) ∧
  ∀ k later, k ∈ tasks → clock `div` day_ns * day_ns < 1000 * later →
    op_ok later (OpSnapshot (tk_payload k)).
Proof.
  intros Hok Hy E. unfold handleSnapshotAll in E.
  assert (unmarshal_payload snapshot_all_field (mkSnapshotAll "")
    (snapshot_all_text (mkSnapshotAll "")) = Some (mkSnapshotAll "")) as Hu by (vm_compute; done).
  rewrite Hu in E. cbn [or_fail] in E. unfold bind at 1 in E. cbn [ret sa_Date] in E.
  rewrite bool_decide_true in E by done.
  apply bind_Ok in E as (ids&w1&Hids&E).
  apply on_pool_read in Hids as (_&_&_&[Hids|]); [|done]. injection Hids as ->.
  unfold yesterday in E. rewrite Parse_Format_date in E by done.
  apply bind_Ok in E as (date&w2&[= <- <-]&E). injection E as <- _.
  set (date_s := Format_date (mkTime (clock - day_ns) 0)).
  set (ids := merge_sort (asc id) _).
  assert (∀ id, id ∈ ids → unmarshal_payload snapshot_account_field (mkSnapshotAccount 0 "")
    (snapshot_account_text (mkSnapshotAccount id date_s)) = Some (mkSnapshotAccount id date_s)) as Hrt.
  { intros id Hid. apply snapshot_account_roundtrip; [|by apply Format_date_utf8]. simpl.
    unfold ids in Hid. rewrite merge_sort_Permutation in Hid.
    apply list_elem_of_fmap in Hid as (a&->&[_ Ha]%elem_of_filter).
    pose proof (ok_accounts Hok) as Hac. rewrite Forall_forall in Hac. simpl in Ha.
    apply Hac in Ha. unfold id_ok in Ha. unfold int64, min_int64. lia. }
  split.
  - rewrite map_map. apply map_ext_in. intros id Hid%list_elem_of_In. simpl. by rewrite Hrt.
  - intros k later (id&->&Hid)%list_elem_of_fmap Hlt. cbn [op_ok tk_payload with_id NewTaskSnapshotAccount]. intros p date.
    rewrite (Hrt id Hid). intros [= <-]. cbn [sp_Date]. unfold date_s.
    rewrite Parse_Format_date by done. intros [= <-].
    pose proof (yesterday_end clock) as He. cbv zeta in He.
    eapply Z.le_lt_trans; [apply enc_ts_mono, Z.lt_le_incl, He|].
    replace (clock `div` day_ns * day_ns) with (1000 * (clock `div` day_ns * 86400000000))
      by (unfold day_ns; lia).
    rewrite enc_ts_exact. unfold day_ns in *. lia.
Qed.

(** The last midnight is not after the clock. *)
Lemma midnight_le clock : clock `div` day_ns * day_ns ≤ clock.
Proof. unfold day_ns. div_lia. Qed.

End snapshots.
