(* ===== verification/LateCommits.v ===== *)
(** * Transactions that take time

    [created_at] is the time at which a transaction began, and a snapshot sums by it;
    the transaction may commit later.  Here the operations of the system come in the
    order of their commits, each with the time at which it began, at most [lag]
    before.  Balances are still right as long as a snapshot is taken [lag] after the
    end of its day. *)
From S2P Require Import Prelude GoTime Effects Json JsonStruct Store Queries World Summary Dto.
From S2P Require Import Transactions TxRun TxSpec Invariant Posting Growth Ledger Services.
From S2P Require Import Balance Outbox Tables System Snapshots.
Local Open Scope Z_scope.
Local Open Scope ledger_scope.

Definition is_snapshot (o : op) : bool := match o with OpSnapshot _ => true | _ => false end.

Section late.
Context `{Env} `{!EnvOK} {R : Type} `{!Redis R}.
Abbreviation W := (World R).
Variable lag : Z.

(** The time of the last commit, and the world. *)
Inductive lstep : Z * W → Z * W → Prop :=
  | ls_op last start fin o fs w :
      last ≤ fin → fin - lag ≤ start ≤ fin → is_snapshot o = false → op_ok start o →
      lstep (last, w) (fin, run_op start o (with_faults fs w))
  | ls_snapshot last fin payload fs w :
      last ≤ fin → op_ok (fin - lag) (OpSnapshot payload) →
      lstep (last, w) (fin, run_op fin (OpSnapshot payload) (with_faults fs w))
  | ls_redis last fin r fs w :
      last ≤ fin → lstep (last, w) (fin, mkWorld (w_tab w) (w_seq w) r fs).

Definition late_reachable (t0 : Z) (r : R) (s : Z * W) : Prop := rtc lstep (t0, init r) s.

(** Nothing that began by then is still open: the invariant holds of that time. *)
Definition late_ok (s : Z * W) : Prop := sys_ok (s.1 - lag, s.2).

(** The invariant at an earlier time, when the snapshots allow it. *)
Lemma sys_ok_earlier now t (w : W) :
  sys_ok (now, w) → enc_ts (t_ns zero_time) < t →
  Forall (λ x, day_cutoff (s_AsOfDate x) < t) (balance_snapshots (w_tab w)) → sys_ok (t, w).
Proof. intros [Hw _ Hd Hs _] Ht Hp. by split. Qed.

Lemma lstep_ok s s' : late_ok s → lstep s s' → late_ok s'.
Proof.
  unfold late_ok. intros Hok Hst. destruct Hst as [last start fin o fs w Hle Hst Hns Hop
    |last fin payload fs w Hle Hop|last fin r fs w Hle]; cbn [fst snd] in *.
  - assert (sys_ok (last - lag, with_faults fs w)) as Hok' by (by destruct Hok; split).
    pose proof (run_op_world_ok start o _ (so_world _ Hok') Hop) as Hw.
    assert (adds start (w_tab w) (w_tab (run_op start o (with_faults fs w)))) as Ha
      by (pose proof (step_adds start o (with_faults fs w)) as Ha; by destruct o).
    assert (sys_ok (start, run_op start o (with_faults fs w))) as Hs
      by (eapply sys_ok_adds; [exact Hok'|lia|exact Hw|exact Ha]).
    destruct Hok as [_ Hnow _ _ Hp]. cbn [fst snd] in Hnow, Hp.
    eapply sys_ok_earlier; [exact Hs|lia|]. destruct Ha as [-> _].
    eapply Forall_impl; [exact Hp|]. simpl. lia.
  - assert (sys_ok (last - lag, with_faults fs w)) as Hok' by (by destruct Hok; split).
    unfold run_op. destruct (handleSnapshotAccount _ _ _ _) as [r w'] eqn:E.
    refine (snapshot_step _ _ _ _ _ _ _ _ Hok' _ Hop E). lia.
  - eapply sys_ok_adds; [exact Hok|lia|exact (so_world _ Hok)|by apply adds_refl].
Qed.

Lemma late_reachable_ok t0 r s :
  enc_ts (t_ns zero_time) < t0 - lag → late_reachable t0 r s → late_ok s.
Proof.
  intros Ht Hr. unfold late_reachable in Hr. remember (t0, init r) as s0.
  assert (late_ok s0) as Hs0 by (subst; by apply init_ok). clear Heqs0.
  induction Hr as [|s0 s1 s2 Hst _ IH]; [done|]. apply IH. by eapply lstep_ok.
Qed.

End late.
