(* ===== verification/Progress.v ===== *)
(** * Runs without faults

    What each part of the transaction service answers when no request is lost:
    the replay, the conflict, the first failing leg, the failing trigger, and the
    success of a well-formed request. *)
From S2P Require Import Prelude GoTime Effects Json JsonStruct Store Queries World Summary Dto.
From S2P Require Import Transactions TxRun TxSpec Invariant Posting Growth Ledger Services.
Local Open Scope Z_scope.
Local Open Scope ledger_scope.

Lemma bind_eq {S A B} (m : M S A) (k : A → M S B) s a s1 :
  m s = (Ok a, s1) → bind m k s = k a s1.
Proof. intros E. unfold bind. by rewrite E. Qed.

Lemma bind_err {S A B} (m : M S A) (k : A → M S B) s e s1 :
  m s = (Err e, s1) → bind m k s = (Err e, s1).
Proof. intros E. unfold bind. by rewrite E. Qed.

Lemma exec_nil {A} (s : stmt A) c r c' : s c = (r, c') → exec s (c, []) = (r, (c', [])).
Proof. intros E. unfold exec. simpl. by rewrite E. Qed.

Lemma attempt_nil {A} (s : stmt A) c r c' :
  s c = (r, c') → attempt (exec s) (c, []) = (Ok r, (c', [])).
Proof. intros E. unfold attempt. by rewrite (exec_nil _ _ _ _ E). Qed.

Section progress.
Context `{Env}.

(** ** The idempotency key *)

(** The key can be claimed: none is given, or it is fresh. *)
Definition claimable (uid : Z) (key : string) (t : Tables) : Prop :=
  key = "" ∨ (key ≠ "" ∧ pg_text key = true ∧ has_user uid t = true ∧ find_idem uid key t = None).

Lemma claim_ok uid key hash c :
  claimable uid key (c_tab c) →
  ∃ c1, claimIdempotency uid key hash (c, []) = (Ok None, (c1, [])) ∧ claimed uid key hash c c1.
Proof.
  intros [->|(Hk&Hp&Hu&Hf)]; unfold claimIdempotency.
  - rewrite bool_decide_true by done. exists c. split; [done|]. by constructor.
  - rewrite bool_decide_false by done.
    set (i := mkIdempotencyKey uid key hash "started" None (c_now c)).
    exists (on_tab (set_idem (λ l, l ++ [i])) c). split; [|by constructor].
    erewrite bind_eq; [|apply (attempt_nil _ _ (Ok i) (on_tab (set_idem (λ l, l ++ [i])) c))]; [done|].
    unfold InsertIdempotencyKey, text_param, constraint, bind, get_now, read, write, fail, ret.
    rewrite Hp. apply find_none_Forall, negb_existsb, negb_true_iff in Hf.
    simpl. rewrite Hf. simpl. by rewrite Hu.
Qed.

(** The key is taken. *)
Lemma claim_taken uid key hash c i :
  key ≠ "" → pg_text key = true → find_idem uid key (c_tab c) = Some i →
  claimIdempotency uid key hash (c, []) =
  (if negb (bool_decide (i_RequestHash i = hash)) then Err ErrIdempotencyConflict else
   match i_ResponseJson i with
   | Some resp => if bool_decide (i_Status i = "succeeded")
                  then match unmarshal_dto resp with Some d => Ok (Some d) | None => Err ErrUnmarshal end
                  else Err ErrIdempotencyInFlight
   | None => Err ErrIdempotencyInFlight
   end, (c, [])).
Proof.
  intros Hk Hp Hf. unfold claimIdempotency. rewrite bool_decide_false by done.
  assert (existsb (idem_match uid key) (idempotency_keys (c_tab c)) = true) as Hex.
  { apply existsb_In. destruct (find_In _ _ _ Hf). eauto. }
  erewrite bind_eq; [|apply attempt_nil].
  2:{ unfold InsertIdempotencyKey, text_param, constraint, bind, get_now, read, write, fail, ret.
      rewrite Hp. simpl. rewrite Hex. reflexivity. }
  simpl.
  erewrite bind_eq; [|apply exec_nil].
  2:{ unfold GetIdempotency, text_param, constraint, bind, read. rewrite Hp. simpl.
      unfold find_idem in Hf. rewrite Hf. reflexivity. }
  destruct (bool_decide (i_RequestHash i = hash)); [|done]. simpl.
  destruct (i_ResponseJson i) as [resp|]; [|done].
  destruct (bool_decide _); [|done]. by destruct (unmarshal_dto resp).
Qed.

(** ** The checks on the legs *)

(** The error the code gives for a leg, in the order of its tests. *)
Definition leg_error (uid : Z) (cur : string) (t : Tables) (l : Leg) : option error :=
  match find_account (l_AccountID l) t with
  | None => Some ErrAccountNotFound
  | Some a =>
      if negb (a_UserID a =? uid) then Some ErrForbidden
      else if negb (a_IsActive a) then Some ErrAccountInactive
      else if negb (bool_decide (a_Kind a = "external")) && negb (bool_decide (a_Currency a = cur))
           then Some ErrCurrencyMismatch
      else None
  end.

Lemma check_leg_eq uid cur l c :
  check_leg uid cur l (c, []) =
  (match leg_error uid cur (c_tab c) l with Some e => Err e | None => Ok () end, (c, [])).
Proof.
  unfold check_leg, leg_error. erewrite bind_eq; [|by apply attempt_nil].
  fold (find_account (l_AccountID l) (c_tab c)). destruct (find_account _ _) as [a|]; simpl.
  - destruct (negb _); [done|]. destruct (negb _); [done|]. by destruct (_ && _).
  - done.
Qed.

Lemma check_legs_eq uid cur legs c :
  ∃ us, mapM (check_leg uid cur) legs (c, []) =
  (match head (omap (leg_error uid cur (c_tab c)) legs) with
   | Some e => Err e | None => Ok us end, (c, [])).
Proof.
  induction legs as [|l legs [us IH]]; simpl.
  - by exists [].
  - destruct (leg_error uid cur (c_tab c) l) as [e|] eqn:E; simpl.
    + exists []. erewrite bind_err; [done|]. by rewrite check_leg_eq, E.
    + exists (() :: us). erewrite bind_eq; [|by rewrite check_leg_eq, E].
      destruct (head _); [by erewrite bind_err|]. by erewrite bind_eq.
Qed.

Lemma leg_error_none uid cur t l : leg_error uid cur t l = None ↔ leg_ok uid cur t l.
Proof.
  unfold leg_error, leg_ok. split.
  - destruct (find_account _ _) as [a|]; [|done].
    destruct (Z.eqb_spec (a_UserID a) uid); simpl; [|done].
    destruct (a_IsActive a) eqn:?; simpl; [|done]. intros E. exists a. split_and!; auto.
    repeat case_bool_decide; simpl in E; auto. done.
  - intros (a&->&Hu&Ha&Hk). rewrite Hu, Z.eqb_refl, Ha. simpl.
    destruct Hk as [Hk|Hk].
    + by rewrite (bool_decide_true (a_Kind a = "external")).
    + rewrite (bool_decide_true (a_Currency a = cur)) by done. by rewrite andb_false_r.
Qed.

(** ** The external account *)

Lemma external_found uid cur c a :
  find_external uid (c_tab c) = Some a →
  external_account uid cur (c, []) = (Ok (a_ID a), (c, [])).
Proof.
  intros Hf. unfold external_account.
  erewrite bind_eq; [|apply attempt_nil; unfold GetExternalAccount, read; reflexivity].
  fold (find_external uid (c_tab c)). by rewrite Hf.
Qed.

Lemma external_missing uid cur c :
  find_external uid (c_tab c) = None →
  external_account uid cur (c, []) =
  (let! created := exec (CreateExternalAccount uid cur) in ret (a_ID created)) (c, []).
Proof.
  intros Hf. unfold external_account.
  erewrite bind_eq; [|apply attempt_nil; unfold GetExternalAccount, read; reflexivity].
  fold (find_external uid (c_tab c)). by rewrite Hf.
Qed.

Definition room (q : Seqs) (s : serial) (n : nat) : Prop := q s + Z.of_nat n ≤ max_int64 + 1.

Lemma room_le q s n : room q s (S n) → q s ≤ max_int64.
Proof. unfold room. lia. Qed.

Lemma CreateExternalAccount_eq uid cur c :
  pg_text cur = true → room (c_seq c) SAccounts 1 →
  let a := external_row (c_seq c SAccounts) uid cur (c_now c) in
  CreateExternalAccount uid cur c =
  (if account_unique a (c_tab c)
   then if has_user uid (c_tab c) then Ok a else Err (PgError foreign_key_violation)
   else Err (PgError unique_violation),
   if account_unique a (c_tab c) && has_user uid (c_tab c)
   then insert_seq SAccounts (set_accounts (λ l, l ++ [a])) c
   else mkConn (c_tab c) (bump SAccounts (c_seq c)) (c_now c) (c_queue c)).
Proof.
  intros Hp Hr%room_le a. unfold CreateExternalAccount, insert_account, text_param, constraint,
    bind, nextval, get_now, write, ret.
  change (pg_text "External") with true. simpl. rewrite Hp. simpl.
  replace (c_seq c SAccounts <=? max_int64) with true by lia. simpl. unfold a, external_row.
  destruct (account_unique _ _); [|done]. simpl. by destruct (has_user _ _).
Qed.

(** ** Header, postings, event, response *)

Lemma CreateTransactionHeader_eq uid cur occ note c :
  pg_text cur = true → pg_text (default "" note) = true → room (c_seq c) STransactions 1 →
  has_user uid (c_tab c) = true → Forall (λ y, t_ID y ≠ c_seq c STransactions) (transactions (c_tab c)) →
  let x := header_row c uid cur occ note None in
  CreateTransactionHeader uid cur None occ note None c =
  (Ok x, insert_seq STransactions (set_transactions (λ l, l ++ [x])) c).
Proof.
  intros Hc Hn Hr%room_le Hu Hf x.
  assert (negb (existsb (λ y, (t_ID y =? c_seq c STransactions)
    || match t_ReversalOf y, @None Z with Some a, Some b => a =? b | _, _ => false end)
    (transactions (c_tab c))) = true) as He.
  { apply negb_existsb. eapply Forall_impl; [done|]. intros y Hy. simpl in *.
    destruct (t_ReversalOf y); rewrite orb_false_r; lia. }
  unfold CreateTransactionHeader, text_param, constraint, bind, nextval, get_now, write, ret.
  rewrite Hc. simpl. rewrite Hn. simpl. replace (_ <=? max_int64) with true by lia. simpl.
  rewrite He. simpl. by rewrite Hu.
Qed.

Lemma CreatePosting_eq tx acc amt c :
  amt ≠ 0 → room (c_seq c) SPostings 1 →
  Forall (λ p, p_ID p < c_seq c SPostings) (postings (c_tab c)) →
  has_transaction tx (c_tab c) = true → has_account acc (c_tab c) = true →
  let p := mkPosting (c_seq c SPostings) tx acc amt (c_now c) in
  CreatePosting tx acc amt c =
  (Ok p, mkConn (set_postings (λ l, l ++ [p]) (c_tab c)) (bump SPostings (c_seq c)) (c_now c)
           (c_queue c ++ [tx])).
Proof.
  intros Ha Hr%room_le Hf Ht Hac p.
  assert (negb (existsb (λ q, p_ID q =? c_seq c SPostings) (postings (c_tab c))) = true) as He.
  { apply negb_existsb. eapply Forall_impl; [done|]. simpl. lia. }
  unfold CreatePosting, constraint, bind, nextval, get_now, write, enqueue_check, ret.
  replace (_ <=? max_int64) with true by lia. simpl. replace (amt =? 0) with false by lia. simpl.
  rewrite He. simpl. by rewrite Ht, Hac.
Qed.

Lemma create_postings_ok tx legs c :
  Forall (λ l, l_AmountMinor l ≠ 0 ∧ has_account (l_AccountID l) (c_tab c) = true) legs →
  room (c_seq c) SPostings (length legs) →
  Forall (λ p, p_ID p < c_seq c SPostings) (postings (c_tab c)) →
  has_transaction tx (c_tab c) = true →
  ∃ ps c', mapM (create_posting tx) legs (c, []) = (Ok ps, (c', [])).
Proof.
  revert c. induction legs as [|l legs IH]; intros c Hl Hr Hp Ht; simpl; [by eexists _, _|].
  apply Forall_cons in Hl as [[Ha Hac] Hl].
  assert (room (c_seq c) SPostings 1) as Hr1 by (unfold room in *; simpl in *; lia).
  pose proof (CreatePosting_eq tx (l_AccountID l) (l_AmountMinor l) c Ha Hr1 Hp Ht Hac) as E.
  unfold create_posting at 1. simpl in E.
  destruct (IH (CreatePosting tx (l_AccountID l) (l_AmountMinor l) c).2) as (ps&c'&Hm).
  - rewrite E. simpl. eapply Forall_impl; [done|]. intros l' [? ?]. by destruct (c_tab c).
  - rewrite E. unfold room, bump in *. simpl in *. lia.
  - rewrite E. simpl. destruct (c_tab c). simpl in *. apply Forall_app. unfold bump. simpl.
    split; [|constructor; [simpl; lia|done]]. eapply Forall_impl; [done|]. simpl. lia.
  - rewrite E. simpl. by destruct (c_tab c).
  - rewrite E in Hm. simpl in Hm. eexists _, c'.
    erewrite bind_eq; [|erewrite bind_eq; [|by apply exec_nil]; done].
    erewrite bind_eq; [|exact Hm]. done.
Qed.

(** The times of a response can be printed. *)
Definition printable (t : Time) : Prop := ∃ j, time_json t = Some j.

Lemma post_tail_ok {A} c0 c accs x key hash c1 legs note kind rev reversal_of (a : A) :
  Headed c0 c accs x key hash c1 →
  Forall (λ l, l_AmountMinor l ≠ 0 ∧ has_account (l_AccountID l) (c_tab c1) = true) legs →
  room (c_seq c0) SPostings (length legs) → room (c_seq c0) SOutbox 1 →
  Forall (λ p, p_ID p < c_seq c0 SPostings) (postings (c_tab c0)) →
  Forall (λ o, o_ID o < c_seq c0 SOutbox) (outbox (c_tab c0)) →
  printable (pg_time (t_OccurredAt x)) → printable (pg_time (t_CreatedAt x)) →
  ∃ dto c', post_tail x legs note rev kind key hash (t_UserID x) reversal_of a (c1, []) =
            (Ok (Commit (dto, a)), (c', [])).
Proof.
  intros [Hcl Ht Hn Hq Hs _] Hl Hr1 Hr2 Hp Ho [jo Hjo] [jc Hjc].
  destruct (claimed_rows _ _ _ _ _ Hcl) as (_&_&_&_&idems&Hct).
  assert (postings (c_tab c1) = postings (c_tab c0) ∧ outbox (c_tab c1) = outbox (c_tab c0)) as [Hps Hob].
  { rewrite Ht, Hct. by destruct (c_tab c0). }
  destruct (create_postings_ok (t_ID x) legs c1) as (ps&c2&Hm).
  { done. }
  { unfold room. rewrite Hs. unfold room in Hr1. lia. }
  { rewrite Hps, Hs. eapply Forall_impl; [done|]. simpl. lia. }
  { rewrite Ht. destruct (c_tab c). unfold has_transaction. simpl. rewrite existsb_app. simpl.
    by rewrite Z.eqb_refl, orb_true_r. }
  pose proof (create_postings_inv (t_ID x) legs c1 ps c2 (ex_intro _ [] (ex_intro _ [] Hm)))
    as (_&Ht2&_&_&_&Hs2&_).
  unfold post_tail. erewrite bind_eq; [|exact Hm].
  assert (∃ ev, event_json reversal_of (header_dto x note rev ps) = Some ev) as [ev Hev].
  { unfold event_json. simpl. rewrite Hjo. by eexists. }
  rewrite Hev. erewrite bind_eq; [|done].
  set (o := mkOutbox (c_seq c2 SOutbox) kind ev (c_now c2) None).
  erewrite bind_eq; [|apply exec_nil with (c' := insert_seq SOutbox (set_outbox (λ l, l ++ [o])) c2)].
  2:{ unfold CreateOutboxEvent, constraint, bind, nextval, get_now, write, ret.
      rewrite Hs2, Hs by done. replace (_ <=? max_int64) with true by (unfold room in Hr2; lia).
      simpl. assert (negb (existsb (λ p, o_ID p =? c_seq c0 SOutbox + 0) (outbox (c_tab c2))) = true) as ->.
      { rewrite Ht2. apply negb_existsb. destruct (c_tab c1). simpl in *. subst.
        eapply Forall_impl; [done|]. simpl. lia. }
      unfold o. rewrite Hs2, Hs by done. reflexivity. }
  unfold store_response. case_bool_decide; [by eexists _, _|].
  assert (∃ resp, marshal_dto (header_dto x note rev ps) = Some resp) as [resp Hresp].
  { unfold marshal_dto, dto_json. simpl. rewrite Hjo, Hjc. by eexists. }
  rewrite Hresp. eexists _, _. erewrite bind_eq; [done|].
  erewrite bind_eq; [|done]. apply exec_nil. reflexivity.
Qed.

(** ** A committed body without faults *)

Lemma in_tx_nil {R A} now (body : M TxS (outcome A)) (w : World R) r c :
  w_faults w = [] → body (begin_conn now w, []) = (r, (c, [])) →
  in_tx now body w =
  match r with
  | Err e => (Err e, rollback w c [])
  | Ok (Return a) => (Ok (Return a), rollback w c [])
  | Ok (Commit a) =>
      match check_queue (c_queue c) (c_tab c) with
      | Err e => (Err e, rollback w c [])
      | Ok () => (Ok (Commit a), commit w c [])
      end
  end.
Proof.
  intros Hf Hb. unfold in_tx, do_commit. rewrite Hf. simpl. rewrite Hb.
  destruct r as [[a|a]|e]; [done| |done]. by destruct (check_queue _ _) as [[]|].
Qed.

Lemma check_queue_zero n tx t :
  amounts (tx_postings tx t) = 0 → check_queue (replicate n tx) t = Ok ().
Proof.
  intros Hz. induction n as [|n IH]; simpl; [done|].
  unfold check_transaction_balanced, sum_amounts. fold (tx_postings tx t).
  fold (amounts (tx_postings tx t)). rewrite Hz. done.
Qed.

Lemma find_account_In t a :
  NoDup (map a_ID (accounts t)) → a ∈ accounts t → find_account (a_ID a) t = Some a.
Proof.
  intros Hnd Ha. unfold find_account. destruct (find _ _) as [b|] eqn:E.
  - apply find_In in E as [Hb He]. f_equal. apply (NoDup_map_inj a_ID (accounts t)); auto. lia.
  - apply find_none_Forall in E. rewrite Forall_forall in E. specialize (E a Ha). simpl in E. lia.
Qed.

Lemma find_account_has id t a : find_account id t = Some a → has_account id t = true.
Proof. intros [Ha He]%find_In. apply existsb_In. eauto. Qed.

Lemma leg_ok_has uid cur t l : leg_ok uid cur t l → has_account (l_AccountID l) t = true.
Proof. intros (a&Ha&_). by eapply find_account_has. Qed.

Lemma leg_ok_more uid cur t l accs :
  leg_ok uid cur t l → leg_ok uid cur (set_accounts (λ x, x ++ accs) t) l.
Proof.
  intros (a&Ha&?). exists a. split; [|done]. unfold find_account in *.
  apply find_first in Ha as (l1&l2&Hl&Hf&Ht). apply find_first. exists l1, (l2 ++ accs).
  destruct t. simpl in *. subst. by rewrite <- app_assoc.
Qed.

(** What a request needs to be posted, in a session that satisfies the invariant. *)
Record Ready (b : balancedInput) (c : Conn) (legs : list Leg) (accs : list Account) : Prop := {
  re_claim : claimable (b_UserID b) (b_IdempotencyKey b) (c_tab c);
  re_user : has_user (b_UserID b) (c_tab c) = true;
  re_text : pg_text (b_Currency b) = true ∧ pg_text (b_Note b) = true;
  re_legs : Forall (λ l, l_AmountMinor l ≠ 0 ∧
              leg_ok (b_UserID b) (b_Currency b) (set_accounts (λ x, x ++ accs) (c_tab c)) l) legs;
  re_room : room (c_seq c) STransactions 1 ∧ room (c_seq c) SPostings (length legs) ∧
            room (c_seq c) SOutbox 1;
  re_times : printable (pg_time (enc_ts (t_ns (b_OccurredAt b)))) ∧ printable (pg_time (c_now c))
}.

(** The legs the code resolves from a claimed session. *)
Definition resolves (b : balancedInput) (c : Conn) (legs : list Leg) (accs : list Account) : Prop :=
  ∀ c1, claimed (b_UserID b) (b_IdempotencyKey b) (requestHash b) c c1 →
  ∃ c2, resolve_legs b (c1, []) = (Ok legs, (c2, [])) ∧
    c_tab c2 = set_accounts (λ x, x ++ accs) (c_tab c1) ∧ c_now c2 = c_now c1 ∧
    c_queue c2 = c_queue c1 ∧ c_seq c2 SAccounts ≤ Z.max (c_seq c SAccounts) (max_int64 + 1) ∧
    ∀ s, c_seq c2 s = c_seq c1 s + match s with SAccounts => Z.of_nat (length accs) | _ => 0 end.

Lemma createBalanced_body_ok b c legs accs :
  LedgerOK (c_tab c) (c_seq c) → Ready b c legs accs → resolves b c legs accs →
  ∃ dto c', createBalanced_body b (c, []) = (Ok (Commit (dto, legs)), (c', [])).
Proof.
  intros Hok [Hcl Hu [Hc Hn] Hl (Hr1&Hr2&Hr3) [Hp1 Hp2]] Hres.
  destruct (claim_ok _ _ (requestHash b) _ Hcl) as (c1&E1&Hcl1).
  destruct (Hres c1 Hcl1) as (c2&E2&Ht2&Hn2&Hq2&Hm2&Hs2).
  destruct (claimed_rows _ _ _ _ _ Hcl1) as (Hn1&Hq1&Hs1&_&idems&Ht1).
  assert (Forall (leg_ok (b_UserID b) (b_Currency b) (c_tab c2)) legs) as Hlok.
  { eapply Forall_impl; [exact Hl|]. intros l [_ Hk]. rewrite Ht2, Ht1. by destruct (c_tab c). }
  destruct (check_legs_eq (b_UserID b) (b_Currency b) legs c2) as [us E3].
  assert (head (omap (leg_error (b_UserID b) (b_Currency b) (c_tab c2)) legs) = None) as Hno.
  { clear -Hlok. induction Hlok as [|l legs Hk _ IH]; [done|]. simpl.
    apply leg_error_none in Hk. by rewrite Hk. }
  rewrite Hno in E3.
  assert (∀ s, s ≠ SAccounts → c_seq c2 s = c_seq c s) as Hs.
  { intros s ?. rewrite Hs2, Hs1. destruct s; lia || done. }
  pose proof (CreateTransactionHeader_eq (b_UserID b) (b_Currency b) (b_OccurredAt b)
    (note_param (b_Note b)) c2) as E4.
  destruct (post_tail_ok c c1 accs (header_row c2 (b_UserID b) (b_Currency b) (b_OccurredAt b)
      (note_param (b_Note b)) None) (b_IdempotencyKey b) (requestHash b)
    (insert_seq STransactions (set_transactions (λ l, l ++ [header_row c2 (b_UserID b)
      (b_Currency b) (b_OccurredAt b) (note_param (b_Note b)) None])) c2)
    legs (b_Note b) "TransactionCreated" 0 None legs) as (dto&c'&E5); try done.
  - split; simpl; [done|by rewrite Ht2|congruence|congruence| |].
    + intros s. unfold bump. destruct (decide _) as [->|]; [rewrite Hs by done; lia|].
      rewrite Hs2, Hs1. by destruct s.
    + unfold bump, room in *. simpl. rewrite (Hs STransactions) by done. split; [done|lia].
  - rewrite Forall_forall in *. intros l Hin. split; [apply (Hl l Hin)|]. simpl.
    pose proof (leg_ok_has _ _ _ _ (Hlok l Hin)). by destruct (c_tab c2).
  - eapply Forall_impl; [apply (ok_postings Hok)|]. unfold id_ok. simpl. lia.
  - destruct (ok_outbox_ids Hok) as [Ho _]. eapply Forall_impl; [apply Ho|].
    unfold id_ok. simpl. lia.
  - simpl. by rewrite Hn2, Hn1.
  - unfold createBalanced_body.
    erewrite bind_eq; [|exact E1]. cbv beta iota. erewrite bind_eq; [|exact E2]. erewrite bind_eq; [|exact E3].
    erewrite bind_eq; [|apply exec_nil, E4].
    + exists dto, c'. exact E5.
    + done.
    + unfold note_param. by case_bool_decide.
    + unfold room in *. rewrite Hs by done. lia.
    + rewrite Ht2, Ht1. by destruct (c_tab c).
    + rewrite Hs by done. rewrite Ht2, Ht1. destruct (c_tab c) eqn:Etab. simpl.
      pose proof (ok_txs Hok) as Hx. simpl in Hx.
      eapply Forall_impl; [exact Hx|]. intros y [[? _] _]. simpl. lia.
Qed.

End progress.
