(* ===== verification/Idempotency.v ===== *)
(** * Idempotency

    A committed request leaves its idempotency row, with the response as text, in
    the tables for good; a later request with the same key is answered from the
    row, or refused when the hash differs. *)
From S2P Require Import Prelude GoTime Effects Json JsonStruct Store Queries World Summary Dto.
From S2P Require Import Transactions TxRun TxSpec Invariant Posting Growth Ledger Services.
From S2P Require Import Balance Outbox Tables System Progress.
Local Open Scope Z_scope.
Local Open Scope ledger_scope.

Section idempotency.
Context `{Env} {R : Type} `{!Redis R}.
Abbreviation W := (World R).

(** Rows of these tables are only ever added. *)
Record rows_grow (t t' : Tables) : Prop := {
  rg_users : users t `prefix_of` users t';
  rg_accounts : accounts t `prefix_of` accounts t';
  rg_transactions : transactions t `prefix_of` transactions t';
  rg_postings : postings t `prefix_of` postings t';
  rg_idem : idempotency_keys t `prefix_of` idempotency_keys t'
}.

#[global] Instance rows_grow_refl : Reflexive rows_grow.
Proof. by split. Qed.
#[global] Instance rows_grow_trans : Transitive rows_grow.
Proof. intros t1 t2 t3 [] []. split; by etrans. Qed.

Lemma rows_grow_posted c accs x legs kind key hash note dto c' :
  Posted c accs x legs kind key hash note dto c' → rows_grow (c_tab c) (c_tab c').
Proof.
  intros Hpo. destruct (po_tab Hpo) as (idems&?&_&_&->). unfold posted.
  split; simpl; first [reflexivity|by eexists].
Qed.

Lemma find_idem_grows uid key t t' i :
  rows_grow t t' → find_idem uid key t = Some i → find_idem uid key t' = Some i.
Proof.
  intros [_ _ _ _ [l Hl]] Hf. unfold find_idem in *. rewrite Hl.
  apply find_first in Hf as (l1&l2&E&?&?). apply find_first. exists l1, (l2 ++ l).
  by rewrite E, <- app_assoc.
Qed.

Lemma Replayed_grows uid key hash t t' d :
  rows_grow t t' → Replayed uid key hash t d → Replayed uid key hash t' d.
Proof.
  intros Hg (?&?&i&resp&Hf&?). split_and!; [done..|]. exists i, resp. split; [|done].
  by eapply find_idem_grows.
Qed.

(** ** Steps only add rows *)

Lemma rows_grow_createBalanced now b (w w' : W) r :
  createBalanced now b w = (r, w') → rows_grow (w_tab w) (w_tab w').
Proof.
  intros E%createBalanced_cases.
  destruct E as [e w' Ht _|d w' Ht _ _|accs legs dto c r w' Hcr _ Ht _ _ _]; rewrite Ht;
    [reflexivity..|]. exact (rows_grow_posted _ _ _ _ _ _ _ _ _ _ (cr_posted Hcr)).
Qed.

Lemma rows_grow_Reverse now clock i (w w' : W) r :
  Reverse now clock i w = (r, w') → rows_grow (w_tab w) (w_tab w').
Proof.
  intros E%Reverse_cases.
  destruct E as [e w' Ht _|d w' Ht _ _|orig ps dto c r w' Hrv _ Ht _ _]; rewrite Ht;
    [reflexivity..|]. exact (rows_grow_posted _ _ _ _ _ _ _ _ _ _ (rv_posted Hrv)).
Qed.

Lemma rows_grow_pool {A} now (s : stmt A) (w : W) :
  (∀ c a c', s c = (Ok a, c') → rows_grow (c_tab c) (c_tab c')) →
  rows_grow (w_tab w) (w_tab (on_pool now s w).2).
Proof.
  intros Hs. destruct (on_pool now s w) as [r w'] eqn:E.
  apply on_pool_cases in E as [_ [[Ht _]|(a&c&E&_&Ht&_&_)]]; cbn [snd]; rewrite Ht; [reflexivity|].
  exact (Hs (begin_conn now w) _ _ E).
Qed.

Lemma derived_rows {A} (s : stmt A) c a c' :
  derived_only s → s c = (Ok a, c') → rows_grow (c_tab c) (c_tab c').
Proof. intros Hd (_&_&f&g&->)%Hd. by destruct (c_tab c). Qed.

Lemma rows_grow_op now o (w : W) : rows_grow (w_tab w) (w_tab (run_op now o w)).
Proof.
  destruct o; cbn [run_op].
  - apply rows_grow_pool. intros c a c' (_&_&->&_)%CreateUser_inv.
    destruct c as [[] ???]. split; first [reflexivity|by eexists].
  - apply rows_grow_pool. intros c a c' (_&_&_&_&->)%CreateAccount_inv.
    destruct c as [[] ???]. split; first [reflexivity|by eexists].
  - unfold Create. destruct (_ =? _); [reflexivity|].
    destruct (createBalanced _ _ _) eqn:E. by eapply rows_grow_createBalanced.
  - unfold Transfer. destruct (_ <=? _); [reflexivity|]. destruct (_ =? _); [reflexivity|].
    destruct (createBalanced _ _ _) eqn:E. by eapply rows_grow_createBalanced.
  - destruct (Reverse _ _ _ _) eqn:E. by eapply rows_grow_Reverse.
  - destruct (handleSnapshotAccount _ _ _ _) as [r w'] eqn:E. cbn [snd].
    apply handleSnapshotAccount_cases in E as [[Ht _]|(p&date&u&c&_&_&E&Ht&_)]; rewrite Ht;
      [reflexivity|]. apply derived_rows in E; [done|apply derived_Upsert].
  - destruct (ProcessBatch _ _ _) as [ms w'] eqn:E. cbn [snd].
    apply ProcessBatch_cases in E as (_&_&new&ids&_&_&_&Ht). rewrite Ht.
    by destruct (w_tab w).
  - destruct (CurrentBalance _ _ _ _ _) eqn:E. apply balance_tables in E as [Ht _]. cbn [snd].
    rewrite Ht. reflexivity.
  - destruct (SummaryService_GetMonthlySummary _ _ _ _ _ _) eqn:E.
    apply summary_tables in E as [Ht _]. cbn [snd]. rewrite Ht. reflexivity.
  - apply rows_grow_pool. intros c a c'. apply derived_rows, derived_CreateExport.
  - apply rows_grow_pool. intros c a c'. apply derived_rows, derived_UpdateExportStatus.
Qed.

Lemma rows_grow_steps (s s' : Z * W) : rtc step s s' → rows_grow (w_tab s.2) (w_tab s'.2).
Proof.
  induction 1 as [s|s1 s2 s3 Hst _ IH]; [reflexivity|]. etrans; [|exact IH].
  destruct Hst as [last now o fs w _ _|]; [|done]. exact (rows_grow_op now o (with_faults fs w)).
Qed.

(** ** A committed request can be replayed *)

Lemma find_idem_new uid key hash resp now l :
  Forall (λ i, idem_match uid key i = false) l →
  find (idem_match uid key) (l ++ [idem_row uid key hash resp now]) =
  Some (idem_row uid key hash resp now).
Proof.
  intros Hl. apply find_first. exists l, []. split_and!; [done..|].
  unfold idem_match. simpl. by rewrite Z.eqb_refl, bool_decide_true.
Qed.

Lemma posted_replayable c accs x legs kind key hash note dto c' :
  Posted c accs x legs kind key hash note dto c' → dto_ok dto → key ≠ "" →
  Replayed (t_UserID x) key hash (c_tab c') dto.
Proof.
  intros Hpo Hd Hk. destruct (po_key Hpo) as [|(_&Hp&Hf)]; [done|].
  destruct (po_tab Hpo) as (idems&payload&Hst&_&Ht).
  destruct Hst as [[? _]|(_&resp&Hm&->)]; [done|].
  split_and!; [done..|]. apply find_none_Forall in Hf.
  exists (idem_row (t_UserID x) key hash resp (c_now c)), resp.
  split_and!; [|done..|by apply unmarshal_marshal_dto].
  unfold find_idem. rewrite Ht. by apply find_idem_new.
Qed.

(** Without faults, a request whose key has succeeded gets the stored response. *)
Lemma createBalanced_replay now b (w : W) d :
  w_faults w = [] → validateLegs (b_Legs b) (b_UseExternalLeg b) = Ok () →
  Replayed (b_UserID b) (b_IdempotencyKey b) (requestHash b) (w_tab w) d →
  ∃ w', createBalanced now b w = (Ok d, w') ∧ w_tab w' = w_tab w.
Proof.
  intros Hf Hv (Hk&Hp&i&resp&Hi&Hh&Hs&Hr&Hu). unfold createBalanced. rewrite Hv.
  pose proof (claim_taken (b_UserID b) (b_IdempotencyKey b) (requestHash b) (begin_conn now w) i
    Hk Hp Hi) as Hc.
  rewrite Hh, Hr, Hs, Hu, !bool_decide_true in Hc by done. cbn in Hc.
  assert (createBalanced_body b (begin_conn now w, []) =
    (Ok (Return (d, [])), (begin_conn now w, []))) as Hb.
  { unfold createBalanced_body. by rewrite (bind_eq _ _ _ _ _ Hc). }
  erewrite bind_eq; [|rewrite (in_tx_nil _ _ _ _ _ Hf Hb); reflexivity].
  eexists. split; [reflexivity|]. done.
Qed.

Lemma Reverse_replay now clock i (w : W) d :
  w_faults w = [] →
  Replayed (ri_UserID i) (ri_IdempotencyKey i) (reverseHash i) (w_tab w) d →
  ∃ w', Reverse now clock i w = (Ok d, w') ∧ w_tab w' = w_tab w.
Proof.
  intros Hf (Hk&Hp&j&resp&Hi&Hh&Hs&Hr&Hu). unfold Reverse.
  pose proof (claim_taken (ri_UserID i) (ri_IdempotencyKey i) (reverseHash i) (begin_conn now w) j
    Hk Hp Hi) as Hc.
  rewrite Hh, Hr, Hs, Hu, !bool_decide_true in Hc by done. cbn in Hc.
  assert (∃ y, Reverse_body clock i (begin_conn now w, []) =
    (Ok (Return (d, y)), (begin_conn now w, []))) as [y Hb].
  { unfold Reverse_body. rewrite (bind_eq _ _ _ _ _ Hc). by eexists. }
  erewrite bind_eq; [|rewrite (in_tx_nil _ _ _ _ _ Hf Hb); reflexivity].
  eexists. split; [reflexivity|]. done.
Qed.

(** A key used for another request is refused, and nothing changes. *)
Lemma createBalanced_conflict now b (w : W) i :
  w_faults w = [] → validateLegs (b_Legs b) (b_UseExternalLeg b) = Ok () →
  b_IdempotencyKey b ≠ "" → pg_text (b_IdempotencyKey b) = true →
  find_idem (b_UserID b) (b_IdempotencyKey b) (w_tab w) = Some i →
  i_RequestHash i ≠ requestHash b →
  ∃ w', createBalanced now b w = (Err ErrIdempotencyConflict, w') ∧ w_tab w' = w_tab w.
Proof.
  intros Hf Hv Hk Hp Hi Hh. unfold createBalanced. rewrite Hv.
  pose proof (claim_taken (b_UserID b) (b_IdempotencyKey b) (requestHash b) (begin_conn now w) i
    Hk Hp Hi) as Hc.
  rewrite bool_decide_false in Hc by done. cbn in Hc.
  assert (createBalanced_body b (begin_conn now w, []) =
    (Err ErrIdempotencyConflict, (begin_conn now w, []))) as Hb.
  { unfold createBalanced_body. by rewrite (bind_err _ _ _ _ _ Hc). }
  erewrite bind_err; [|rewrite (in_tx_nil _ _ _ _ _ Hf Hb); reflexivity].
  eexists. split; [reflexivity|]. done.
Qed.

(** ** No request is ever found in flight *)

(** The errors a computation can raise. *)
Definition raises {S A} (P : error → Prop) (m : M S A) : Prop :=
  ∀ s e s', m s = (Err e, s') → P e.

Lemma raises_ret {S A} P (a : A) : raises P (ret (S:=S) a).
Proof. by intros s e s' [=]. Qed.
Lemma raises_fail {S A} (P : error → Prop) e : P e → raises P (fail (S:=S) (A:=A) e).
Proof. intros Hp s e' s' [= <- _]. done. Qed.
Lemma raises_bind {S A B} P (m : M S A) (k : A → M S B) :
  raises P m → (∀ a, raises P (k a)) → raises P (bind m k).
Proof. intros Hm Hk s e s' [?|(a&s1&_&?)]%bind_Err; [by eapply Hm|by eapply Hk]. Qed.
Lemma raises_attempt {S A} P (m : M S A) : raises P (attempt m).
Proof. intros s e s'. unfold attempt. by destruct (m s). Qed.
Lemma raises_or_fail {S A} (P : error → Prop) e (o : option A) : P e → raises P (or_fail (S:=S) e o).
Proof. intros Hp. destruct o; [apply raises_ret|by apply raises_fail]. Qed.
Lemma raises_mapM {S A B} P (f : A → M S B) l : (∀ a, raises P (f a)) → raises P (mapM f l).
Proof.
  intros Hf. induction l; simpl; [apply raises_ret|].
  apply raises_bind; [done|intros ?]. apply raises_bind; [done|intros ?]. apply raises_ret.
Qed.

(** A statement raises database errors only. *)
Definition db_error (e : error) : Prop := e = ErrNoRows ∨ ∃ c, e = PgError c.

Lemma raises_nextval s : raises db_error (nextval s).
Proof. intros c e c'. unfold nextval. destruct (_ <=? _); [done|]. intros [= <- _]. right. eauto. Qed.
Lemma raises_constraint code ok : raises db_error (constraint code ok).
Proof. intros c e c'. unfold constraint. destruct (ok _); [done|]. intros [= <- _]. right. eauto. Qed.
Lemma raises_one_row {A} (f : Conn → option A) : raises db_error (read (λ c, one_row (f c))).
Proof. intros c e c' [E _]%read_inv. destruct (f c); [done|]. injection E as ->. by left. Qed.

Lemma raises_exec {A} (P : error → Prop) (s : stmt A) :
  raises db_error s → (∀ e, db_error e ∨ e = ErrConn → P e) → raises P (exec s).
Proof.
  intros Hs HP [c fs] e s' E. unfold exec in E. destruct (pop fs) as [[] ?].
  - destruct (s c) as [r c1] eqn:Es. injection E as -> _. apply HP. left. by eapply Hs.
  - injection E as <- _. apply HP. by right.
  - destruct (s c). injection E as <- _. apply HP. by right.
Qed.

Ltac raise :=
  repeat first
    [ progress intros
    | apply raises_bind; [|intros ?]
    | apply raises_ret
    | apply raises_attempt
    | apply raises_nextval
    | apply raises_constraint
    | apply raises_one_row
    | apply raises_mapM
    | apply raises_fail; done
    | apply raises_or_fail; done
    | case_match ];
  try by intros ???.

Definition not_in_flight (e : error) : Prop := e ≠ ErrIdempotencyInFlight.

Lemma db_not_in_flight e : db_error e ∨ e = ErrConn → not_in_flight e.
Proof. intros [[-> |[c ->]]| ->]; done. Qed.

Lemma raises_header uid cur cat occ note rev :
  raises db_error (CreateTransactionHeader uid cur cat occ note rev).
Proof. unfold CreateTransactionHeader, text_param. raise. Qed.
Lemma raises_posting tx acc amt : raises db_error (CreatePosting tx acc amt).
Proof. unfold CreatePosting. raise. Qed.
Lemma raises_event kind payload : raises db_error (CreateOutboxEvent kind payload).
Proof. unfold CreateOutboxEvent. raise. Qed.
Lemma raises_external uid cur : raises db_error (CreateExternalAccount uid cur).
Proof. unfold CreateExternalAccount, insert_account, text_param. raise. Qed.
Lemma raises_insert_key uid key hash : raises db_error (InsertIdempotencyKey uid key hash).
Proof.
  unfold InsertIdempotencyKey, text_param. raise. apply raises_fail. by left.
Qed.
Lemma raises_get_key uid key : raises db_error (GetIdempotency uid key).
Proof. unfold GetIdempotency, text_param. raise. Qed.

(** What follows the claim cannot raise it. *)
Lemma raises_store uid key hash dto : raises not_in_flight (store_response uid key hash dto).
Proof.
  unfold store_response. raise. apply raises_exec; [|apply db_not_in_flight]. by intros ???.
Qed.

Lemma raises_create_posting tx l : raises not_in_flight (create_posting tx l).
Proof. unfold create_posting. raise. apply raises_exec; [apply raises_posting|apply db_not_in_flight]. Qed.

(** An inspected statement fails with a database error or a lost connection. *)
Lemma attempt_exec_errors {A} (s : stmt A) c fs e s' :
  raises db_error s → attempt (exec s) (c, fs) = (Ok (Err e), s') → not_in_flight e.
Proof.
  intros Hs E. unfold attempt in E. destruct (exec s (c, fs)) as [r s1] eqn:Ee.
  injection E as -> _. eapply (raises_exec not_in_flight s Hs db_not_in_flight). exact Ee.
Qed.

Lemma raises_bind_attempt {A B} (s : stmt A) (k : result A → M TxS B) :
  raises db_error s → (∀ a, raises not_in_flight (k (Ok a))) →
  (∀ e, not_in_flight e → raises not_in_flight (k (Err e))) →
  raises not_in_flight (bind (attempt (exec s)) k).
Proof.
  intros Hs Ha He [c fs] e s' [E|(r&s1&E&Ek)]%bind_Err.
  - by eapply raises_attempt in E.
  - destruct r as [a|e1]; [by eapply Ha|]. eapply He; [|done]. by eapply attempt_exec_errors.
Qed.

Lemma raises_resolve b : raises not_in_flight (resolve_legs b).
Proof.
  unfold resolve_legs, external_account. destruct (b_UseExternalLeg b); [|apply raises_ret].
  apply raises_bind; [|intros; apply raises_ret].
  apply raises_bind_attempt; [apply raises_one_row|intros; apply raises_ret|].
  intros e He. destruct (errors_is e ErrNoRows); [|by apply raises_fail].
  apply raises_bind; [|intros; apply raises_ret].
  apply raises_exec; [apply raises_external|apply db_not_in_flight].
Qed.

Lemma raises_check uid cur l : raises not_in_flight (check_leg uid cur l).
Proof.
  unfold check_leg. apply raises_bind_attempt; [apply raises_one_row|..].
  - intros a. raise.
  - intros e He. case_match; by apply raises_fail.
Qed.

(** In a state that satisfies the invariant, a key that is taken has succeeded. *)
Lemma claim_not_in_flight uid key hash c fs e s' :
  LedgerOK (c_tab c) (c_seq c) →
  claimIdempotency uid key hash (c, fs) = (Err e, s') → not_in_flight e.
Proof.
  intros Hok E. unfold claimIdempotency in E. case_bool_decide; [done|].
  apply bind_Err in E as [E|(r&[c1 fs1]&Er&E)]; [by eapply raises_attempt in E|].
  destruct r as [i|e1]; [done|].
  pose proof (attempt_exec_errors _ _ _ _ _ (raises_insert_key uid key hash) Er) as He1.
  destruct (errors_is e1 ErrNoRows) eqn:Hno; cbn in E; [|by injection E as <- _].
  assert (c1 = c) as ->.
  { assert (runs (attempt (exec (InsertIdempotencyKey uid key hash))) c (Err e1) c1) as Hr
      by (by eexists _, _).
    apply runs_attempt in Hr as [Hr|[= ->]]; [|done].
    by apply InsertIdempotencyKey_cases in Hr as [(?&[=]&_)|(?&_&->&_)]. }
  apply bind_Err in E as [E|(i&[c2 fs2]&Ei&E)].
  { eapply raises_exec; [apply raises_get_key|apply db_not_in_flight|exact E]. }
  assert (runs (exec (GetIdempotency uid key)) c i c2) as Hr by (by eexists _, _).
  apply runs_exec, GetIdempotency_inv in Hr as (->&Hf&_).
  destruct (find_In _ _ _ Hf) as [Hin _].
  pose proof (ok_idem Hok) as Hi. rewrite Forall_forall in Hi.
  destruct (Hi i Hin) as (_&Hst&resp&x&Hresp&_&_&Hu).
  destruct (bool_decide (i_RequestHash i = hash)); [|by injection E as <- _].
  cbn in E. rewrite Hresp, Hst, Hu in E. done.
Qed.

Lemma createBalanced_body_not_in_flight b c fs e s' :
  LedgerOK (c_tab c) (c_seq c) → createBalanced_body b (c, fs) = (Err e, s') → not_in_flight e.
Proof.
  intros Hok [E|(cached&s1&_&E)]%bind_Err; [by eapply claim_not_in_flight|].
  destruct cached as [d|]; [done|]. revert E.
  generalize s1. intros s2 E. revert s2 e s' E. change (raises not_in_flight
    (let! legs := resolve_legs b in
      mapM (check_leg (b_UserID b) (b_Currency b)) legs ;;;
      let! header := exec (CreateTransactionHeader (b_UserID b) (b_Currency b) None
                             (b_OccurredAt b) (note_param (b_Note b)) None) in
      let! ps := mapM (create_posting (t_ID header)) legs in
      let dto := header_dto header (b_Note b) 0 ps in
      let! event := or_fail ErrMarshal (event_json None dto) in
      exec (CreateOutboxEvent "TransactionCreated" event) ;;;
      store_response (b_UserID b) (b_IdempotencyKey b) (requestHash b) dto ;;;
      ret (Commit (dto, legs)))).
  repeat (apply raises_bind; [|intros ?]).
  - apply raises_resolve.
  - apply raises_mapM. intros l. apply raises_check.
  - apply raises_exec; [apply raises_header|apply db_not_in_flight].
  - apply raises_mapM. intros l. apply raises_create_posting.
  - by apply raises_or_fail.
  - apply raises_exec; [apply raises_event|apply db_not_in_flight].
  - apply raises_store.
  - apply raises_ret.
Qed.

End idempotency.
