(* ===== verification/Cursor.v ===== *)
(** * Pagination cursors ([internal/transport/http/transactions.go])

    [encodeCursor] and [decodeCursor], with the parts of Go's [encoding/base64]
    ([RawURLEncoding]), [strings] and [strconv] they use, and the round trip: a
    cursor the server hands out is read back as the instant and the posting id it
    was made from. *)
From S2P Require Import Prelude GoTime.
Local Open Scope Z_scope.

(** ** base64.RawURLEncoding *)

(** The alphabet A-Z a-z 0-9 - _ and its inverse. *)
Definition b64_char (n : Z) : ascii :=
  if n <? 26 then chr (65 + n)
  else if n <? 52 then chr (97 + (n - 26))
  else if n <? 62 then chr (48 + (n - 52))
  else if n =? 62 then "-"%char else "_"%char.

Definition b64_val (c : ascii) : option Z :=
  let n := code c in
  if (65 <=? n) && (n <=? 90) then Some (n - 65)
  else if (97 <=? n) && (n <=? 122) then Some (n - 97 + 26)
  else if (48 <=? n) && (n <=? 57) then Some (n - 48 + 52)
  else if n =? 45 then Some 62
  else if n =? 95 then Some 63 else None.

(** Three bytes are four sextets; one or two bytes at the end are two or three,
    the missing bits zero, without padding. *)
Fixpoint b64_encode (l : list ascii) : list ascii :=
  match l with
  | a :: b :: c :: l =>
      b64_char (code a `div` 4)
      :: b64_char (code a `mod` 4 * 16 + code b `div` 16)
      :: b64_char (code b `mod` 16 * 4 + code c `div` 64)
      :: b64_char (code c `mod` 64) :: b64_encode l
  | [a; b] =>
      [b64_char (code a `div` 4); b64_char (code a `mod` 4 * 16 + code b `div` 16);
       b64_char (code b `mod` 16 * 4)]
  | [a] => [b64_char (code a `div` 4); b64_char (code a `mod` 4 * 16)]
  | [] => []
  end.

(** The decoder skips line breaks anywhere. *)
Definition b64_break (c : ascii) : bool := (code c =? 10) || (code c =? 13).

Fixpoint b64_quanta (l : list Z) : option (list ascii) :=
  match l with
  | a :: b :: c :: d :: l =>
      r ← b64_quanta l;
      Some (chr (a * 4 + b `div` 16) :: chr (b `mod` 16 * 16 + c `div` 4)
            :: chr (c `mod` 4 * 64 + d) :: r)
  | [a; b; c] => Some [chr (a * 4 + b `div` 16); chr (b `mod` 16 * 16 + c `div` 4)]
  | [a; b] => Some [chr (a * 4 + b `div` 16)]
  | [_] => None
  | [] => Some []
  end.

(** [None] is a [CorruptInputError].  Trailing bits are not checked ([Strict] is
    off). *)
Definition b64_decode (l : list ascii) : option (list ascii) :=
  mapM b64_val (List.filter (λ c, negb (b64_break c)) l) ≫= b64_quanta.

(** ** Cursors *)

(** [strings.SplitN(s, "|", 2)] when it has two parts: before and after the first
    separator. *)
Fixpoint split_at (sep : ascii) (l : list ascii) : option (list ascii * list ascii) :=
  match l with
  | [] => None
  | c :: l => if decide (c = sep) then Some ([], l)
              else '(a, b) ← split_at sep l; Some (c :: a, b)
  end.

(** [strings.Split(s, sep)] for a one-byte separator. *)
Fixpoint split_all (sep : ascii) (l : list ascii) : list (list ascii) :=
  match l with
  | [] => [[]]
  | c :: l => if decide (c = sep) then [] :: split_all sep l
              else match split_all sep l with
                   | p :: ps => (c :: p) :: ps
                   | [] => [[c]]
                   end
  end.

Definition encodeCursor (t : Time) (id : Z) : string :=
  str (b64_encode (chars (Format_RFC3339Nano (UTC t)) ++ "|"%char :: itoa id)).

(** The sentinel of an empty cursor. *)
Definition first_cursor : Time * Z := (DateUTC 9999 1 1 0 0 0 0, max_int64).

Definition decodeCursor (s : string) : option (Time * Z) :=
  if bool_decide (s = "") then Some first_cursor else
  raw ← b64_decode (chars s);
  '(a, b) ← split_at "|" raw;
  t ← Parse_RFC3339 (str a);
  id ← ParseInt b;
  Some (t, id).

(** ** Round trips *)

Lemma b64_val_char n : 0 ≤ n < 64 → b64_val (b64_char n) = Some n.
Proof.
  intros Hn. unfold b64_val, b64_char.
  destruct (Z.ltb_spec n 26); [|destruct (Z.ltb_spec n 52); [|destruct (Z.ltb_spec n 62);
    [|destruct (Z.eqb_spec n 62)]]].
  - rewrite code_chr by lia. repeat (case_match; try lia); f_equal; lia.
  - rewrite code_chr by lia. repeat (case_match; try lia); f_equal; lia.
  - rewrite code_chr by lia. repeat (case_match; try lia); f_equal; lia.
  - by subst.
  - assert (n = 63) as -> by lia. done.
Qed.

Lemma b64_char_not_break n : 0 ≤ n < 64 → b64_break (b64_char n) = false.
Proof.
  intros Hn. pose proof (b64_val_char n Hn) as Hv. unfold b64_break.
  destruct (Z.eqb_spec (code (b64_char n)) 10) as [E|];
    [|destruct (Z.eqb_spec (code (b64_char n)) 13) as [E|]; [|done]];
    unfold b64_val in Hv; by rewrite E in Hv.
Qed.

(** Induction three bytes at a time. *)
Lemma bytes_ind3 (P : list ascii → Prop) :
  P [] → (∀ a, P [a]) → (∀ a b, P [a; b]) → (∀ a b c l, P l → P (a :: b :: c :: l)) → ∀ l, P l.
Proof.
  intros H0 H1 H2 H3. fix F 1. intros [|a [|b [|c l]]]; [done|done|done|]. apply H3, F.
Qed.

Definition sextet (n : Z) : Prop := 0 ≤ n < 64.

(** The text of sextets is read back as those sextets. *)
Lemma b64_sextets ns :
  Forall sextet ns → 
  mapM b64_val (List.filter (λ c, negb (b64_break c)) (map b64_char ns)) = Some ns.
Proof.
  induction 1 as [|n ns Hn _ IH]; [done|]. simpl. rewrite b64_char_not_break by done. simpl.
  rewrite b64_val_char by done. simpl. by rewrite IH.
Qed.

Lemma b64_decode_encode l : b64_decode (b64_encode l) = Some l.
Proof.
  unfold b64_decode.
  assert (∃ ns, b64_encode l = map b64_char ns ∧ Forall sextet ns ∧ b64_quanta ns = Some l)
    as (ns&->&Hns&Hq); [|by rewrite b64_sextets].
  induction l as [|a|a b|a b c l (ns&E&Hns&Hq)] using bytes_ind3.
  - by exists [].
  - pose proof (code_range a). eexists [_; _]. split; [reflexivity|].
    unfold sextet. split; [repeat constructor; div_lia|]. simpl.
    do 2 f_equal. rewrite <- (chr_code a) at 3. f_equal. div_lia.
  - pose proof (code_range a). pose proof (code_range b). eexists [_; _; _]. split; [reflexivity|].
    unfold sextet. split; [repeat constructor; div_lia|]. cbn [b64_quanta].
    rewrite <- (chr_code a) at 4. rewrite <- (chr_code b) at 4. do 2 f_equal; [|f_equal]; f_equal; div_lia.
  - pose proof (code_range a). pose proof (code_range b). pose proof (code_range c).
    eexists (_ :: _ :: _ :: _ :: ns). split; [cbn [b64_encode map]; rewrite E; reflexivity|].
    unfold sextet in *. split; [repeat constructor; [div_lia..|done]|].
    cbn [b64_quanta]. rewrite Hq. cbn [mbind option_bind].
    rewrite <- (chr_code a) at 4. rewrite <- (chr_code b) at 5. rewrite <- (chr_code c) at 4.
    do 2 f_equal; [|f_equal; [|f_equal]]; f_equal; div_lia.
Qed.

Lemma split_at_app sep a b : sep ∉ a → split_at sep (a ++ sep :: b) = Some (a, b).
Proof.
  induction a as [|c a IH]; intros Hs; simpl.
  - by rewrite decide_True.
  - rewrite decide_False by set_solver. rewrite IH by set_solver. done.
Qed.

Definition no_bar (l : list ascii) : bool := forallb (λ c, negb (code c =? 124)) l.

Lemma no_bar_app l1 l2 : no_bar (l1 ++ l2) = no_bar l1 && no_bar l2.
Proof. apply forallb_app. Qed.

Lemma no_bar_spec l : no_bar l = true → "|"%char ∉ l.
Proof.
  unfold no_bar. rewrite forallb_forall. intros Hl Hin%list_elem_of_In. by apply Hl in Hin.
Qed.

Lemma pad2_no_bar n : 0 ≤ n < 100 → no_bar (pad2 n) = true.
Proof. intros. simpl. unfold digit_char. rewrite !code_chr by div_lia. div_lia. Qed.

Lemma fmt_frac_no_bar n : no_bar (fmt_frac n) = true.
Proof.
  unfold fmt_frac. destruct (strip_zeros_app (nano_digits n)) as [k Hk].
  pose proof (nano_digits_range n) as Hr. rewrite Hk in Hr. apply Forall_app in Hr as [Hr _].
  destruct (strip_zeros _) as [|d l]; [done|].
  change (no_bar (map digit_char (d :: l)) = true). revert Hr. generalize (d :: l). clear.
  induction 1 as [|d l Hd _ IH]; [done|]. simpl. rewrite IH. unfold digit_char.
  rewrite code_chr by lia. lia.
Qed.

Lemma Format_no_bar t : 0 ≤ Year t ≤ 9999 → t_off t = 0 → no_bar (chars (Format_RFC3339Nano t)) = true.
Proof.
  intros Hy Ht. unfold Format_RFC3339Nano, fmt_datetime, fmt_year, pad4, fmt_zone.
  rewrite chars_str, Ht. pose proof (civil_valid t) as [Hm Hd].
  pose proof (clock_sec_range t) as Hc. unfold day_sec in Hc.
  replace (Year t <? 0) with false by lia. replace (Year t <=? 9999) with true by lia.
  repeat (rewrite no_bar_app || rewrite <- app_comm_cons || cbn [no_bar forallb]).
  fold no_bar. rewrite fmt_frac_no_bar, !pad2_no_bar by div_lia. done.
Qed.

Lemma encodeCursor_ne t id : encodeCursor t id ≠ "".
Proof.
  unfold encodeCursor. intros E%(f_equal chars). rewrite chars_str in E.
  assert (∀ l, b64_encode l = [] → l = []) as Hn by (intros [|? [|? [|]]]; done).
  apply Hn in E. by destruct (chars (Format_RFC3339Nano (UTC t))).
Qed.

(** A cursor denotes the pair it was made from. *)
Lemma decode_encode_cursor t id :
  0 ≤ Year (UTC t) ≤ 9999 → int64 id → decodeCursor (encodeCursor t id) = Some (UTC t, id).
Proof.
  intros Hy Hid. unfold decodeCursor. rewrite bool_decide_false by apply encodeCursor_ne.
  unfold encodeCursor. rewrite chars_str, b64_decode_encode. cbn [mbind option_bind].
  rewrite split_at_app by (by apply no_bar_spec, Format_no_bar). cbn [mbind option_bind].
  rewrite str_chars, Parse_Format_RFC3339Nano by done. cbn [mbind option_bind].
  by rewrite ParseInt_itoa.
Qed.
