(* ===== verification/Storage.v ===== *)
(** * Export storage ([internal/storage])

    The [Storage] interface as a class with its contract, and its two
    implementations: [Local], files under a directory, with the path cleaning of
    [path/filepath] ([storage.go]), and [S3], objects of a bucket under a prefix
    ([s3.go]).  Both meet the contract on the keys the program uses, and no key
    whatsoever leads a [Local] out of its directory. *)
From S2P Require Import Prelude Cursor.
Local Open Scope Z_scope.

(** ** The interface *)

(** [st_save_failed] is what a [Save] that returns an error leaves behind: a file
    that was truncated, or written in part, or nothing. *)
Class Storage (F : Type) := {
  st_save : F → string → string → F;
  st_save_failed : F → string → string → F;
  st_open : F → string → option string
}.

(** A key that is one plain path component. *)
Definition plain (c : list ascii) : bool :=
  negb (bool_decide (c = [] ∨ c = ["."%char] ∨ c = ["."; "."]%char)).
Definition clean_key (k : string) : bool :=
  plain (chars k) && forallb (λ c, negb (bool_decide (c = "/"%char))) (chars k).

Class StorageOK (F : Type) `{!Storage F} : Prop := {
  st_open_save : ∀ f k body, clean_key k = true → st_open (st_save f k body) k = Some body;
  st_open_save_ne : ∀ f k k' body, clean_key k = true → clean_key k' = true → k ≠ k' →
    st_open (st_save f k body) k' = st_open f k';
  st_open_failed_ne : ∀ f k k' body, clean_key k = true → clean_key k' = true → k ≠ k' →
    st_open (st_save_failed f k body) k' = st_open f k';
  st_open_failed : ∀ f k body, is_Some (st_open f k) → is_Some (st_open (st_save_failed f k body) k)
}.

(** ** path/filepath on Unix *)

(** One component onto the reversed components before it. *)
Definition clean_step (rooted : bool) (acc : list (list ascii)) (c : list ascii)
    : list (list ascii) :=
  if bool_decide (c = [] ∨ c = ["."%char]) then acc
  else if bool_decide (c = ["."; "."]%char) then
    match acc with
    | [] => if rooted then [] else [c]
    | d :: acc' => if bool_decide (d = ["."; "."]%char) then c :: acc else acc'
    end
  else c :: acc.

Definition is_rooted (l : list ascii) : bool := bool_decide (head l = Some "/"%char).

(** The components of a cleaned path. *)
Definition components (l : list ascii) : list (list ascii) :=
  reverse (foldl (clean_step (is_rooted l)) [] (split_all "/" l)).

Fixpoint join_path (cs : list (list ascii)) : list ascii :=
  match cs with
  | [] => []
  | [c] => c
  | c :: cs => c ++ "/"%char :: join_path cs
  end.

Definition render_path (rooted : bool) (cs : list (list ascii)) : list ascii :=
  let p := join_path cs in
  if rooted then "/"%char :: p else if bool_decide (p = []) then ["."%char] else p.

(** [filepath.Clean] *)
Definition Clean (l : list ascii) : list ascii := render_path (is_rooted l) (components l).

(** [filepath.Join(dir, e)] for a non-empty [e]. *)
Definition Join (dir e : list ascii) : list ascii :=
  if bool_decide (dir = []) then Clean e else Clean (dir ++ "/"%char :: e).

(** [Local.path] *)
Definition path (dir key : string) : string :=
  str (Join (chars dir) (Clean ("/"%char :: chars key))).

Example path_ex :
  path "./tmp/exports" "export_7.csv" = "tmp/exports/export_7.csv"
  ∧ path "/data" "../../etc/passwd" = "/data/etc/passwd" ∧ path "/data/" "a//./b/../c" = "/data/a/c".
Proof. vm_compute. done. Qed.

(** ** The implementations *)

(** The directory, and the files of the machine by path.  A failed [Save] leaves
    the file that [os.Create] truncated (a copy that broke off later leaves a
    prefix). *)
Record Local := mkLocal { lo_dir : string; lo_files : gmap string string }.

Definition Local_Save (l : Local) (key body : string) : Local :=
  mkLocal (lo_dir l) (<[path (lo_dir l) key := body]> (lo_files l)).
Definition Local_Open (l : Local) (key : string) : option string :=
  lo_files l !! path (lo_dir l) key.

#[global] Instance Local_storage : Storage Local := {|
  st_save := Local_Save;
  st_save_failed l key _ := Local_Save l key "";
  st_open := Local_Open
|}.

(** A bucket, by object key.  [PutObject] is atomic. *)
Record S3 := mkS3 { s3_prefix : string; s3_objects : gmap string string }.

Definition S3_Save (s : S3) (key body : string) : S3 :=
  mkS3 (s3_prefix s) (<[s3_prefix s +:+ key := body]> (s3_objects s)).
Definition S3_Open (s : S3) (key : string) : option string :=
  s3_objects s !! (s3_prefix s +:+ key).

#[global] Instance S3_storage : Storage S3 := {|
  st_save := S3_Save;
  st_save_failed s _ _ := s;
  st_open := S3_Open
|}.

(** ** Configuration *)

(** The environment, [""] for an unset variable. *)
Inductive StorageConfig := ConfigS3 (bucket prefix endpoint : string) | ConfigLocal (dir : string).

(** [NewS3FromEnv]: the bucket is required, the prefix ends with a slash. *)
Definition NewS3FromEnv (getenv : string → string) : option StorageConfig :=
  let bucket := getenv "S3_BUCKET" in
  if bool_decide (bucket = "") then None else
  let prefix := getenv "S3_PREFIX" in
  let prefix :=
    if bool_decide (prefix = "") || bool_decide (last (chars prefix) = Some "/"%char)
    then prefix else prefix +:+ "/" in
  Some (ConfigS3 bucket prefix (getenv "S3_ENDPOINT")).

Definition FromEnv (getenv : string → string) : option StorageConfig :=
  if bool_decide (getenv "EXPORT_STORAGE" = "s3") then NewS3FromEnv getenv
  else let dir := getenv "EXPORT_DIR" in
       Some (ConfigLocal (if bool_decide (dir = "") then "./tmp/exports" else dir)).

(** ** Paths stay under the directory *)

Definition no_slash (c : list ascii) : Prop := "/"%char ∉ c.

Lemma split_all_no_slash l : Forall no_slash (split_all "/" l).
Proof.
  unfold no_slash. induction l as [|c l IH]; simpl; [constructor; [set_solver|constructor]|].
  destruct (decide _) as [->|Hc]; [constructor; [set_solver|done]|].
  destruct (split_all "/" l) as [|p ps]; [constructor; [set_solver|constructor]|].
  inversion IH; subst. constructor; [set_solver|done].
Qed.

Lemma split_all_ne sep l : split_all sep l ≠ [].
Proof. destruct l; simpl; [done|]. repeat case_match; done. Qed.

Lemma split_all_app a l :
  split_all "/" (a ++ "/"%char :: l) = split_all "/" a ++ split_all "/" l.
Proof.
  induction a as [|c a IH]; simpl; [done|].
  rewrite IH. destruct (decide _); [done|].
  destruct (split_all "/" a) eqn:E; [by apply split_all_ne in E|done].
Qed.

Lemma split_all_one c : no_slash c → split_all "/" c = [c].
Proof.
  induction c as [|x c IH]; intros Hc; [done|]. simpl. unfold no_slash in *.
  rewrite decide_False by set_solver. rewrite IH by set_solver. done.
Qed.

Lemma split_join cs : cs ≠ [] → Forall no_slash cs → split_all "/" (join_path cs) = cs.
Proof.
  induction cs as [|c cs IH]; intros Hne Hcs; [done|]. apply Forall_cons in Hcs as [Hc Hcs].
  destruct cs as [|d cs]; [by apply split_all_one|].
  change (join_path (c :: d :: cs)) with (c ++ "/"%char :: join_path (d :: cs)).
  by rewrite split_all_app, IH, split_all_one.
Qed.

(** Plain components are kept as they are. *)
Lemma clean_plain b cs acc :
  Forall (λ c, plain c = true) cs → foldl (clean_step b) acc cs = reverse cs ++ acc.
Proof.
  intros Hcs. revert acc. induction Hcs as [|c cs Hc _ IH]; intros acc; [done|]. simpl.
  rewrite IH, reverse_cons, <- app_assoc. f_equal. simpl. unfold clean_step, plain in *.
  rewrite negb_true_iff, bool_decide_eq_false in Hc.
  rewrite !bool_decide_false by tauto. done.
Qed.

(** From the root, only plain components remain. *)
Lemma clean_rooted cs acc :
  Forall (λ c, plain c = true) acc →
  Forall (λ c, plain c = true) (foldl (clean_step true) acc cs).
Proof.
  revert acc. induction cs as [|c cs IH]; intros acc Ha; [done|]. simpl. apply IH.
  unfold clean_step. case_bool_decide as E1; [done|]. case_bool_decide as E2.
  - destruct acc as [|d acc]; [done|]. apply Forall_cons in Ha as [Hd Ha].
    rewrite bool_decide_false; [done|]. intros ->. by vm_compute in Hd.
  - constructor; [|done]. unfold plain. rewrite negb_true_iff, bool_decide_eq_false. tauto.
Qed.

Lemma clean_Forall (P : list ascii → Prop) b cs acc :
  Forall P cs → Forall P acc → Forall P (foldl (clean_step b) acc cs).
Proof.
  intros Hcs. revert acc. induction Hcs as [|c cs Hc _ IH]; intros acc Ha; [done|]. simpl. apply IH.
  unfold clean_step. repeat case_match; try (by constructor); inversion Ha; by try constructor.
Qed.

(** The components that a key adds: plain, and without a slash. *)
Definition key_components (key : string) : list (list ascii) := components ("/"%char :: chars key).

Lemma key_components_ok key :
  Forall (λ c, plain c = true) (key_components key) ∧ Forall no_slash (key_components key).
Proof.
  unfold key_components, components. rewrite !Forall_reverse. split.
  - apply clean_rooted. constructor.
  - apply clean_Forall; [apply split_all_no_slash|constructor].
Qed.


(** The path of a stored file: the components of the directory, then the plain
    components of the key. *)
Lemma path_components dir key :
  dir ≠ "" →
  path dir key = str (render_path (is_rooted (chars dir))
                        (components (chars dir) ++ key_components key)).
Proof.
  intros Hd. unfold path, Join. destruct (chars dir) as [|c d] eqn:Ed.
  { by destruct dir. }
  rewrite bool_decide_false by done. rewrite <- Ed. clear Hd.
  pose proof (key_components_ok key) as [Hp Hs]. unfold Clean. fold (key_components key).
  change (is_rooted ("/"%char :: chars key)) with true. unfold render_path at 2 4.
  assert (∀ l, is_rooted (chars dir ++ l) = is_rooted (chars dir)) as Hr by (by rewrite Ed).
  rewrite Hr. do 2 f_equal. unfold components at 1. rewrite Hr, split_all_app, foldl_app.
  simpl.
  assert (∀ acc, foldl (clean_step (is_rooted (chars dir))) acc
    (split_all "/" (join_path (key_components key))) = reverse (key_components key) ++ acc) as ->.
  { intros acc. destruct (decide (key_components key = [])) as [->|Hne]; [done|].
    by rewrite split_join, clean_plain. }
  unfold components at 2. rewrite reverse_app, reverse_involutive. done.
Qed.

Lemma clean_key_spec k :
  clean_key k = true → plain (chars k) = true ∧ no_slash (chars k).
Proof.
  unfold clean_key, no_slash. intros [Hp Hs]%andb_prop. split; [done|].
  rewrite forallb_forall in Hs. intros Hin%list_elem_of_In. apply Hs in Hin.
  by rewrite bool_decide_true in Hin.
Qed.

Lemma key_components_clean k : clean_key k = true → key_components k = [chars k].
Proof.
  intros [Hp Hs]%clean_key_spec. unfold key_components, components. simpl.
  rewrite split_all_one by done.
  pose proof (clean_plain true [chars k] [] ltac:(by constructor)) as E. simpl in *.
  change (is_rooted ("/"%char :: chars k)) with true.
  change (clean_step true [] []) with (@nil (list ascii)). by rewrite E.
Qed.

Lemma join_path_snoc cs k : cs ≠ [] → join_path (cs ++ [k]) = join_path cs ++ "/"%char :: k.
Proof.
  induction cs as [|c cs IH]; intros Hne; [done|]. destruct cs as [|d cs]; [done|].
  change (join_path ((c :: d :: cs) ++ [k])) with (c ++ "/"%char :: join_path ((d :: cs) ++ [k])).
  rewrite IH by done. change (join_path (c :: d :: cs)) with (c ++ "/"%char :: join_path (d :: cs)).
  by rewrite <- app_assoc.
Qed.

(** Plain keys have distinct paths. *)
Lemma path_clean dir : ∃ pre, ∀ k, clean_key k = true → path dir k = str (pre ++ chars k).
Proof.
  destruct (decide (dir = "")) as [->|Hd].
  - exists ["/"%char]. intros k Hk.
    assert (Clean ("/"%char :: chars k) = "/"%char :: chars k) as E.
    { unfold Clean. fold (key_components k). by rewrite key_components_clean. }
    unfold path, Join. rewrite bool_decide_true by done. by rewrite !E.
  - set (cs := components (chars dir)). set (b := is_rooted (chars dir)).
    exists ((if b then ["/"%char] else []) ++ (if decide (cs = []) then [] else join_path cs ++ ["/"%char])).
    intros k Hk. rewrite path_components by done. fold cs b. rewrite key_components_clean by done.
    f_equal. pose proof (clean_key_spec k Hk) as [Hp _].
    assert (join_path (cs ++ [chars k])
      = (if decide (cs = []) then [] else join_path cs ++ ["/"%char]) ++ chars k) as E.
    { destruct (decide _) as [->|]; [done|]. rewrite join_path_snoc by done. by rewrite <- app_assoc. }
    unfold render_path. rewrite E. destruct b; [done|]. rewrite bool_decide_false; [done|].
    intros [_ Hk0]%app_nil. by rewrite Hk0 in Hp.
Qed.

Lemma path_inj dir k k' :
  clean_key k = true → clean_key k' = true → path dir k = path dir k' → k = k'.
Proof.
  intros Hk Hk' E. destruct (path_clean dir) as [pre Hpre]. rewrite !Hpre in E by done.
  apply (f_equal chars) in E. rewrite !chars_str in E. apply app_inv_head in E.
  rewrite <- (str_chars k), <- (str_chars k'). by rewrite E.
Qed.

#[global] Instance Local_storage_ok : StorageOK Local.
Proof.
  split; simpl; unfold Local_Open, Local_Save; simpl; intros.
  - apply lookup_insert_eq.
  - apply lookup_insert_ne. intros E. by apply path_inj in E.
  - apply lookup_insert_ne. intros E. by apply path_inj in E.
  - rewrite lookup_insert_eq. by eexists.
Qed.

#[global] Instance S3_storage_ok : StorageOK S3.
Proof.
  split; simpl; unfold S3_Open, S3_Save; simpl; intros.
  - apply lookup_insert_eq.
  - apply lookup_insert_ne. by intros E%(inj (String.append _)).
  - done.
  - done.
Qed.
