(* ===== verification/Http.v ===== *)
(** * Requests, responses and handlers ([internal/transport/http])

    The net/http vocabulary the handlers are written in: a request as the router
    hands it over, a response, early return, [http.Error], [writeJSON]
    ([users.go]), the decoding of request bodies, [parseInt] ([users.go]) and the
    mapping of service errors to status codes ([transactions.go]). *)
From S2P Require Import Prelude GoTime Effects Json JsonStruct.
Local Open Scope Z_scope.

(** ** Requests and responses *)

(** The first value of a key in the query or in the headers (whose names are in
    canonical form); [""] when absent. *)
Definition Values : Type := list (string * string).

Fixpoint Get (vs : Values) (key : string) : string :=
  match vs with
  | [] => ""
  | (k, v) :: vs => if bool_decide (k = key) then v else Get vs key
  end.

(** [rq_UserID] is the context value of [UserIDKey], [rq_ID] is
    [chi.URLParam(r, "id")], [rq_Query] is [r.URL.Query()]. *)
Record Request := mkRequest {
  rq_Method : string; rq_UserID : option Z; rq_ID : string; rq_Query : Values;
  rq_Header : Values; rq_RemoteAddr : string; rq_Body : string }.

Record Response := mkResponse { rs_Status : Z; rs_Header : Values; rs_Body : string }.

Definition newline : string := str [chr 10].

(** [http.Error(w, msg, code)] *)
Definition http_Error (msg : string) (status : Z) : Response :=
  mkResponse status
    [("Content-Type", "text/plain; charset=utf-8"); ("X-Content-Type-Options", "nosniff")]
    (msg +:+ newline).

(** [writeJSON]: the status is sent before the value is encoded, so a value that
    cannot be encoded leaves an empty body. *)
Definition writeJSON (status : Z) (v : option json) : Response :=
  mkResponse status [("Content-Type", "application/json")]
    (match v with Some j => json_text j +:+ newline | None => "" end).

Definition StatusOK : Z := 200.
Definition StatusCreated : Z := 201.
Definition StatusAccepted : Z := 202.
Definition StatusNoContent : Z := 204.
Definition StatusBadRequest : Z := 400.
Definition StatusUnauthorized : Z := 401.
Definition StatusForbidden : Z := 403.
Definition StatusNotFound : Z := 404.
Definition StatusConflict : Z := 409.
Definition StatusUnprocessableEntity : Z := 422.
Definition StatusTooManyRequests : Z := 429.
Definition StatusInternalServerError : Z := 500.
Definition StatusServiceUnavailable : Z := 503.

(** ** Handlers

    A handler runs on a state and ends with a response, or with a panic (an index
    out of range).  [flow] is a step of it: it goes on with a value, or the handler
    has returned. *)
Inductive served := Reply (r : Response) | Panicked.
Inductive flow (A : Type) := Go (a : A) | Done (s : served).
Arguments Go {A} a.
Arguments Done {A} s.

Definition H (S A : Type) : Type := S → flow A * S.

Definition hret {S A} (a : A) : H S A := λ s, (Go a, s).
(** [w.Write..; return] *)
Definition reply {S A} (r : Response) : H S A := λ s, (Done (Reply r), s).
Definition panic {S A} : H S A := λ s, (Done Panicked, s).
Definition hbind {S A B} (m : H S A) (k : A → H S B) : H S B := λ s,
  match m s with
  | (Go a, s') => k a s'
  | (Done r, s') => (Done r, s')
  end.
(** [x, err := m()] *)
Definition call {S A} (m : M S A) : H S (result A) := λ s, let '(r, s') := m s in (Go r, s').

Notation "'let?' x := m 'in' k" := (hbind m (λ x, k))
  (at level 10, x pattern, m at level 200, k at level 200) : ledger_scope.

(** A handler that returns without writing has answered 200 with no body. *)
Definition serve {S} (h : H S ()) (s : S) : served * S :=
  match h s with
  | (Go _, s') => (Reply (mkResponse StatusOK [] ""), s')
  | (Done r, s') => (r, s')
  end.

(** The step of a handler changes the state only as [R] allows. *)
Definition hkeeps {S A} (R : S → S → Prop) (m : H S A) : Prop := ∀ s, R s (m s).2.

Lemma hkeeps_ret {S A} R `{!Reflexive R} (a : A) : hkeeps (S := S) R (hret a).
Proof. intros s. simpl. reflexivity. Qed.
Lemma hkeeps_reply {S A} R `{!Reflexive R} r : hkeeps (S := S) (A := A) R (reply r).
Proof. intros s. simpl. reflexivity. Qed.
Lemma hkeeps_panic {S A} R `{!Reflexive R} : hkeeps (S := S) (A := A) R panic.
Proof. intros s. simpl. reflexivity. Qed.
Lemma hkeeps_bind {S A B} R `{!Transitive R} (m : H S A) (k : A → H S B) :
  hkeeps R m → (∀ a, hkeeps R (k a)) → hkeeps R (hbind m k).
Proof.
  intros Hm Hk s. specialize (Hm s). unfold hbind.
  destruct (m s) as [[a|r] s1]; simpl in *; [|done]. etrans; [done|]. apply Hk.
Qed.
Lemma hkeeps_call {S A} R (m : M S A) : keeps R m → hkeeps R (call m).
Proof. intros Hm s. specialize (Hm s). unfold call. by destruct (m s). Qed.
Lemma hkeeps_serve {S} R (h : H S ()) s : hkeeps R h → R s (serve h s).2.
Proof. intros Hh. specialize (Hh s). unfold serve. by destruct (h s) as [[]]. Qed.

Create HintDb http.
#[export] Hint Resolve hkeeps_ret hkeeps_reply hkeeps_panic hkeeps_bind hkeeps_call : http.

(** ** Reading a request *)

(** [uid, ok := r.Context().Value(UserIDKey).(int64); if !ok || uid == 0 {..}] *)
Definition require_user {S} (r : Request) : H S Z :=
  match rq_UserID r with
  | Some uid => if uid =? 0 then reply (http_Error "unauthorized" StatusUnauthorized)
                else hret uid
  | None => reply (http_Error "unauthorized" StatusUnauthorized)
  end.

(** [strconv.ParseInt(chi.URLParam(r, "id"), 10, 64)], refused unless positive. *)
Definition require_id {S} (what : string) (r : Request) : H S Z :=
  match ParseInt (chars (rq_ID r)) with
  | Some id => if id <=? 0 then reply (http_Error ("invalid " +:+ what +:+ " id") StatusBadRequest)
               else hret id
  | None => reply (http_Error ("invalid " +:+ what +:+ " id") StatusBadRequest)
  end.

(** [json.NewDecoder(r.Body).Decode(&v)]: the first value of the body, whatever
    follows it. *)
Definition decode_body {A} (f : string → json → A → option A) (zero : A) (body : string)
    : option A :=
  let l := runes (chars body) in
  '(j, _) ← pvalue (length l) l;
  match j with JNull => Some zero | JObj ms => fill f ms zero | _ => None end.

Definition parseInt (r : Request) (key : string) (def : Z) : Z :=
  let v := Get (rq_Query r) key in
  if bool_decide (v = "") then def else
  match ParseInt (chars v) with
  | Some n => if n <? 0 then def else n
  | None => def
  end.

Lemma ParseInt_int64 l z : ParseInt l = Some z → int64 z.
Proof.
  unfold ParseInt. destruct (match l with [] => _ | _ => _ end) as [z'|]; [|done]. simpl.
  destruct (decide _); [|done]. by intros [= <-].
Qed.

Lemma parseInt_range r key def : int64 def → 0 ≤ def → 0 ≤ parseInt r key def ≤ max_int64.
Proof.
  unfold parseInt, int64. intros. case_bool_decide; [lia|].
  destruct (ParseInt _) as [n|] eqn:E; [|lia]. apply ParseInt_int64 in E. unfold int64 in E.
  destruct (Z.ltb_spec n 0); lia.
Qed.

(** ** Service errors *)

(** [err.Error()] of the errors that are shown. *)
Fixpoint Error (e : error) : string :=
  match e with
  | ErrAccountNotFound => "account not found"
  | ErrForbidden => "account does not belong to user"
  | ErrAccountInactive => "account is inactive"
  | ErrCurrencyMismatch => "transaction currency does not match account currency"
  | ErrUnbalanced => "postings must sum to zero"
  | ErrZeroAmount => "posting amount must be non-zero"
  | ErrIdempotencyConflict => "idempotency key reused with a different payload"
  | ErrIdempotencyInFlight => "a request with this idempotency key is already in progress"
  | ErrTxNotFound => "transaction not found"
  | ErrAlreadyReversed => "transaction has already been reversed"
  | ErrIsReversal => "a reversal cannot itself be reversed"
  | Wrapped e msg => Error e +:+ ": " +:+ msg
  | _ => ""
  end.

Definition writeServiceError (err : error) : Response :=
  if errors_is err ErrAccountNotFound || errors_is err ErrTxNotFound then
    http_Error (Error err) StatusNotFound
  else if errors_is err ErrAlreadyReversed || errors_is err ErrIsReversal then
    http_Error (Error err) StatusConflict
  else if errors_is err ErrForbidden then http_Error "forbidden" StatusForbidden
  else if errors_is err ErrAccountInactive || errors_is err ErrCurrencyMismatch
          || errors_is err ErrUnbalanced || errors_is err ErrZeroAmount then
    http_Error (Error err) StatusUnprocessableEntity
  else if errors_is err ErrIdempotencyConflict then http_Error (Error err) StatusConflict
  else if errors_is err ErrIdempotencyInFlight then http_Error (Error err) StatusConflict
  else http_Error "internal error" StatusInternalServerError.

(** The sentinels of the service: errors with a message of their own. *)
Fixpoint sentinel (e : error) : bool :=
  match e with
  | ErrNoRows | PgError _ | ErrConn | ErrMarshal | ErrUnmarshal | ErrParse | ErrEnqueue
  | ErrStorage => false
  | Wrapped e _ => sentinel e
  | _ => true
  end.

(** Exactly the sentinels have a status below 500. *)
Lemma writeServiceError_status e :
  rs_Status (writeServiceError e) = StatusInternalServerError ↔ sentinel e = false.
Proof.
  induction e; try done. rewrite <- IHe. unfold writeServiceError. cbn [errors_is].
  repeat match goal with |- context [bool_decide (Wrapped e msg = ?x)] =>
    rewrite (bool_decide_false (Wrapped e msg = x)) by done end.
  simpl. repeat (case_match; simpl; try done).
Qed.
