(* ===== verification/Float.v ===== *)
(** * Integers in double precision

    [float64] of Go and the numbers of Lua, as far as the program uses them:
    integers.  An integer of at most 53 bits is represented exactly; a larger one
    is rounded to the nearest multiple of a power of two, ties to even. *)
From S2P Require Import Prelude.
Local Open Scope Z_scope.

Definition max_exact : Z := 9007199254740992. (* 2^53 *)

Definition f64 (z : Z) : Z :=
  if Z.abs z <=? max_exact then z else
  let u := 2 ^ (Z.log2 (Z.abs z) - 52) in
  let q := z `div` u in
  let r := z `mod` u in
  if (2 * r <? u) || (2 * r =? u) && Z.even q then q * u else (q + 1) * u.

Lemma f64_exact z : Z.abs z ≤ max_exact → f64 z = z.
Proof. intros. unfold f64. by replace (Z.abs z <=? max_exact) with true by lia. Qed.

(** Rounding does not cross [2^53]. *)
Lemma f64_large z : max_exact ≤ z → max_exact ≤ f64 z.
Proof.
  intros Hz. unfold f64. destruct (Z.leb_spec (Z.abs z) max_exact); [done|].
  rewrite Z.abs_eq in * by (unfold max_exact in *; lia).
  assert (53 ≤ Z.log2 z) as Hl.
  { replace 53 with (Z.log2 max_exact) by done. by apply Z.log2_le_mono. }
  set (k := Z.log2 z) in *.
  assert (max_exact ≤ 2 ^ 52 * 2 ^ (k - 52)).
  { rewrite <- Z.pow_add_r by lia. replace (52 + (k - 52)) with k by lia.
    replace max_exact with (2 ^ 53) by done. apply Z.pow_le_mono_r; lia. }
  assert (2 ^ 52 ≤ z `div` 2 ^ (k - 52)).
  { apply Z.div_le_lower_bound; [apply Z.pow_pos_nonneg; lia|].
    rewrite Z.mul_comm, <- Z.pow_add_r by lia. replace (52 + (k - 52)) with k by lia.
    apply Z.log2_spec. unfold max_exact in *. lia. }
  assert (0 < 2 ^ (k - 52)) by (apply Z.pow_pos_nonneg; lia).
  set (u := 2 ^ (k - 52)) in *. set (q := z `div` u) in *.
  destruct (_ || _); nia.
Qed.

Example f64_ex :
  f64 9007199254740993 = 9007199254740992 ∧ f64 9007199254740995 = 9007199254740996
  ∧ f64 (-9007199254740993) = -9007199254740992 ∧ f64 9223372036854775807 = 9223372036854775808.
Proof. vm_compute. done. Qed.
