(* ===== verification/RateLimit.v ===== *)
(** * The rate limiter ([internal/transport/http/ratelimit.go])

    A token bucket in Redis, one per user or client address, updated by an atomic
    Lua script.  The script's arithmetic is that of Lua numbers ([f64]).  The
    theorem of this file is the bound of a token bucket: in any interval of time, the
    requests let through are at most the capacity plus the refill of the interval,
    whatever the clocks of the servers do, whichever replies are lost. *)
From S2P Require Import Prelude GoTime Effects Json Store Queries World Http Cursor Float.
Local Open Scope Z_scope.
Local Open Scope ledger_scope.

Record RateLimiter := mkRateLimiter { rl_capacity : Z; rl_rate : Z }.

Definition NewRateLimiter (capacity rate : Z) : RateLimiter :=
  let capacity := if capacity <=? 0 then (if rate <=? 0 then 1 else rate) else capacity in
  mkRateLimiter capacity (if rate <=? 0 then 1 else rate).

(** ** Keys *)

Fixpoint split_last (sep : ascii) (l : list ascii) : option (list ascii * list ascii) :=
  match l with
  | [] => None
  | c :: l => match split_last sep l with
              | Some (a, b) => Some (c :: a, b)
              | None => if decide (c = sep) then Some ([], l) else None
              end
  end.

(** [net.SplitHostPort]: host and port; [None] is an [AddrError]. *)
Definition SplitHostPort (l : list ascii) : option (list ascii * list ascii) :=
  '(pre, port) ← split_last ":" l;
  match l with
  | "["%char :: l' =>
      '(a, rest) ← split_at "]" l;
      if bool_decide (pre = a ++ ["]"%char] ∧ ("["%char ∉ l') ∧ ("]"%char ∉ rest))
      then Some (drop 1 a, port) else None
  | _ => if bool_decide ((":"%char ∉ pre) ∧ ("["%char ∉ l) ∧ ("]"%char ∉ l))
         then Some (pre, port) else None
  end.

Definition user_key (r : Request) : option string :=
  (λ uid, str (chars "user:" ++ itoa uid)) <$> rq_UserID r.

Definition ip_key (r : Request) : option string :=
  Some (str (chars "ip:" ++ match SplitHostPort (chars (rq_RemoteAddr r)) with
                            | Some (host, _) => host
                            | None => chars (rq_RemoteAddr r)
                            end)).

(** ** The script *)

Definition tokens_key (key : string) : string := key +:+ ":tokens".
Definition ts_key (key : string) : string := key +:+ ":ts".

(** [tonumber] on a decimal integer, the only text the script stores. *)
Definition tonumber (s : string) : option Z := f64 <$> ParseInt (chars s).

Section limiter.
Context {R : Type} `{!Redis R}.

(** [now] is [time.Now().Unix()], [at_] the time of the request at the Redis server.
    Answers [allowed], [tokens], [reset] ([None]: arithmetic on nil, an error of the
    script), and the new contents. *)
Definition bucket_script (rl : RateLimiter) (key : string) (now at_ : Z) (r : R)
    : option (Z * Z * Z) * R :=
  let capacity := f64 (rl_capacity rl) in
  let rate := f64 (rl_rate rl) in
  let now := f64 now in
  let stored k def := match r_get r at_ k with Some s => tonumber s | None => Some def end in
  match stored (tokens_key key) capacity, stored (ts_key key) now with
  | Some tokens, Some last_refill =>
      let delta := Z.max 0 (f64 (now - last_refill)) in
      let refill := f64 (delta * rate) in
      let tokens := Z.min capacity (f64 (tokens + refill)) in
      let last_refill := if 0 <? refill then now else last_refill in
      let '(allowed, tokens) := if 0 <? tokens then (1, f64 (tokens - 1)) else (0, tokens) in
      let r := r_set r at_ (tokens_key key) (str (itoa tokens)) None in
      let r := r_set r at_ (ts_key key) (str (itoa last_refill)) None in
      (Some (allowed, tokens, f64 (last_refill + 1)), r)
  | _, _ => (None, r)
  end.

(** [allow]: [None] is an error, of Redis or of the script.  The script runs
    atomically at the server. *)
Definition allow (rl : RateLimiter) (key : string) (now at_ : Z)
    : M (World R) (option (bool * Z * Z)) := λ w,
  let '(fl, fs) := pop (w_faults w) in
  let '(res, r) := bucket_script rl key now at_ (w_redis w) in
  match fl with
  | NoFault => (Ok ((λ '(a, t, reset), (a =? 1, t, reset)) <$> res),
                mkWorld (w_tab w) (w_seq w) r fs)
  | Lost => (Ok None, mkWorld (w_tab w) (w_seq w) (w_redis w) fs)
  | ReplyLost => (Ok None, mkWorld (w_tab w) (w_seq w) r fs)
  end.

End limiter.

Example SplitHostPort_ex :
  SplitHostPort (chars "10.0.0.7:5123") = Some (chars "10.0.0.7", chars "5123")
  ∧ SplitHostPort (chars "[::1]:80") = Some (chars "::1", chars "80")
  ∧ SplitHostPort (chars "::1") = None ∧ SplitHostPort (chars "10.0.0.7") = None.
Proof. vm_compute. done. Qed.

(** ** The script against exact arithmetic *)

Definition limiter_ok (rl : RateLimiter) : Prop :=
  1 ≤ rl_capacity rl ≤ max_exact ∧ 1 ≤ rl_rate rl ≤ max_exact.

(** Seconds that a double holds, with room to add and subtract. *)
Definition seconds_ok (now : Z) : Prop := 0 ≤ now < max_exact.

(** A bucket: its tokens and the time of the last refill. *)
Definition bucket_ok (rl : RateLimiter) (b : Z * Z) : Prop :=
  0 ≤ b.1 ≤ rl_capacity rl ∧ seconds_ok b.2.

(** The tokens at [now], after refill. *)
Definition available (rl : RateLimiter) (now : Z) (b : Z * Z) : Z :=
  Z.min (rl_capacity rl) (b.1 + Z.max 0 (now - b.2) * rl_rate rl).

(** The bucket after a request at [now]. *)
Definition bucket_after (rl : RateLimiter) (now : Z) (b : Z * Z) : Z * Z :=
  (Z.max 0 (available rl now b - 1), Z.max b.2 now).

Lemma bucket_after_ok rl now b :
  limiter_ok rl → seconds_ok now → bucket_ok rl b →
  bucket_ok rl (bucket_after rl now b) ∧ 0 ≤ available rl now b ≤ rl_capacity rl.
Proof.
  unfold limiter_ok, bucket_ok, seconds_ok, bucket_after, available.
  destruct b as [t l]. simpl. intros (Hc&Hr) Hn (Ht&Hl).
  assert (0 ≤ Z.max 0 (now - l) * rl_rate rl) by nia. lia.
Qed.

(** Rounding is invisible: sums above [2^53] are cut to the capacity anyway. *)
Lemma refill_exact cap tok d rate :
  0 ≤ cap ≤ max_exact → 0 ≤ tok ≤ cap → 0 ≤ d → 1 ≤ rate →
  Z.min cap (f64 (tok + f64 (d * rate))) = Z.min cap (tok + d * rate).
Proof.
  intros Hc Ht Hd Hr. assert (0 ≤ d * rate) by nia. set (x := d * rate) in *. clearbody x.
  destruct (decide (x ≤ max_exact)).
  - rewrite (f64_exact x) by lia. destruct (decide (tok + x ≤ max_exact)).
    + rewrite f64_exact; lia.
    + pose proof (f64_large (tok + x)). lia.
  - pose proof (f64_large x ltac:(lia)). pose proof (f64_large (tok + f64 x)). lia.
Qed.

Lemma f64_pos x : 0 ≤ x → (0 <? f64 x) = (0 <? x).
Proof.
  intros. destruct (decide (x ≤ max_exact)).
  - by rewrite f64_exact by lia.
  - pose proof (f64_large x ltac:(lia)). unfold max_exact in *. lia.
Qed.

Lemma tonumber_itoa z : Z.abs z ≤ max_exact → tonumber (str (itoa z)) = Some z.
Proof.
  intros Hz. unfold tonumber. rewrite chars_str, ParseInt_itoa.
  - simpl. by rewrite f64_exact.
  - unfold int64, min_int64, max_int64, max_exact in *. lia.
Qed.

Lemma bucket_keys_ne key : tokens_key key ≠ ts_key key.
Proof. intros E%(inj (String.append key)). done. Qed.

Section bucket.
Context {R : Type} `{!Redis R, !RedisOK R}.
Abbreviation W := (World R).

(** What Redis holds for a key: nothing yet, or a bucket. *)
Definition holds (r : R) (key : string) (b : option (Z * Z)) : Prop := ∀ t,
  r_get r t (tokens_key key) = (λ b, str (itoa b.1)) <$> b ∧
  r_get r t (ts_key key) = (λ b, str (itoa b.2)) <$> b.

(** A key that is absent stands for a full bucket. *)
Definition bucket_of (rl : RateLimiter) (now : Z) (b : option (Z * Z)) : Z * Z :=
  default (rl_capacity rl, now) b.

Lemma bucket_of_ok rl now b :
  limiter_ok rl → seconds_ok now → from_option (bucket_ok rl) True b →
  bucket_ok rl (bucket_of rl now b).
Proof. destruct b; simpl; [done|]. unfold limiter_ok, bucket_ok, seconds_ok. simpl. lia. Qed.

Lemma bucket_script_spec rl key now at_ (r : R) b :
  limiter_ok rl → seconds_ok now → from_option (bucket_ok rl) True b → holds r key b →
  let b0 := bucket_of rl now b in
  let b1 := bucket_after rl now b0 in
  ∃ reset r', bucket_script rl key now at_ r =
      (Some (if 0 <? available rl now b0 then 1 else 0, b1.1, reset), r') ∧
    holds r' key (Some b1) ∧
    ∀ k t, k ≠ tokens_key key → k ≠ ts_key key → r_get r' t k = r_get r t k.
Proof.
  intros Hrl Hnow Hb Hh b0 b1. pose proof (bucket_of_ok rl now b Hrl Hnow Hb) as Hb0. fold b0 in Hb0.
  destruct (bucket_after_ok rl now b0 Hrl Hnow Hb0) as [Hb1 Hav].
  unfold bucket_script. destruct (Hh at_) as [-> ->].
  assert (match tonumber <$> ((λ b, str (itoa b.1)) <$> b) with
          | Some o => o | None => Some (rl_capacity rl) end = Some b0.1 ∧
          match tonumber <$> ((λ b, str (itoa b.2)) <$> b) with
          | Some o => o | None => Some now end = Some b0.2) as [E1 E2].
  { destruct b as [[tok last]|]; [|done]. simpl in *.
    unfold limiter_ok, bucket_ok, seconds_ok in *. simpl in *.
    rewrite !tonumber_itoa by lia. done. }
  destruct Hrl as [Hc Hr], Hb0 as [Ht Hl]. unfold seconds_ok in *.
  rewrite (f64_exact (rl_capacity rl)), (f64_exact (rl_rate rl)), (f64_exact now) by lia.
  replace (match (λ b, str (itoa b.1)) <$> b with Some s => tonumber s
           | None => Some (rl_capacity rl) end) with (Some b0.1) by (by destruct b).
  replace (match (λ b, str (itoa b.2)) <$> b with Some s => tonumber s
           | None => Some now end) with (Some b0.2) by (by destruct b).
  rewrite (f64_exact (now - b0.2)) by lia. cbv zeta.
  rewrite refill_exact, f64_pos by nia. fold (available rl now b0).
  assert ((0 <? Z.max 0 (now - b0.2) * rl_rate rl) = (b0.2 <? now)) as -> by nia.
  assert ((if b0.2 <? now then now else b0.2) = b1.2) as ->
    by (unfold b1, bucket_after; cbn [snd]; destruct (Z.ltb_spec b0.2 now); lia).
  assert ((if 0 <? available rl now b0 then (1, f64 (available rl now b0 - 1))
           else (0, available rl now b0))
    = (if 0 <? available rl now b0 then 1 else 0, b1.1)) as ->.
  { unfold b1, bucket_after. cbn [fst]. destruct (Z.ltb_spec 0 (available rl now b0)).
    - rewrite f64_exact by lia. f_equal. lia.
    - f_equal. lia. }
  eexists _, _. split; [reflexivity|]. pose proof (bucket_keys_ne key). split.
  - intros t. simpl. split; [rewrite r_get_set_ne by done|]; by apply r_get_set.
  - intros k t Hk1 Hk2. by rewrite !r_get_set_ne.
Qed.

(** ** The bound of a token bucket *)

Definition let_through (res : option (bool * Z * Z)) : Z :=
  match res with Some (true, _, _) => 1 | _ => 0 end.

(** A history of one key: requests at seconds of [[T0, T]], in any order, and
    anything else that happens to Redis without touching the two keys.  [n] counts
    the requests that were let through. *)
Inductive limited_run (rl : RateLimiter) (key : string) (T0 T : Z) : W → Z → W → Prop :=
  | run_nil w : limited_run rl key T0 T w 0 w
  | run_call now at_ res w w1 n w2 :
      T0 ≤ now ≤ T → allow rl key now at_ w = (Ok res, w1) → limited_run rl key T0 T w1 n w2 →
      limited_run rl key T0 T w (let_through res + n) w2
  | run_other w w1 n w2 :
      (∀ t, r_get (w_redis w1) t (tokens_key key) = r_get (w_redis w) t (tokens_key key) ∧
            r_get (w_redis w1) t (ts_key key) = r_get (w_redis w) t (ts_key key)) →
      limited_run rl key T0 T w1 n w2 → limited_run rl key T0 T w n w2.

(** What a bucket can still let through until [T]. *)
Definition potential (rl : RateLimiter) (T0 T : Z) (b : option (Z * Z)) : Z :=
  match b with
  | Some (tok, last) =>
      if T0 <=? last then tok + rl_rate rl * Z.max 0 (T - last)
      else rl_capacity rl + rl_rate rl * (T - T0)
  | None => rl_capacity rl + rl_rate rl * (T - T0)
  end.

Lemma potential_max rl T0 T b :
  limiter_ok rl → T0 ≤ T → from_option (bucket_ok rl) True b →
  0 ≤ potential rl T0 T b ≤ rl_capacity rl + rl_rate rl * (T - T0).
Proof.
  unfold limiter_ok, bucket_ok, potential. intros [Hc Hr] HT Hb.
  destruct b as [[tok last]|]; [|nia]. simpl in Hb. destruct (Z.leb_spec T0 last); nia.
Qed.

(** A request takes from the potential what it gets. *)
Lemma potential_call rl T0 T now b :
  limiter_ok rl → seconds_ok now → T0 ≤ now ≤ T → from_option (bucket_ok rl) True b →
  let b0 := bucket_of rl now b in
  (if 0 <? available rl now b0 then 1 else 0) + potential rl T0 T (Some (bucket_after rl now b0))
  ≤ potential rl T0 T b.
Proof.
  intros Hrl Hnow HT Hb b0. pose proof (bucket_of_ok rl now b Hrl Hnow Hb) as Hb0. fold b0 in Hb0.
  destruct (bucket_after_ok rl now b0 Hrl Hnow Hb0) as [_ Hav].
  destruct Hrl as [Hc Hr]. unfold potential, bucket_after.
  assert ((T0 <=? Z.max b0.2 now) = true) as -> by lia.
  set (av := available rl now b0) in *.
  assert ((if 0 <? av then 1 else 0) + Z.max 0 (av - 1) = av) as Hsum
    by (destruct (Z.ltb_spec 0 av); lia).
  enough (av + rl_rate rl * Z.max 0 (T - Z.max b0.2 now) ≤ potential rl T0 T b)
    by (unfold potential in *; lia).
  assert (av ≤ rl_capacity rl ∧ av ≤ b0.1 + Z.max 0 (now - b0.2) * rl_rate rl) as [Ha1 Ha2]
    by (unfold av, available; lia).
  clearbody av. destruct Hb0 as [Ht Hl].
  destruct b as [[tok last]|]; simpl in *; [|nia].
  destruct (Z.leb_spec T0 last); [|nia]. destruct (Z.le_gt_cases now last).
  - replace (Z.max last now) with last by lia. replace (Z.max 0 (now - last)) with 0 in Ha2 by lia. lia.
  - replace (Z.max last now) with now by lia. nia.
Qed.

Lemma limited_run_bound rl key T0 T (w w' : W) n b :
  limiter_ok rl → 0 ≤ T0 → T < max_exact →
  limited_run rl key T0 T w n w' → holds (w_redis w) key b →
  from_option (bucket_ok rl) True b → T0 ≤ T → n ≤ potential rl T0 T b.
Proof.
  intros Hrl H0 HT Hrun. revert b.
  induction Hrun as [w|now at_ res w w1 n w2 Hnow E _ IH|w w1 n w2 Hsame _ IH]; intros b Hh Hb HTT.
  - by apply potential_max.
  - assert (seconds_ok now) as Hs by (unfold seconds_ok; lia).
    destruct (bucket_script_spec rl key now at_ (w_redis w) b Hrl Hs Hb Hh) as (reset&r'&Es&Hh'&_).
    destruct (bucket_after_ok rl now (bucket_of rl now b)) as [Hb1 _];
      [done|done|by apply bucket_of_ok|].
    pose proof (potential_call rl T0 T now b Hrl Hs Hnow Hb) as Hp. cbv zeta in Hp.
    unfold allow in E. rewrite Es in E. destruct (pop (w_faults w)) as [[] fs];
      injection E as <- <-; simpl in *.
    + specialize (IH _ Hh' Hb1 HTT). destruct (0 <? available _ _ _); simpl in *; lia.
    + specialize (IH _ Hh Hb HTT). lia.
    + specialize (IH _ Hh' Hb1 HTT). destruct (0 <? available _ _ _); simpl in *; lia.
  - apply IH; [|done|done]. intros t. destruct (Hsame t) as [-> ->]. apply Hh.
Qed.

(** Without a fault the answer is decided by the tokens available. *)
Lemma allow_eq rl key now at_ (w : W) b :
  limiter_ok rl → seconds_ok now → from_option (bucket_ok rl) True b →
  holds (w_redis w) key b → (pop (w_faults w)).1 = NoFault →
  let b0 := bucket_of rl now b in
  ∃ reset r', allow rl key now at_ w =
    (Ok (Some (0 <? available rl now b0, (bucket_after rl now b0).1, reset)),
     mkWorld (w_tab w) (w_seq w) r' (pop (w_faults w)).2) ∧
    holds r' key (Some (bucket_after rl now b0)).
Proof.
  intros Hrl Hs Hb Hh Hf b0.
  destruct (bucket_script_spec rl key now at_ (w_redis w) b Hrl Hs Hb Hh) as (reset&r'&Es&Hh'&_).
  unfold allow. rewrite Es. destruct (pop (w_faults w)) as [f fs]. simpl in Hf. subst f.
  exists reset, r'. split; [|done]. simpl. by destruct (0 <? available _ _ _).
Qed.

End bucket.

Lemma NewRateLimiter_ok capacity rate :
  capacity ≤ max_exact → rate ≤ max_exact → limiter_ok (NewRateLimiter capacity rate).
Proof.
  intros. unfold limiter_ok, NewRateLimiter, max_exact in *. simpl.
  destruct (Z.leb_spec capacity 0), (Z.leb_spec rate 0); lia.
Qed.
