(* ===== verification/Server.v ===== *)
(** * The state of an API server

    What the handlers and the workers share: the world of the services (database,
    Redis, faults), the task queue and the export storage.  The queue is asynq's:
    the tasks that were accepted, in order. *)
From S2P Require Import Prelude GoTime Effects Json Store Queries World Balance Http.
From S2P Require Import Storage.
Local Open Scope Z_scope.
Local Open Scope ledger_scope.

(** ** The server *)

Record Server (R F : Type) := mkServer {
  sv_world : World R; sv_queue : list Task; sv_store : F }.
Arguments mkServer {R F}. Arguments sv_world {R F}.
Arguments sv_queue {R F}. Arguments sv_store {R F}.

Section server.
Context {R F : Type} `{!Storage F}.
Abbreviation S := (Server R F).

Definition set_world (w : World R) (s : S) : S := mkServer w (sv_queue s) (sv_store s).

(** A call of a service, a query or Redis. *)
Definition on_world {A} (m : M (World R) A) : M S A := λ s,
  let '(r, w) := m (sv_world s) in (r, set_world w s).

(** Takes the next fault. *)
Definition next_fault (s : S) : fault * World R :=
  let w := sv_world s in
  let '(f, fs) := pop (w_faults w) in (f, mkWorld (w_tab w) (w_seq w) (w_redis w) fs).

(** [client.Enqueue(task)] *)
Definition enqueue (t : Task) : M S () := λ s,
  let '(f, w) := next_fault s in
  match f with
  | NoFault => (Ok (), mkServer w (sv_queue s ++ [t]) (sv_store s))
  | Lost => (Err ErrEnqueue, set_world w s)
  | ReplyLost => (Err ErrEnqueue, mkServer w (sv_queue s ++ [t]) (sv_store s))
  end.

(** [store.Save(ctx, key, body)] *)
Definition Save (key body : string) : M S () := λ s,
  let '(f, w) := next_fault s in
  match f with
  | NoFault => (Ok (), mkServer w (sv_queue s) (st_save (sv_store s) key body))
  | _ => (Err ErrStorage, mkServer w (sv_queue s) (st_save_failed (sv_store s) key body))
  end.

(** [store.Open(ctx, key)] and reading the object. *)
Definition Open (key : string) : M S string := λ s,
  let '(f, w) := next_fault s in
  (match f, st_open (sv_store s) key with
   | NoFault, Some body => Ok body
   | _, _ => Err ErrStorage
   end, set_world w s).

(** ** What a step does to the world *)

(** Only Redis and the faults changed. *)
Definition same_db (w w' : World R) : Prop := w_tab w' = w_tab w ∧ w_seq w' = w_seq w.

#[global] Instance same_db_refl : Reflexive same_db.
Proof. by split. Qed.
#[global] Instance same_db_trans : Transitive same_db.
Proof. intros w1 w2 w3 [??] [??]. split; congruence. Qed.

(** The database did not change. *)
Definition db_kept (s s' : S) : Prop := same_db (sv_world s) (sv_world s').

#[global] Instance db_kept_refl : Reflexive db_kept.
Proof. intros s. unfold db_kept. reflexivity. Qed.
#[global] Instance db_kept_trans : Transitive db_kept.
Proof. intros s1 s2 s3. unfold db_kept. apply transitivity. Qed.

Lemma on_world_kept {A} (m : M (World R) A) : keeps same_db m → keeps db_kept (on_world m).
Proof.
  intros Hm s. specialize (Hm (sv_world s)). unfold on_world.
  by destruct (m (sv_world s)) as [r w].
Qed.

Lemma enqueue_kept t : keeps db_kept (enqueue t).
Proof.
  intros s. unfold enqueue, next_fault. destruct (pop _) as [[] fs]; by split.
Qed.

Lemma Save_kept key body : keeps db_kept (Save key body).
Proof. intros s. unfold Save, next_fault. destruct (pop _) as [[] fs]; by split. Qed.

Lemma Open_kept key : keeps db_kept (Open key).
Proof. intros s. unfold Open, next_fault. by destruct (pop _) as [[] fs]. Qed.

(** A statement that only reads. *)
Lemma read_same_db `{Env} {A} now (f : Conn → result A) : keeps same_db (on_pool now (read f) : M (World R) A).
Proof.
  intros w. destruct (on_pool now (read f) w) as [r w'] eqn:E.
  apply on_pool_read in E as (?&?&_). by split.
Qed.

End server.

#[export] Hint Resolve on_world_kept enqueue_kept Save_kept Open_kept read_same_db : http.
