(* ===== verification/Auth.v ===== *)
(** * Authentication
    ([internal/service/auth.go], [internal/transport/http/auth.go] and
    [middleware.go])

    Passwords are hashed with bcrypt and users identified by HS256 tokens.  Both are
    libraries: the classes [Bcrypt] and [Jwt], with what the code relies on in
    [BcryptOK] and [JwtOK]; [toy_bcrypt] and [toy_jwt] show that they can hold.  The
    part of [strings] that normalises an email is written out, with the lower-case
    mapping of non-ASCII runes as the parameter [Unicode]. *)
From S2P Require Import Prelude GoTime Effects Json JsonStruct Store Queries World Dto Balance.
From S2P Require Import Http Server Float.
Local Open Scope Z_scope.
Local Open Scope ledger_scope.

(** ** Libraries *)

(** [bcrypt.GenerateFromPassword] with its random salt, and
    [bcrypt.CompareHashAndPassword]. *)
Class Bcrypt := {
  bcrypt_generate : string → Z → option string;
  bcrypt_compare : string → string → bool
}.

(** A hash is refused exactly for passwords of more than 72 bytes; a password
    matches its own hash; hashes are text. *)
Class BcryptOK `{Bcrypt} : Prop := {
  bcrypt_limit : ∀ pw salt,
    is_Some (bcrypt_generate pw salt) ↔ (length (chars pw) ≤ 72)%nat;
  bcrypt_match : ∀ pw salt h, bcrypt_generate pw salt = Some h → bcrypt_compare h pw = true
}.

(** A claim of a parsed token: [float64] is [fl_m * 2 ^ fl_e], or another kind. *)
Record float64 := mkFloat { fl_m : Z; fl_e : Z }.
Inductive claim := CFloat (f : float64) | COther.

(** [tok.SignedString(secret)] on integer claims, and [jwt.Parse] with
    [WithValidMethods({"HS256"})] and [WithExpirationRequired()] at a time in
    nanoseconds: the claims of a valid token. *)
Class Jwt := {
  jwt_sign : string → list (string * Z) → option string;
  jwt_parse : string → Z → string → option (list (string * claim))
}.

(** What the program relies on, for tokens with the two claims it signs: signing
    succeeds; a signed token is valid before its expiry, with its claims as [float64],
    and refused from then on. *)
Class JwtOK `{Jwt} : Prop := {
  jwt_signs : ∀ secret uid exp, secret ≠ "" → is_Some (jwt_sign secret [("user_id", uid); ("exp", exp)]);
  jwt_valid : ∀ secret uid exp tok now,
    jwt_sign secret [("user_id", uid); ("exp", exp)] = Some tok → now < exp * sec_ns →
    jwt_parse secret now tok =
      Some [("user_id", CFloat (mkFloat (f64 uid) 0)); ("exp", CFloat (mkFloat (f64 exp) 0))];
  jwt_expired : ∀ secret uid exp tok now,
    jwt_sign secret [("user_id", uid); ("exp", exp)] = Some tok → exp * sec_ns ≤ now →
    jwt_parse secret now tok = None
}.

(** [unicode.ToLower] of a rune above U+007F, as UTF-8. *)
Class Unicode := { u_lower : list ascii → list ascii }.

(** ** strings *)

(** [strings.ToLower]; a byte that is not UTF-8 becomes U+FFFD. *)
Definition lower_rune `{Unicode} (r : rune) : list ascii :=
  match r with
  | Rune [c] => [if between 65 90 c then chr (code c + 32) else c]
  | Rune bs => u_lower bs
  | Bad _ => replacement
  end.

Definition ToLower `{Unicode} (s : string) : string :=
  str (concat (map lower_rune (runes (chars s)))).

(** [unicode.IsSpace] *)
Definition is_space (r : rune) : bool :=
  match r with
  | Rune [c] => between 9 13 c || (code c =? 32)
  | Rune bs => bool_decide (bs ∈ map utf8_encode
      ([133; 160; 5760; 8232; 8233; 8239; 8287; 12288] ++ seqZ 8192 11))
  | Bad _ => false
  end.

Fixpoint drop_while {A} (f : A → bool) (l : list A) : list A :=
  match l with
  | [] => []
  | x :: l' => if f x then drop_while f l' else l
  end.

Definition TrimSpace (s : string) : string :=
  str (concat (map rune_bytes
    (reverse (drop_while is_space (reverse (drop_while is_space (runes (chars s)))))))).

(** [strings.Contains(s, "@")] *)
Definition has_at (s : string) : bool := existsb (λ c, bool_decide (c = "@"%char)) (chars s).

(** ** service/auth.go *)

Section auth.
Context `{Bcrypt, Jwt}.

(** [InitAuth]: the signing key, which must not be empty. *)
Definition InitAuth (secret : string) : option string :=
  if bool_decide (secret = "") then None else Some secret.

Definition HashPassword (pw : string) (salt : Z) : option string := bcrypt_generate pw salt.

Definition CheckPassword (hash pw : string) : bool := bcrypt_compare hash pw.

(** [now] in nanoseconds; [Unix()] is the second it lies in. *)
Definition jwt_claims (now uid : Z) : list (string * Z) :=
  [("user_id", uid); ("exp", (now + 24 * 3600 * sec_ns) `div` sec_ns)].

Definition GenerateJWT (secret : string) (now uid : Z) : option string :=
  if bool_decide (secret = "") then None else jwt_sign secret (jwt_claims now uid).

Definition float_positive (f : float64) : bool := 0 <? fl_m f.

(** [int64(f)]: truncation; out of range it is the least integer (amd64). *)
Definition float_int64 (f : float64) : Z :=
  let z := if 0 <=? fl_e f then fl_m f * 2 ^ fl_e f else fl_m f `quot` 2 ^ (- fl_e f) in
  if decide (int64 z) then z else min_int64.

Definition find_claim (key : string) (claims : list (string * claim)) : option claim :=
  snd <$> find (λ kv, bool_decide (kv.1 = key)) claims.

Definition ParseJWT (secret : string) (now : Z) (tok : string) : option Z :=
  if bool_decide (secret = "") then None else
  claims ← jwt_parse secret now tok;
  match find_claim "user_id" claims with
  | Some (CFloat id) => if float_positive id then Some (float_int64 id) else None
  | _ => None
  end.

End auth.

(** ** A token names the user it was made for *)

Lemma ParseJWT_GenerateJWT `{Jwt, !JwtOK} secret t0 uid tok now :
  GenerateJWT secret t0 uid = Some tok → 0 < uid →
  ParseJWT secret now tok =
    (if now <? (t0 + 24 * 3600 * sec_ns) `div` sec_ns * sec_ns
     then Some (float_int64 (mkFloat (f64 uid) 0)) else None).
Proof.
  unfold GenerateJWT, ParseJWT. intros E Hu. case_bool_decide; [done|].
  destruct (Z.ltb_spec now ((t0 + 24 * 3600 * sec_ns) `div` sec_ns * sec_ns)).
  - rewrite (jwt_valid _ _ _ _ _ E) by done. simpl.
    unfold find_claim, float_positive. simpl.
    assert ((0 <? f64 uid) = true) as ->; [|done].
    destruct (decide (uid ≤ max_exact)); [rewrite f64_exact; lia|].
    pose proof (f64_large uid). unfold max_exact in *. lia.
  - by rewrite (jwt_expired _ _ _ _ _ E).
Qed.

Lemma float_int64_exact uid :
  0 < uid ≤ max_exact → float_int64 (mkFloat (f64 uid) 0) = uid.
Proof.
  intros. unfold float_int64. simpl. rewrite f64_exact, Z.mul_1_r by lia.
  rewrite decide_True; [done|]. unfold int64, min_int64, max_int64, max_exact in *. lia.
Qed.

(** ** Handlers *)

Record credentials := mkCredentials { cr_Email : string; cr_Password : string }.

Definition credentials_field (k : string) (v : json) (c : credentials) : option credentials :=
  let 'mkCredentials e p := c in
  if String.eqb k "email" then e ← string_field v e; Some (mkCredentials e p)
  else if String.eqb k "password" then p ← string_field v p; Some (mkCredentials e p)
  else Some c.

Definition normalize_email `{Unicode} (e : string) : string := TrimSpace (ToLower e).

(** [validate]: the credentials with the email normalised, or what is wrong. *)
Definition validate `{Unicode} (c : credentials) : credentials + string :=
  let c := mkCredentials (normalize_email (cr_Email c)) (cr_Password c) in
  if bool_decide (cr_Email c = "") || negb (has_at (cr_Email c)) then inr "valid email required"
  else if (length (chars (cr_Password c)) <? 8)%nat then inr "password must be at least 8 characters"
  else inl c.

Section handlers.
Context `{Env, Bcrypt, Jwt, Unicode} {R F : Type} (secret : string).
Abbreviation S := (Server R F).

(** [now] is the time of the statement, [clock] the Go clock, [salt] the randomness
    of bcrypt. *)
Definition Register (now clock salt : Z) (r : Request) : H S () :=
  match decode_body credentials_field (mkCredentials "" "") (rq_Body r) with
  | None => reply (http_Error "invalid json" StatusBadRequest)
  | Some body =>
      match validate body with
      | inr msg => reply (http_Error msg StatusUnprocessableEntity)
      | inl body =>
          match HashPassword (cr_Password body) salt with
          | None => reply (http_Error "internal error" StatusInternalServerError)
          | Some hash =>
              let? u := call (on_world (on_pool now (CreateUser (cr_Email body) hash))) in
              match u with
              | Err _ => reply (http_Error "email already registered" StatusConflict)
              | Ok u =>
                  match GenerateJWT secret clock (u_ID u) with
                  | None => reply (http_Error "internal error" StatusInternalServerError)
                  | Some tok => reply (writeJSON StatusCreated (Some (JObj [("token", JStr tok)])))
                  end
              end
          end
      end
  end.

Definition Login (now clock : Z) (r : Request) : H S () :=
  match decode_body credentials_field (mkCredentials "" "") (rq_Body r) with
  | None => reply (http_Error "invalid json" StatusBadRequest)
  | Some body =>
      let? u := call (on_world (on_pool now (GetUserByEmail (normalize_email (cr_Email body))))) in
      match u with
      | Err _ => reply (http_Error "invalid credentials" StatusUnauthorized)
      | Ok u =>
          if negb (CheckPassword (u_PasswordHash u) (cr_Password body))
          then reply (http_Error "invalid credentials" StatusUnauthorized)
          else match GenerateJWT secret clock (u_ID u) with
               | None => reply (http_Error "internal error" StatusInternalServerError)
               | Some tok => reply (writeJSON StatusOK (Some (JObj [("token", JStr tok)])))
               end
      end
  end.

(** [r.WithContext(context.WithValue(r.Context(), UserIDKey, uid))] *)
Definition with_user (uid : Z) (r : Request) : Request :=
  mkRequest (rq_Method r) (Some uid) (rq_ID r) (rq_Query r) (rq_Header r) (rq_RemoteAddr r)
    (rq_Body r).

(** [AuthMiddleware]: the user of a valid token becomes the request's. *)
Definition AuthMiddleware (clock : Z) (next : Request → H S ()) (r : Request) : H S () :=
  let h := Get (rq_Header r) "Authorization" in
  if bool_decide (h = "") || negb (String.prefix "Bearer " h)
  then reply (http_Error "missing token" StatusUnauthorized)
  else match ParseJWT secret clock (str (drop 7 (chars h))) with
       | None => reply (http_Error "invalid token" StatusUnauthorized)
       | Some uid => next (with_user uid r)
       end.

End handlers.
