(* ===== verification/Middleware.v ===== *)
(** * Middleware ([ratelimit.go], [cors.go] of [internal/transport/http]) *)
From S2P Require Import Prelude GoTime Effects Json Store Queries World Http Server Cursor.
From S2P Require Import RateLimit Auth.
Local Open Scope Z_scope.
Local Open Scope ledger_scope.

(** [w.Header().Set(..)] before the next handler writes. *)
Definition with_headers {S} (hs : Values) (m : H S ()) : H S () := λ s,
  match m s with
  | (Go _, s') => (Done (Reply (mkResponse StatusOK hs "")), s')
  | (Done (Reply r), s') =>
      (Done (Reply (mkResponse (rs_Status r) (hs ++ rs_Header r) (rs_Body r))), s')
  | (Done Panicked, s') => (Done Panicked, s')
  end.

Lemma hkeeps_headers {S} R hs (m : H S ()) : hkeeps R m → hkeeps R (with_headers hs m).
Proof. intros Hm s. specialize (Hm s). unfold with_headers. by destruct (m s) as [[|[]]]. Qed.

(** [with_headers] changes no status. *)
Definition status_of (x : served) : option Z :=
  match x with Reply r => Some (rs_Status r) | Panicked => None end.

Lemma serve_headers {S} hs (m : H S ()) s :
  status_of (serve (with_headers hs m) s).1 = status_of (serve m s).1 ∧
  (serve (with_headers hs m) s).2 = (serve m s).2.
Proof. unfold serve, with_headers. by destruct (m s) as [[|[]]]. Qed.

Section limiter.
Context {R F : Type} `{!Redis R}.
Abbreviation S := (Server R F).

(** [rl.middleware]: [now] is [time.Now().Unix()], [at_] the time at Redis. *)
Definition limit_middleware (rl : RateLimiter) (keyFn : Request → option string) (now at_ : Z)
    (next : Request → H S ()) (r : Request) : H S () :=
  match keyFn r with
  | None => reply (http_Error "unauthorized" StatusUnauthorized)
  | Some k =>
      let? a := call (on_world (allow rl ("ratelimit:" +:+ k) now at_)) in
      match a with
      | Ok (Some (allowed, remaining, reset)) =>
          with_headers [("X-RateLimit-Limit", str (itoa (rl_capacity rl)));
                        ("X-RateLimit-Remaining", str (itoa remaining));
                        ("X-RateLimit-Reset", str (itoa reset))]
            (if (allowed : bool) then next r
             else reply (http_Error "too many requests" StatusTooManyRequests))
      | _ => reply (http_Error "rate limiter unavailable" StatusServiceUnavailable)
      end
  end.

(** [Middleware] limits by user, [IPMiddleware] by client address. *)
Definition Middleware rl := limit_middleware rl user_key.
Definition IPMiddleware rl := limit_middleware rl ip_key.

Lemma allow_same_db rl key now at_ : keeps same_db (allow (R := R) rl key now at_).
Proof.
  intros w. unfold allow. destruct (pop _) as [[] fs], (bucket_script _ _ _ _ _); by split.
Qed.

End limiter.

#[export] Hint Resolve hkeeps_headers allow_same_db : http.

(** ** CORS *)

(** [unicode.SimpleFold] on runes of which one is not ASCII. *)
Class CaseFold := { u_fold : list ascii → list ascii → bool }.

Definition rune_code (r : rune) : list ascii :=
  match r with Rune bs => bs | Bad _ => replacement end.

Definition fold_eq `{CaseFold} (r1 r2 : rune) : bool :=
  match rune_code r1, rune_code r2 with
  | [a], [b] =>
      let low c := if between 65 90 c then code c + 32 else code c in low a =? low b
  | b1, b2 => bool_decide (b1 = b2) || u_fold b1 b2
  end.

(** [strings.EqualFold] *)
Definition EqualFold `{CaseFold} (s t : string) : bool :=
  let l1 := runes (chars s) in
  let l2 := runes (chars t) in
  (length l1 =? length l2)%nat && forallb (λ '(a, b), fold_eq a b) (zip l1 l2).

(** A cross-origin [OPTIONS] request, which the CORS middleware answers. *)
Definition preflight (r : Request) : bool :=
  negb (bool_decide (Get (rq_Header r) "Origin" = "")) && bool_decide (rq_Method r = "OPTIONS").

Section cors.
Context `{CaseFold} {S : Type}.

(** The allowed origin for a request, [""] for none: [allowed] is the trimmed
    value of [CORS_ALLOWED_ORIGINS]. *)
Definition allow_origin (allowed origin : string) : string :=
  if bool_decide (allowed = "*") then "*"
  else if negb (bool_decide (allowed = "")) then
    if existsb (λ o, EqualFold (TrimSpace (str o)) origin) (split_all "," (chars allowed))
    then origin else ""
  else origin.

Definition cors_headers (allow : string) : Values :=
  if bool_decide (allow = "") then [] else
  [("Access-Control-Allow-Origin", allow); ("Vary", "Origin");
   ("Access-Control-Allow-Methods", "GET, POST, PUT, DELETE, OPTIONS");
   ("Access-Control-Allow-Headers", "Authorization, Content-Type, Idempotency-Key");
   ("Access-Control-Expose-Headers", "Content-Disposition")].

Definition CORSMiddleware (env_allowed : string) (next : Request → H S ()) (r : Request) : H S () :=
  let origin := Get (rq_Header r) "Origin" in
  if bool_decide (origin = "") then next r else
  with_headers (cors_headers (allow_origin (TrimSpace env_allowed) origin))
    (if bool_decide (rq_Method r = "OPTIONS") then reply (mkResponse StatusNoContent [] "")
     else next r).

End cors.
