(* ===== verification/Handlers.v ===== *)
(** * The API handlers ([internal/transport/http])

    [users.go], [accounts.go], [balance.go], [summary.go], [transactions.go],
    [ownership.go], [admin.go]: each handler whole, from the request to the response,
    with the calls it makes in order. *)
From S2P Require Import Prelude GoTime Effects Json JsonStruct Store Queries World Summary Dto.
From S2P Require Import Transactions Balance Http Server Cursor.
Local Open Scope Z_scope.
Local Open Scope ledger_scope.

(** Go's [int32(n)]. *)
Definition wrap32 (z : Z) : Z := (z + 2147483648) `mod` 4294967296 - 2147483648.

(** The times a request sees: [now()] of the database, the Go clock, and Redis at
    its requests. *)
Record Times := mkTimes {
  tm_now : Z; tm_clock : Z; tm_limit : Z; tm_cache1 : Z; tm_cache2 : Z }.

(** ** Bodies and results *)

Record txBody := mkTxBody {
  tb_AccountID : Z; tb_Amount : Z; tb_Currency : string; tb_OccurredAt : Time; tb_Note : string }.

Definition tx_field (k : string) (v : json) (b : txBody) : option txBody :=
  let 'mkTxBody acc amt cur occ note := b in
  if String.eqb k "account_id" then acc ← int_field v acc; Some (mkTxBody acc amt cur occ note)
  else if String.eqb k "amount_minor" then amt ← int_field v amt; Some (mkTxBody acc amt cur occ note)
  else if String.eqb k "currency" then cur ← string_field v cur; Some (mkTxBody acc amt cur occ note)
  else if String.eqb k "occurred_at" then occ ← time_field v occ; Some (mkTxBody acc amt cur occ note)
  else if String.eqb k "note" then note ← string_field v note; Some (mkTxBody acc amt cur occ note)
  else Some b.

Definition zero_tx_body : txBody := mkTxBody 0 0 "" zero_time "".

Record transferBody := mkTransferBody {
  fb_From : Z; fb_To : Z; fb_Amount : Z; fb_Currency : string; fb_OccurredAt : Time;
  fb_Note : string }.

Definition transfer_field (k : string) (v : json) (b : transferBody) : option transferBody :=
  let 'mkTransferBody from to amt cur occ note := b in
  if String.eqb k "from_account_id" then
    from ← int_field v from; Some (mkTransferBody from to amt cur occ note)
  else if String.eqb k "to_account_id" then
    to ← int_field v to; Some (mkTransferBody from to amt cur occ note)
  else if String.eqb k "amount_minor" then
    amt ← int_field v amt; Some (mkTransferBody from to amt cur occ note)
  else if String.eqb k "currency" then
    cur ← string_field v cur; Some (mkTransferBody from to amt cur occ note)
  else if String.eqb k "occurred_at" then
    occ ← time_field v occ; Some (mkTransferBody from to amt cur occ note)
  else if String.eqb k "note" then
    note ← string_field v note; Some (mkTransferBody from to amt cur occ note)
  else Some b.

Definition zero_transfer_body : transferBody := mkTransferBody 0 0 0 "" zero_time "".

Record createAccountReq := mkAccountReq { ar_Name : string; ar_Currency : string }.

Definition account_field (k : string) (v : json) (b : createAccountReq) : option createAccountReq :=
  let 'mkAccountReq name cur := b in
  if String.eqb k "name" then name ← string_field v name; Some (mkAccountReq name cur)
  else if String.eqb k "currency" then cur ← string_field v cur; Some (mkAccountReq name cur)
  else Some b.

Definition account_json (a : Account) : json :=
  JObj [("id", JInt (a_ID a)); ("user_id", JInt (a_UserID a)); ("name", JStr (a_Name a));
        ("currency", JStr (a_Currency a)); ("active", JBool (a_IsActive a));
        ("kind", JStr (a_Kind a))].

Definition balance_json (b : BalanceResult) : json :=
  JObj [("account_id", JInt (br_AccountID b)); ("as_of", JStr (br_AsOfISO b));
        ("balance_minor", JInt (br_Balance b))].

Record entryDTO := mkEntryDTO {
  en_PostingID : Z; en_TransactionID : Z; en_AccountID : Z; en_AmountMinor : Z;
  en_Currency : string; en_OccurredAt : Time; en_Note : string }.

Definition entry_json (e : entryDTO) : option json :=
  occurred ← time_json (en_OccurredAt e);
  Some (JObj ([("posting_id", JInt (en_PostingID e)); ("transaction_id", JInt (en_TransactionID e));
               ("account_id", JInt (en_AccountID e)); ("amount_minor", JInt (en_AmountMinor e));
               ("currency", JStr (en_Currency e)); ("occurred_at", occurred)]
              ++ omit_string "note" (en_Note e))).

(** [map[string]any{"entries": entries, "next_cursor": next}] *)
Definition entries_json (entries : list entryDTO) (next : string) : option json :=
  es ← list.mapM entry_json entries;
  Some (JObj [("entries", JArr es); ("next_cursor", JStr next)]).

Section handlers.
Context `{Env} {R F : Type} `{!Redis R}.
Abbreviation S := (Server R F).

Definition query {A} (now : Z) (s : stmt A) : H S (result A) := call (on_world (on_pool now s)).

(** ** users.go, accounts.go *)

Definition Me (tm : Times) (r : Request) : H S () :=
  let? uid := require_user r in
  let? row := query (tm_now tm) (GetUserByID uid) in
  match row with
  | Err _ => reply (http_Error "not found" StatusNotFound)
  | Ok u => reply (writeJSON StatusOK
              (Some (JObj [("id", JInt (u_ID u)); ("email", JStr (u_Email u))])))
  end.

Definition AccountsAPI_Create (tm : Times) (r : Request) : H S () :=
  match decode_body account_field (mkAccountReq "" "") (rq_Body r) with
  | None => reply (http_Error "invalid json" StatusBadRequest)
  | Some req =>
      let? uid := require_user r in
      if bool_decide (ar_Name req = "")
      then reply (http_Error "name required" StatusUnprocessableEntity)
      else
        let currency := if bool_decide (ar_Currency req = "") then "USD" else ar_Currency req in
        let? row := query (tm_now tm) (CreateAccount uid (ar_Name req) currency) in
        match row with
        | Err _ => reply (http_Error "could not create (duplicate name?)" StatusConflict)
        | Ok a => reply (writeJSON StatusCreated (Some (account_json a)))
        end
  end.

Definition AccountsAPI_List (tm : Times) (r : Request) : H S () :=
  let? uid := require_user r in
  let limit := parseInt r "limit" 20 in
  let offset := parseInt r "offset" 0 in
  let? rows := query (tm_now tm) (ListAccountsByUser uid (wrap32 limit) (wrap32 offset)) in
  match rows with
  | Err _ => reply (http_Error "db error" StatusInternalServerError)
  | Ok rows => reply (writeJSON StatusOK (Some (JArr (map account_json rows))))
  end.

(** ** ownership.go, balance.go, summary.go *)

Definition ownedAccount (now uid accountID : Z) : M S Account :=
  let! r := attempt (on_world (on_pool now (GetAccount accountID))) in
  match r with
  | Err e => if errors_is e ErrNoRows then fail ErrAccountNotFound else fail e
  | Ok acc => if negb (a_UserID acc =? uid) then fail ErrAccountNotFound else ret acc
  end.

(** [if _, err := ownedAccount(..); err != nil { writeServiceError(w, err); return }] *)
Definition require_owned (now uid accountID : Z) : H S () :=
  let? a := call (ownedAccount now uid accountID) in
  match a with
  | Err e => reply (writeServiceError e)
  | Ok _ => hret ()
  end.

Definition GetCurrent (tm : Times) (r : Request) : H S () :=
  let? uid := require_user r in
  let? accID := require_id "account" r in
  let? _ := require_owned (tm_now tm) uid accID in
  let? res := call (on_world (CurrentBalance (tm_now tm) (tm_now tm) accID
                                (mkTime (tm_clock tm) (Local_offset (tm_clock tm))))) in
  match res with
  | Err _ => reply (http_Error "db error" StatusInternalServerError)
  | Ok b => reply (writeJSON StatusOK (Some (balance_json b)))
  end.

Definition GetSummary (tm : Times) (r : Request) : H S () :=
  let? uid := require_user r in
  let? id := require_id "account" r in
  match Parse_month (Get (rq_Query r) "month") with
  | None => reply (http_Error "month must be YYYY-MM" StatusBadRequest)
  | Some month =>
      let? _ := require_owned (tm_now tm) uid id in
      let? s := call (on_world (SummaryService_GetMonthlySummary (tm_cache1 tm) (tm_now tm)
                                  (tm_cache2 tm) id month)) in
      match s with
      | Err _ => reply (http_Error "db error" StatusInternalServerError)
      | Ok m => reply (writeJSON StatusOK (Some (summary_json m)))
      end
  end.

(** ** transactions.go *)

Definition write_dto (r : result TransactionDTO) : H S () :=
  match r with
  | Err e => reply (writeServiceError e)
  | Ok dto => reply (writeJSON StatusCreated (dto_json dto))
  end.

Definition ReverseTransaction (tm : Times) (r : Request) : H S () :=
  let? uid := require_user r in
  let? txID := require_id "transaction" r in
  let? dto := call (on_world (Reverse (tm_now tm) (tm_clock tm)
                (mkReverseInput uid txID (Get (rq_Header r) "Idempotency-Key")))) in
  write_dto dto.

Definition create_input (uid : Z) (r : Request) (b : txBody) : CreateInput :=
  mkCreateInput uid (tb_AccountID b) (tb_Amount b) (tb_Currency b) (tb_OccurredAt b) (tb_Note b)
    (Get (rq_Header r) "Idempotency-Key").

Definition CreateTransaction (tm : Times) (r : Request) : H S () :=
  match decode_body tx_field zero_tx_body (rq_Body r) with
  | None => reply (http_Error "invalid json" StatusBadRequest)
  | Some body =>
      let? uid := require_user r in
      if (tb_AccountID body =? 0) || bool_decide (tb_Currency body = "") || IsZero (tb_OccurredAt body)
      then reply (http_Error "account_id, currency and occurred_at are required"
                    StatusUnprocessableEntity)
      else
        let? dto := call (on_world (Create (tm_now tm) (create_input uid r body))) in
        write_dto dto
  end.

Definition transfer_input (uid : Z) (r : Request) (b : transferBody) : TransferInput :=
  mkTransferInput uid (fb_From b) (fb_To b) (fb_Amount b) (fb_Currency b) (fb_OccurredAt b)
    (fb_Note b) (Get (rq_Header r) "Idempotency-Key").

Definition CreateTransfer (tm : Times) (r : Request) : H S () :=
  match decode_body transfer_field zero_transfer_body (rq_Body r) with
  | None => reply (http_Error "invalid json" StatusBadRequest)
  | Some body =>
      let? uid := require_user r in
      if (fb_From body =? 0) || (fb_To body =? 0) || bool_decide (fb_Currency body = "")
         || IsZero (fb_OccurredAt body)
      then reply (http_Error "from_account_id, to_account_id, currency and occurred_at are required"
                    StatusUnprocessableEntity)
      else
        let? dto := call (on_world (Transfer (tm_now tm) (transfer_input uid r body))) in
        write_dto dto
  end.

Definition to_entry (px : Posting * Transaction) : entryDTO :=
  mkEntryDTO (p_ID px.1) (t_ID px.2) (p_AccountID px.1) (p_AmountMinor px.1) (t_Currency px.2)
    (pg_time (t_OccurredAt px.2)) (default "" (t_Note px.2)).

(** The page at a cursor: the entries and the next cursor; [rows[len(rows)-1]] of
    an empty page panics. *)
Definition entries_page (now accID limit : Z) (cursorT : Time) (cursorID : Z)
    : H S (list entryDTO * string) :=
  let? rows := query now (Queries.ListAccountEntries accID cursorT cursorID (wrap32 limit)) in
  match rows with
  | Err _ => reply (http_Error "db error" StatusInternalServerError)
  | Ok rows =>
      if Z.of_nat (length rows) =? limit then
        match last rows with
        | None => panic
        | Some px => hret (map to_entry rows,
                           encodeCursor (pg_time (t_OccurredAt px.2)) (p_ID px.1))
        end
      else hret (map to_entry rows, "")
  end.

Definition page_limit (r : Request) : Z := Z.min 100 (parseInt r "limit" 20).

Definition TransactionsAPI_ListAccountEntries (tm : Times) (r : Request) : H S () :=
  let? uid := require_user r in
  let? accID := require_id "account" r in
  let? _ := require_owned (tm_now tm) uid accID in
  match decodeCursor (Get (rq_Query r) "cursor") with
  | None => reply (http_Error "invalid cursor" StatusBadRequest)
  | Some (cursorT, cursorID) =>
      let? page := entries_page (tm_now tm) accID (page_limit r) cursorT cursorID in
      reply (writeJSON StatusOK (entries_json page.1 page.2))
  end.

(** ** admin.go *)

(** [admin_token] is the environment's [ADMIN_TOKEN]. *)
Definition RunSnapshotAll (admin_token : string) (r : Request) : H S () :=
  if bool_decide (admin_token = "") then reply (http_Error "404 page not found" StatusNotFound)
  else if negb (bool_decide (Get (rq_Header r) "X-Admin-Token" = admin_token))
  then reply (http_Error "forbidden" StatusForbidden)
  else
    let? e := call (enqueue (NewTaskSnapshotAll (mkSnapshotAll ""))) in
    match e with
    | Err _ => reply (http_Error "enqueue failed" StatusInternalServerError)
    | Ok _ => reply (mkResponse StatusAccepted [] "enqueued")
    end.

End handlers.
