(* ===== verification/Csv.v ===== *)
(** * CSV ([encoding/csv])

    The [Writer] the export worker uses, a reader of RFC 4180 files as the
    reference, and the theorem that the reader gives back the records that were
    written, whatever bytes the fields hold. *)
From S2P Require Import Prelude Json Auth.
Local Open Scope Z_scope.

Definition dquote : ascii := chr 34.
Definition cr : ascii := chr 13.
Definition lf : ascii := chr 10.

(** ** Writing *)

Definition special (c : ascii) : bool :=
  bool_decide (c = lf) || bool_decide (c = cr) || bool_decide (c = dquote)
  || bool_decide (c = ","%char).

(** [fieldNeedsQuotes] *)
Definition fieldNeedsQuotes (f : list ascii) : bool :=
  if bool_decide (f = []) then false
  else if bool_decide (f = ["\"; "."]%char) then true
  else existsb special f || match runes f with r :: _ => is_space r | [] => false end.

(** Quotes are doubled; line breaks are kept ([UseCRLF] is off). *)
Definition quote_field (f : list ascii) : list ascii :=
  dquote :: concat (map (λ c, if bool_decide (c = dquote) then [dquote; dquote] else [c]) f)
  ++ [dquote].

Definition write_field (f : list ascii) : list ascii :=
  if fieldNeedsQuotes f then quote_field f else f.

(** [w.Write(record)] *)
Fixpoint write_fields (record : list (list ascii)) : list ascii :=
  match record with
  | [] => [lf]
  | [f] => write_field f ++ [lf]
  | f :: record => write_field f ++ ","%char :: write_fields record
  end.

Definition csv_write (records : list (list (list ascii))) : list ascii :=
  concat (map write_fields records).

(** ** Reading: RFC 4180 *)

Inductive mode :=
  | Start     (* at the beginning of a field *)
  | Bare      (* in an unquoted field *)
  | Quoted    (* between quotes *)
  | Closing.  (* after a quote in a quoted field *)

(** [cur] is the field being read, [row] the fields before it. *)
Fixpoint csv_go (m : mode) (cur : list ascii) (row : list (list ascii)) (l : list ascii)
    : option (list (list (list ascii))) :=
  match l with
  | [] => match m, row with Start, [] => Some [] | _, _ => None end
  | c :: l =>
      let next_field := csv_go Start [] (row ++ [cur]) l in
      let next_row := (row ++ [cur] ::.) <$> csv_go Start [] [] l in
      match m with
      | Start =>
          if decide (c = dquote) then csv_go Quoted [] row l
          else if decide (c = ","%char) then next_field
          else if decide (c = lf) then next_row
          else csv_go Bare [c] row l
      | Bare =>
          if decide (c = dquote) then None
          else if decide (c = ","%char) then next_field
          else if decide (c = lf) then next_row
          else csv_go Bare (cur ++ [c]) row l
      | Quoted =>
          if decide (c = dquote) then csv_go Closing cur row l
          else csv_go Quoted (cur ++ [c]) row l
      | Closing =>
          if decide (c = dquote) then csv_go Quoted (cur ++ [dquote]) row l
          else if decide (c = ","%char) then next_field
          else if decide (c = lf) then next_row
          else None
      end
  end.

Definition csv_read (l : list ascii) : option (list (list (list ascii))) := csv_go Start [] [] l.

(** ** The round trip *)

(** What a reader does with a delimiter after the field [f]. *)
Definition after_field (f : list ascii) (row : list (list ascii)) (c : ascii) (l : list ascii)
    : option (list (list (list ascii))) :=
  if decide (c = ","%char) then csv_go Start [] (row ++ [f]) l
  else (row ++ [f] ::.) <$> csv_go Start [] [] l.

Definition delimiter (c : ascii) : Prop := c = ","%char ∨ c = lf.

Lemma read_bare f cur row c l :
  existsb special f = false → delimiter c →
  csv_go Bare cur row (f ++ c :: l) = after_field (cur ++ f) row c l.
Proof.
  intros Hf Hc. revert cur. induction f as [|x f IH]; intros cur.
  - simpl. rewrite app_nil_r. unfold after_field. by destruct Hc as [-> | ->].
  - simpl in Hf. apply orb_false_iff in Hf as [Hx Hf]. unfold special in Hx.
    rewrite !orb_false_iff, !bool_decide_eq_false in Hx. destruct Hx as [[[? ?] ?] ?].
    simpl. rewrite !decide_False by done. rewrite IH by done. by rewrite <- app_assoc.
Qed.

Lemma read_quoted f cur row c l :
  delimiter c →
  csv_go Quoted cur row (concat (map (λ c, if bool_decide (c = dquote) then [dquote; dquote] else [c]) f)
    ++ dquote :: c :: l) = after_field (cur ++ f) row c l.
Proof.
  intros Hc. revert cur. induction f as [|x f IH]; intros cur.
  - simpl. rewrite app_nil_r. unfold after_field. by destruct Hc as [-> | ->].
  - simpl. rewrite (cons_middle x). case_bool_decide as E; simpl.
    + subst x. rewrite IH, <- app_assoc. done.
    + rewrite decide_False by done. rewrite IH, <- app_assoc. done.
Qed.

Lemma read_field f row c l :
  delimiter c → csv_go Start [] row (write_field f ++ c :: l) = after_field f row c l.
Proof.
  intros Hc. unfold write_field. destruct (fieldNeedsQuotes f) eqn:Hq.
  - unfold quote_field. rewrite <- app_comm_cons, <- app_assoc. simpl. by rewrite read_quoted.
  - destruct f as [|x f]; [unfold after_field; by destruct Hc as [-> | ->]|].
    unfold fieldNeedsQuotes in Hq. rewrite bool_decide_false in Hq by done.
    destruct (bool_decide _); [done|]. apply orb_false_iff in Hq as [Hq _].
    pose proof Hq as Hx. simpl in Hx. apply orb_false_iff in Hx as [Hx Hf]. unfold special in Hx.
    rewrite !orb_false_iff, !bool_decide_eq_false in Hx. destruct Hx as [[[? ?] ?] ?].
    simpl. rewrite !decide_False by done. by rewrite read_bare.
Qed.

Lemma read_fields f fs row l :
  csv_go Start [] row (write_fields (f :: fs) ++ l) = (row ++ f :: fs ::.) <$> csv_go Start [] [] l.
Proof.
  revert f row. induction fs as [|g fs IH]; intros f row.
  - change (write_fields [f]) with (write_field f ++ [lf]). rewrite <- app_assoc.
    change ([lf] ++ l) with (lf :: l). rewrite read_field by (by right). done.
  - change (write_fields (f :: g :: fs)) with (write_field f ++ ","%char :: write_fields (g :: fs)).
    rewrite <- app_assoc, <- app_comm_cons, read_field by (by left). unfold after_field.
    rewrite decide_True by done. rewrite IH, <- app_assoc. done.
Qed.

Lemma csv_read_write records :
  Forall (λ r, r ≠ []) records → csv_read (csv_write records) = Some records.
Proof.
  unfold csv_read, csv_write. induction 1 as [|r rs Hr _ IH]; [done|]. simpl.
  destruct r as [|f fs]; [done|]. rewrite read_fields, IH. done.
Qed.
