(* ===== verification/Exports.v ===== *)
(** * CSV exports
    ([internal/worker/csv-export.go], [internal/transport/http/exports.go])

    An export is requested over HTTP, built by a worker from the postings of one
    month, stored, and downloaded by its owner.  Its row moves from [pending] to
    [done] with the key of the file, or to [error]. *)
From S2P Require Import Prelude GoTime Effects Json JsonStruct Store Queries World Dto Balance.
From S2P Require Import Transactions Http Storage Server Csv Handlers.
Local Open Scope Z_scope.
Local Open Scope ledger_scope.

(** ** The task ([internal/worker/jobs.go]) *)

Record ExportCSVPayload := mkExportPayload { ep_ExportID : Z; ep_UserID : Z; ep_Month : string }.

Definition export_field (k : string) (v : json) (p : ExportCSVPayload) : option ExportCSVPayload :=
  let 'mkExportPayload e u m := p in
  if String.eqb k "export_id" then e ← int_field v e; Some (mkExportPayload e u m)
  else if String.eqb k "user_id" then u ← int_field v u; Some (mkExportPayload e u m)
  else if String.eqb k "month" then m ← string_field v m; Some (mkExportPayload e u m)
  else Some p.

Definition export_text (p : ExportCSVPayload) : string :=
  json_text (JObj [("export_id", JInt (ep_ExportID p)); ("user_id", JInt (ep_UserID p));
                   ("month", JStr (ep_Month p))]).

Definition unmarshal_export (s : string) : option ExportCSVPayload :=
  unmarshal_payload export_field (mkExportPayload 0 0 "") s.

Definition NewTaskExportCSV (p : ExportCSVPayload) : Task :=
  mkTask "export:csv" (export_text p) None.

(** [fmt.Sprintf("export_%d.csv", id)] *)
Definition export_key (id : Z) : string := str (chars "export_" ++ itoa id ++ chars ".csv").

(** ** The file *)

Definition csv_header : list (list ascii) :=
  map chars ["transaction_id"; "account_id"; "account_name"; "category_id"; "amount_minor";
             "currency"; "occurred_at"; "note"].

Section exports.
Context `{Env}.

Definition csv_record (row : Posting * Transaction * Account) : list (list ascii) :=
  let '(p, x, a) := row in
  [itoa (t_ID x); itoa (p_AccountID p); chars (a_Name a);
   from_option itoa [] (t_CategoryID x); itoa (p_AmountMinor p); chars (t_Currency x);
   chars (Format_RFC3339 (pg_time (t_OccurredAt x))); chars (default "" (t_Note x))].

Definition csv_file (rows : list (Posting * Transaction * Account)) : string :=
  str (csv_write (csv_header :: map csv_record rows)).

(** ** The worker *)

Context {R F : Type} `{!Storage F}.
Abbreviation S := (Server R F).

(** [failExport]: the error of the update is ignored. *)
Definition failExport (now exportID : Z) : M S () :=
  attempt (on_world (on_pool now (UpdateExportStatus exportID "error" None))) ;;; ret ().

(** [n1], [n2] are the times of the query and of the update. *)
Definition handleExportCSV (n1 n2 : Z) (payload : string) : M S () :=
  let! p := or_fail ErrUnmarshal (unmarshal_export payload) in
  match Parse_date (ep_Month p) with
  | None => failExport n2 (ep_ExportID p) ;;; fail ErrParse
  | Some month =>
      let! rows := attempt (on_world (on_pool n1 (ListPostingsForMonth (ep_UserID p) month))) in
      match rows with
      | Err e => failExport n2 (ep_ExportID p) ;;; fail e
      | Ok rows =>
          let key := export_key (ep_ExportID p) in
          let! saved := attempt (Save key (csv_file rows)) in
          match saved with
          | Err e => failExport n2 (ep_ExportID p) ;;; fail e
          | Ok _ => on_world (on_pool n2 (UpdateExportStatus (ep_ExportID p) "done" (Some key)))
          end
      end
  end.

(** ** The handlers *)

(** [toExportDTO] and its JSON; [created_at] and [updated_at] have defaults, so
    they are valid. *)
Definition export_json (e : Export) : option json :=
  created ← time_json (pg_time (e_CreatedAt e));
  updated ← time_json (pg_time (e_UpdatedAt e));
  Some (JObj ([("id", JInt (e_ID e)); ("user_id", JInt (e_UserID e));
               ("month", JStr (Format_month (date_time (e_Month e)))); ("status", JStr (e_Status e))]
              ++ omit_string "file_path" (default "" (e_FilePath e))
              ++ [("created_at", created); ("updated_at", updated)])).

Definition ExportsAPI_CreateExport (tm : Times) (r : Request) : H S () :=
  let? uid := require_user r in
  match Parse_month (Get (rq_Query r) "month") with
  | None => reply (http_Error "month must be YYYY-MM" StatusBadRequest)
  | Some month =>
      let? exp := query (tm_now tm) (Queries.CreateExport uid month) in
      match exp with
      | Err _ => reply (http_Error "db error" StatusInternalServerError)
      | Ok exp =>
          let? e := call (enqueue (NewTaskExportCSV
                      (mkExportPayload (e_ID exp) (e_UserID exp) (Format_date month)))) in
          match e with
          | Err _ => reply (http_Error "enqueue failed" StatusInternalServerError)
          | Ok _ => reply (writeJSON StatusAccepted (export_json exp))
          end
      end
  end.

Definition ownedExport (tm : Times) (r : Request) : H S Export :=
  let? uid := require_user r in
  let? id := require_id "export" r in
  let? exp := query (tm_now tm) (GetExportByID id) in
  match exp with
  | Ok exp => if e_UserID exp =? uid then hret exp
              else reply (http_Error "not found" StatusNotFound)
  | Err _ => reply (http_Error "not found" StatusNotFound)
  end.

Definition GetStatus (tm : Times) (r : Request) : H S () :=
  let? exp := ownedExport tm r in
  reply (writeJSON StatusOK (export_json exp)).

Definition Download (tm : Times) (r : Request) : H S () :=
  let? exp := ownedExport tm r in
  match e_FilePath exp with
  | Some file =>
      if negb (bool_decide (e_Status exp = "done"))
      then reply (http_Error "not ready" StatusConflict)
      else
        let? body := call (Open file) in
        match body with
        | Err _ => reply (http_Error "export file unavailable" StatusInternalServerError)
        | Ok body =>
            reply (mkResponse StatusOK
              [("Content-Type", "text/csv"); ("Content-Disposition", "attachment; filename=" +:+ file)]
              body)
        end
  | None => reply (http_Error "not ready" StatusConflict)
  end.

End exports.
