(* ===== verification/Router.v ===== *)
(** * The server put together ([cmd/ledgerx/main.go], [internal/transport/http/router.go])

    The configuration read from the environment, and the handler of each endpoint
    with the middleware it is registered under.  An [endpoint] stands for the handler
    that a route names; [Routes] has the registration, derives [protected] and
    [routed] from it, and says which endpoint a path belongs to. *)
From S2P Require Import Prelude GoTime Effects Json Store Queries World Http Storage Server.
From S2P Require Import RateLimit Auth Middleware Handlers Exports.
Local Open Scope Z_scope.
Local Open Scope ledger_scope.

(** ** Configuration *)

(** [os.Getenv], [""] for an unset variable. *)
Definition Environ : Type := string → string.

Definition getenv (env : Environ) (k def : string) : string :=
  if bool_decide (env k = "") then def else env k.

Definition envInt (env : Environ) (k : string) (def : Z) : Z :=
  if bool_decide (env k = "") then def else
  match ParseInt (chars (env k)) with
  | Some n => if 0 <? n then n else def
  | None => def
  end.

Record App := mkApp {
  app_secret : string; app_admin_token : string; app_cors : string;
  app_auth_limiter : RateLimiter; app_limiter : RateLimiter; app_storage : StorageConfig }.

(** The signing key: required outside [dev]. *)
Definition signing_key (env : Environ) : option string :=
  let secret := env "JWT_SIGNING_KEY" in
  if bool_decide (secret = "") then
    if negb (bool_decide (getenv env "APP_ENV" "dev" = "dev")) then None
    else InitAuth "dev-only-insecure-secret"
  else InitAuth secret.

(** The limiters and the remaining configuration of the handlers. *)
Definition build_app (env : Environ) (secret : string) (store : StorageConfig) : App :=
  let rps := envInt env "API_RATE_LIMIT_RPS" 1 in
  let burst := envInt env "API_RATE_LIMIT_BURST" (wrap64 (rps * 10)) in
  mkApp secret (env "ADMIN_TOKEN") (env "CORS_ALLOWED_ORIGINS")
    (NewRateLimiter (envInt env "AUTH_RATE_LIMIT_BURST" 10) (envInt env "AUTH_RATE_LIMIT_RPS" 1))
    (NewRateLimiter burst rps) store.

(** [None]: [log.Fatal]. *)
Definition configure (env : Environ) : option App :=
  secret ← signing_key env;
  store ← FromEnv env;
  Some (build_app env secret store).

(** ** Endpoints *)

Inductive endpoint :=
  | GetHealthz | GetReadyz
  | PostAdminSnapshot
  | PostRegister | PostLogin
  | GetUsersMe
  | PostAccounts | GetAccounts
  | GetAccountBalance | GetAccountSummary | GetAccountTransactions
  | PostTransactions | PostTransactionReverse | PostTransfers
  | PostExports | GetExportStatus | GetExportDownload.

(** The routes under [/v1]. *)
Definition protected (e : endpoint) : bool :=
  match e with
  | GetHealthz | GetReadyz | PostAdminSnapshot | PostRegister | PostLogin => false
  | _ => true
  end.

Section router.
Context `{Env, Bcrypt, Jwt, Unicode, CaseFold} {R F : Type} `{!Redis R, !Storage F}.
Abbreviation S := (Server R F).

Definition healthz (r : Request) : H S () := reply (mkResponse StatusOK [] "ok").

(** [pool.Ping] and [rdb.Ping] *)
Definition ping : M S bool := λ s,
  let '(f, w) := next_fault s in (Ok (if f is NoFault then true else false), set_world w s).

Definition readyz (r : Request) : H S () :=
  let? dbOk := call ping in
  let? redisOk := call ping in
  match dbOk, redisOk with
  | Ok true, Ok true => reply (mkResponse StatusOK [] "ready")
  | _, _ => reply (mkResponse StatusServiceUnavailable [] "not ready")
  end.

(** The handler of a protected endpoint, behind the middleware. *)
Definition v1_handler (tm : Times) (e : endpoint) (r : Request) : H S () :=
  match e with
  | GetUsersMe => Me tm r
  | PostAccounts => AccountsAPI_Create tm r
  | GetAccounts => AccountsAPI_List tm r
  | GetAccountBalance => GetCurrent tm r
  | GetAccountSummary => GetSummary tm r
  | GetAccountTransactions => TransactionsAPI_ListAccountEntries tm r
  | PostTransactions => CreateTransaction tm r
  | PostTransactionReverse => ReverseTransaction tm r
  | PostTransfers => CreateTransfer tm r
  | PostExports => ExportsAPI_CreateExport tm r
  | GetExportStatus => GetStatus tm r
  | GetExportDownload => Download tm r
  | _ => hret ()
  end.

Definition unix (clock : Z) : Z := clock `div` sec_ns.

(** The handler of an endpoint with the middleware of its group.  [salt] is the
    randomness of bcrypt. *)
Definition routed (app : App) (tm : Times) (salt : Z) (e : endpoint) (r : Request) : H S () :=
  match e with
  | GetHealthz => healthz r
  | GetReadyz => readyz r
  | PostAdminSnapshot => RunSnapshotAll (app_admin_token app) r
  | PostRegister =>
      IPMiddleware (app_auth_limiter app) (unix (tm_clock tm)) (tm_limit tm)
        (Register (app_secret app) (tm_now tm) (tm_clock tm) salt) r
  | PostLogin =>
      IPMiddleware (app_auth_limiter app) (unix (tm_clock tm)) (tm_limit tm)
        (Login (app_secret app) (tm_now tm) (tm_clock tm)) r
  | _ =>
      AuthMiddleware (app_secret app) (tm_clock tm)
        (Middleware (app_limiter app) (unix (tm_clock tm)) (tm_limit tm) (v1_handler tm e)) r
  end.

(** One request, through all its middleware. *)
Definition handle (app : App) (tm : Times) (salt : Z) (e : endpoint) : Request → H S () :=
  CORSMiddleware (app_cors app) (routed app tm salt e).

Definition respond (app : App) (tm : Times) (salt : Z) (e : endpoint) (r : Request) (s : S)
    : served * S := serve (handle app tm salt e r) s.

End router.
