(* ===== verification/Footprint.v ===== *)
(** * What a request can touch

    Every handler is a sequence of reads, and of at most a few writes on behalf of
    its caller.  [handle_footprint] reduces a statement about all requests (a
    relation [Q] between the server before and after) to those writes: a relation
    that allows reads, Redis and the rate limiter is kept by every request if it is
    kept by the caller's writes. *)
From S2P Require Import Prelude GoTime Effects Json JsonStruct Store Queries World Summary Dto.
From S2P Require Import Transactions Balance TxRun System.
From S2P Require Import Http Storage Server RateLimit Auth Middleware Handlers Exports Router.
Local Open Scope Z_scope.
Local Open Scope ledger_scope.

Lemma hkeeps_mono {S A} (R1 R2 : S → S → Prop) (m : H S A) :
  (∀ s s', R1 s s' → R2 s s') → hkeeps R1 m → hkeeps R2 m.
Proof. intros Hi Hm s. apply Hi, Hm. Qed.

(** The user a request's token names. *)
Definition caller `{Jwt} (secret : string) (clock : Z) (r : Request) : option Z :=
  let h := Get (rq_Header r) "Authorization" in
  if bool_decide (h = "") || negb (String.prefix "Bearer " h) then None
  else ParseJWT secret clock (str (drop 7 (chars h))).

Section footprint.
Context `{Env, Bcrypt, Jwt, Unicode, CaseFold} {R F : Type} `{!Redis R, !Storage F}.
Abbreviation W := (World R).
Abbreviation S := (Server R F).

(** ** Steps that leave database, queue and storage alone *)

Definition quiet (s s' : S) : Prop :=
  db_kept s s' ∧ sv_queue s' = sv_queue s ∧ sv_store s' = sv_store s.

Lemma on_world_quiet {A} (m : M W A) : keeps same_db m → hkeeps quiet (call (on_world (F:=F) m)).
Proof.
  intros Hm. apply hkeeps_call. intros s. specialize (Hm (sv_world s)). unfold on_world.
  by destruct (m (sv_world s)) as [r w].
Qed.

(** A statement that leaves its session alone. *)
Lemma pure_same_db {A} now (st : stmt A) :
  (∀ c, (st c).2 = c) → keeps same_db (on_pool now st : M W A).
Proof.
  intros Hp w. unfold on_pool. destruct (pop (w_faults w)) as [f fs].
  specialize (Hp (begin_conn now w)).
  destruct f; [|done|]; destruct (st _) as [[a|e] c]; simpl in Hp; subst c; by split.
Qed.

Lemma query_quiet {A} now (st : stmt A) :
  (∀ c, (st c).2 = c) → hkeeps quiet (query (R:=R) (F:=F) now st).
Proof. intros Hp. by apply on_world_quiet, pure_same_db. Qed.

Lemma balance_quiet n1 n2 id t :
  hkeeps quiet (call (on_world (R:=R) (F:=F) (CurrentBalance n1 n2 id t))).
Proof.
  apply on_world_quiet. intros w.
  destruct (CurrentBalance _ _ _ _ w) as [r w'] eqn:E. by apply balance_tables in E.
Qed.

Lemma summary_quiet t1 n t2 id m :
  hkeeps quiet (call (on_world (R:=R) (F:=F) (SummaryService_GetMonthlySummary t1 n t2 id m))).
Proof.
  apply on_world_quiet. intros w.
  destruct (SummaryService_GetMonthlySummary _ _ _ _ _ w) as [r w'] eqn:E. by apply summary_tables in E.
Qed.

Lemma Open_quiet key : hkeeps quiet (call (Open (R:=R) (F:=F) key)).
Proof. apply hkeeps_call. intros s. unfold Open, next_fault. by destruct (pop _) as [[] fs]. Qed.

Lemma ping_quiet : hkeeps quiet (call (ping (R:=R) (F:=F))).
Proof. apply hkeeps_call. intros s. unfold ping, next_fault. by destruct (pop _). Qed.

Lemma allow_quiet rl key t at_ :
  hkeeps quiet (call (on_world (R:=R) (F:=F) (allow rl key t at_))).
Proof. apply on_world_quiet, allow_same_db. Qed.

Lemma GetUserByEmail_pure email c : (GetUserByEmail email c).2 = c.
Proof.
  unfold GetUserByEmail, text_param, constraint, bind, read. by destruct (pg_text email).
Qed.

(** ** The footprint of a request *)

(** The relation is kept by what every request may do: reads of the database, the
    storage and the cache, and the buckets of the keys [touched]. *)
Record reads (Q : S → S → Prop) (touched : string → Prop) : Prop := {
  rd_query : ∀ A now (st : stmt A), (∀ c, (st c).2 = c) → hkeeps Q (query now st);
  rd_balance : ∀ n1 n2 id t, hkeeps Q (call (on_world (CurrentBalance n1 n2 id t)));
  rd_summary : ∀ t1 n t2 id m,
    hkeeps Q (call (on_world (SummaryService_GetMonthlySummary t1 n t2 id m)));
  rd_open : ∀ key, hkeeps Q (call (Open key));
  rd_ping : hkeeps Q (call ping);
  rd_allow : ∀ rl k t at_, touched k → hkeeps Q (call (on_world (allow rl ("ratelimit:" +:+ k) t at_)))
}.

Lemma quiet_reads (Q : S → S → Prop) : (∀ s s', quiet s s' → Q s s') → reads Q (λ _, True).
Proof.
  intros HQ. split; intros; (eapply hkeeps_mono; [exact HQ|]);
    [by apply query_quiet|apply balance_quiet|apply summary_quiet|apply Open_quiet|apply ping_quiet
    |apply allow_quiet].
Qed.

Variable Q : S → S → Prop.
Context `{!Reflexive Q, !Transitive Q}.
Variable touched : string → Prop.
Hypothesis Q_reads : reads Q touched.

Lemma ownedAccount_reads now uid id : hkeeps Q (call (ownedAccount (R:=R) (F:=F) now uid id)).
Proof.
  apply hkeeps_call. intros s. unfold ownedAccount, bind, attempt.
  pose proof (rd_query _ _ Q_reads _ now (GetAccount id) ltac:(done) s) as Hq.
  unfold query, call in Hq. destruct (on_world _ s) as [[a|e] s1]; simpl in *; by repeat case_match.
Qed.

(** The relation is kept by the writes of [uid] in a request. *)
Record writes (tm : Times) (r : Request) (uid : Z) : Prop := {
  wr_account : ∀ name cur, hkeeps Q (query (tm_now tm) (CreateAccount uid name cur));
  wr_create : ∀ b, decode_body tx_field zero_tx_body (rq_Body r) = Some b →
    hkeeps Q (call (on_world (Create (tm_now tm) (create_input uid r b))));
  wr_transfer : ∀ b, decode_body transfer_field zero_transfer_body (rq_Body r) = Some b →
    hkeeps Q (call (on_world (Transfer (tm_now tm) (transfer_input uid r b))));
  wr_reverse : ∀ id key,
    hkeeps Q (call (on_world (Reverse (tm_now tm) (tm_clock tm) (mkReverseInput uid id key))));
  wr_export : ∀ month, hkeeps Q (query (tm_now tm) (Queries.CreateExport uid month));
  wr_task : ∀ p, hkeeps Q (call (enqueue (NewTaskExportCSV p)))
}.

Lemma hkeeps_user {A} r (k : Z → H S A) :
  (∀ uid, rq_UserID r = Some uid → hkeeps Q (k uid)) → hkeeps Q (hbind (require_user r) k).
Proof.
  intros Hk s. unfold hbind, require_user. destruct (rq_UserID r) as [uid|]; [|simpl; reflexivity].
  destruct (uid =? 0); [simpl; reflexivity|]. by apply Hk.
Qed.

Ltac quiet :=
  first [apply (rd_query _ _ Q_reads); first [done | apply GetUserByEmail_pure]
        | apply (rd_balance _ _ Q_reads) | apply (rd_summary _ _ Q_reads) | apply (rd_open _ _ Q_reads)
        | apply (rd_ping _ _ Q_reads) | apply ownedAccount_reads].

(** Steps through a handler: binds, early returns, case analyses, reads. *)
Ltac hsteps :=
  repeat match goal with
  | |- hkeeps _ (hbind (require_user _) _) => apply hkeeps_user; intros ??
  | |- hkeeps _ (hbind _ _) => apply hkeeps_bind; [apply _| |intros ?]
  | |- hkeeps _ (reply _) => apply hkeeps_reply; apply _
  | |- hkeeps _ (hret _) => apply hkeeps_ret; apply _
  | |- hkeeps _ panic => apply hkeeps_panic; apply _
  | |- hkeeps _ (require_id _ _) => unfold require_id
  | |- hkeeps _ (write_dto _) => unfold write_dto
  | |- hkeeps _ (require_owned _ _ _) => unfold require_owned
  | |- hkeeps _ (match ?x with _ => _ end) => destruct x eqn:?
  | |- hkeeps _ _ => quiet
  end.

Lemma v1_footprint tm e r :
  (∀ uid, rq_UserID r = Some uid → writes tm r uid) → hkeeps Q (v1_handler tm e r).
Proof.
  intros Hw. destruct e; simpl; try (apply hkeeps_ret; apply _).
  - unfold Me. hsteps.
  - unfold AccountsAPI_Create. hsteps. by apply (wr_account _ _ _ (Hw _ ltac:(eassumption))).
  - unfold AccountsAPI_List. hsteps.
  - unfold GetCurrent. hsteps.
  - unfold GetSummary. hsteps.
  - unfold TransactionsAPI_ListAccountEntries, entries_page. hsteps.
  - unfold CreateTransaction. hsteps. by apply (wr_create _ _ _ (Hw _ ltac:(eassumption))).
  - unfold ReverseTransaction. hsteps. by apply (wr_reverse _ _ _ (Hw _ ltac:(eassumption))).
  - unfold CreateTransfer. hsteps. by apply (wr_transfer _ _ _ (Hw _ ltac:(eassumption))).
  - unfold ExportsAPI_CreateExport. hsteps.
    + by apply (wr_export _ _ _ (Hw _ ltac:(eassumption))).
    + by apply (wr_task _ _ _ (Hw _ ltac:(eassumption))).
  - unfold GetStatus, ownedExport. hsteps.
  - unfold Download, ownedExport. hsteps.
Qed.

Lemma limit_footprint rl keyFn t at_ (next : Request → H S ()) r :
  (∀ k, keyFn r = Some k → touched k) →
  hkeeps Q (next r) → hkeeps Q (limit_middleware rl keyFn t at_ next r).
Proof.
  intros Hk Hn. unfold limit_middleware. destruct (keyFn r) as [k|]; [|hsteps].
  apply hkeeps_bind; [apply _|by apply (rd_allow _ _ Q_reads), Hk|].
  intros [[[[[] ?] ?]|]|]; [| |hsteps..]; apply hkeeps_headers; [done|hsteps].
Qed.

Lemma auth_footprint secret clock (next : Request → H S ()) r :
  (∀ uid, caller secret clock r = Some uid → hkeeps Q (next (with_user uid r))) →
  hkeeps Q (AuthMiddleware secret clock next r).
Proof.
  unfold AuthMiddleware, caller. intros Hn. destruct (_ || _); [hsteps|].
  destruct (ParseJWT _ _ _); [by apply Hn|hsteps].
Qed.

(** A middleware around the routes. *)
Lemma cors_footprint allowed (next : Request → H S ()) r :
  hkeeps Q (next r) → hkeeps Q (CORSMiddleware allowed next r).
Proof.
  intros Hin. unfold CORSMiddleware. case_bool_decide; [apply Hin|]. apply hkeeps_headers.
  case_bool_decide; [hsteps|apply Hin].
Qed.

Lemma handle_touching app tm salt e r :
  (∀ uid, caller (app_secret app) (tm_clock tm) r = Some uid → writes tm (with_user uid r) uid) →
  (∀ email hash, hkeeps Q (query (tm_now tm) (CreateUser email hash))) →
  hkeeps Q (call (enqueue (NewTaskSnapshotAll (mkSnapshotAll "")))) →
  (∀ uid k, protected e = true → caller (app_secret app) (tm_clock tm) r = Some uid →
     user_key (with_user uid r) = Some k → touched k) →
  (∀ k, ip_key r = Some k → touched k) →
  hkeeps Q (handle app tm salt e r).
Proof.
  intros Hw Hu Ht Huk Hik. apply cors_footprint. unfold routed.
  destruct e; try (apply auth_footprint; intros uid Hc; apply limit_footprint;
    [by intros k; apply (Huk uid k)|]; apply v1_footprint; intros ? [= <-]; by apply Hw).
  - unfold healthz. hsteps.
  - unfold readyz. hsteps.
  - unfold RunSnapshotAll. destruct (bool_decide _); [hsteps|]. destruct (negb _); [hsteps|].
    apply hkeeps_bind; [apply _|done|]. intros ?. hsteps.
  - apply limit_footprint; [done|]. unfold Register. hsteps; apply Hu.
  - apply limit_footprint; [done|]. unfold Login. hsteps.
Qed.

End footprint.

Lemma ownedAccount_quiet `{Env} {R F : Type} `{!Redis R, !Storage F} now uid id :
  hkeeps quiet (call (ownedAccount (R:=R) (F:=F) now uid id)).
Proof. by apply (ownedAccount_reads quiet (λ _, True)), quiet_reads. Qed.

(** A relation that allows reads, Redis and the rate limiter. *)
Lemma handle_footprint `{Env, Bcrypt, Jwt, Unicode, CaseFold} {R F : Type} `{!Redis R, !Storage F}
    (Q : Server R F → Server R F → Prop) `{!Reflexive Q, !Transitive Q} app tm salt e r :
  (∀ s s', quiet s s' → Q s s') →
  (∀ uid, caller (app_secret app) (tm_clock tm) r = Some uid → writes Q tm (with_user uid r) uid) →
  (∀ email hash, hkeeps Q (query (tm_now tm) (CreateUser email hash))) →
  hkeeps Q (call (enqueue (NewTaskSnapshotAll (mkSnapshotAll "")))) →
  hkeeps Q (handle app tm salt e r).
Proof. intros HQ Hw Hu Ht. by apply (handle_touching Q (λ _, True)); [apply quiet_reads|..]. Qed.
