(* ===== verification/ApiSystem.v ===== *)
(** * The whole server as a transition system

    Requests through the router, background tasks taken from the queue, the
    scheduler, the outbox worker, and anything that happens to Redis.  The theorem
    is a refinement: the database of every reachable server is one that [System]
    reaches, so that what is proved of [System] holds of the server. *)
From S2P Require Import Prelude GoTime Effects Json JsonStruct Store Queries World Summary Dto.
From S2P Require Import Transactions TxRun TxSpec Invariant Posting Growth Ledger Services.
From S2P Require Import Balance Outbox Tables System Snapshots.
From S2P Require Import Http Storage Server RateLimit Auth Middleware Handlers Exports Router.
From S2P Require Import Footprint.
Local Open Scope Z_scope.
Local Open Scope ledger_scope.

(** ** Simulation of the steps of a handler *)

Section sim.
Context `{Env} {R F : Type} `{!Redis R}.
Abbreviation W := (World R).
Abbreviation S := (Server R F).

(** The system gets from one world to the other by the time [now]. *)
Definition wsims (now : Z) (w w' : W) : Prop :=
  ∀ last, last ≤ now → rtc step (last, w) (now, w').

(** The tasks a request puts into the queue. *)
Definition request_task (t : Task) : Prop :=
  t = NewTaskSnapshotAll (mkSnapshotAll "") ∨ tk_type t = "export:csv".

Definition queues (s s' : S) : Prop :=
  ∃ new, sv_queue s' = sv_queue s ++ new ∧ Forall request_task new.

(** A step of a handler: the world is simulated, the queue gets requests' tasks. *)
Definition sims (now : Z) (s s' : S) : Prop :=
  wsims now (sv_world s) (sv_world s') ∧ queues s s'.

Lemma same_db_wsims now w w' : same_db w w' → wsims now w w'.
Proof.
  intros [Ht Hs] last Hle. apply rtc_once. destruct w' as [t q r fs]. simpl in *. subst t q.
  by apply step_redis.
Qed.

#[global] Instance wsims_refl now : Reflexive (wsims now).
Proof. intros w. apply same_db_wsims. reflexivity. Qed.
#[global] Instance wsims_trans now : Transitive (wsims now).
Proof. intros w1 w2 w3 H1 H2 last Hle. etrans; [by apply H1|]. by apply H2. Qed.

Lemma queues_same s s' : sv_queue s' = sv_queue s → queues s s'.
Proof. intros E. exists []. by rewrite app_nil_r. Qed.

#[global] Instance sims_refl now : Reflexive (sims now).
Proof. intros s. split; [reflexivity|by apply queues_same]. Qed.
#[global] Instance sims_trans now : Transitive (sims now).
Proof.
  intros s1 s2 s3 [H1 (n1&E1&F1)] [H2 (n2&E2&F2)]. split; [by etrans|].
  exists (n1 ++ n2). rewrite E2, E1, app_assoc. split; [done|]. by apply Forall_app.
Qed.

Lemma op_wsims now o w : op_ok now o → wsims now w (run_op now o w).
Proof.
  intros Ho last Hle. apply rtc_once.
  assert (with_faults (w_faults w) w = w) as E by (by destruct w).
  rewrite <- E at 2. by apply step_op.
Qed.

Lemma on_world_sims {A} now (m : M W A) : keeps (wsims now) m → keeps (sims now) (on_world (F:=F) m).
Proof.
  intros Hm s. specialize (Hm (sv_world s)). unfold on_world.
  destruct (m (sv_world s)) as [r w]. split; [done|by apply queues_same].
Qed.

Lemma kept_sims {A} now (m : M S A) :
  keeps db_kept m → (∀ s, sv_queue (m s).2 = sv_queue s) → keeps (sims now) m.
Proof. intros Hm Hq s. split; [apply same_db_wsims, Hm|by apply queues_same]. Qed.

Lemma enqueue_sims now t : request_task t → keeps (sims now) (enqueue (R:=R) (F:=F) t).
Proof.
  intros Ht s. split; [apply same_db_wsims, enqueue_kept|]. unfold enqueue.
  destruct (next_fault s) as [[] w]; [|by apply queues_same|]; exists [t];
    (split; [done|]); constructor; done.
Qed.

Lemma quiet_sims now s s' : quiet s s' → sims now s s'.
Proof. intros (Hk&Hq&_). split; [by apply same_db_wsims|by apply queues_same]. Qed.

(** A call that is one operation of the system. *)
Lemma op_sims {A} now (m : M W A) o :
  (∀ w : W, (m w).2 = run_op now o w) → op_ok now o →
  hkeeps (sims now) (call (on_world (F:=F) m)).
Proof.
  intros Hst Ho. apply hkeeps_call, on_world_sims. intros w. rewrite Hst. by apply op_wsims.
Qed.

End sim.

(** ** Amounts of a request are machine integers *)

Lemma fill_inv {A} (P : A → Prop) (f : string → json → A → option A) :
  (∀ k v a b, P a → f k v a = Some b → P b) →
  ∀ ms a b, P a → fill f ms a = Some b → P b.
Proof.
  intros Hf ms. induction ms as [|[k v] ms IH]; intros a b Ha E; simpl in E; [by simplify_eq|].
  destruct (f (fold_name k) v a) as [a'|] eqn:E'; [|done]. simpl in E. eauto.
Qed.

Lemma int_field_int64 v old z : int64 old → int_field v old = Some z → int64 z.
Proof.
  destruct v; simpl; intros Ho E; simplify_eq; [done|]. by apply ParseInt_int64 in E.
Qed.

Lemma decode_body_inv {A} (P : A → Prop) f (zero a : A) body :
  (∀ k v a b, P a → f k v a = Some b → P b) → P zero →
  decode_body f zero body = Some a → P a.
Proof.
  intros Hf Hz. unfold decode_body. destruct (pvalue _ _) as [[j r]|]; [|done]. simpl.
  destruct j; try done; [by intros [= <-]|]. by apply fill_inv.
Qed.

Lemma tx_amount body b : decode_body tx_field zero_tx_body body = Some b → int64 (tb_Amount b).
Proof.
  apply (decode_body_inv (λ b, int64 (tb_Amount b))); [|done].
  intros k v [acc amt cur occ note] b' Ha E. simpl in *. unfold tx_field in E.
  repeat case_match; simpl in *; simplify_option_eq; try done.
  by eapply int_field_int64.
Qed.

Lemma transfer_amount body b :
  decode_body transfer_field zero_transfer_body body = Some b → int64 (fb_Amount b).
Proof.
  apply (decode_body_inv (λ b, int64 (fb_Amount b))); [|done].
  intros k v [from to amt cur occ note] b' Ha E. simpl in *. unfold transfer_field in E.
  repeat case_match; simpl in *; simplify_option_eq; try done.
  by eapply int_field_int64.
Qed.

(** ** Every request is simulated *)

Section requests.
Context `{Env, Bcrypt, Jwt, Unicode, CaseFold} {R F : Type} `{!Redis R, !Storage F}.

Lemma respond_sims app tm salt e r s :
  sims (tm_now tm) s (respond (R:=R) (F:=F) app tm salt e r s).2.
Proof.
  apply (hkeeps_serve (sims (tm_now tm))), handle_footprint; [apply _|apply _|apply quiet_sims| | |].
  - intros uid _. split; intros.
    + by apply (op_sims _ _ (OpAccount uid name cur)).
    + eapply (op_sims _ _ (OpCreate _)); [by intros|]. by eapply tx_amount.
    + eapply (op_sims _ _ (OpTransfer _)); [by intros|]. by eapply transfer_amount.
    + eapply (op_sims _ _ (OpReverse _ _)); by intros.
    + by apply (op_sims _ _ (OpExport uid month)).
    + apply hkeeps_call, enqueue_sims. by right.
  - intros email hash. by apply (op_sims _ _ (OpRegister email hash)).
  - apply hkeeps_call, enqueue_sims. by left.
Qed.

End requests.

(** ** The server *)

Section server_system.
Context `{Env, Bcrypt, Jwt, Unicode, CaseFold} {R F : Type} `{!Redis R, !Storage F}.
Abbreviation W := (World R).
Abbreviation S := (Server R F).

(** [handleSnapshotAll] enqueues the tasks one by one and ignores the answers. *)
Definition snapshot_all_task (now clock : Z) (payload : string) : M S () :=
  let! tasks := on_world (handleSnapshotAll now clock payload) in
  mapM (λ t, attempt (enqueue t)) tasks ;;; ret ().

(** The mux of [NewServer]: the handler of a task by its type (no task of another type
    is ever enqueued). *)
Definition run_task (now clock : Z) (t : Task) : M S () :=
  if bool_decide (tk_type t = "snapshot:all") then snapshot_all_task now clock (tk_payload t)
  else if bool_decide (tk_type t = "snapshot:account") then
    on_world (handleSnapshotAccount now now (tk_payload t))
  else if bool_decide (tk_type t = "export:csv") then handleExportCSV now now (tk_payload t)
  else ret ().

(** [Scheduler.Start] registers this task for 00:05 UTC every day. *)
Definition scheduled_task : Task := NewTaskSnapshotAll (mkSnapshotAll "").

Definition set_faults (fs : list fault) (s : S) : S := set_world (with_faults fs (sv_world s)) s.

(** The Go clock of a worker: a year with four digits, and the UTC day it shows has
    begun for the database too (it may be ahead by no more than its time of day). *)
Definition clock_ok (clock now : Z) : Prop :=
  clock `div` day_ns * day_ns < 1000 * now ∧ 0 ≤ Year (mkTime (clock - day_ns) 0) ≤ 9999.

(** A step of the server, at a time not before the previous one and with any
    faults: a request, a task of the queue (which may run any number of times), the
    scheduler, the outbox worker; and Redis may change on its own. *)
Inductive sstep (app : App) : Z * S → Z * S → Prop :=
  | ss_request last tm salt e r fs s :
      last ≤ tm_now tm →
      sstep app (last, s) (tm_now tm, (respond app tm salt e r (set_faults fs s)).2)
  | ss_task last now clock t fs s :
      last ≤ now → clock_ok clock now → t ∈ sv_queue s →
      sstep app (last, s) (now, (run_task now clock t (set_faults fs s)).2)
  | ss_schedule last now fs s :
      last ≤ now → sstep app (last, s) (now, (enqueue scheduled_task (set_faults fs s)).2)
  | ss_publish last now locked fs s :
      last ≤ now →
      sstep app (last, s)
        (now, set_world (ProcessBatch now locked (with_faults fs (sv_world s))).2 s)
  | ss_redis last now r s :
      last ≤ now →
      sstep app (last, s)
        (now, set_world (mkWorld (w_tab (sv_world s)) (w_seq (sv_world s)) r []) s).

Definition server_init (r : R) (f : F) : S := mkServer (init r) [] f.

Definition server_reachable (app : App) (t0 : Z) (r : R) (f : F) (s : Z * S) : Prop :=
  rtc (sstep app) (t0, server_init r f) s.

(** ** The queue holds only tasks that may run *)

Definition task_ok (last : Z) (t : Task) : Prop :=
  (tk_type t = "snapshot:all" → tk_payload t = snapshot_all_text (mkSnapshotAll "")) ∧
  (tk_type t = "snapshot:account" → ∀ now, last ≤ now → op_ok now (OpSnapshot (tk_payload t))).

Definition queue_ok (last : Z) (q : list Task) : Prop := Forall (task_ok last) q.

Lemma queue_ok_later last now q : last ≤ now → queue_ok last q → queue_ok now q.
Proof.
  intros Hle Hq. eapply Forall_impl; [exact Hq|]. intros t [Ha Hb]. split; [done|].
  intros Ht n Hn. apply Hb; [done|lia].
Qed.

Lemma request_task_ok last t : request_task t → task_ok last t.
Proof. intros [-> |Ht]; split; try done; by rewrite Ht. Qed.

Lemma queues_ok last (s s' : S) : queues s s' → queue_ok last (sv_queue s) → queue_ok last (sv_queue s').
Proof.
  intros (new&->&Hn) Hq. apply Forall_app. split; [done|]. eapply Forall_impl; [done|].
  intros t. apply request_task_ok.
Qed.

Lemma failExport_sims now id : keeps (sims now) (failExport (R:=R) (F:=F) now id).
Proof.
  unfold failExport. apply keeps_bind; [apply _| |intros; apply keeps_ret; apply _].
  apply keeps_attempt, on_world_sims. intros w.
  apply (op_wsims now (OpExportStatus id "error" None) w). done.
Qed.

Lemma handleExportCSV_sims now payload :
  keeps (sims now) (handleExportCSV (R:=R) (F:=F) now now payload).
Proof.
  unfold handleExportCSV. apply keeps_bind; [apply _| |intros p].
  { unfold or_fail. case_match; [apply keeps_ret|apply keeps_fail]; apply _. }
  assert (∀ e, keeps (sims now) (failExport now (ep_ExportID p) ;;; fail (S:=S) (A:=()) e)) as Hf.
  { intros e. apply keeps_bind; [apply _|apply failExport_sims|intros; apply keeps_fail; apply _]. }
  destruct (Parse_date _) as [month|]; [|apply Hf]. apply keeps_bind; [apply _| |].
  { apply keeps_attempt, on_world_sims. intros w. apply same_db_wsims. by apply pure_same_db. }
  intros [rows|e]; [|apply Hf]. apply keeps_bind; [apply _| |].
  { apply keeps_attempt, kept_sims; [apply Save_kept|]. intros s. unfold Save.
    by destruct (next_fault s) as [[] w]. }
  intros [[]|e]; [|apply Hf]. apply on_world_sims. intros w.
  apply (op_wsims now (OpExportStatus _ "done" (Some _)) w). done.
Qed.

Context `{!EnvOK}.

Lemma handleSnapshotAll_same now clock payload :
  keeps same_db (handleSnapshotAll (R:=R) now clock payload).
Proof.
  unfold handleSnapshotAll. apply keeps_bind; [apply _| |intros p].
  { unfold or_fail. case_match; [apply keeps_ret|apply keeps_fail]; apply _. }
  apply keeps_bind; [apply _|by apply pure_same_db|intros ids].
  apply keeps_bind; [apply _| |intros; apply keeps_ret; apply _].
  unfold or_fail. case_match; [apply keeps_ret|apply keeps_fail]; apply _.
Qed.

Lemma enqueue_all tasks (s : S) :
  ∃ new, sv_queue (mapM (λ t, attempt (enqueue t)) tasks s).2 = sv_queue s ++ new ∧ new ⊆ tasks ∧
    db_kept s (mapM (λ t, attempt (enqueue t)) tasks s).2.
Proof.
  revert s. induction tasks as [|t tasks IH]; intros s; [exists []; by rewrite app_nil_r|].
  assert ((mapM (λ t, attempt (enqueue t)) (t :: tasks) s).2
    = (mapM (λ t, attempt (enqueue t)) tasks (enqueue t s).2).2) as ->.
  { cbn [mapM]. unfold bind, attempt. destruct (enqueue t s) as [r s1]. simpl.
    by destruct (mapM _ tasks s1) as [[]]. }
  destruct (IH (enqueue t s).2) as (n2&Eq2&Hn2&Hk2).
  assert (∃ new, sv_queue (enqueue t s).2 = sv_queue s ++ new ∧ new ⊆ [t]) as (n1&Eq1&Hn1).
  { unfold enqueue. destruct (next_fault s) as [[] w].
    - by exists [t].
    - exists []. rewrite app_nil_r. split; [done|set_solver].
    - by exists [t]. }
  exists (n1 ++ n2). rewrite Eq2, Eq1, app_assoc. split_and!; [done|set_solver|].
  etrans; [apply (enqueue_kept t s)|exact Hk2].
Qed.

Lemma handleSnapshotAll_type now clock payload (w w' : W) tasks :
  handleSnapshotAll now clock payload w = (Ok tasks, w') →
  Forall (λ k, tk_type k = "snapshot:account") tasks.
Proof.
  intros E. unfold handleSnapshotAll in E. apply bind_Ok in E as (p&w1&_&E).
  apply bind_Ok in E as (ids&w2&_&E). apply bind_Ok in E as (date&w3&_&E). injection E as <- _.
  apply Forall_map, Forall_true. done.
Qed.

(** A state of the server whose database the system reaches from [b], and whose
    queue is in order. *)
Definition srv_ok (b : Z * W) (p : Z * S) : Prop :=
  rtc step b (p.1, sv_world p.2) ∧ queue_ok p.1 (sv_queue p.2).

Lemma srv_ok_faults b last fs (s : S) : srv_ok b (last, s) → srv_ok b (last, set_faults fs s).
Proof.
  intros [Hr Hq]. split; [|done]. simpl in *. eapply rtc_r; [exact Hr|].
  apply (step_redis last last (w_redis (sv_world s)) fs). done.
Qed.

Lemma srv_ok_sims b last now (s s' : S) :
  last ≤ now → sims now s s' → srv_ok b (last, s) → srv_ok b (now, s').
Proof.
  intros Hle [Hw Hqs] [Hr Hq]. split; simpl in *.
  - eapply rtc_trans; [exact Hr|]. by apply Hw.
  - eapply queues_ok; [done|]. by eapply queue_ok_later.
Qed.

Lemma srv_ok_snapshot_all t0 r0 b last now clock (s : S) :
  enc_ts (t_ns zero_time) < t0 → reachable t0 r0 b → last ≤ now → clock_ok clock now →
  srv_ok b (last, s) →
  srv_ok b (now, (snapshot_all_task now clock (snapshot_all_text (mkSnapshotAll "")) s).2).
Proof.
  intros Ht0 Hb Hle [Hc Hy] Hok.
  assert (srv_ok b (now, s)) as [Hr Hq] by (eapply srv_ok_sims; [done|reflexivity|done]).
  simpl in *. unfold snapshot_all_task, bind at 1, on_world.
  pose proof (handleSnapshotAll_same now clock (snapshot_all_text (mkSnapshotAll "")) (sv_world s)) as Hs.
  destruct (handleSnapshotAll _ _ _ _) as [[tasks|e] w'] eqn:E.
  2: { split; simpl; [|done]. eapply rtc_trans; [exact Hr|]. by apply same_db_wsims. }
  pose proof (handleSnapshotAll_type _ _ _ _ _ _ E) as Hty. rewrite Forall_forall in Hty.
  apply handleSnapshotAll_tasks in E as [_ Hts]; [|eapply reachable_world_ok; [done|by eapply rtc_trans]|done].
  destruct (enqueue_all tasks (set_world w' s)) as (new&Eq&Hn&Hk).
  assert (∀ s2 : S, db_kept (set_world w' s) s2 → sv_queue s2 = sv_queue s ++ new →
    srv_ok b (now, s2)) as Hgoal.
  { intros s2 Hk2 Eq2. split; cbn [fst snd].
    - eapply rtc_trans; [exact Hr|]. apply same_db_wsims; [|done]. etrans; [exact Hs|exact Hk2].
    - rewrite Eq2. apply Forall_app. split; [done|]. apply Forall_forall. intros t Ht. split.
      + rewrite (Hty t) by (by apply Hn). done.
      + intros _ n Hn2. apply Hts; [by apply Hn|]. lia. }
  unfold bind. destruct (mapM _ tasks _) as [[bs|e] s2]; by apply Hgoal.
Qed.

(** The refinement step. *)
Lemma sstep_ok app t0 r0 b p p' :
  enc_ts (t_ns zero_time) < t0 → reachable t0 r0 b → srv_ok b p → sstep app p p' → srv_ok b p'.
Proof.
  intros Ht0 Hb Hok Hst.
  destruct Hst as [last tm salt e r fs s Hle|last now clock t fs s Hle Hc Ht|last now fs s Hle|
    last now locked fs s Hle|last now r s Hle].
  - eapply srv_ok_sims; [done|apply respond_sims|]. by apply srv_ok_faults.
  - apply (srv_ok_faults _ _ fs) in Hok. pose proof Hok as [_ Hq]. simpl in Hq.
    unfold queue_ok in Hq. rewrite Forall_forall in Hq. destruct (Hq t Ht) as [Hall Hacc].
    unfold run_task. case_bool_decide as E1; [|case_bool_decide as E2; [|case_bool_decide]].
    + rewrite (Hall E1). by eapply srv_ok_snapshot_all.
    + eapply srv_ok_sims; [done| |done]. apply on_world_sims. intros w.
      apply (op_wsims now (OpSnapshot (tk_payload t)) w). by apply Hacc.
    + eapply srv_ok_sims; [done| |done]. apply handleExportCSV_sims.
    + eapply srv_ok_sims; [done|reflexivity|done].
  - eapply srv_ok_sims; [done| |by apply srv_ok_faults]. apply enqueue_sims. by left.
  - apply (srv_ok_faults _ _ fs) in Hok. eapply srv_ok_sims; [done| |done].
    split; [|by apply queues_same]. apply (op_wsims now (OpPublish locked)). done.
  - eapply srv_ok_sims; [done| |done]. split; [|by apply queues_same]. by apply same_db_wsims.
Qed.

Lemma ssteps_ok app t0 r0 b p p' :
  enc_ts (t_ns zero_time) < t0 → reachable t0 r0 b → srv_ok b p → rtc (sstep app) p p' → srv_ok b p'.
Proof.
  intros Ht0 Hb Hp Hr. induction Hr as [|p0 p1 p2 Hst _ IH]; [done|]. apply IH. by eapply sstep_ok.
Qed.

Lemma server_reachable_ok app t0 r0 f p :
  enc_ts (t_ns zero_time) < t0 → server_reachable app t0 r0 f p → srv_ok (t0, init r0) p.
Proof.
  intros Ht0 Hr. eapply ssteps_ok; [done|apply rtc_refl| |exact Hr].
  split; [apply rtc_refl|constructor].
Qed.

Lemma server_world_ok app t0 r0 f last s :
  enc_ts (t_ns zero_time) < t0 → server_reachable app t0 r0 f (last, s) → world_ok (sv_world s).
Proof.
  intros Ht0 Hr. destruct (server_reachable_ok _ _ _ _ _ Ht0 Hr) as [Hb _].
  exact (reachable_world_ok _ _ _ _ Ht0 Hb).
Qed.

(** What happens between two states of a server. *)
Lemma server_steps app t0 r0 f p p' :
  enc_ts (t_ns zero_time) < t0 → server_reachable app t0 r0 f p → rtc (sstep app) p p' →
  rtc step (p.1, sv_world p.2) (p'.1, sv_world p'.2).
Proof.
  intros Ht0 Hr Hs. destruct (server_reachable_ok _ _ _ _ _ Ht0 Hr) as [Hb Hq].
  eapply ssteps_ok; [exact Ht0|exact Hb| |exact Hs]. split; [apply rtc_refl|exact Hq].
Qed.

End server_system.
