(* ===== verification/ExportState.v ===== *)
(** * The states of an export

    A row of [exports] is pending, done with the key of its file, or failed.  The
    invariant holds of every reachable server: whatever is retried, lost or run
    twice, a row that is done names a file that can be opened. *)
From S2P Require Import Prelude GoTime Effects Json JsonStruct Store Queries World Summary Dto.
From S2P Require Import Transactions TxRun TxSpec Invariant Posting Growth Ledger Services.
From S2P Require Import Balance Outbox Tables System Snapshots.
From S2P Require Import Http Storage Server RateLimit Auth Middleware Handlers Exports Router.
From S2P Require Import Footprint ApiSystem.
Local Open Scope Z_scope.
Local Open Scope ledger_scope.

(** ** Keys *)

Lemma itoa_no_slash z : "/"%char ∉ itoa z.
Proof.
  assert (∀ n, 0 ≤ n → "/"%char ∉ dec n) as Hd.
  { intros n Hn Hin. destruct (dec_spec n Hn) as (_&Hf&_). rewrite Forall_forall in Hf.
    by specialize (Hf _ Hin). }
  unfold itoa. destruct (Z.ltb_spec z 0); [|by apply Hd].
  rewrite not_elem_of_cons. split; [done|]. apply Hd. lia.
Qed.

Lemma export_key_clean id : clean_key (export_key id) = true.
Proof.
  unfold clean_key, export_key. rewrite chars_str. apply andb_true_iff. split; [done|].
  apply forallb_forall. intros c Hc%list_elem_of_In. apply negb_true_iff, bool_decide_eq_false.
  intros ->. revert Hc. change ("/"%char ∉ chars "export_" ++ itoa id ++ chars ".csv").
  rewrite !not_elem_of_app. split_and!; [|apply itoa_no_slash|];
    apply (bool_decide_unpack _); by vm_compute.
Qed.

(** ** The invariant *)

Section states.
Context {R F : Type} `{!Storage F}.
Abbreviation W := (World R).
Abbreviation S := (Server R F).

Inductive export_ok (f : F) (e : Export) : Prop :=
  | export_pending : e_Status e = "pending" → e_FilePath e = None → export_ok f e
  | export_error : e_Status e = "error" → e_FilePath e = None → export_ok f e
  | export_done body : e_Status e = "done" → e_FilePath e = Some (export_key (e_ID e)) →
      st_open f (export_key (e_ID e)) = Some body → export_ok f e.

Definition exports_ok (s : S) : Prop := Forall (export_ok (sv_store s)) (exports (w_tab (sv_world s))).

(** A step keeps the invariant. *)
Definition exports_kept (s s' : S) : Prop := exports_ok s → exports_ok s'.

#[global] Instance exports_kept_refl : Reflexive exports_kept.
Proof. intros s. exact id. Qed.
#[global] Instance exports_kept_trans : Transitive exports_kept.
Proof. unfold exports_kept. intros s1 s2 s3. auto. Qed.

Definition same_exports (w w' : W) : Prop := exports (w_tab w') = exports (w_tab w).

Lemma same_exports_kept (s s' : S) :
  same_exports (sv_world s) (sv_world s') → sv_store s' = sv_store s → exports_kept s s'.
Proof. unfold exports_kept, exports_ok, same_exports. by intros -> ->. Qed.

Lemma on_world_exports {A} (m : M W A) :
  (∀ w, same_exports w (m w).2) → keeps exports_kept (on_world (F:=F) m).
Proof.
  intros Hm s. specialize (Hm (sv_world s)). unfold on_world.
  destruct (m (sv_world s)). by apply same_exports_kept.
Qed.

Lemma enqueue_exports t : keeps exports_kept (enqueue (R:=R) (F:=F) t).
Proof.
  intros s. apply same_exports_kept; unfold enqueue, next_fault, same_exports; by destruct (pop _) as [[] fs].
Qed.

Context `{Env} `{!Redis R}.

Lemma pool_exports {A} now (st : stmt A) (w : W) :
  (∀ c a c', st c = (Ok a, c') → exports (c_tab c') = exports (c_tab c)) →
  same_exports w (on_pool now st w).2.
Proof.
  intros Hs. destruct (on_pool now st w) as [r w'] eqn:E. unfold same_exports.
  apply on_pool_cases in E as [_ [[Ht _]|(a&c&E&_&Ht&_&_)]]; cbn [snd]; rewrite Ht; [done|].
  exact (Hs (begin_conn now w) _ _ E).
Qed.

Lemma posted_exports c accs x legs kind key hash note dto c' :
  Posted c accs x legs kind key hash note dto c' → exports (c_tab c') = exports (c_tab c).
Proof. intros Hpo. destruct (po_tab Hpo) as (idems&?&_&_&->). done. Qed.

Lemma createBalanced_exports now b (w : W) : same_exports w (createBalanced now b w).2.
Proof.
  destruct (createBalanced now b w) as [r w'] eqn:E. apply createBalanced_cases in E. unfold same_exports.
  destruct E as [e w' Ht _|d w' Ht _ _|accs legs dto c r w' Hcr _ Ht _ _ _]; cbn [snd]; rewrite Ht;
    [done..|]. exact (posted_exports _ _ _ _ _ _ _ _ _ _ (cr_posted Hcr)).
Qed.

Lemma Create_exports now i (w : W) : same_exports w (Create now i w).2.
Proof. unfold Create. destruct (_ =? _); [done|]. apply createBalanced_exports. Qed.

Lemma Transfer_exports now i (w : W) : same_exports w (Transfer now i w).2.
Proof.
  unfold Transfer. destruct (_ <=? _); [done|]. destruct (_ =? _); [done|]. apply createBalanced_exports.
Qed.

Lemma Reverse_exports now clock i (w : W) : same_exports w (Reverse now clock i w).2.
Proof.
  destruct (Reverse now clock i w) as [r w'] eqn:E. apply Reverse_cases in E. unfold same_exports.
  destruct E as [e w' Ht _|d w' Ht _ _|orig ps dto c r w' Hrv _ Ht _ _]; cbn [snd]; rewrite Ht;
    [done..|]. exact (posted_exports _ _ _ _ _ _ _ _ _ _ (rv_posted Hrv)).
Qed.

Lemma snapshot_exports n1 n2 payload (w : W) : same_exports w (handleSnapshotAccount n1 n2 payload w).2.
Proof.
  destruct (handleSnapshotAccount n1 n2 payload w) as [r w'] eqn:E. unfold same_exports.
  apply handleSnapshotAccount_cases in E as [[Ht _]|(p&date&u&c&_&_&Eu&Ht&_)]; cbn [snd]; rewrite Ht; [done|].
  apply UpsertBalanceSnapshot_inv in Eu as (f&->&_). simpl. by destruct (w_tab w).
Qed.

(** ** The writes of the export service *)

Lemma CreateExport_exports now uid month :
  keeps exports_kept (on_world (F:=F) (on_pool now (Queries.CreateExport uid month))).
Proof.
  intros s Hok. unfold on_world. destruct (on_pool _ _ _) as [r w'] eqn:E.
  apply on_pool_cases in E as [_ [[Ht _]|(e&c&E&_&Ht&_&_)]]; unfold exports_ok; cbn [set_world sv_world sv_store snd];
    rewrite Ht; [done|]. unfold Queries.CreateExport in E. inv_stmt.
  destruct (w_tab (sv_world s)) eqn:Et. simpl. unfold exports_ok in Hok. rewrite Et in Hok. simpl in Hok.
  apply Forall_app. split; [done|]. constructor; [|constructor]. by apply export_pending.
Qed.

(** An update of the status to a value that the store backs. *)
Lemma UpdateExportStatus_exports now id status path s :
  (∀ e, e_ID e = id → e_Status e = status → e_FilePath e = path → export_ok (sv_store s) e) →
  exports_kept s (on_world (F:=F) (on_pool now (UpdateExportStatus id status path)) s).2.
Proof.
  intros Hnew Hok. unfold on_world. destruct (on_pool _ _ _) as [r w'] eqn:E.
  apply on_pool_cases in E as [_ [[Ht _]|(e&c&E&_&Ht&_&_)]]; unfold exports_ok; cbn [set_world sv_world sv_store snd];
    rewrite Ht; [done|]. unfold UpdateExportStatus in E. inv_stmt.
  destruct (w_tab (sv_world s)) eqn:Et. simpl. unfold exports_ok in Hok. rewrite Et in Hok. simpl in Hok.
  apply Forall_map. eapply Forall_impl; [exact Hok|]. intros x Hx. simpl.
  destruct (Z.eqb_spec (e_ID x) id); [|done]. by apply Hnew.
Qed.

Lemma failExport_exports now id : keeps exports_kept (failExport (R:=R) (F:=F) now id).
Proof.
  intros s. unfold failExport, bind, attempt.
  pose proof (UpdateExportStatus_exports now id "error" None s) as Hu.
  destruct (on_world _ s) as [r s']. apply Hu. intros e _ Hs Hp. by apply export_error.
Qed.

Context `{!StorageOK F}.

Lemma export_ok_save f key body e :
  clean_key key = true → export_ok f e → export_ok (st_save f key body) e.
Proof.
  intros Hc [Hs Hp|Hs Hp|b Hs Hp Hb]; [by apply export_pending|by apply export_error|].
  destruct (decide (key = export_key (e_ID e))) as [->|Hne].
  - eapply export_done; [done|done|]. by apply st_open_save.
  - eapply export_done; [done|done|]. rewrite st_open_save_ne; [done|done|apply export_key_clean|done].
Qed.

Lemma export_ok_failed f key body e :
  clean_key key = true → export_ok f e → export_ok (st_save_failed f key body) e.
Proof.
  intros Hc [Hs Hp|Hs Hp|b Hs Hp Hb]; [by apply export_pending|by apply export_error|].
  destruct (decide (key = export_key (e_ID e))) as [->|Hne].
  - destruct (st_open_failed f (export_key (e_ID e)) body) as [b' Hb']; [by eexists|].
    by eapply export_done.
  - eapply export_done; [done|done|]. rewrite st_open_failed_ne; [done|done|apply export_key_clean|done].
Qed.

Lemma Save_exports key body : clean_key key = true → keeps exports_kept (Save (R:=R) (F:=F) key body).
Proof.
  intros Hc s Hok. unfold Save, next_fault. unfold exports_ok in *.
  destruct (pop _) as [[] fs]; cbn [snd sv_store sv_world w_tab]; (eapply Forall_impl; [exact Hok|]);
    intros e; [by apply export_ok_save|by apply export_ok_failed..].
Qed.

Lemma Save_Ok key body s s' :
  Save (R:=R) (F:=F) key body s = (Ok (), s') → sv_store s' = st_save (sv_store s) key body.
Proof. unfold Save, next_fault. by destruct (pop _) as [[] fs]; intros [= <-]. Qed.

Lemma handleExportCSV_exports n1 n2 payload :
  keeps exports_kept (handleExportCSV (R:=R) (F:=F) n1 n2 payload).
Proof.
  unfold handleExportCSV. apply keeps_bind; [apply _| |intros p].
  { unfold or_fail. case_match; [apply keeps_ret|apply keeps_fail]; apply _. }
  assert (∀ e, keeps exports_kept (failExport n2 (ep_ExportID p) ;;; fail (S:=S) (A:=()) e)) as Hf.
  { intros e. apply keeps_bind; [apply _|apply failExport_exports|intros; apply keeps_fail; apply _]. }
  destruct (Parse_date _) as [month|]; [|apply Hf]. apply keeps_bind; [apply _| |].
  { apply keeps_attempt, on_world_exports. intros w. apply pool_exports. by intros c a c' [= _ <-]. }
  intros [rows|e]; [|apply Hf]. intros s. unfold bind, attempt.
  pose proof (Save_exports (export_key (ep_ExportID p)) (csv_file rows) (export_key_clean _) s) as Hsave.
  destruct (Save _ _ s) as [[[]|e] s1] eqn:Es; simpl in Hsave; (etrans; [exact Hsave|]); [|apply Hf].
  apply UpdateExportStatus_exports. intros e Hid Hst Hp. apply Save_Ok in Es. rewrite Es, <- Hid.
  eapply export_done; [done|by rewrite Hid|]. apply st_open_save, export_key_clean.
Qed.

End states.

(** ** Every reachable server *)

Section server.
Context `{Env, Bcrypt, Jwt, Unicode, CaseFold} {R F : Type} `{!Redis R, !Storage F, !StorageOK F}.
Abbreviation S := (Server R F).

Lemma respond_exports app tm salt e r s :
  exports_kept s (respond (R:=R) (F:=F) app tm salt e r s).2.
Proof.
  apply (hkeeps_serve exports_kept), handle_footprint; [apply _|apply _| | | |].
  - intros s1 s2 ([Ht _]&_&Hs). apply same_exports_kept; [|done]. unfold same_exports. by rewrite Ht.
  - intros uid _. split; intros; apply hkeeps_call.
    + apply on_world_exports. intros w. apply pool_exports.
      intros c a c' (_&_&_&_&->)%CreateAccount_inv. simpl. by destruct (c_tab c).
    + apply on_world_exports, Create_exports.
    + apply on_world_exports, Transfer_exports.
    + apply on_world_exports, Reverse_exports.
    + apply CreateExport_exports.
    + apply enqueue_exports.
  - intros email hash. apply hkeeps_call, on_world_exports. intros w. apply pool_exports.
    intros c a c' (_&_&->&_)%CreateUser_inv. simpl. by destruct (c_tab c).
  - apply hkeeps_call, enqueue_exports.
Qed.

Lemma mapM_keeps {T A B} (Q : T → T → Prop) `{!Reflexive Q, !Transitive Q} (f : A → M T B) l :
  (∀ a, keeps Q (f a)) → keeps Q (mapM f l).
Proof.
  intros Hf. induction l as [|a l IH]; simpl; [apply keeps_ret; apply _|].
  apply keeps_bind; [apply _|apply Hf|intros b]. apply keeps_bind; [apply _|done|].
  intros bs. apply keeps_ret. apply _.
Qed.

Lemma run_task_exports now clock t : keeps exports_kept (run_task (R:=R) (F:=F) now clock t).
Proof.
  unfold run_task. case_bool_decide; [|case_bool_decide; [|case_bool_decide]].
  - unfold snapshot_all_task. apply keeps_bind; [apply _| |intros tasks].
    + apply on_world_exports. intros w. unfold same_exports.
      by rewrite (proj1 (handleSnapshotAll_same now clock (tk_payload t) w)).
    + apply keeps_bind; [apply _| |intros; apply keeps_ret; apply _].
      apply mapM_keeps; [apply _..|]. intros k. apply keeps_attempt, enqueue_exports.
  - apply on_world_exports. intros w. apply snapshot_exports.
  - apply handleExportCSV_exports.
  - apply keeps_ret. apply _.
Qed.

Lemma publish_exports now locked (w : World R) : same_exports w (ProcessBatch now locked w).2.
Proof.
  destruct (ProcessBatch now locked w) as [ms w'] eqn:E. unfold same_exports.
  apply ProcessBatch_cases in E as (_&_&new&ids&_&_&_&Ht). simpl. rewrite Ht. by destruct (w_tab w).
Qed.

Lemma sstep_exports app p p' : sstep app p p' → exports_ok (R:=R) (F:=F) p.2 → exports_ok p'.2.
Proof.
  intros Hst. destruct Hst as [last tm salt e r fs s _|last now clock t fs s _ _ _|last now fs s _|
    last now locked fs s _|last now r s _]; cbn [snd].
  - exact (respond_exports app tm salt e r (set_faults fs s)).
  - exact (run_task_exports now clock t (set_faults fs s)).
  - exact (enqueue_exports scheduled_task (set_faults fs s)).
  - apply same_exports_kept; [|done]. exact (publish_exports now locked (with_faults fs (sv_world s))).
  - by apply same_exports_kept.
Qed.

Lemma server_exports_ok app t0 r0 f last (s : S) :
  server_reachable app t0 r0 f (last, s) → exports_ok s.
Proof.
  intros Hr. change s with (last, s).2. unfold server_reachable in Hr.
  remember (t0, server_init r0 f) as p0. assert (exports_ok p0.2) as H0' by (subst; constructor).
  clear Heqp0. induction Hr as [|p0 p1 p2 Hst _ IH]; [done|]. apply IH. by eapply sstep_exports.
Qed.

End server.
