(* ===== verification/Pagination.v ===== *)
(** * Keyset pagination of account entries

    The pages of [ListAccountEntries] as a client walks through them with the
    cursors it is given.  The list lemmas say that the rows below the key of a
    page's last row are the rest of the list, and that sorting commutes with
    restriction to the rows that were there at the start. *)
From S2P Require Import Prelude GoTime Effects Json Store Queries World TxRun Invariant Services.
From S2P Require Import System Progress Idempotency Cursor Http Storage Server Handlers.
Local Open Scope Z_scope.
Local Open Scope ledger_scope.

Abbreviation entry := (Posting * Transaction)%type.

#[global] Instance entry_ge_trans : Transitive entry_ge.
Proof. intros a b c. unfold entry_ge. lia. Qed.
#[global] Instance entry_ge_total : Total entry_ge.
Proof. intros a b. unfold entry_ge. lia. Qed.

(** ** Sorted lists of entries *)

(** [e] comes strictly after the cursor, in the order newest first. *)
Definition below (c : Z * Z) (e : entry) : bool :=
  (t_OccurredAt e.2 <? c.1) || (t_OccurredAt e.2 =? c.1) && (p_ID e.1 <? c.2).

Definition key (e : entry) : Z * Z := (t_OccurredAt e.2, p_ID e.1).

Definition sorted_below (c : Z * Z) (l : list entry) : list entry :=
  merge_sort entry_ge (List.filter (below c) l).

(** The entries have distinct posting ids. *)
Definition distinct (l : list entry) : Prop := NoDup (map (λ e : entry, p_ID e.1) l).

Lemma distinct_eq l e1 e2 :
  distinct l → e1 ∈ l → e2 ∈ l → entry_ge e1 e2 → entry_ge e2 e1 → e1 = e2.
Proof.
  intros Hd H1 H2 G1 G2. apply (NoDup_map_inj (λ e : entry, p_ID e.1) l); try done.
  unfold entry_ge in *. lia.
Qed.

Lemma distinct_filter f l : distinct l → distinct (List.filter f l).
Proof.
  unfold distinct. induction l as [|e l IH]; simpl; [done|]. intros [Hn Hd]%NoDup_cons.
  destruct (f e); simpl; [|auto]. constructor; [|auto].
  intros (x&E&[_ Hx]%elem_of_filter)%list_elem_of_fmap. apply Hn. rewrite E.
  apply list_elem_of_fmap. by exists x.
Qed.

(** Two sorted lists with the same distinct entries are equal. *)
Lemma sorted_unique l l1 l2 :
  distinct l → l1 ⊆ l → StronglySorted entry_ge l1 → StronglySorted entry_ge l2 →
  l1 ≡ₚ l2 → l1 = l2.
Proof.
  intros Hd Hs H1 H2 HP. apply (StronglySorted_unique_strong entry_ge); [|done..].
  intros x1 x2 Hx1 Hx2. apply (distinct_eq l); [done|auto|]. apply Hs. by rewrite HP.
Qed.

Lemma StronglySorted_List_filter (f : entry → bool) l :
  StronglySorted entry_ge l → StronglySorted entry_ge (List.filter f l).
Proof.
  induction 1 as [|x l Hl IH Hx]; simpl; [constructor|]. destruct (f x); [|done].
  constructor; [done|]. rewrite Forall_forall in *. intros y [_ Hy]%elem_of_filter. auto.
Qed.

Lemma filter_Permutation_b {A} (f : A → bool) l1 l2 :
  l1 ≡ₚ l2 → List.filter f l1 ≡ₚ List.filter f l2.
Proof.
  induction 1 as [|x l1 l2 _ IH|x y l|l1 l2 l3 _ IH1 _ IH2]; simpl; [done| | |by etrans].
  - destruct (f x); by rewrite IH.
  - destruct (f x), (f y); try done. apply perm_swap.
Qed.

(** Sorting commutes with restriction. *)
Lemma sort_filter f l :
  distinct l → List.filter f (merge_sort entry_ge l) = merge_sort entry_ge (List.filter f l).
Proof.
  intros Hd. apply (sorted_unique l); [done| | | |].
  - intros x [_ Hx]%elem_of_filter. by rewrite (merge_sort_Permutation entry_ge l) in Hx.
  - apply StronglySorted_List_filter, (StronglySorted_merge_sort entry_ge).
  - apply (StronglySorted_merge_sort entry_ge).
  - rewrite (merge_sort_Permutation entry_ge (List.filter f l)).
    apply filter_Permutation_b, merge_sort_Permutation.
Qed.

(** In a sorted list, the entries below the key of one of them are those after it. *)
Lemma filter_below_split l1 e l2 :
  distinct (l1 ++ e :: l2) → StronglySorted entry_ge (l1 ++ e :: l2) →
  List.filter (below (key e)) (l1 ++ e :: l2) = l2.
Proof.
  intros Hd Hs. rewrite List.filter_app. simpl.
  replace (below (key e) e) with false by (unfold below, key; simpl; lia).
  apply (StronglySorted_app entry_ge) in Hs as (Hge&_&[_ Hl2]%StronglySorted_inv).
  unfold distinct in Hd. rewrite map_app in Hd. simpl in Hd.
  apply NoDup_app in Hd as (_&Hd1&[Hn _]%NoDup_cons).
  rewrite filter_none, filter_all; [done| |].
  - rewrite Forall_forall in *. intros x Hx. specialize (Hl2 x Hx).
    assert (p_ID x.1 ≠ p_ID e.1).
    { intros E. apply Hn. rewrite <- E. apply list_elem_of_fmap. by exists x. }
    unfold below, key, entry_ge in *. simpl. lia.
  - rewrite Forall_forall. intros x Hx. specialize (Hge x e Hx ltac:(by left)).
    assert (p_ID x.1 ≠ p_ID e.1).
    { intros E. apply (Hd1 (p_ID x.1)); [apply list_elem_of_fmap; by exists x|]. rewrite E. by left. }
    unfold below, key, entry_ge in *. simpl. lia.
Qed.

Lemma below_trans c e x : below c e = true → below (key e) x = true → below c x = true.
Proof. unfold below, key. simpl. lia. Qed.

(** What follows a page. *)
Lemma sorted_below_drop c l l1 e l2 :
  distinct l → sorted_below c l = l1 ++ e :: l2 → sorted_below (key e) l = l2.
Proof.
  intros Hd E. unfold sorted_below in *.
  assert (distinct (l1 ++ e :: l2)) as Hd'.
  { unfold distinct. rewrite <- E. rewrite (merge_sort_Permutation entry_ge). by apply distinct_filter. }
  pose proof (StronglySorted_merge_sort entry_ge (List.filter (below c) l)) as Hs. rewrite E in Hs.
  assert (e ∈ l ∧ below c e = true) as [Hel Hec].
  { assert (e ∈ l1 ++ e :: l2) as He by set_solver. rewrite <- E in He.
    rewrite (merge_sort_Permutation entry_ge) in He. apply elem_of_filter in He. tauto. }
  rewrite <- (filter_below_split l1 e l2 Hd' Hs), <- E.
  rewrite sort_filter by (by apply distinct_filter). f_equal.
  assert (∀ l, List.filter (below (key e)) (List.filter (below c) l) = List.filter (below (key e)) l)
    as ->; [|done].
  clear -Hec. intros l. induction l as [|x l IH]; [done|]. simpl.
  destruct (below c x) eqn:Hc, (below (key e) x) eqn:Hk; simpl; rewrite ?Hk, ?IH; try done.
  by rewrite (below_trans c e x) in Hc.
Qed.

(** ** The entries of an account *)

Definition account_entries (account : Z) (t : Tables) : list entry :=
  List.filter (λ e : entry, p_AccountID e.1 =? account) (join_tx t).

Lemma filter_and {A} (f g : A → bool) l :
  List.filter (λ x, f x && g x) l = List.filter g (List.filter f l).
Proof.
  induction l as [|x l IH]; [done|]. simpl. destruct (f x); simpl; [|done].
  destruct (g x); by rewrite IH.
Qed.

Section entries.
Context `{Env}.

Lemma ListAccountEntries_eq account t id limit c :
  0 ≤ limit → Queries.ListAccountEntries account t id limit c =
  (Ok (take (Z.to_nat limit)
     (sorted_below (enc_ts (t_ns t), id) (account_entries account (c_tab c)))), c).
Proof.
  intros Hl. unfold Queries.ListAccountEntries, read, limit_offset.
  replace (limit <? 0) with false by lia. change (0 <? 0) with false. cbv iota.
  rewrite drop_0. unfold sorted_below, account_entries. rewrite <- filter_and.
  do 4 f_equal. apply filter_ext. by intros [p x].
Qed.

(** Every posting has its transaction. *)
Lemma join_tx_find t q p :
  LedgerOK t q → p ∈ postings t →
  ∃ x, find (λ x, t_ID x =? p_TransactionID p) (transactions t) = Some x.
Proof.
  intros Hok Hp. pose proof (ok_posting Hok) as Hpo. rewrite Forall_forall in Hpo.
  destruct (Hpo p Hp) as (x&a&Hx&Hid&_).
  destruct (find _ _) as [y|] eqn:E; [by exists y|]. apply find_none_Forall in E.
  rewrite Forall_forall in E. apply E in Hx. lia.
Qed.

Lemma join_tx_ids t q : LedgerOK t q → map (λ e : entry, p_ID e.1) (join_tx t) = map p_ID (postings t).
Proof.
  intros Hok. unfold join_tx. pose proof (join_tx_find t q) as Hf. specialize (λ p, Hf p Hok).
  revert Hf. generalize (transactions t). intros xs. induction (postings t) as [|p ps IH]; intros Hf; [done|].
  destruct (Hf p) as [x Hx]; [by left|]. simpl. rewrite Hx. simpl. f_equal. apply IH.
  intros p' Hp'. apply Hf. by right.
Qed.

Lemma join_tx_distinct t q : LedgerOK t q → distinct (join_tx t).
Proof.
  intros Hok. unfold distinct. rewrite (join_tx_ids t q Hok).
  pose proof (ok_sorted Hok) as Hs. clear -Hs. induction Hs as [|z l _ IH Hz]; constructor; [|done].
  intros Hin. rewrite Forall_forall in Hz. apply Hz in Hin. lia.
Qed.

Lemma entries_distinct account t q : LedgerOK t q → distinct (account_entries account t).
Proof. intros Hok. by eapply distinct_filter, join_tx_distinct. Qed.

(** A ledger that has grown joins its old postings to the same transactions. *)
Lemma join_tx_grow t t' q :
  LedgerOK t q → rows_grow t t' → ∃ new, join_tx t' = join_tx t ++ new.
Proof.
  intros Hok [_ _ [xs Hx] [ps Hp] _]. unfold join_tx. rewrite Hx, Hp, omap_app. eexists.
  f_equal. pose proof (λ p, join_tx_find t q p Hok) as Hf. revert Hf. generalize (postings t).
  intros l Hf. induction l as [|p l IH]; [done|]. destruct (Hf p) as [x E]; [by left|].
  simpl. apply find_first in E as E'. destruct E' as (l1&l2&El&Ha&Hb).
  assert (find (λ x, t_ID x =? p_TransactionID p) (transactions t ++ xs) = Some x) as ->.
  { apply find_first. exists l1, (l2 ++ xs). by rewrite El, <- app_assoc. }
  rewrite E. simpl. f_equal. apply IH. intros p' Hp'. apply Hf. by right.
Qed.

(** The entry was there in [t]. *)
Definition old_entry (t : Tables) (id : Z) : bool := bool_decide (id ∈ map p_ID (postings t)).

Lemma entries_old account t t' q q' :
  LedgerOK t q → LedgerOK t' q' → rows_grow t t' →
  List.filter (λ e : entry, old_entry t (p_ID e.1)) (account_entries account t') =
  account_entries account t.
Proof.
  intros Hok Hok' Hg. destruct (join_tx_grow t t' q Hok Hg) as [new Hn].
  pose proof (join_tx_ids t q Hok) as Hi. pose proof (join_tx_distinct t' q' Hok') as Hd.
  unfold account_entries. rewrite Hn. unfold distinct in Hd. rewrite Hn, map_app in Hd.
  apply NoDup_app in Hd as (_&Hd&_). rewrite !List.filter_app.
  rewrite (filter_none _ (List.filter _ new)), app_nil_r.
  - apply filter_all, Forall_forall. intros e [_ He]%elem_of_filter. unfold old_entry.
    apply bool_decide_eq_true. rewrite <- Hi. apply list_elem_of_fmap. by exists e.
  - apply Forall_forall. intros e [_ He]%elem_of_filter. unfold old_entry.
    apply bool_decide_eq_false. rewrite <- Hi. intros Hin. apply (Hd _ Hin).
    apply list_elem_of_fmap. by exists e.
Qed.

End entries.

(** ** Walking through the pages *)

Section walk.
Context `{Env} {R F : Type}.
Abbreviation S := (Server R F).

(** A client that starts without a cursor and passes each [next_cursor] back, until
    it is empty: request number [i] meets the server in its state number [i].  The
    entries received, and whether the last page was reached. *)
Fixpoint walk (account limit : Z) (cursor : string) (ss : list (Z * S))
    : option (list entryDTO * bool) :=
  match ss with
  | [] => Some ([], false)
  | (now, s) :: ss =>
      '(t, id) ← decodeCursor cursor;
      match (entries_page now account limit t id s).1 with
      | Go (es, next) =>
          if bool_decide (next = "") then Some (es, true)
          else '(es', fin) ← walk account limit next ss; Some (es ++ es', fin)
      | Done _ => None
      end
  end.

(** The next request of the server is answered. *)
Definition answered (s : S) : Prop := (pop (w_faults (sv_world s))).1 = NoFault.

Definition tab (s : S) : Tables := w_tab (sv_world s).

(** No transaction is dated before the year 0 in UTC: the cursor of such an entry
    could not be read back. *)
Definition dates_ok (t : Tables) : Prop :=
  Forall (λ x, 0 ≤ Year (mkTime (1000 * t_OccurredAt x) 0)) (transactions t).

Definition cursor_key (c : Time * Z) : Z * Z := (enc_ts (t_ns c.1), c.2).

(** The instant at which the first page starts, 9999-01-01, in microseconds. *)
Definition sentinel_us : Z := enc_ts (t_ns first_cursor.1).

(** The entries of an account that a walk from the first page can show: those that
    sort before its sentinel. *)
Definition listed (account : Z) (t : Tables) : list entry :=
  List.filter (below (cursor_key first_cursor)) (account_entries account t).

Lemma sentinel_ns `{!EnvOK} : 1000 * sentinel_us = t_ns first_cursor.1.
Proof.
  unfold sentinel_us. change (t_ns first_cursor.1) with (1000 * 253370764800000000).
  by rewrite enc_ts_exact.
Qed.

Lemma days_from_10000 y m d : 1 ≤ m ≤ 12 → 1 ≤ d → 10000 ≤ y → 2932533 ≤ days_from_civil y m d.
Proof.
  intros Hm Hd Hy. unfold days_from_civil. destruct (Z.leb_spec m 2), (Z.gtb_spec m 2); try lia; div_lia.
Qed.

(** Up to the sentinel, years have at most four digits. *)
Lemma Year_sentinel `{!EnvOK} us : us ≤ sentinel_us → Year (mkTime (1000 * us) 0) ≤ 9999.
Proof.
  intros Hle. set (t := mkTime (1000 * us) 0).
  assert (t_ns t ≤ 253370764800000000000) as Hn.
  { unfold t. cbn [t_ns]. change 253370764800000000000 with (t_ns first_cursor.1). rewrite <- sentinel_ns. lia. }
  destruct (Z.le_gt_cases (Year t) 9999); [done|]. pose proof (civil_valid t) as [Hm Hd].
  pose proof (days_from_10000 (Year t) (Month t) (Day t) Hm ltac:(lia) ltac:(lia)) as Hdays.
  rewrite days_from_civil_civil in Hdays. unfold wall_sec, day_sec, sec_ns in Hdays.
  change (t_off t) with 0 in Hdays. div_lia.
Qed.

Lemma entries_page_eq now account limit t id (s : S) :
  1 ≤ limit ≤ 100 → answered s →
  let L := sorted_below (cursor_key (t, id)) (account_entries account (tab s)) in
  (entries_page now account limit t id s).1 =
    match drop (Z.to_nat limit - 1) L with
    | e :: _ => Go (map to_entry (take (Z.to_nat limit) L),
                    encodeCursor (pg_time (t_OccurredAt e.2)) (p_ID e.1))
    | [] => Go (map to_entry L, "")
    end.
Proof.
  intros Hl Ha L. unfold entries_page, hbind, query, call, on_world, on_pool.
  unfold answered in Ha. destruct (pop _) as [f fs]. simpl in Ha. subst f.
  assert (wrap32 limit = limit) as -> by (unfold wrap32; rewrite Z.mod_small; lia).
  rewrite ListAccountEntries_eq by lia. cbn [begin_conn c_tab c_queue check_queue].
  fold (tab s). change (enc_ts (t_ns t), id) with (cursor_key (t, id)). fold L.
  clearbody L. rewrite length_take.
  destruct (drop (Z.to_nat limit - 1) L) as [|e l2] eqn:E.
  - assert (length L ≤ Z.to_nat limit - 1)%nat.
    { assert (length (drop (Z.to_nat limit - 1) L) = 0%nat) as Hn by (by rewrite E).
      rewrite length_drop in Hn. lia. }
    destruct (Z.eqb_spec (Z.of_nat (Z.to_nat limit `min` length L)) limit) as [Ee|_]; [lia|].
    by rewrite take_ge by lia.
  - assert (L = take (Z.to_nat limit - 1) L ++ e :: l2) as EL by (by rewrite <- E, take_drop).
    assert (Z.to_nat limit ≤ length L)%nat.
    { rewrite EL, length_app, length_take. simpl.
      assert (length (drop (Z.to_nat limit - 1) L) = Datatypes.S (length l2)) as Hn by (by rewrite E).
      rewrite length_drop in Hn. lia. }
    destruct (Z.eqb_spec (Z.of_nat (Z.to_nat limit `min` length L)) limit) as [_|Ee]; [|lia].
    assert (take (Z.to_nat limit) L = take (Z.to_nat limit - 1) L ++ [e]) as ->.
    { rewrite EL at 1. rewrite take_app, take_take, length_take.
      replace (Z.to_nat limit `min` (Z.to_nat limit - 1))%nat with (Z.to_nat limit - 1)%nat by lia.
      f_equal. replace (_ - _)%nat with 1%nat by lia. done. }
    by rewrite last_snoc.
Qed.

Lemma entry_rows account t e :
  e ∈ account_entries account t → e.1 ∈ postings t ∧ e.2 ∈ transactions t.
Proof.
  unfold account_entries. intros [_ He]%elem_of_filter. unfold join_tx in He.
  apply list_elem_of_omap in He as (p&Hp&E). destruct (find _ _) as [x|] eqn:Ex; [|done].
  injection E as <-. split; [done|]. by apply find_In in Ex as [? _].
Qed.

Lemma sorted_below_In c l e : e ∈ sorted_below c l → e ∈ l.
Proof.
  unfold sorted_below. rewrite (merge_sort_Permutation entry_ge).
  by intros [_ ?]%elem_of_filter.
Qed.

Context `{!EnvOK}.

(** The cursor of an entry is read back as its key. *)
Lemma next_cursor account t q e :
  LedgerOK t q → dates_ok t → e ∈ account_entries account t → t_OccurredAt e.2 ≤ sentinel_us →
  ∃ c, decodeCursor (encodeCursor (pg_time (t_OccurredAt e.2)) (p_ID e.1)) = Some c ∧
       cursor_key c = key e.
Proof.
  intros Hok Hd [Hp Hx]%entry_rows Hs. unfold dates_ok in Hd. rewrite Forall_forall in Hd.
  pose proof (ok_postings Hok) as Hi. rewrite Forall_forall in Hi. specialize (Hi _ Hp) as [? ?].
  eexists. split; [apply decode_encode_cursor|].
  - split; [apply (Hd _ Hx)|by apply Year_sentinel].
  - unfold int64, min_int64. lia.
  - unfold cursor_key, key. simpl. by rewrite enc_ts_exact.
Qed.

(** One request, and what is left after it. *)
Lemma walk_step account limit cursor c now (s : S) q ss :
  1 ≤ limit ≤ 100 → answered s → LedgerOK (tab s) q → dates_ok (tab s) →
  decodeCursor cursor = Some c → (cursor_key c).1 ≤ sentinel_us →
  let E := account_entries account (tab s) in
  let L := sorted_below (cursor_key c) E in
  ((Z.of_nat (length L) < limit ∧ walk account limit cursor ((now, s) :: ss) = Some (map to_entry L, true)) ∨
   ∃ page rest next c', L = page ++ rest ∧ Z.of_nat (length page) = limit ∧
     decodeCursor next = Some c' ∧ rest = sorted_below (cursor_key c') E ∧
     (cursor_key c').1 ≤ sentinel_us ∧
     walk account limit cursor ((now, s) :: ss) =
       ('(es', fin) ← walk account limit next ss; Some (map to_entry page ++ es', fin))).
Proof.
  intros Hl Ha Hok Hd Hc Hcs E L. destruct c as [t id].
  pose proof (entries_page_eq now account limit t id s Hl Ha) as Hp. cbv zeta in Hp. fold E L in Hp.
  cbn [walk]. rewrite Hc. cbn [mbind option_bind]. rewrite Hp.
  destruct (drop (Z.to_nat limit - 1) L) as [|e l2] eqn:Ed.
  - left. rewrite bool_decide_true by done. split; [|done].
    assert (length (drop (Z.to_nat limit - 1) L) = 0%nat) as Hn by (by rewrite Ed).
    rewrite length_drop in Hn. lia.
  - right. assert (L = take (Z.to_nat limit - 1) L ++ e :: l2) as EL by (by rewrite <- Ed, take_drop).
    assert (e ∈ L) as He by (rewrite EL; set_solver).
    assert (length L = Z.to_nat limit - 1 + Datatypes.S (length l2))%nat as Hlen.
    { assert (length (drop (Z.to_nat limit - 1) L) = Datatypes.S (length l2)) as Hn by (by rewrite Ed).
      rewrite length_drop in Hn. lia. }
    assert (t_OccurredAt e.2 ≤ sentinel_us) as Hes.
    { unfold L, sorted_below in He. rewrite (merge_sort_Permutation entry_ge) in He.
      apply elem_of_filter in He as [Hb _]. unfold below in Hb. lia. }
    destruct (next_cursor account (tab s) q e Hok Hd (sorted_below_In _ _ _ He) Hes) as (c'&Hc'&Hk).
    exists (take (Z.to_nat limit) L), l2. eexists _, c'. rewrite bool_decide_false by apply encodeCursor_ne.
    split_and!; [| |exact Hc'| | |done].
    + assert (drop (Z.to_nat limit) L = l2) as <-; [|by rewrite take_drop].
      replace (Z.to_nat limit) with (Z.to_nat limit - 1 + 1)%nat by lia.
      rewrite <- drop_drop, Ed. done.
    + rewrite length_take. lia.
    + rewrite Hk. symmetry. eapply sorted_below_drop; [by eapply entries_distinct|exact EL].
    + by rewrite Hk.
Qed.

(** On a ledger that does not change, the walk ends after all entries. *)
Lemma walk_static account limit t q ss cursor c :
  1 ≤ limit ≤ 100 → LedgerOK t q → dates_ok t →
  Forall (λ ns : Z * S, answered ns.2 ∧ tab ns.2 = t) ss →
  decodeCursor cursor = Some c → (cursor_key c).1 ≤ sentinel_us →
  let L := sorted_below (cursor_key c) (account_entries account t) in
  Z.of_nat (length L) < limit * Z.of_nat (length ss) →
  walk account limit cursor ss = Some (map to_entry L, true).
Proof.
  intros Hl Hok Hd Hss. revert cursor c.
  induction Hss as [|[now s] ss [Ha Ht] _ IH]; intros cursor c Hc Hcs L Hlen; [simpl in Hlen; lia|].
  simpl in Ha, Ht. destruct (walk_step account limit cursor c now s q ss) as
    [[_ Hw]|(page&rest&next&c'&EL&Hp&Hc'&Er&Hcs'&Hw)]; try (by rewrite ?Ht); rewrite Ht in *.
  - exact Hw.
  - rewrite Hw, (IH next c' Hc' Hcs').
    + cbn [mbind option_bind]. do 2 f_equal. unfold L. rewrite EL, map_app. by rewrite <- Er.
    + rewrite <- Er. unfold L in Hlen. rewrite EL, length_app in Hlen. cbn [length] in Hlen. lia.
Qed.

Definition seen_before (t : Tables) (e : entryDTO) : bool := old_entry t (en_PostingID e).

Lemma map_seen t l :
  List.filter (seen_before t) (map to_entry l) =
  map to_entry (List.filter (λ e : entry, old_entry t (p_ID e.1)) l).
Proof. induction l as [|e l IH]; [done|]. simpl. unfold seen_before at 1. simpl. destruct (old_entry _ _); simpl; by rewrite IH. Qed.

(** While the ledger grows, the entries that were there at the start come exactly
    once, in order. *)
Lemma walk_grow account limit t0 q0 ss cursor c es :
  1 ≤ limit ≤ 100 → LedgerOK t0 q0 →
  Forall (λ ns : Z * S, answered ns.2 ∧ dates_ok (tab ns.2) ∧ rows_grow t0 (tab ns.2) ∧
                        ∃ q, LedgerOK (tab ns.2) q) ss →
  decodeCursor cursor = Some c → (cursor_key c).1 ≤ sentinel_us →
  walk account limit cursor ss = Some (es, true) →
  List.filter (seen_before t0) es =
  map to_entry (sorted_below (cursor_key c) (account_entries account t0)).
Proof.
  intros Hl Hok0 Hss. revert cursor c es.
  induction Hss as [|[now s] ss (Ha&Hd&Hg&q&Hok) _ IH]; intros cursor c es Hc Hcs Hw; [done|].
  simpl in Ha, Hd, Hg, Hok.
  assert (∀ c, List.filter (λ e : entry, old_entry t0 (p_ID e.1))
      (sorted_below c (account_entries account (tab s))) = sorted_below c (account_entries account t0))
    as Hold.
  { intros c0. unfold sorted_below.
    rewrite sort_filter by (eapply distinct_filter, entries_distinct, Hok). f_equal.
    rewrite <- (entries_old account t0 (tab s) q0 q Hok0 Hok Hg).
    rewrite <- !filter_and. apply filter_ext. intros e. apply andb_comm. }
  destruct (walk_step account limit cursor c now s q ss Hl Ha Hok Hd Hc Hcs) as
    [[_ Hw']|(page&rest&next&c'&EL&Hp&Hc'&Er&Hcs'&Hw')]; rewrite Hw' in Hw.
  - injection Hw as <-. by rewrite map_seen, Hold.
  - destruct (walk account limit next ss) as [[es' fin]|] eqn:Ew; [|done]. injection Hw as <- ->.
    rewrite List.filter_app, (IH next c' es' Hc' Hcs' Ew), map_seen, <- map_app. f_equal.
    rewrite <- (Hold (cursor_key c)), <- (Hold (cursor_key c')), EL, List.filter_app. by rewrite <- Er.
Qed.

End walk.
