(* ===== verification/Tenants.v ===== *)
(** * Tenants

    A request acts for the user its token names: it adds transactions of that user
    only, and postings of those transactions only.  Together with the ledger
    invariant this keeps it away from the accounts of everyone else. *)
From S2P Require Import Prelude GoTime Effects Json JsonStruct Store Queries World Summary Dto.
From S2P Require Import Transactions TxRun TxSpec Invariant Posting Growth Ledger Services.
From S2P Require Import Balance Outbox Tables System Progress Idempotency.
From S2P Require Import Http Storage Server RateLimit Auth Middleware Handlers Exports Router.
From S2P Require Import Footprint.
Local Open Scope Z_scope.
Local Open Scope ledger_scope.

(** What is added to the ledger belongs to [uid]. *)
Record posts_for (uid : Z) (t t' : Tables) : Prop := {
  pf_accounts : accounts t `prefix_of` accounts t';
  pf_rows : ∃ xs ps, transactions t' = transactions t ++ xs ∧ postings t' = postings t ++ ps ∧
    Forall (λ x, t_UserID x = uid) xs ∧ Forall (λ p, p_TransactionID p ∈ map t_ID xs) ps
}.

#[global] Instance posts_for_refl uid : Reflexive (posts_for uid).
Proof. intros t. split; [done|]. exists [], []. by rewrite !app_nil_r. Qed.

#[global] Instance posts_for_trans uid : Transitive (posts_for uid).
Proof.
  intros t1 t2 t3 [Ha (xs&ps&Hx&Hp&Fx&Fp)] [Ha' (xs'&ps'&Hx'&Hp'&Fx'&Fp')].
  split; [by etrans|]. exists (xs ++ xs'), (ps ++ ps').
  rewrite Hx', Hx, Hp', Hp, !app_assoc. split_and!; [done..|by apply Forall_app|].
  apply Forall_app. rewrite map_app. split; (eapply Forall_impl; [done|]); set_solver.
Qed.

Lemma posts_for_same uid t t' :
  accounts t `prefix_of` accounts t' → transactions t' = transactions t → postings t' = postings t →
  posts_for uid t t'.
Proof. intros Ha Hx Hp. split; [done|]. exists [], []. by rewrite !app_nil_r. Qed.

Section tenants.
Context `{Env} {R : Type} `{!Redis R}.
Abbreviation W := (World R).

Lemma posts_for_posted c accs x legs kind key hash note dto c' :
  Posted c accs x legs kind key hash note dto c' → posts_for (t_UserID x) (c_tab c) (c_tab c').
Proof.
  intros Hpo. destruct (po_tab Hpo) as (idems&?&_&_&->). split; simpl; [by eexists|].
  exists [x], (new_rows c x legs). split_and!; [done..|by constructor|].
  eapply Forall_impl; [apply mk_postings_tx|]. intros p [-> _]. simpl. by left.
Qed.

Lemma posts_for_createBalanced now b (w w' : W) r :
  createBalanced now b w = (r, w') → posts_for (b_UserID b) (w_tab w) (w_tab w').
Proof.
  intros E%createBalanced_cases.
  destruct E as [e w' Ht _|d w' Ht _ _|accs legs dto c r w' Hcr _ Ht _ _ _]; rewrite Ht;
    [reflexivity..|]. exact (posts_for_posted _ _ _ _ _ _ _ _ _ _ (cr_posted Hcr)).
Qed.

Lemma posts_for_Create now i (w : W) : posts_for (ci_UserID i) (w_tab w) (w_tab (Create now i w).2).
Proof.
  unfold Create. destruct (_ =? _); [reflexivity|]. destruct (createBalanced _ _ _) eqn:E.
  by apply posts_for_createBalanced in E.
Qed.

Lemma posts_for_Transfer now i (w : W) : posts_for (ti_UserID i) (w_tab w) (w_tab (Transfer now i w).2).
Proof.
  unfold Transfer. destruct (_ <=? _); [reflexivity|]. destruct (_ =? _); [reflexivity|].
  destruct (createBalanced _ _ _) eqn:E. by apply posts_for_createBalanced in E.
Qed.

Lemma posts_for_Reverse now clock i (w : W) :
  posts_for (ri_UserID i) (w_tab w) (w_tab (Reverse now clock i w).2).
Proof.
  destruct (Reverse now clock i w) as [r w'] eqn:E. apply Reverse_cases in E.
  destruct E as [e w' Ht _|d w' Ht _ _|orig ps dto c r w' Hrv _ Ht _ _]; simpl; rewrite Ht;
    [reflexivity..|]. exact (posts_for_posted _ _ _ _ _ _ _ _ _ _ (rv_posted Hrv)).
Qed.

Lemma posts_for_pool {A} uid now (st : stmt A) (w : W) :
  (∀ c a c', st c = (Ok a, c') → posts_for uid (c_tab c) (c_tab c')) →
  posts_for uid (w_tab w) (w_tab (on_pool now st w).2).
Proof.
  intros Hs. destruct (on_pool now st w) as [r w'] eqn:E.
  apply on_pool_cases in E as [_ [[Ht _]|(a&c&E&_&Ht&_&_)]]; cbn [snd]; rewrite Ht; [reflexivity|].
  exact (Hs (begin_conn now w) _ _ E).
Qed.

(** ** Accounts of other users *)

Lemma foreign_postings uid t t' q' a :
  posts_for uid t t' → LedgerOK t' q' → a ∈ accounts t → a_UserID a ≠ uid →
  account_postings (a_ID a) t' = account_postings (a_ID a) t.
Proof.
  intros [[accs Ha] (xs&ps&Hx&Hp&Fx&Fp)] Hok Hin Hne. unfold account_postings.
  rewrite Hp, List.filter_app, (filter_none _ ps), app_nil_r; [done|].
  pose proof (ok_posting Hok) as Hpo. rewrite Hp in Hpo. apply Forall_app in Hpo as [_ Hpo].
  rewrite Forall_forall in *. intros p Hps. apply Z.eqb_neq. intros Ea. apply Hne.
  destruct (Hpo p Hps) as (x&b&Hxt&Hid&Hb&Hbid&Hu&_).
  assert (b = a) as ->.
  { apply (NoDup_map_inj a_ID (accounts t')); [apply (ok_account_ids Hok)|done| |congruence].
    rewrite Ha. set_solver. }
  specialize (Fp p Hps). apply list_elem_of_fmap in Fp as (y&Hy&Hyx).
  assert (y = x) as ->; [|rewrite Hu; by rewrite Forall_forall in Fx; apply Fx].
  apply (NoDup_map_inj t_ID (transactions t')); [apply (ok_tx_ids Hok)| |done|congruence].
  rewrite Hx. set_solver.
Qed.

End tenants.

Section requests.
Context `{Env, Bcrypt, Jwt, Unicode, CaseFold} {R F : Type} `{!Redis R, !Storage F}.
Abbreviation S := (Server R F).

(** A request adds to the ledger only for its caller; [uid] stands for the caller,
    and for anyone when there is none. *)
Definition acts_for (uid : Z) (s s' : S) : Prop :=
  posts_for uid (w_tab (sv_world s)) (w_tab (sv_world s')).

#[global] Instance acts_for_refl uid : Reflexive (acts_for uid).
Proof. intros s. unfold acts_for. reflexivity. Qed.
#[global] Instance acts_for_trans uid : Transitive (acts_for uid).
Proof. intros s1 s2 s3. unfold acts_for. apply transitivity. Qed.

Lemma on_world_acts {A} uid (m : M (World R) A) :
  (∀ w, posts_for uid (w_tab w) (w_tab (m w).2)) → hkeeps (acts_for uid) (call (on_world (F:=F) m)).
Proof.
  intros Hm. apply hkeeps_call. intros s. specialize (Hm (sv_world s)). unfold on_world, acts_for.
  by destruct (m (sv_world s)).
Qed.

Lemma enqueue_acts uid t : hkeeps (acts_for uid) (call (enqueue (R:=R) (F:=F) t)).
Proof.
  apply hkeeps_call. intros s. destruct (enqueue_kept t s) as [Ht _]. unfold acts_for.
  rewrite Ht. reflexivity.
Qed.

Lemma respond_acts app tm salt e r s uid :
  (∀ u, caller (app_secret app) (tm_clock tm) r = Some u → u = uid) →
  acts_for uid s (respond (R:=R) (F:=F) app tm salt e r s).2.
Proof.
  intros Hc. apply (hkeeps_serve (acts_for uid)), handle_footprint; [apply _|apply _| | | |].
  - intros s1 s2 [[Ht _] _]. unfold acts_for. rewrite Ht. reflexivity.
  - intros u Hu. apply Hc in Hu as ->. split; intros.
    + apply on_world_acts. intros w. apply posts_for_pool.
      intros c a c' (_&_&_&_&->)%CreateAccount_inv. destruct c as [[] ???].
      apply posts_for_same; simpl; by first [eexists|done].
    + apply on_world_acts. intros w.
      exact (posts_for_Create _ (create_input uid (with_user uid r) b) w).
    + apply on_world_acts. intros w.
      exact (posts_for_Transfer _ (transfer_input uid (with_user uid r) b) w).
    + apply on_world_acts. intros w.
      exact (posts_for_Reverse _ _ (mkReverseInput uid id key) w).
    + apply on_world_acts. intros w. apply posts_for_pool.
      intros c a c' (_&_&f&g&->)%derived_CreateExport. destruct (c_tab c).
      by apply posts_for_same.
    + apply enqueue_acts.
  - intros email hash. apply on_world_acts. intros w. apply posts_for_pool.
    intros c a c' (_&_&->&_)%CreateUser_inv. destruct c as [[] ???]. by apply posts_for_same.
  - apply enqueue_acts.
Qed.

End requests.
