(* ===== verification/Refusals.v ===== *)
(** * What a refusal leaves behind

    The calls of every handler, followed to the status it answers with: an answer
    with a status of 400 to 499 is given before anything is written, or after a
    write that was rolled back. *)
From S2P Require Import Prelude GoTime Effects Json JsonStruct Store Queries World Summary Dto.
From S2P Require Import Transactions TxRun TxSpec Invariant Posting Growth Ledger Services.
From S2P Require Import Balance Outbox Tables System Progress Idempotency.
From S2P Require Import Http Storage Server RateLimit Auth Middleware Handlers Exports Router.
From S2P Require Import Footprint.
Local Open Scope Z_scope.
Local Open Scope ledger_scope.

Section api.
Context `{Env, Bcrypt, Jwt, Unicode, CaseFold} {R F : Type} `{!Redis R, !Storage F}.
Abbreviation W := (World R).
Abbreviation S := (Server R F).

(** ** Error statuses *)

(** A handler whose answers with a status of 400 to 499 leave the tables alone. *)
Definition clean_refusals {A} (m : H S A) : Prop := ∀ s x s',
  m s = (Done (Reply x), s') → 400 ≤ rs_Status x < 500 → w_tab (sv_world s') = w_tab (sv_world s).

Lemma clean_kept {A} (m : H S A) : hkeeps db_kept m → clean_refusals m.
Proof. intros Hq s x s' E _. specialize (Hq s). rewrite E in Hq. apply Hq. Qed.

Lemma clean_bind {A B} (m : H S A) (k : A → H S B) :
  hkeeps db_kept m → (∀ a, clean_refusals (k a)) → clean_refusals (hbind m k).
Proof.
  intros Hq Hk s x s' E Hx. specialize (Hq s). unfold hbind in E.
  destruct (m s) as [[a|d] s1]; simpl in Hq.
  - rewrite (Hk a s1 x s' E Hx). apply Hq.
  - injection E as -> ->. apply Hq.
Qed.

Lemma clean_headers hs (m : H S ()) : clean_refusals m → clean_refusals (with_headers hs m).
Proof.
  intros Hm s x s' E Hx. unfold with_headers in E. specialize (Hm s).
  destruct (m s) as [[u|[y|]] s1]; [|..|done]; injection E as <- <-; simpl in Hx;
    [unfold StatusOK in Hx; lia|]. by eapply Hm.
Qed.

Lemma clean_reply {A} x : clean_refusals (reply (S:=S) (A:=A) x).
Proof. apply clean_kept. by intros s. Qed.

(** A service call that either fails without effect, or loses its answer, or
    succeeds. *)
Lemma clean_service (m : M W TransactionDTO) :
  (∀ w r w', m w = (r, w') → w_tab w' = w_tab w ∨ r = Err ErrConn ∨ ∃ d, r = Ok d) →
  clean_refusals (let? dto := call (on_world (F:=F) m) in write_dto dto).
Proof.
  intros Hm s x s' E Hx. unfold hbind, call, on_world in E.
  destruct (m (sv_world s)) as [r w'] eqn:Em.
  destruct (Hm _ _ _ Em) as [Ht|[-> |[d ->]]]; [destruct r| |]; injection E as <- <-;
    simpl in *; unfold StatusCreated, StatusInternalServerError in *; by try lia.
Qed.

Lemma createBalanced_outcomes now b (w w' : W) r :
  createBalanced now b w = (r, w') → w_tab w' = w_tab w ∨ r = Err ErrConn ∨ ∃ d, r = Ok d.
Proof.
  intros E%createBalanced_cases.
  destruct E as [e w' Ht _|d w' Ht _ _|accs legs dto c r w' Hcr _ Ht _ [-> | ->] _]; eauto.
Qed.

Lemma Create_outcomes now i (w w' : W) r :
  Create now i w = (r, w') → w_tab w' = w_tab w ∨ r = Err ErrConn ∨ ∃ d, r = Ok d.
Proof.
  unfold Create. destruct (_ =? _); [intros [= <- <-]; auto|]. apply createBalanced_outcomes.
Qed.

Lemma Transfer_outcomes now i (w w' : W) r :
  Transfer now i w = (r, w') → w_tab w' = w_tab w ∨ r = Err ErrConn ∨ ∃ d, r = Ok d.
Proof.
  unfold Transfer. destruct (_ <=? _); [intros [= <- <-]; auto|].
  destruct (_ =? _); [intros [= <- <-]; auto|]. apply createBalanced_outcomes.
Qed.

Lemma Reverse_outcomes now clock i (w w' : W) r :
  Reverse now clock i w = (r, w') → w_tab w' = w_tab w ∨ r = Err ErrConn ∨ ∃ d, r = Ok d.
Proof.
  intros E%Reverse_cases.
  destruct E as [e w' Ht _|d w' Ht _ _|orig ps dto c r w' Hrv _ Ht _ [-> | ->]]; eauto.
Qed.

(** ** Reads *)

Lemma quiet_kept {A} (m : H S A) : hkeeps quiet m → hkeeps db_kept m.
Proof. apply hkeeps_mono. by intros s s' [? _]. Qed.

Lemma require_user_kept r : hkeeps db_kept (require_user (S:=S) r).
Proof. intros s. unfold require_user. by repeat case_match. Qed.
Lemma require_id_kept what r : hkeeps db_kept (require_id (S:=S) what r).
Proof. intros s. unfold require_id. by repeat case_match. Qed.
Lemma enqueue_call_kept t : hkeeps db_kept (call (enqueue (R:=R) (F:=F) t)).
Proof. apply hkeeps_call, enqueue_kept. Qed.
Lemma require_owned_kept now uid id : hkeeps db_kept (require_owned (R:=R) (F:=F) now uid id).
Proof.
  unfold require_owned. apply hkeeps_bind; [apply _|apply quiet_kept, ownedAccount_quiet|].
  intros [a|e]; [apply hkeeps_ret|apply hkeeps_reply]; apply _.
Qed.
Lemma entries_page_kept now acc limit t id :
  hkeeps db_kept (entries_page (R:=R) (F:=F) now acc limit t id).
Proof.
  unfold entries_page. apply hkeeps_bind; [apply _|by apply quiet_kept, query_quiet|].
  intros [rows|e]; repeat case_match; (apply hkeeps_ret || apply hkeeps_reply || apply hkeeps_panic); apply _.
Qed.
Lemma ownedExport_kept tm r : hkeeps db_kept (ownedExport (R:=R) (F:=F) tm r).
Proof.
  unfold ownedExport. apply hkeeps_bind; [apply _|apply require_user_kept|intros uid].
  apply hkeeps_bind; [apply _|apply require_id_kept|intros id].
  apply hkeeps_bind; [apply _|by apply quiet_kept, query_quiet|].
  intros [exp|e]; repeat case_match; (apply hkeeps_ret || apply hkeeps_reply); apply _.
Qed.

(** A handler that writes, and from then on has only other statuses. *)
Lemma clean_after {A B} (m : H S (result A)) (k : result A → H S B) :
  (∀ a s x s', k a s = (Done (Reply x), s') → ¬ 400 ≤ rs_Status x < 500) →
  (∀ s d s', m s ≠ (Done d, s')) →
  clean_refusals (hbind m k).
Proof.
  intros Hk Hm s x s' E Hx. unfold hbind in E. specialize (Hm s).
  destruct (m s) as [[a|d] s1]; [by apply Hk in E|by destruct (Hm d s1)].
Qed.

Ltac kept := first [apply require_user_kept | apply require_id_kept | apply require_owned_kept
  | apply entries_page_kept | apply ownedExport_kept | apply enqueue_call_kept
  | apply quiet_kept; first [apply query_quiet; first [done | apply GetUserByEmail_pure]
      | apply balance_quiet | apply summary_quiet | apply Open_quiet | apply ping_quiet]].

Ltac clean_steps :=
  repeat match goal with
  | |- clean_refusals (reply _) => apply clean_reply
  | |- clean_refusals (hbind (call (on_world _)) (λ dto, write_dto dto)) =>
      apply clean_service; intros ???;
      first [apply Create_outcomes | apply Transfer_outcomes | apply Reverse_outcomes]
  | |- clean_refusals (hbind _ _) => apply clean_bind; [kept|intros ?]
  | |- clean_refusals (match ?x with _ => _ end) => destruct x eqn:?
  end.

Lemma CreateExport_clean tm r : clean_refusals (ExportsAPI_CreateExport (R:=R) (F:=F) tm r).
Proof.
  unfold ExportsAPI_CreateExport. apply clean_bind; [kept|intros uid].
  destruct (Parse_month _) as [month|]; [|apply clean_reply].
  apply clean_after.
  - intros [exp|e] s x s' E Hx; [|injection E as <- <-; simpl in Hx; unfold StatusInternalServerError in Hx; lia].
    unfold hbind, call in E. destruct (enqueue _ s) as [[[]|e] s1];
      injection E as <- <-; simpl in Hx; unfold StatusInternalServerError, StatusAccepted in Hx; lia.
  - intros s d s'. unfold query, call. by destruct (on_world _ s).
Qed.

Lemma v1_clean tm e r : e ≠ PostAccounts → clean_refusals (v1_handler (R:=R) (F:=F) tm e r).
Proof.
  intros Hne. destruct e; simpl; try done; try (apply clean_kept, hkeeps_ret; apply _).
  - unfold Me. clean_steps.
  - unfold AccountsAPI_List. clean_steps.
  - unfold GetCurrent. clean_steps.
  - unfold GetSummary. clean_steps.
  - unfold TransactionsAPI_ListAccountEntries. clean_steps.
  - unfold CreateTransaction. clean_steps.
  - unfold ReverseTransaction. clean_steps.
  - unfold CreateTransfer. clean_steps.
  - apply CreateExport_clean.
  - unfold GetStatus. clean_steps.
  - unfold Download. clean_steps.
Qed.

Lemma limit_clean rl keyFn t at_ (next : Request → H S ()) r :
  clean_refusals (next r) → clean_refusals (limit_middleware rl keyFn t at_ next r).
Proof.
  intros Hn. unfold limit_middleware. destruct (keyFn r); [|apply clean_reply].
  apply clean_bind; [apply quiet_kept, allow_quiet|].
  intros [[[[[] ?] ?]|]|]; [| |apply clean_reply..]; apply clean_headers; [done|apply clean_reply].
Qed.

Lemma handle_clean app tm salt e r :
  e ≠ PostAccounts → e ≠ PostRegister →
  clean_refusals (handle (R:=R) (F:=F) app tm salt e r).
Proof.
  intros Ha Hr. unfold handle, CORSMiddleware.
  match goal with |- clean_refusals (if _ then ?m else _) => assert (clean_refusals m) as Hin end.
  { unfold routed. destruct e; try done; try (unfold AuthMiddleware; destruct (_ || _); [apply clean_reply|];
      destruct (ParseJWT _ _ _); [by apply limit_clean, v1_clean|apply clean_reply]).
    - apply clean_reply.
    - unfold readyz. clean_steps.
    - unfold RunSnapshotAll. clean_steps.
    - apply limit_clean. unfold Login. clean_steps. }
  case_bool_decide; [apply Hin|]. apply clean_headers. case_bool_decide; [apply clean_reply|apply Hin].
Qed.

Lemma respond_clean app tm salt e r s x s' :
  e ≠ PostAccounts → e ≠ PostRegister →
  respond (R:=R) (F:=F) app tm salt e r s = (Reply x, s') → 400 ≤ rs_Status x < 500 →
  w_tab (sv_world s') = w_tab (sv_world s).
Proof.
  intros Ha Hr E Hx. unfold respond, serve in E.
  destruct (handle app tm salt e r s) as [[u|d] s1] eqn:Eh.
  - injection E as <- <-. simpl in Hx. unfold StatusOK in Hx. lia.
  - injection E as -> ->. by eapply handle_clean.
Qed.

(** ** Refusals by the middleware *)

(** The middleware of CORS only adds headers to what the next handler answers. *)
Lemma cors_next allowed (next : Request → H S ()) r s x :
  preflight r = false → serve (next r) s = (Reply x, s) →
  ∃ y, serve (CORSMiddleware allowed next r) s = (Reply y, s) ∧ rs_Status y = rs_Status x.
Proof.
  unfold preflight, CORSMiddleware. intros Hp Hn. case_bool_decide; [by exists x|].
  simpl in Hp. rewrite Hp.
  destruct (serve_headers (cors_headers (allow_origin (TrimSpace allowed) (Get (rq_Header r) "Origin")))
    (next r) s) as [Hs Ht].
  rewrite Hn in Hs, Ht. destruct (serve (with_headers _ _) s) as [[y|] s']; simpl in *; [|done].
  exists y. split; congruence.
Qed.

Lemma auth_refused secret clock (next : Request → H S ()) r s :
  caller secret clock r = None →
  ∃ x, serve (AuthMiddleware secret clock next r) s = (Reply x, s) ∧ rs_Status x = StatusUnauthorized.
Proof.
  unfold caller, AuthMiddleware. destruct (_ || _); [by eexists|]. intros ->. by eexists.
Qed.

End api.
