(* ===== verification/Statuses.v ===== *)
(** * The statuses of the API

    Which answers each endpoint can give: every handler is followed to its end, so
    that a request is answered with one of the endpoint's statuses whatever the
    state and the faults, and panics only where an index can be out of range. *)
From S2P Require Import Prelude GoTime Effects Json JsonStruct Store Queries World Summary Dto.
From S2P Require Import Transactions Balance Cursor Http Storage Server RateLimit Auth Middleware.
From S2P Require Import Handlers Exports Router Pagination.
Local Open Scope Z_scope.
Local Open Scope ledger_scope.

(** What the limiter and the handlers behind it add to the statuses of a handler. *)
Definition limited : list Z := [StatusUnauthorized; StatusTooManyRequests; StatusServiceUnavailable].

Definition service_statuses : list Z :=
  [StatusForbidden; StatusNotFound; StatusConflict; StatusUnprocessableEntity; StatusInternalServerError].

(** The statuses of an endpoint. *)
Definition statuses (e : endpoint) : list Z :=
  match e with
  | GetHealthz => [StatusOK]
  | GetReadyz => [StatusOK; StatusServiceUnavailable]
  | PostAdminSnapshot => [StatusAccepted; StatusForbidden; StatusNotFound; StatusInternalServerError]
  | PostRegister => limited ++ [StatusCreated; StatusBadRequest; StatusConflict;
                                StatusUnprocessableEntity; StatusInternalServerError]
  | PostLogin => limited ++ [StatusOK; StatusBadRequest; StatusInternalServerError]
  | GetUsersMe => limited ++ [StatusOK; StatusNotFound]
  | PostAccounts => limited ++ [StatusCreated; StatusBadRequest; StatusConflict; StatusUnprocessableEntity]
  | GetAccounts => limited ++ [StatusOK; StatusInternalServerError]
  | GetAccountBalance | GetAccountSummary | GetAccountTransactions =>
      limited ++ [StatusOK; StatusBadRequest; StatusNotFound; StatusInternalServerError]
  | PostTransactions | PostTransactionReverse | PostTransfers =>
      limited ++ service_statuses ++ [StatusCreated; StatusBadRequest]
  | PostExports => limited ++ [StatusAccepted; StatusBadRequest; StatusInternalServerError]
  | GetExportStatus => limited ++ [StatusOK; StatusBadRequest; StatusNotFound]
  | GetExportDownload => limited ++ [StatusOK; StatusBadRequest; StatusNotFound; StatusConflict;
                                     StatusInternalServerError]
  end.

Lemma writeServiceError_statuses err : rs_Status (writeServiceError err) ∈ service_statuses.
Proof. unfold writeServiceError. repeat case_match; simpl; unfold service_statuses; set_solver. Qed.

Section statuses.
Context {T : Type}.

(** A step of a handler: if it ends the request, then with one of the statuses, or
    with a panic and [P]. *)
Definition stops {A} (P : Prop) (codes : list Z) (m : H T A) : Prop := ∀ s,
  match (m s).1 with
  | Go _ => True
  | Done (Reply x) => rs_Status x ∈ codes
  | Done Panicked => P
  end.

(** A handler: it does end the request. *)
Definition finishes {A} (P : Prop) (codes : list Z) (m : H T A) : Prop :=
  stops P codes m ∧ ∀ s a, (m s).1 ≠ Go a.

Variable (P : Prop) (codes : list Z).

Lemma stops_call {A} (m : M T A) : stops P codes (call m).
Proof. intros s. unfold call. by destruct (m s). Qed.
Lemma stops_ret {A} (a : A) : stops P codes (hret a).
Proof. by intros s. Qed.
Lemma stops_reply {A} x : rs_Status x ∈ codes → stops (A:=A) P codes (reply x).
Proof. by intros ? s. Qed.
Lemma finishes_reply {A} x : rs_Status x ∈ codes → finishes (A:=A) P codes (reply x).
Proof. split; [by apply stops_reply|by intros]. Qed.

Lemma stops_bind {A B} (m : H T A) (k : A → H T B) :
  stops P codes m → (∀ a, stops P codes (k a)) → stops P codes (hbind m k).
Proof.
  intros Hm Hk s. specialize (Hm s). unfold hbind. destruct (m s) as [[a|d] s1]; [apply Hk|done].
Qed.

Lemma finishes_bind {A B} (m : H T A) (k : A → H T B) :
  stops P codes m → (∀ a, finishes P codes (k a)) → finishes P codes (hbind m k).
Proof.
  intros Hm Hk. split; [apply stops_bind; [done|intros a; apply Hk]|].
  intros s b. unfold hbind. destruct (m s) as [[a|d] s1]; [apply Hk|done].
Qed.

Lemma finishes_headers hs (m : H T ()) : finishes P codes m → finishes P codes (with_headers hs m).
Proof.
  intros [Hm Hf]. split; intros s; specialize (Hm s); specialize (Hf s); unfold with_headers;
    destruct (m s) as [[[]|[]] s1]; simpl in *; try done; by destruct (Hf ()).
Qed.

Lemma stops_user r : StatusUnauthorized ∈ codes → stops P codes (require_user (S:=T) r).
Proof.
  intros Hc. unfold require_user. repeat case_match; first [by apply stops_reply | apply stops_ret].
Qed.

Lemma stops_id what r : StatusBadRequest ∈ codes → stops P codes (require_id (S:=T) what r).
Proof.
  intros Hc. unfold require_id. repeat case_match; first [by apply stops_reply | apply stops_ret].
Qed.

End statuses.

Section api.
Context `{Env, Bcrypt, Jwt, Unicode, CaseFold} {R F : Type} `{!Redis R, !Storage F}.
Abbreviation S := (Server R F).

(** A missing or foreign account, or an error of the database. *)
Lemma stops_owned P codes now uid id :
  StatusNotFound ∈ codes → StatusInternalServerError ∈ codes →
  stops P codes (require_owned (R:=R) (F:=F) now uid id).
Proof.
  intros Hn Hi s. unfold require_owned, hbind, call, ownedAccount, bind, attempt, on_world, on_pool.
  destruct (pop _) as [[] fs]; unfold GetAccount, read, one_row; try done;
    destruct (find _ _) as [a|]; simpl; try done; by destruct (negb _).
Qed.

Lemma stops_export P codes tm r :
  StatusUnauthorized ∈ codes → StatusBadRequest ∈ codes → StatusNotFound ∈ codes →
  stops P codes (ownedExport (R:=R) (F:=F) tm r).
Proof.
  intros H1' H2' H3'. unfold ownedExport. apply stops_bind; [by apply stops_user|intros uid].
  apply stops_bind; [by apply stops_id|intros id]. apply stops_bind; [apply stops_call|].
  intros [e|err]; repeat case_match; first [by apply stops_reply | apply stops_ret].
Qed.

(** Only an empty page of size 0 panics. *)
Lemma stops_page codes now acc limit t id :
  0 ≤ limit → StatusInternalServerError ∈ codes →
  stops (limit = 0) codes (entries_page (R:=R) (F:=F) now acc limit t id).
Proof.
  intros Hl Hc. unfold entries_page. apply stops_bind; [apply stops_call|].
  intros [rows|e]; [|by apply stops_reply].
  destruct (Z.eqb_spec (Z.of_nat (length rows)) limit) as [E|]; [|apply stops_ret].
  destruct (last rows) eqn:El; [apply stops_ret|]. intros s. simpl.
  apply last_None in El. subst rows. simpl in E. lia.
Qed.

Lemma finishes_dto P codes r :
  service_statuses ⊆ codes → StatusCreated ∈ codes → finishes P codes (write_dto (R:=R) (F:=F) r).
Proof.
  intros Hs Hc. unfold write_dto. destruct r; apply finishes_reply; [done|].
  apply Hs, writeServiceError_statuses.
Qed.

Ltac in_codes := apply (bool_decide_unpack _); reflexivity.
Ltac codes_step :=
  first [ apply finishes_reply; in_codes | apply stops_reply; in_codes | apply stops_ret
        | apply stops_call | apply stops_user; in_codes | apply stops_id; in_codes
        | apply stops_owned; in_codes | apply stops_export; in_codes
        | apply finishes_dto; in_codes
        | apply finishes_bind; [|intros ?] | apply stops_bind; [|intros ?] | progress case_match ].

Lemma ListAccountEntries_finishes tm r :
  finishes (page_limit r = 0) (statuses GetAccountTransactions)
    (TransactionsAPI_ListAccountEntries (R:=R) (F:=F) tm r).
Proof.
  unfold TransactionsAPI_ListAccountEntries. do 3 (apply finishes_bind; [codes_step|intros ?]).
  destruct (decodeCursor _) as [[t id]|]; [|codes_step].
  apply finishes_bind; [|intros ?; codes_step]. apply stops_page; [|in_codes].
  unfold page_limit. pose proof (parseInt_range r "limit" 20 ltac:(done) ltac:(done)). lia.
Qed.

(** Where a panic can come from. *)
Definition panics (e : endpoint) (r : Request) : Prop :=
  e = GetAccountTransactions ∧ page_limit r = 0.

Lemma finishes_mono {A} (P Q : Prop) codes (m : H S A) :
  (P → Q) → finishes P codes m → finishes Q codes m.
Proof.
  intros HPQ [Hm Hf]. split; [|done]. intros s. specialize (Hm s).
  destruct (m s) as [[|[]]]; simpl in *; auto.
Qed.

Lemma v1_finishes tm e r :
  protected e = true → finishes (panics e r) (statuses e) (v1_handler (R:=R) (F:=F) tm e r).
Proof.
  destruct e; intros He; try discriminate He; unfold v1_handler.
  - unfold Me, query. repeat codes_step.
  - unfold AccountsAPI_Create, query. repeat codes_step.
  - unfold AccountsAPI_List, query. repeat codes_step.
  - unfold GetCurrent. repeat codes_step.
  - unfold GetSummary. repeat codes_step.
  - eapply finishes_mono; [|apply ListAccountEntries_finishes]. by split.
  - unfold CreateTransaction. repeat codes_step.
  - unfold ReverseTransaction. repeat codes_step.
  - unfold CreateTransfer. repeat codes_step.
  - unfold ExportsAPI_CreateExport, query. repeat codes_step.
  - unfold GetStatus. repeat codes_step.
  - unfold Download. repeat codes_step.
Qed.

Lemma limit_finishes P codes rl keyFn t at_ (next : Request → H S ()) r :
  limited ⊆ codes → finishes P codes (next r) → finishes P codes (limit_middleware rl keyFn t at_ next r).
Proof.
  intros Hl Hn. assert (∀ c, c ∈ limited → c ∈ codes) as Hc by (intros c; apply Hl).
  unfold limit_middleware. destruct (keyFn r); [|apply finishes_reply, Hc; in_codes].
  apply finishes_bind; [apply stops_call|].
  intros [[[[[] ?] ?]|]|]; [| |apply finishes_reply, Hc; in_codes..]; apply finishes_headers;
    [done|apply finishes_reply, Hc; in_codes].
Qed.

Lemma auth_finishes P codes secret clock (next : Request → H S ()) r :
  StatusUnauthorized ∈ codes → (∀ uid, finishes P codes (next (with_user uid r))) →
  finishes P codes (AuthMiddleware secret clock next r).
Proof.
  intros Hc Hn. unfold AuthMiddleware. destruct (_ || _); [by apply finishes_reply|].
  destruct (ParseJWT _ _ _); [apply Hn|by apply finishes_reply].
Qed.

Lemma public_finishes app tm salt e r :
  match e with
  | PostAdminSnapshot => finishes (panics e r) (statuses e) (RunSnapshotAll (R:=R) (F:=F) (app_admin_token app) r)
  | PostRegister => finishes (panics e r) (statuses e)
      (Register (R:=R) (F:=F) (app_secret app) (tm_now tm) (tm_clock tm) salt r)
  | PostLogin => finishes (panics e r) (statuses e)
      (Login (R:=R) (F:=F) (app_secret app) (tm_now tm) (tm_clock tm) r)
  | GetReadyz => finishes (panics e r) (statuses e) (readyz (R:=R) (F:=F) r)
  | _ => True
  end.
Proof.
  destruct e; try done.
  - unfold readyz. repeat codes_step.
  - unfold RunSnapshotAll. repeat codes_step.
  - unfold Register. repeat codes_step.
  - unfold Login. repeat codes_step.
Qed.

(** Every request, through the middleware of its group. *)
Lemma routed_finishes app tm salt e r :
  finishes (panics e r) (statuses e) (routed (R:=R) (F:=F) app tm salt e r).
Proof.
  pose proof (public_finishes app tm salt e r) as Hp. unfold routed.
  destruct e; try (apply auth_finishes; [in_codes|intros uid]; apply limit_finishes; [in_codes|];
    eapply finishes_mono; [|by apply v1_finishes]; unfold panics, page_limit, parseInt; done).
  - apply finishes_reply. in_codes.
  - exact Hp.
  - exact Hp.
  - apply limit_finishes; [in_codes|exact Hp].
  - apply limit_finishes; [in_codes|exact Hp].
Qed.

(** And through CORS: a preflight request is answered 204. *)
Lemma handle_finishes app tm salt e r :
  finishes (panics e r) (if preflight r then [StatusNoContent] else statuses e)
    (handle (R:=R) (F:=F) app tm salt e r).
Proof.
  pose proof (routed_finishes app tm salt e r) as Hin. unfold handle, CORSMiddleware, preflight.
  case_bool_decide; [apply Hin|]. apply finishes_headers.
  case_bool_decide; [apply finishes_reply; by left|apply Hin].
Qed.

Lemma respond_status app tm salt e r (s : S) :
  match (respond app tm salt e r s).1 with
  | Reply x => rs_Status x ∈ (if preflight r then [StatusNoContent] else statuses e)
  | Panicked => e = GetAccountTransactions ∧ page_limit r = 0
  end.
Proof.
  destruct (handle_finishes app tm salt e r) as [Hs Hf]. specialize (Hs s). specialize (Hf s).
  unfold respond, serve. destruct (handle app tm salt e r s) as [[a|[x|]] s1]; simpl in *.
  - by destruct (Hf a).
  - exact Hs.
  - exact Hs.
Qed.

End api.
