(* ===== verification/Quota.v ===== *)
(** * Which operations touch a bucket of the rate limiter

    A user's bucket is two keys of Redis.  Nothing the server does writes them, save
    the limiter itself for a request of that user, so the bound of the limiter is a
    bound on the server's answers. *)
From S2P Require Import Prelude GoTime Effects Json JsonStruct Store Queries World Summary Dto.
From S2P Require Import Transactions Balance TxRun Outbox System.
From S2P Require Import Http Storage Server Float RateLimit Auth Middleware Handlers Exports Router.
From S2P Require Import Footprint ApiSystem.
Local Open Scope Z_scope.
Local Open Scope ledger_scope.

(** ** Keys *)

Lemma chars_append s t : chars (s +:+ t) = chars s ++ chars t.
Proof. induction s as [|a s IH]; [done|]. simpl. by rewrite <- IH. Qed.

Lemma append_inj_l s t u : s +:+ u = t +:+ u → s = t.
Proof.
  intros E%(f_equal chars). rewrite !chars_append in E. apply app_inv_tail in E.
  by rewrite <- (str_chars s), <- (str_chars t), E.
Qed.

Lemma tokens_ts_apart k k' : tokens_key k ≠ ts_key k'.
Proof.
  intros E%(f_equal chars). unfold tokens_key, ts_key in E. rewrite !chars_append in E.
  change (chars ":tokens") with (chars ":toke" ++ ["n"%char] ++ ["s"%char]) in E.
  change (chars ":ts") with (chars ":" ++ ["t"%char] ++ ["s"%char]) in E.
  rewrite !app_assoc in E. apply app_inj_tail in E as [E _]. by apply app_inj_tail in E as [_ ?].
Qed.

(** Different numbers have different numerals, of any size. *)
Lemma itoa_injective a b : itoa a = itoa b → a = b.
Proof.
  assert (∀ n, 0 ≤ n → undec (dec n) = Some n) as Hd by (intros n Hn; by apply dec_spec).
  assert (∀ n l, 0 ≤ n → dec n ≠ "-"%char :: l) as Hm.
  { intros n l Hn E. destruct (dec_spec n Hn) as (_&Hf&_). rewrite E in Hf.
    by apply Forall_cons in Hf as [? _]. }
  unfold itoa. destruct (Z.ltb_spec a 0), (Z.ltb_spec b 0); intros E.
  - injection E as E. assert (Some (- a) = Some (- b)) as [= ?]; [|lia].
    rewrite <- (Hd (- a)), <- (Hd (- b)) by lia. by rewrite E.
  - symmetry in E. by apply Hm in E.
  - by apply Hm in E.
  - assert (Some a = Some b) as [= ?]; [|done]. rewrite <- (Hd a), <- (Hd b) by lia. by rewrite E.
Qed.

(** The bucket of a user. *)
Definition bucket_key (uid : Z) : string := "ratelimit:" +:+ str (chars "user:" ++ itoa uid).
Definition bucket_keys (uid : Z) (k : string) : Prop :=
  k = tokens_key (bucket_key uid) ∨ k = ts_key (bucket_key uid).

Lemma bucket_no_summary uid account month : ¬ bucket_keys uid (summary_key account month).
Proof.
  unfold bucket_keys, tokens_key, ts_key, bucket_key.
  intros [E|E]; apply (f_equal chars) in E; unfold summary_key in E;
    by rewrite !chars_append, chars_str in E.
Qed.

Lemma bucket_apart uid key :
  key ≠ bucket_key uid → ¬ bucket_keys uid (tokens_key key) ∧ ¬ bucket_keys uid (ts_key key).
Proof.
  intros Hne. split; intros [E|E].
  - by apply append_inj_l in E.
  - by apply tokens_ts_apart in E.
  - symmetry in E. by apply tokens_ts_apart in E.
  - by apply append_inj_l in E.
Qed.

(** The keys that a request of another user, or one limited by address, uses. *)
Definition others (uid : Z) (k : string) : Prop := "ratelimit:" +:+ k ≠ bucket_key uid.

Lemma other_user uid uid' r k : uid' ≠ uid → user_key (with_user uid' r) = Some k → others uid k.
Proof.
  intros Hne Hk. assert (k = str (chars "user:" ++ itoa uid')) as ->.
  { unfold user_key in Hk. simpl in Hk. by injection Hk. }
  intros E%(inj (String.append "ratelimit:")). apply (f_equal chars) in E. rewrite !chars_str in E.
  apply app_inv_head in E. by apply Hne, itoa_injective.
Qed.

Lemma other_ip uid r k : ip_key r = Some k → others uid k.
Proof.
  intros Hk E. assert (∃ l, k = str (chars "ip:" ++ l)) as [l ->] by (injection Hk as <-; by eexists).
  apply (inj (String.append "ratelimit:")), (f_equal chars) in E. by rewrite !chars_str in E.
Qed.

Section keys.
Context `{Env, Bcrypt, Jwt, Unicode, CaseFold} {R F : Type} `{!Redis R, !RedisOK R, !Storage F}.
Abbreviation W := (World R).
Abbreviation S := (Server R F).

(** The keys under watch: none of them holds a summary. *)
Variable K : string → Prop.
Hypothesis K_summary : ∀ account month, ¬ K (summary_key account month).

Definition same_keys (w w' : W) : Prop := ∀ k t, K k → r_get (w_redis w') t k = r_get (w_redis w) t k.
Definition keys_kept (s s' : S) : Prop := same_keys (sv_world s) (sv_world s').

#[export] Instance same_keys_refl : Reflexive same_keys.
Proof. done. Qed.
#[export] Instance same_keys_trans : Transitive same_keys.
Proof. intros w1 w2 w3 H12 H23 k t Hk. by rewrite H23, H12. Qed.
#[export] Instance keys_kept_refl : Reflexive keys_kept.
Proof. intros s. unfold keys_kept. reflexivity. Qed.
#[export] Instance keys_kept_trans : Transitive keys_kept.
Proof. intros s1 s2 s3. unfold keys_kept. apply same_keys_trans. Qed.

Lemma same_redis w w' : w_redis w' = w_redis w → same_keys w w'.
Proof. intros E k t _. by rewrite E. Qed.

(** ** Services *)

Lemma on_pool_keys {A} now (st : stmt A) : keeps same_keys (on_pool now st).
Proof. intros w. destruct (on_pool now st w) as [r w'] eqn:E. apply on_pool_cases in E as [? _]. by apply same_redis. Qed.

Lemma in_tx_keys {A} now (body : M TxS (outcome A)) : keeps same_keys (in_tx now body).
Proof. intros w. destruct (in_tx now body w) as [r w'] eqn:E. apply in_tx_cases in E as [? _]. by apply same_redis. Qed.

Lemma redis_get_keys t k : keeps same_keys (redis_get t k).
Proof. intros w. unfold redis_get. destruct (pop _). by apply same_redis. Qed.

Lemma redis_do_keys (f : R → R) :
  (∀ r k t, K k → r_get (f r) t k = r_get r t k) → keeps same_keys (redis_do f).
Proof.
  intros Hf w. unfold redis_do. destruct (pop _) as [fl fs]. intros k t Hk. simpl.
  destruct fl; [by apply Hf|done|by apply Hf].
Qed.

Lemma Invalidate_keys account month : keeps same_keys (Invalidate account month).
Proof.
  apply redis_do_keys. intros r k t Hk. apply r_get_del_ne. intros <-. by destruct (K_summary account month).
Qed.

Lemma mapM_keys {A B} (f : A → M W B) l : (∀ a, keeps same_keys (f a)) → keeps same_keys (mapM f l).
Proof. intros Hf. induction l; simpl; eauto 10 with ledger typeclass_instances. Qed.

Lemma createBalanced_keys now b : keeps same_keys (createBalanced now b).
Proof.
  unfold createBalanced. destruct (validateLegs _ _) as [[]|]; [|apply keeps_fail; apply _].
  apply keeps_bind; [apply _|apply in_tx_keys|]. intros [[dto legs]|[dto legs]]; [apply keeps_ret; apply _|].
  apply keeps_bind; [apply _| |intros; apply keeps_ret; apply _].
  apply keeps_bind; [apply _| |intros; apply keeps_ret; apply _].
  apply mapM_keys. intros. apply Invalidate_keys.
Qed.

Lemma Create_keys now i : keeps same_keys (Create now i).
Proof. unfold Create. destruct (_ =? _); [apply keeps_fail; apply _|apply createBalanced_keys]. Qed.

Lemma Transfer_keys now i : keeps same_keys (Transfer now i).
Proof.
  unfold Transfer. destruct (_ <=? _); [apply keeps_fail; apply _|].
  destruct (_ =? _); [apply keeps_fail; apply _|apply createBalanced_keys].
Qed.

Lemma Reverse_keys now clock i : keeps same_keys (Reverse now clock i).
Proof.
  unfold Reverse. apply keeps_bind; [apply _|apply in_tx_keys|].
  intros [[dto x]|[dto [orig ps]]]; [apply keeps_ret; apply _|].
  apply keeps_bind; [apply _| |intros; apply keeps_ret; apply _].
  apply mapM_keys. intros p. apply keeps_bind; [apply _|apply Invalidate_keys|intros; apply Invalidate_keys].
Qed.

Lemma balance_keys n1 n2 id t : keeps same_keys (CurrentBalance n1 n2 id t).
Proof.
  unfold CurrentBalance. apply keeps_bind; [apply _|apply keeps_attempt, on_pool_keys|]. intros x.
  destruct (match x with Ok _ => _ | Err _ => _ end). apply keeps_bind; [apply _|apply on_pool_keys|].
  intros. apply keeps_ret. apply _.
Qed.

Lemma summary_keys t1 n t2 id m : keeps same_keys (SummaryService_GetMonthlySummary t1 n t2 id m).
Proof.
  unfold SummaryService_GetMonthlySummary. apply keeps_bind; [apply _|apply redis_get_keys|].
  intros [v|]; [apply keeps_ret; apply _|]. apply keeps_bind; [apply _|apply on_pool_keys|]. intros row.
  apply keeps_bind; [apply _| |intros; apply keeps_ret; apply _]. apply redis_do_keys.
  intros r k t Hk. apply r_get_set_ne. intros <-. by destruct (K_summary id m).
Qed.

(** The limiter writes the two keys of its bucket. *)
Lemma allow_keys rl key now at_ :
  (¬ K (tokens_key key)) → (¬ K (ts_key key)) → keeps same_keys (allow rl key now at_).
Proof.
  intros Hk1 Hk2 w. assert (∀ k t, K k →
    r_get (bucket_script rl key now at_ (w_redis w)).2 t k = r_get (w_redis w) t k) as Hs.
  { intros k t Hk. unfold bucket_script. cbv zeta.
    repeat case_match; simpl; try done; rewrite !r_get_set_ne; by try intros <-. }
  unfold allow. destruct (bucket_script _ _ _ _ _) as [res r'].
  destruct (pop (w_faults w)) as [[] fs]; intros k t Hk; simpl; [by apply Hs|done|by apply Hs].
Qed.

(** ** The server *)

Lemma on_world_keys {A} (m : M W A) : keeps same_keys m → keeps keys_kept (on_world m).
Proof. intros Hm s. specialize (Hm (sv_world s)). unfold on_world. by destruct (m (sv_world s)). Qed.

Lemma enqueue_keys t : keeps keys_kept (enqueue t).
Proof. intros s. unfold enqueue, next_fault. by destruct (pop _) as [[] fs]. Qed.

Lemma Save_keys key body : keeps keys_kept (Save key body).
Proof. intros s. unfold Save, next_fault. by destruct (pop _) as [[] fs]; repeat case_match. Qed.

Lemma reads_keys :
  reads keys_kept (λ k, ¬ K (tokens_key ("ratelimit:" +:+ k)) ∧ ¬ K (ts_key ("ratelimit:" +:+ k))).
Proof.
  split; intros; apply hkeeps_call.
  - apply on_world_keys, on_pool_keys.
  - apply on_world_keys, balance_keys.
  - apply on_world_keys, summary_keys.
  - intros s. unfold Open, next_fault. by destruct (pop _) as [[] fs].
  - intros s. unfold ping, next_fault. by destruct (pop _).
  - match goal with Ht : _ ∧ _ |- _ => destruct Ht end. by apply on_world_keys, allow_keys.
Qed.

Lemma writes_keys tm r uid : writes keys_kept tm r uid.
Proof.
  split; intros; apply hkeeps_call.
  - apply on_world_keys, on_pool_keys.
  - apply on_world_keys, Create_keys.
  - apply on_world_keys, Transfer_keys.
  - apply on_world_keys, Reverse_keys.
  - apply on_world_keys, on_pool_keys.
  - apply enqueue_keys.
Qed.

Lemma keeps_or_fail {A} e (o : option A) : keeps same_keys (or_fail e o).
Proof. destruct o; [apply keeps_ret; apply _|apply keeps_fail; apply _]. Qed.

Lemma snapshot_all_keys now clock payload : keeps keys_kept (snapshot_all_task now clock payload).
Proof.
  unfold snapshot_all_task. apply keeps_bind; [apply _| |].
  - apply on_world_keys. unfold handleSnapshotAll.
    apply keeps_bind; [apply _|apply keeps_or_fail|intros p].
    apply keeps_bind; [apply _|apply on_pool_keys|intros ids].
    apply keeps_bind; [apply _|apply keeps_or_fail|intros d]. apply keeps_ret. apply _.
  - intros ts. apply keeps_bind; [apply _| |intros; apply keeps_ret; apply _].
    induction ts as [|t ts IH]; simpl; [apply keeps_ret; apply _|].
    apply keeps_bind; [apply _|apply keeps_attempt, enqueue_keys|intros ?].
    apply keeps_bind; [apply _|done|intros ?]. apply keeps_ret. apply _.
Qed.

Lemma failExport_keys now id : keeps keys_kept (failExport now id).
Proof.
  apply keeps_bind; [apply _|apply keeps_attempt, on_world_keys, on_pool_keys|].
  intros. apply keeps_ret. apply _.
Qed.

Lemma export_keys n1 n2 payload : keeps keys_kept (handleExportCSV n1 n2 payload).
Proof.
  assert (∀ id e, keeps keys_kept (failExport n2 id ;;; fail (A:=()) e)) as Hf.
  { intros. apply keeps_bind; [apply _|apply failExport_keys|intros; apply keeps_fail; apply _]. }
  unfold handleExportCSV. apply keeps_bind; [apply _| |intros p].
  { destruct (unmarshal_export payload); [apply keeps_ret; apply _|apply keeps_fail; apply _]. }
  destruct (Parse_date _); [|apply Hf].
  apply keeps_bind; [apply _|apply keeps_attempt, on_world_keys, on_pool_keys|].
  intros [rows|e]; [|apply Hf]. apply keeps_bind; [apply _|apply keeps_attempt, Save_keys|].
  intros [[]|e]; [apply on_world_keys, on_pool_keys|apply Hf].
Qed.

Lemma run_task_keys now clock t : keeps keys_kept (run_task now clock t).
Proof.
  unfold run_task. case_bool_decide; [apply snapshot_all_keys|].
  case_bool_decide; [|case_bool_decide; [apply export_keys|apply keeps_ret; apply _]].
  apply on_world_keys. unfold handleSnapshotAccount.
  apply keeps_bind; [apply _|apply keeps_or_fail|intros p].
  apply keeps_bind; [apply _|apply keeps_or_fail|intros d].
  apply keeps_bind; [apply _|apply on_pool_keys|intros sum]. apply on_pool_keys.
Qed.

End keys.

(** ** The requests of one user *)

Section quota.
Context `{Env, Bcrypt, Jwt, Unicode, CaseFold} {R F : Type} `{!Redis R, !RedisOK R, !Storage F}.
Abbreviation W := (World R).
Abbreviation S := (Server R F).
Variable app : App.
Variable uid : Z.

Abbreviation kept := (keys_kept (R:=R) (F:=F) (bucket_keys uid)).

(** A request that the limiter counts for the user. *)
Definition of_user (tm : Times) (e : endpoint) (r : Request) : bool :=
  protected e && bool_decide (caller (app_secret app) (tm_clock tm) r = Some uid) && negb (preflight r).

(** The limiter answers 429 and 503; everything else was let through. *)
Definition admitted (x : served) : bool :=
  negb (bool_decide (status_of x = Some StatusTooManyRequests))
  && negb (bool_decide (status_of x = Some StatusServiceUnavailable)).

Lemma preflight_kept tm salt e r s : preflight r = true → (respond app tm salt e r s).2 = s.
Proof.
  unfold respond, handle, CORSMiddleware, preflight, serve, with_headers. intros [Ho Hm]%andb_prop.
  destruct (bool_decide (Get _ _ = "")); [done|]. by rewrite Hm.
Qed.

(** A request of somebody else leaves the bucket alone. *)
Lemma other_request_kept tm salt e r s :
  of_user tm e r = false → kept s (respond app tm salt e r s).2.
Proof.
  intros Hof. destruct (preflight r) eqn:Hp; [by rewrite preflight_kept|].
  unfold respond. apply (hkeeps_serve kept).
  apply (handle_touching kept (others uid)).
  - pose proof (reads_keys (F:=F) _ (bucket_no_summary uid)) as [Hq Hb Hs Ho Hg Ha]. split; try done.
    intros rl k t at_ Hk. by apply Ha, bucket_apart.
  - intros uid' _. apply writes_keys, bucket_no_summary.
  - intros. apply hkeeps_call, on_world_keys, on_pool_keys.
  - apply hkeeps_call, enqueue_keys.
  - intros uid' k Hpr Hc. apply other_user. intros ->. unfold of_user in Hof.
    by rewrite Hpr, Hp, bool_decide_true in Hof.
  - intros k. apply other_ip.
Qed.

(** A request of the user takes from the bucket once, before anything else, and is
    let through only with a token. *)
Lemma user_request tm salt e r s :
  of_user tm e r = true →
  ∃ res w1, allow (app_limiter app) (bucket_key uid) (unix (tm_clock tm)) (tm_limit tm) (sv_world s) = (Ok res, w1) ∧
    kept (set_world w1 s) (respond app tm salt e r s).2 ∧
    (admitted (respond app tm salt e r s).1 = true → let_through res = 1).
Proof.
  unfold of_user. intros [[Hpr Hc%bool_decide_eq_true]%andb_prop Hp%negb_true_iff]%andb_prop.
  destruct (allow (app_limiter app) (bucket_key uid) (unix (tm_clock tm)) (tm_limit tm) (sv_world s))
    as [res0 w1] eqn:Ea.
  assert (∃ res, res0 = Ok res) as [res ->].
  { unfold allow in Ea. destruct (pop _) as [[] fs], (bucket_script _ _ _ _ _); injection Ea as <- _; eauto. }
  exists res, w1. split; [done|].
  set (k := limit_middleware (app_limiter app) user_key (unix (tm_clock tm)) (tm_limit tm)
              (v1_handler tm e) (with_user uid r)).
  assert (kept (set_world w1 s) (serve k s).2 ∧ (admitted (serve k s).1 = true → let_through res = 1)) as Hk.
  { unfold k, limit_middleware. cbn [user_key with_user rq_UserID fmap option_fmap option_map].
    change ("ratelimit:" +:+ str (chars "user:" ++ itoa uid)) with (bucket_key uid).
    unfold serve, hbind, call, on_world. rewrite Ea.
    destruct res as [[[[] rem] reset]|]; [|by split..].
    split; [|done].
    match goal with |- kept _ (match with_headers ?hs ?h ?s with _ => _ end).2 =>
      assert (kept s (with_headers hs h s).2) as Hh; [|by destruct (with_headers hs h s) as [[]]] end.
    apply hkeeps_headers, (v1_footprint kept _ (reads_keys _ (bucket_no_summary uid))).
    intros. apply writes_keys, bucket_no_summary. }
  assert (routed app tm salt e r = k) as Hr.
  { transitivity (AuthMiddleware (app_secret app) (tm_clock tm) (Middleware (app_limiter app)
      (unix (tm_clock tm)) (tm_limit tm) (v1_handler tm e)) r); [by destruct e|].
    unfold caller in Hc. unfold AuthMiddleware. destruct (_ || _); [done|]. by rewrite Hc. }
  unfold respond, handle, CORSMiddleware. unfold preflight in Hp.
  case_bool_decide; [by rewrite Hr|]. simpl in Hp. rewrite Hp, Hr.
  destruct (serve_headers (cors_headers (allow_origin (TrimSpace (app_cors app)) (Get (rq_Header r) "Origin")))
    k s) as [Hst ->]. unfold admitted. by rewrite Hst.
Qed.

(** A stretch of the server's life in which the user's requests come at the seconds
    [[T0, T]] of the clocks that handle them.  Everything else goes on as in [sstep];
    Redis may change on its own but not lose the user's bucket.  [n] counts the
    user's requests that were let through. *)
Inductive user_run (T0 T : Z) : S → Z → S → Prop :=
  | ur_nil s : user_run T0 T s 0 s
  | ur_request tm salt e r fs s x s1 n s2 :
      (of_user tm e r = true → T0 ≤ unix (tm_clock tm) ≤ T) →
      respond app tm salt e r (set_faults fs s) = (x, s1) → user_run T0 T s1 n s2 →
      user_run T0 T s ((if of_user tm e r && admitted x then 1 else 0) + n) s2
  | ur_task now clock t fs s n s2 :
      t ∈ sv_queue s → user_run T0 T (run_task now clock t (set_faults fs s)).2 n s2 →
      user_run T0 T s n s2
  | ur_schedule fs s n s2 :
      user_run T0 T (enqueue scheduled_task (set_faults fs s)).2 n s2 → user_run T0 T s n s2
  | ur_publish now locked fs s n s2 :
      user_run T0 T (set_world (ProcessBatch now locked (with_faults fs (sv_world s))).2 s) n s2 →
      user_run T0 T s n s2
  | ur_redis r s n s2 :
      (∀ k t, bucket_keys uid k → r_get r t k = r_get (w_redis (sv_world s)) t k) →
      user_run T0 T (set_world (mkWorld (w_tab (sv_world s)) (w_seq (sv_world s)) r []) s) n s2 →
      user_run T0 T s n s2.

(** A step that keeps the bucket. *)
Lemma limited_kept T0 T rl (s s1 : S) n w2 :
  kept s s1 → limited_run rl (bucket_key uid) T0 T (sv_world s1) n w2 →
  limited_run rl (bucket_key uid) T0 T (sv_world s) n w2.
Proof.
  intros Hk. apply run_other. intros t. split; apply Hk; [by left|by right].
Qed.

Lemma user_run_limited T0 T s n s2 :
  user_run T0 T s n s2 →
  ∃ n', n ≤ n' ∧ limited_run (app_limiter app) (bucket_key uid) T0 T (sv_world s) n' (sv_world s2).
Proof.
  induction 1 as [s|tm salt e r fs s x s1 n s2 HT E _ (n'&Hn&IH)|now clock t fs s n s2 _ _ (n'&Hn&IH)
    |fs s n s2 _ (n'&Hn&IH)|now locked fs s n s2 _ (n'&Hn&IH)|r s n s2 Hr _ (n'&Hn&IH)].
  - exists 0. split; [lia|constructor].
  - destruct (of_user tm e r) eqn:Ho.
    + destruct (user_request tm salt e r (set_faults fs s) Ho) as (res&w1&Ea&Hk&Had).
      rewrite E in Hk, Had. cbn [fst snd] in *. exists (let_through res + n').
      split; [|apply (limited_kept _ _ _ s (set_faults fs s)); [done|]].
      * simpl. destruct (admitted x); [rewrite Had by done; lia|].
        enough (0 ≤ let_through res) by lia. by destruct res as [[[[] ?] ?]|].
      * eapply run_call; [by apply HT|exact Ea|]. by apply (limited_kept _ _ _ (set_world w1 (set_faults fs s)) s1).
    + exists n'. split; [done|]. apply (limited_kept _ _ _ s s1); [|done].
      pose proof (other_request_kept tm salt e r (set_faults fs s) Ho) as Hk. by rewrite E in Hk.
  - exists n'. split; [done|]. eapply limited_kept; [|exact IH].
    exact (run_task_keys (F:=F) _ now clock t (set_faults fs s)).
  - exists n'. split; [done|]. eapply limited_kept; [|exact IH].
    exact (enqueue_keys (F:=F) _ scheduled_task (set_faults fs s)).
  - exists n'. split; [done|]. eapply limited_kept; [|exact IH].
    destruct (ProcessBatch now locked _) as [ms w'] eqn:Ep. apply ProcessBatch_cases in Ep as (Hre&_).
    intros k t _. simpl. by rewrite Hre.
  - exists n'. split; [done|]. eapply limited_kept; [|exact IH]. intros k t Hk. by apply Hr.
Qed.

End quota.
