(* ===== verification/Routes.v ===== *)
(** * Routing ([Routes] of each API, [cmd/ledgerx/main.go], [docs/API.md])

    The route tables as the code registers them, each route with the middleware of the
    groups it is registered in, and what the program relies on of the router library:
    the contract [ChiOK], which says when a pattern may and when it must be chosen.
    [serve_path] is the server from the path of a request: the chosen route, its
    middleware and its handler.  [documented] is the reference it is compared with, the
    endpoint tables of [docs/API.md]. *)
From S2P Require Import Prelude GoTime Effects Json Store Queries World Cursor Storage Http Server.
From S2P Require Import RateLimit Auth Middleware Handlers Exports Router Footprint Refusals.
Local Open Scope Z_scope.

(** ** The tables *)

(** The middleware of [main]: [authLimiter.IPMiddleware], [AuthMiddleware] and
    [limiter.Middleware]. *)
Inductive middleware := AuthLimiter | BearerToken | UserLimiter.

#[global] Instance middleware_eq_dec : EqDecision middleware.
Proof. solve_decision. Defined.

#[global] Instance endpoint_eq_dec : EqDecision endpoint.
Proof. solve_decision. Defined.

(** A route: the method, the pattern, the handler, and the middleware around it, the
    outermost first. *)
Record route := mkRoute {
  rt_method : string; rt_pattern : string; rt_endpoint : endpoint; rt_middleware : list middleware }.

Definition r_Get (pattern : string) (e : endpoint) : route := mkRoute "GET" pattern e [].
Definition r_Post (pattern : string) (e : endpoint) : route := mkRoute "POST" pattern e [].

Definition HealthRoutes : list route := [r_Get "/healthz" GetHealthz; r_Get "/readyz" GetReadyz].

Definition AdminAPI_Routes : list route := [r_Post "/admin/snapshot/run" PostAdminSnapshot].

Definition AuthAPI_Routes : list route :=
  [r_Post "/auth/register" PostRegister; r_Post "/auth/login" PostLogin].

Definition UsersAPI_Routes : list route := [r_Get "/users/me" GetUsersMe].

Definition AccountsAPI_Routes : list route :=
  [r_Post "/accounts" PostAccounts; r_Get "/accounts" GetAccounts].

Definition TransactionsAPI_Routes : list route :=
  [r_Post "/transactions" PostTransactions;
   r_Post "/transactions/{id}/reverse" PostTransactionReverse;
   r_Post "/transfers" PostTransfers;
   r_Get "/accounts/{id}/transactions" GetAccountTransactions].

Definition SummaryAPI_Routes : list route := [r_Get "/accounts/{id}/summary" GetAccountSummary].

Definition ExportsAPI_Routes : list route :=
  [r_Post "/exports" PostExports;
   r_Get "/exports/{id}/status" GetExportStatus;
   r_Get "/exports/{id}/download" GetExportDownload].

Definition BalanceAPI_Routes : list route := [r_Get "/accounts/{id}/balance" GetAccountBalance].

(** [rt.Use(mw)] in a group of routes. *)
Definition Use (mw : middleware) (rs : list route) : list route :=
  map (λ rt, mkRoute (rt_method rt) (rt_pattern rt) (rt_endpoint rt) (mw :: rt_middleware rt)) rs.

(** [r.Route(prefix, ..)] *)
Definition Route (prefix : string) (rs : list route) : list route :=
  map (λ rt, mkRoute (rt_method rt) (prefix +:+ rt_pattern rt) (rt_endpoint rt) (rt_middleware rt)) rs.

(** The routes of [main], in the order of registration ([/metrics] belongs to the
    metrics library). *)
Definition routes : list route :=
  HealthRoutes ++ AdminAPI_Routes
  ++ Use AuthLimiter AuthAPI_Routes
  ++ Route "/v1" (Use BearerToken (Use UserLimiter
       (UsersAPI_Routes ++ AccountsAPI_Routes ++ TransactionsAPI_Routes
        ++ SummaryAPI_Routes ++ ExportsAPI_Routes ++ BalanceAPI_Routes))).

(** ** The documented endpoints *)

(** The tables of [docs/API.md] ([/metrics] apart): method, path and what is there. *)
Definition documented : list (string * string * endpoint) :=
  [("POST", "/auth/register", PostRegister);
   ("POST", "/auth/login", PostLogin);
   ("GET", "/v1/users/me", GetUsersMe);
   ("POST", "/v1/accounts", PostAccounts);
   ("GET", "/v1/accounts", GetAccounts);
   ("GET", "/v1/accounts/{id}/balance", GetAccountBalance);
   ("GET", "/v1/accounts/{id}/summary", GetAccountSummary);
   ("GET", "/v1/accounts/{id}/transactions", GetAccountTransactions);
   ("POST", "/v1/transactions", PostTransactions);
   ("POST", "/v1/transactions/{id}/reverse", PostTransactionReverse);
   ("POST", "/v1/transfers", PostTransfers);
   ("POST", "/v1/exports", PostExports);
   ("GET", "/v1/exports/{id}/status", GetExportStatus);
   ("GET", "/v1/exports/{id}/download", GetExportDownload);
   ("GET", "/healthz", GetHealthz);
   ("GET", "/readyz", GetReadyz);
   ("POST", "/admin/snapshot/run", PostAdminSnapshot)].

(** What a route is for. *)
Definition entry (rt : route) : string * string * endpoint :=
  (rt_method rt, rt_pattern rt, rt_endpoint rt).

(** The registered routes are the documented ones. *)
Lemma routes_documented x : x ∈ documented ↔ ∃ rt, rt ∈ routes ∧ entry rt = x.
Proof.
  assert (Forall (λ x, x ∈ map entry routes) documented) as H1
    by (apply (bool_decide_unpack _); by vm_compute).
  assert (Forall (λ x, x ∈ documented) (map entry routes)) as H2
    by (apply (bool_decide_unpack _); by vm_compute).
  rewrite Forall_forall in H1, H2. split.
  - intros (rt&->&Hrt)%H1%list_elem_of_fmap. by exists rt.
  - intros (rt&Hrt&<-). apply H2, list_elem_of_fmap. by exists rt.
Qed.

(** ** Patterns *)

(** A segment of a pattern: the text of the path, or the parameter [{id}]. *)
Definition is_param (seg : list ascii) : bool := bool_decide (seg = chars "{id}").

(** The pattern fits the path with [id] as the value of its parameter ([""], as
    [chi.URLParam] answers, when it has none): the same number of segments, the
    literal ones equal. *)
Fixpoint fits_segments (ps ss : list (list ascii)) : option (list ascii) :=
  match ps, ss with
  | [], [] => Some []
  | p :: ps, s :: ss =>
      if is_param p then (λ _, s) <$> fits_segments ps ss
      else if bool_decide (p = s) then fits_segments ps ss else None
  | _, _ => None
  end.

Definition fits (pattern path : string) : option string :=
  str <$> fits_segments (split_all "/" (chars pattern)) (split_all "/" (chars path)).

Definition has_param (pattern : string) : bool := existsb is_param (split_all "/" (chars pattern)).

(** The patterns the program uses: they begin with a slash, a segment is literal or
    the parameter [{id}], and there is at most one parameter.  (The library has others,
    with [*] and regular expressions.) *)
Definition literal (seg : list ascii) : bool :=
  forallb (λ c, negb (bool_decide (c ∈ ["{"%char; "}"%char; "*"%char]))) seg.

Definition plain_pattern (pattern : string) : bool :=
  let segs := split_all "/" (chars pattern) in
  String.prefix "/" pattern
  && forallb (λ seg, is_param seg || literal seg) segs
  && (length (List.filter is_param segs) <=? 1)%nat.

Definition plain_routes (rs : list route) : bool := forallb (λ rt, plain_pattern (rt_pattern rt)) rs.

Lemma routes_plain : plain_routes routes = true.
Proof. by vm_compute. Qed.

(** The router library: the route it chooses for a method and a path, and the value
    of its parameter. *)
Class Chi := { chi_route : list route → string → string → option (route * string) }.

(** Among routes with plain patterns it chooses only a route of the method that fits,
    and chooses one whenever one fits with a non-empty parameter. *)
Class ChiOK `{Chi} : Prop := {
  chi_sound : ∀ rs m path rt id, plain_routes rs = true → chi_route rs m path = Some (rt, id) →
    rt ∈ rs ∧ rt_method rt = m ∧ fits (rt_pattern rt) path = Some id;
  chi_complete : ∀ rs m path rt id, plain_routes rs = true → rt ∈ rs → rt_method rt = m →
    fits (rt_pattern rt) path = Some id → id ≠ "" ∨ has_param (rt_pattern rt) = false →
    is_Some (chi_route rs m path)
}.

(** A router that tries the routes in order. *)
Fixpoint first_route (rs : list route) (m path : string) : option (route * string) :=
  match rs with
  | [] => None
  | rt :: rs =>
      match fits (rt_pattern rt) path with
      | Some id => if bool_decide (rt_method rt = m) then Some (rt, id) else first_route rs m path
      | None => first_route rs m path
      end
  end.

#[global] Instance ordered_chi : Chi := {| chi_route := first_route |}.

#[global] Instance ordered_chi_ok : ChiOK.
Proof.
  split; simpl; intros rs m path rt id _; induction rs as [|r rs IH]; simpl; try done.
  - destruct (fits (rt_pattern r) path) as [i|] eqn:E; [case_bool_decide|];
      [intros [= <- <-]; split_and!; [by left|done|done]|..]; intros (Hin&?&?)%IH; (split; [by right|done]).
  - by intros ?%not_elem_of_nil.
  - intros [-> |Hin]%elem_of_cons Hm Hf Hid.
    + rewrite Hf, bool_decide_true by done. by eexists.
    + destruct (fits (rt_pattern r) path); [case_bool_decide; [by eexists|]|]; auto.
Qed.

(** ** No two routes of a method fit the same path *)

Fixpoint clash (ps qs : list (list ascii)) : bool :=
  match ps, qs with
  | p :: ps, q :: qs => negb (is_param p) && negb (is_param q) && negb (bool_decide (p = q)) || clash ps qs
  | [], [] => false
  | _, _ => true
  end.

Lemma clash_fits ps qs ss i j :
  clash ps qs = true → fits_segments ps ss = Some i → fits_segments qs ss = Some j → False.
Proof.
  revert qs ss i j. induction ps as [|p ps IH]; intros [|q qs] [|s ss] i j Hc Hp Hq; simpl in *; try done.
  destruct (is_param p), (is_param q); simpl in Hc.
  - destruct (fits_segments ps ss) eqn:E1, (fits_segments qs ss) eqn:E2; try done. by eapply IH.
  - case_bool_decide; [|done]. destruct (fits_segments ps ss) eqn:E1; try done. by eapply IH.
  - case_bool_decide; [|done]. destruct (fits_segments qs ss) eqn:E1; try done. by eapply IH.
  - do 2 (case_bool_decide; [|done]). subst. rewrite bool_decide_true in Hc by done. simpl in Hc. by eapply IH.
Qed.

(** The routes are pairwise of different methods or incompatible patterns. *)
Fixpoint apart (rs : list route) : bool :=
  match rs with
  | [] => true
  | r :: rs => forallb (λ r', negb (bool_decide (rt_method r = rt_method r')) ||
      clash (split_all "/" (chars (rt_pattern r))) (split_all "/" (chars (rt_pattern r')))) rs && apart rs
  end.

Lemma routes_apart : apart routes = true.
Proof. by vm_compute. Qed.

Lemma clash_comm ps qs : clash ps qs = clash qs ps.
Proof.
  revert qs. induction ps as [|p ps IH]; intros [|q qs]; simpl; try done. rewrite (IH qs). f_equal.
  rewrite (andb_comm (negb (is_param p))). f_equal. f_equal. by apply bool_decide_ext.
Qed.

Lemma apart_unique rs r1 r2 path i j :
  apart rs = true → r1 ∈ rs → r2 ∈ rs → rt_method r1 = rt_method r2 →
  fits (rt_pattern r1) path = Some i → fits (rt_pattern r2) path = Some j → r1 = r2.
Proof.
  assert (∀ r r', rt_method r = rt_method r' → negb (bool_decide (rt_method r = rt_method r')) ||
      clash (split_all "/" (chars (rt_pattern r))) (split_all "/" (chars (rt_pattern r'))) = true →
    ∀ i j, fits (rt_pattern r) path = Some i → fits (rt_pattern r') path = Some j → False) as Hno.
  { intros r r' Hm Hc k l. rewrite bool_decide_true in Hc by done. simpl in Hc. unfold fits.
    destruct (fits_segments (split_all "/" (chars (rt_pattern r))) _) eqn:E1; [|done].
    destruct (fits_segments (split_all "/" (chars (rt_pattern r'))) _) eqn:E2; [|done].
    intros _ _. by eapply clash_fits. }
  induction rs as [|r rs IH]; intros Ha H1 H2 Hm Hf1 Hf2; [by apply not_elem_of_nil in H1|].
  simpl in Ha. apply andb_prop in Ha as [Hr Ha]. rewrite forallb_forall in Hr.
  apply elem_of_cons in H1 as [-> |H1], H2 as [-> |H2]; [done| | |auto].
  - destruct (Hno r r2 Hm (Hr r2 (proj1 (list_elem_of_In _ _) H2)) i j Hf1 Hf2).
  - destruct (Hno r r1 (eq_sym Hm) (Hr r1 (proj1 (list_elem_of_In _ _) H1)) j i Hf2 Hf1).
Qed.

(** ** Paths under [/v1] *)

(** The first segment of the path is [v1]. *)
Definition under_v1 (path : string) : bool :=
  bool_decide (take 2 (split_all "/" (chars path)) = [[]; chars "v1"]).

Lemma fits_take n ps ss i :
  fits_segments ps ss = Some i → forallb (λ p, negb (is_param p)) (take n ps) = true →
  take n ss = take n ps.
Proof.
  revert n ss i. induction ps as [|p ps IH]; intros [|n] [|s ss] i Hf Hp; simpl in *; try done.
  apply andb_prop in Hp as [Hp Hps]. apply negb_true_iff in Hp. rewrite Hp in Hf.
  case_bool_decide; [|done]. subst. f_equal. by eapply IH.
Qed.

(** The routes whose middleware begins with the bearer token are the ones under
    [/v1]. *)
Lemma route_under_v1 rt path id :
  rt ∈ routes → fits (rt_pattern rt) path = Some id →
  under_v1 path = bool_decide (head (rt_middleware rt) = Some BearerToken).
Proof.
  intros Hin Hf. unfold fits in Hf.
  destruct (fits_segments _ (split_all "/" (chars path))) as [i|] eqn:E; [|done].
  assert (forallb (λ rt, forallb (λ p, negb (is_param p)) (take 2 (split_all "/" (chars (rt_pattern rt))))
      && Bool.eqb (under_v1 (rt_pattern rt)) (bool_decide (head (rt_middleware rt) = Some BearerToken)))
      routes = true) as Hall by (by vm_compute).
  rewrite forallb_forall in Hall.
  apply list_elem_of_In, Hall, andb_prop in Hin as [Hlit Hpr%eqb_prop].
  rewrite <- Hpr. unfold under_v1. by rewrite (fits_take 2 _ _ _ E Hlit).
Qed.

(** So [protected] of [Router] is what the registration makes of it. *)
Lemma route_protected rt :
  rt ∈ routes → protected (rt_endpoint rt) = bool_decide (BearerToken ∈ rt_middleware rt).
Proof.
  assert (Forall (λ rt, protected (rt_endpoint rt) = bool_decide (BearerToken ∈ rt_middleware rt)) routes)
    as Hall by (apply (bool_decide_unpack _); by vm_compute).
  rewrite Forall_forall in Hall. apply Hall.
Qed.

(** ** URLs *)

Definition fill (id : list ascii) (seg : list ascii) : list ascii := if is_param seg then id else seg.

(** The path of a pattern for the parameter's value. *)
Definition url (pattern id : string) : string :=
  str (join_path (map (fill (chars id)) (split_all "/" (chars pattern)))).

Lemma fits_fill id ps :
  fits_segments ps (map (fill id) ps) = Some (if existsb is_param ps then id else []).
Proof.
  induction ps as [|p ps IH]; simpl; [done|]. rewrite IH. unfold fill.
  destruct (is_param p); simpl; [done|by rewrite bool_decide_true].
Qed.

Lemma fits_url pattern id :
  no_slash (chars id) → fits pattern (url pattern id) = Some (if has_param pattern then id else "").
Proof.
  intros Hid. unfold fits, url, has_param. rewrite chars_str, split_join.
  - rewrite fits_fill. simpl. destruct (existsb _ _); [by rewrite str_chars|done].
  - intros E%map_eq_nil. by apply split_all_ne in E.
  - rewrite List.Forall_map. eapply Forall_impl; [apply split_all_no_slash|].
    intros p Hp. unfold fill. by destruct (is_param p).
Qed.

(** A router finds a route of the table by its own URL. *)
Lemma chi_url `{Chi, !ChiOK} rt id :
  rt ∈ routes → no_slash (chars id) → id ≠ "" →
  chi_route routes (rt_method rt) (url (rt_pattern rt) id) =
    Some (rt, if has_param (rt_pattern rt) then id else "").
Proof.
  intros Hin Hs Hid. pose proof (fits_url (rt_pattern rt) id Hs) as Hf.
  destruct (chi_complete routes _ _ rt _ routes_plain Hin eq_refl Hf) as [[rt' id'] E].
  { destruct (has_param _); auto. }
  rewrite E. destruct (chi_sound _ _ _ _ _ routes_plain E) as (Hin'&Hm'&Hf').
  assert (rt' = rt) as ->; [|congruence].
  eapply apart_unique; [apply routes_apart|done|done|done|done|done].
Qed.

(** ** From the path to the answer *)

Section serving.
Context `{Env, Bcrypt, Jwt, Unicode, CaseFold} {R F : Type} `{!Redis R, !Storage F}.
Abbreviation S := (Server R F).

(** The handler a [Routes] function registers, without any middleware. *)
Definition handler_of (app : App) (tm : Times) (salt : Z) (e : endpoint) : Request → H S () :=
  match e with
  | GetHealthz => healthz
  | GetReadyz => readyz
  | PostAdminSnapshot => RunSnapshotAll (app_admin_token app)
  | PostRegister => Register (app_secret app) (tm_now tm) (tm_clock tm) salt
  | PostLogin => Login (app_secret app) (tm_now tm) (tm_clock tm)
  | _ => v1_handler tm e
  end.

Definition through (app : App) (tm : Times) (mw : middleware) (next : Request → H S ())
    : Request → H S () :=
  match mw with
  | AuthLimiter => IPMiddleware (app_auth_limiter app) (unix (tm_clock tm)) (tm_limit tm) next
  | BearerToken => AuthMiddleware (app_secret app) (tm_clock tm) next
  | UserLimiter => Middleware (app_limiter app) (unix (tm_clock tm)) (tm_limit tm) next
  end.

(** A route's handler inside its middleware. *)
Definition serve_route (app : App) (tm : Times) (salt : Z) (rt : route) : Request → H S () :=
  foldr (through app tm) (handler_of app tm salt (rt_endpoint rt)) (rt_middleware rt).

(** [routed] of [Router] is what the registration makes of each endpoint. *)
Lemma serve_route_routed app tm salt rt :
  rt ∈ routes → serve_route app tm salt rt = routed app tm salt (rt_endpoint rt).
Proof.
  intros Hin. unfold routes in Hin. repeat (apply elem_of_cons in Hin as [-> |Hin]; [reflexivity|]).
  by apply not_elem_of_nil in Hin.
Qed.

(** [chi.URLParam(r, "id")] of the handler is [id]. *)
Definition with_param (id : string) (r : Request) : Request :=
  mkRequest (rq_Method r) (rq_UserID r) id (rq_Query r) (rq_Header r) (rq_RemoteAddr r) (rq_Body r).

(** A request for a path; [None] when the router has no route for it. *)
Definition serve_path `{Chi} (app : App) (tm : Times) (salt : Z) (path : string) (r : Request) (s : S)
    : option (served * S) :=
  '(rt, id) ← chi_route routes (rq_Method r) path;
  Some (serve (CORSMiddleware (app_cors app) (serve_route app tm salt rt) (with_param id r)) s).

Context `{Chi, !ChiOK}.

Lemma serve_path_route app tm salt path r s rt id :
  chi_route routes (rq_Method r) path = Some (rt, id) →
  rt ∈ routes ∧ rt_method rt = rq_Method r ∧ fits (rt_pattern rt) path = Some id ∧
  serve_path app tm salt path r s = Some (respond app tm salt (rt_endpoint rt) (with_param id r) s).
Proof.
  intros E. destruct (chi_sound _ _ _ _ _ routes_plain E) as (Hin&Hm&Hf).
  split_and!; [done..|]. unfold serve_path. rewrite E. simpl.
  by rewrite (serve_route_routed app tm salt rt Hin).
Qed.

(** No route is for [OPTIONS]: what is dispatched is no preflight request. *)
Lemma dispatched_no_preflight path r rt id :
  chi_route routes (rq_Method r) path = Some (rt, id) → preflight (with_param id r) = false.
Proof.
  intros (Hin&Hm&_)%(chi_sound _ _ _ _ _ routes_plain).
  assert (Forall (λ rt, rt_method rt ≠ "OPTIONS") routes) as Hall
    by (apply (bool_decide_unpack _); by vm_compute).
  rewrite Forall_forall in Hall. apply Hall in Hin. unfold preflight. simpl.
  rewrite (bool_decide_false (rq_Method r = "OPTIONS")) by congruence. apply andb_false_r.
Qed.

Lemma serve_path_v1 app tm salt path r s rt id :
  chi_route routes (rq_Method r) path = Some (rt, id) → under_v1 path = true →
  caller (app_secret app) (tm_clock tm) r = None →
  ∃ x, serve_path app tm salt path r s = Some (Reply x, s) ∧ rs_Status x = StatusUnauthorized.
Proof.
  intros E Hv Hc. destruct (chi_sound _ _ _ _ _ routes_plain E) as (Hin&_&Hf).
  rewrite (route_under_v1 _ _ _ Hin Hf) in Hv. apply bool_decide_eq_true in Hv.
  pose proof (dispatched_no_preflight _ _ _ _ E) as Hp.
  unfold serve_path, serve_route. rewrite E. simpl.
  destruct (rt_middleware rt) as [|mw mws]; [done|]. injection Hv as ->. simpl.
  set (next := foldr _ _ mws).
  destruct (auth_refused (app_secret app) (tm_clock tm) next (with_param id r) s Hc) as (x&Hx&Hst).
  destruct (cors_next (app_cors app) (AuthMiddleware (app_secret app) (tm_clock tm) next)
    (with_param id r) s x Hp Hx) as (y&Hy&Hsy).
  exists y. rewrite Hy. split; [done|congruence].
Qed.

End serving.
