(* ===== verification/Metrics.v ===== *)
(** * Metrics ([internal/observability])

    The counters of [metrics.go] and [dbmetrics.go]: the HTTP middleware that counts
    requests by method, route and status, and the query tracer that counts statements
    by operation, text and outcome.  Durations are observed in histograms, of which
    only the number of observations is kept. *)
From S2P Require Import Prelude GoTime Effects Json Store Queries World Http Storage Server.
From S2P Require Import RateLimit Auth Middleware Handlers Exports Router Routes Statuses.
Local Open Scope Z_scope.

(** ** Counters *)

(** A vector of counters: the value of each list of labels ([prometheus.CounterVec],
    and the number of observations of a [HistogramVec]). *)
Abbreviation CounterVec := (gmap (list string) Z).

Definition value (c : CounterVec) (labels : list string) : Z := default 0 (c !! labels).

(** [c.WithLabelValues(labels...).Inc()] *)
Definition Inc (labels : list string) (c : CounterVec) : CounterVec :=
  <[labels := value c labels + 1]> c.

Definition count (labels : list string) (l : list (list string)) : Z :=
  Z.of_nat (length (List.filter (λ x, bool_decide (x = labels)) l)).

Lemma value_Inc labels c x :
  value (Inc labels c) x = value c x + (if bool_decide (labels = x) then 1 else 0).
Proof.
  unfold value, Inc. case_bool_decide as E.
  - subst. by rewrite lookup_insert_eq.
  - rewrite lookup_insert_ne by done. simpl. lia.
Qed.

(** After a sequence of increments, each counter has gone up by the number of its
    own. *)
Lemma value_incs l c x : value (foldl (λ c ls, Inc ls c) c l) x = value c x + count x l.
Proof.
  revert c. induction l as [|ls l IH]; intros c; simpl; [unfold count; simpl; lia|].
  rewrite IH, value_Inc. unfold count. simpl. case_bool_decide; simpl; lia.
Qed.

(** ** metrics.go *)

Record Metrics := mkMetrics {
  httpRequestsTotal : CounterVec; httpRequestDuration : CounterVec;
  dbQueryTotal : CounterVec; dbQueryDuration : CounterVec }.

Definition no_metrics : Metrics := mkMetrics ∅ ∅ ∅ ∅.

(** The status the wrapped writer has seen: 0 when nothing was written. *)
Definition ww_Status {A} (f : flow A) : Z :=
  match f with Done (Reply x) => rs_Status x | _ => 0 end.

Definition count_request (method route : string) (status : Z) (m : Metrics) : Metrics :=
  let route := if bool_decide (route = "") then "unknown" else route in
  mkMetrics (Inc [method; route; str (itoa status)] (httpRequestsTotal m))
    (Inc [method; route] (httpRequestDuration m)) (dbQueryTotal m) (dbQueryDuration m).

(** [observability.Middleware]: a panic passes through it uncounted.  [route] is the
    router's pattern for the request. *)
Definition metrics_middleware {S} (route : string) (next : Request → H S ()) (r : Request)
    : H (S * Metrics) () := λ '(s, m),
  let '(f, s') := next r s in
  match f with
  | Done Panicked => (f, (s', m))
  | _ => (f, (s', count_request (rq_Method r) route (ww_Status f) m))
  end.

(** ** dbmetrics.go *)

(** [unicode.ToUpper] of a rune above U+007F, and SHA-1 (20 bytes). *)
Class Observability := {
  u_upper : list ascii → list ascii;
  sha1_sum : string → list ascii
}.

Class ObservabilityOK `{Observability} : Prop := {
  sha1_length : ∀ s, length (sha1_sum s) = 20%nat
}.

Section tracer.
Context `{Observability}.

Definition upper_rune (r : rune) : list ascii :=
  match r with
  | Rune [c] => [if between 97 122 c then chr (code c - 32) else c]
  | Rune bs => u_upper bs
  | Bad _ => replacement
  end.

(** [strings.ToUpper] *)
Definition ToUpper (s : string) : string := str (concat (map upper_rune (runes (chars s)))).

Definition opOf (sql : string) : string :=
  let sql := TrimSpace sql in
  if bool_decide (sql = "") then "OTHER" else
  let up := ToUpper sql in
  if String.prefix "SELECT" up then "SELECT"
  else if String.prefix "INSERT" up then "INSERT"
  else if String.prefix "UPDATE" up then "UPDATE"
  else if String.prefix "DELETE" up then "DELETE"
  else "OTHER".

Definition hex_digit (n : Z) : ascii := if n <? 10 then chr (48 + n) else chr (97 + (n - 10)).

(** [hex.EncodeToString(sum[:8])] *)
Definition hashSQL (sql : string) : string :=
  str (concat (map (λ c, [hex_digit (code c `div` 16); hex_digit (code c `mod` 16)])
                 (take 8 (sha1_sum sql)))).

Record spanData := mkSpan { sp_start : Time; sp_op : string; sp_sqlh : string }.

(** The span that [TraceQueryStart] puts into the context of a query. *)
Definition TraceQueryStart (now : Time) (sql : string) : spanData := mkSpan now (opOf sql) (hashSQL sql).

(** [TraceQueryEnd], with the context's span ([None]: the context has none) and
    whether the query failed. *)
Definition TraceQueryEnd (span : option spanData) (failed : bool) (m : Metrics) : Metrics :=
  let s := default (mkSpan zero_time "" "") span in
  if IsZero (sp_start s) then m else
  mkMetrics (httpRequestsTotal m) (httpRequestDuration m)
    (Inc [sp_op s; sp_sqlh s; if failed then "error" else "ok"] (dbQueryTotal m))
    (Inc [sp_op s; sp_sqlh s] (dbQueryDuration m)).

(** A statement as the driver traces it. *)
Definition traced (now : Time) (sql : string) (failed : bool) (m : Metrics) : Metrics :=
  TraceQueryEnd (Some (TraceQueryStart now sql)) failed m.

Definition query_labels (q : Time * string * bool) : list string :=
  let '(_, sql, failed) := q in [opOf sql; hashSQL sql; if failed then "error" else "ok"].

(** Every statement is counted once, under its operation, text and outcome. *)
Lemma traced_counts qs m x :
  Forall (λ q, IsZero q.1.1 = false) qs →
  value (dbQueryTotal (foldl (λ m '(t, sql, failed), traced t sql failed m) m qs)) x =
  value (dbQueryTotal m) x + count x (map query_labels qs).
Proof.
  intros Hqs. revert m. induction Hqs as [|[[t sql] failed] qs Ht _ IH]; intros m.
  { unfold count. simpl. lia. }
  cbn [foldl map]. rewrite IH. simpl in Ht.
  assert (dbQueryTotal (traced t sql failed m) = Inc (query_labels (t, sql, failed)) (dbQueryTotal m))
    as -> by (unfold traced, TraceQueryEnd, TraceQueryStart; cbn -[IsZero opOf hashSQL]; by rewrite Ht).
  rewrite value_Inc. unfold count. cbn [List.filter].
  case_bool_decide; cbn [length]; lia.
Qed.

(** The labels are bounded: five operations, sixteen hexadecimal digits. *)
Lemma opOf_range sql : opOf sql ∈ ["SELECT"; "INSERT"; "UPDATE"; "DELETE"; "OTHER"].
Proof. unfold opOf. repeat case_match; set_solver. Qed.

Lemma hashSQL_length `{!ObservabilityOK} sql : length (chars (hashSQL sql)) = 16%nat.
Proof.
  unfold hashSQL. rewrite chars_str. pose proof (sha1_length sql) as Hl.
  assert (length (take 8 (sha1_sum sql)) = 8%nat) as Ht by (rewrite length_take; lia).
  revert Ht. generalize (take 8 (sha1_sum sql)). intros l Hlen.
  do 8 (destruct l as [|? l]; [done|]). by destruct l.
Qed.

End tracer.

(** ** The whole stack *)

Section observed.
Context `{Env, Bcrypt, Jwt, Unicode, CaseFold} {R F : Type} `{!Redis R, !Storage F}.
Abbreviation S := (Server R F).

(** [CORSMiddleware] is registered before the metrics, the groups' middleware
    after. *)
Definition observed (app : App) (tm : Times) (salt : Z) (rt : route) : Request → H (S * Metrics) () :=
  CORSMiddleware (app_cors app)
    (metrics_middleware (rt_pattern rt) (routed app tm salt (rt_endpoint rt))).

(** The labels under which a request is counted: none for a preflight request, which
    CORS answers, and for a panic. *)
Definition request_labels (rt : route) (r : Request) (x : served) : option (list string) :=
  if preflight r then None else
  match x with
  | Reply x => Some [rq_Method r; if bool_decide (rt_pattern rt = "") then "unknown" else rt_pattern rt;
                     str (itoa (rs_Status x))]
  | Panicked => None
  end.

Definition counted (ls : option (list string)) (c : CounterVec) : CounterVec :=
  match ls with Some ls => Inc ls c | None => c end.

(** The metrics change nothing else. *)
Lemma observed_respond app tm salt rt r s m :
  ∃ m', serve (observed app tm salt rt r) (s, m) =
    ((respond app tm salt (rt_endpoint rt) r s).1,
     ((respond (R:=R) (F:=F) app tm salt (rt_endpoint rt) r s).2, m')) ∧
    httpRequestsTotal m' = counted (request_labels rt r (respond app tm salt (rt_endpoint rt) r s).1)
                             (httpRequestsTotal m).
Proof.
  destruct (routed_finishes app tm salt (rt_endpoint rt) r) as [_ Hf]. specialize (Hf s).
  unfold respond, handle, observed, CORSMiddleware, request_labels, preflight.
  case_bool_decide; cbn [negb andb].
  - unfold serve, metrics_middleware. destruct (routed _ _ _ _ _ s) as [[[]|[x|]] s1]; simpl in *;
      [by destruct (Hf ())|by eexists|by eexists].
  - case_bool_decide; [by eexists|].
    unfold serve, with_headers, metrics_middleware.
    destruct (routed _ _ _ _ _ s) as [[[]|[x|]] s1]; simpl in *; [by destruct (Hf ())|by eexists|by eexists].
Qed.

(** A sequence of requests, with and without metrics. *)
Definition arrival : Type := Times * Z * route * Request.

Fixpoint respond_all (app : App) (rs : list arrival) (s : S) : list served * S :=
  match rs with
  | [] => ([], s)
  | (tm, salt, rt, r) :: rs =>
      let '(x, s1) := respond app tm salt (rt_endpoint rt) r s in
      let '(xs, s2) := respond_all app rs s1 in (x :: xs, s2)
  end.

Fixpoint observe_all (app : App) (rs : list arrival) (sm : S * Metrics) : list served * (S * Metrics) :=
  match rs with
  | [] => ([], sm)
  | (tm, salt, rt, r) :: rs =>
      let '(x, sm1) := serve (observed app tm salt rt r) sm in
      let '(xs, sm2) := observe_all app rs sm1 in (x :: xs, sm2)
  end.

Definition all_labels (rs : list arrival) (xs : list served) : list (list string) :=
  omap (λ '((_, _, rt, r), x), request_labels rt r x) (zip rs xs).

Lemma observe_all_counts app rs s m :
  ∃ m', observe_all app rs (s, m) = ((respond_all app rs s).1, ((respond_all app rs s).2, m')) ∧
    ∀ ls, value (httpRequestsTotal m') ls =
          value (httpRequestsTotal m) ls + count ls (all_labels rs (respond_all app rs s).1).
Proof.
  revert s m. induction rs as [|[[[tm salt] rt] r] rs IH]; intros s m.
  { exists m. split; [done|]. intros ls. unfold count. simpl. lia. }
  cbn [observe_all respond_all]. destruct (observed_respond app tm salt rt r s m) as (m1&->&Hm1).
  destruct (respond app tm salt (rt_endpoint rt) r s) as [x s1]. cbn [fst snd] in *.
  destruct (IH s1 m1) as (m2&->&Hm2). exists m2.
  destruct (respond_all app rs s1) as [xs s2]. cbn [fst snd] in *. split; [done|].
  intros ls. rewrite Hm2, Hm1. unfold all_labels. cbn [zip zip_with omap list_omap].
  destruct (request_labels rt r x) as [l|]; [|done]. unfold counted. rewrite value_Inc.
  unfold count. simpl. case_bool_decide; simpl; lia.
Qed.

End observed.
