(* ===== verification/Lifecycle.v ===== *)
(** * The life of the process ([cmd/ledgerx/main.go], [internal/repo/db.go])

    [main] from the environment to the exit: what it opens, which goroutines it
    starts, what wakes it up, what the deferred calls release and what nothing
    releases.  A run is the sequence of those events.  [log.Fatal] leaves the process
    without running the deferred calls; a panic runs them. *)
From S2P Require Import Prelude GoTime Effects Json Store Queries World Http Storage Server.
From S2P Require Import RateLimit Auth Middleware Handlers Exports Router.
Local Open Scope Z_scope.

Inductive component := CWorker | CScheduler | COutbox | CHttp.

#[global] Instance component_eq_dec : EqDecision component.
Proof. solve_decision. Defined.

(** What ends the wait of [main]: the cancelled context, or an error on [errCh], which
    the task worker, the scheduler and the HTTP server send to. *)
Inductive wakeup := BySignal | WorkerFailed | SchedulerFailed | HttpFailed.

#[global] Instance wakeup_eq_dec : EqDecision wakeup.
Proof. solve_decision. Defined.

Inductive event :=
  | NotifyContext | StopNotify
  | OpenLogger (production : bool) | SyncLogger
  | Info (msg : string) | Warn (msg : string) | ErrorMsg (msg : string) | FatalMsg (msg : string)
  | OpenPool | ClosePool
  | PingTimeout | CancelPing
  | NewRedisClient (addr : string) | OpenStorage
  | NewAdminClient (addr : string) | NewExportsClient (addr : string)
  | NewHTTPServer (addr : string)
  | Go (c : component) | Shutdown (c : component) (drained : bool)
  | RegisterMetrics | RegisterDBMetrics
  | Woken (w : wakeup)
  | ShutdownTimeout | CancelShutdown
  | HttpShutdown (graceful : bool).

#[global] Instance event_eq_dec : EqDecision event.
Proof. solve_decision. Defined.

(** ** Deferred calls *)

Inductive exited (A : Type) := Returned (a : A) | Fatal | Panic.
Arguments Returned {A} a. Arguments Fatal {A}. Arguments Panic {A}.

(** The events so far, and the deferred ones of the frame, the latest first. *)
Definition G (A : Type) : Type := list event * list event → exited A * (list event * list event).

Definition gret {A} (a : A) : G A := λ s, (Returned a, s).
Definition gbind {A B} (m : G A) (k : A → G B) : G B := λ s,
  match m s with
  | (Returned a, s) => k a s
  | (Fatal, s) => (Fatal, s)
  | (Panic, s) => (Panic, s)
  end.
Definition emit (e : event) : G () := λ '(tr, ds), (Returned (), (tr ++ [e], ds)).
Definition defer (e : event) : G () := λ '(tr, ds), (Returned (), (tr, e :: ds)).
Definition gpanic {A} : G A := λ s, (Panic, s).
(** [os.Exit] after the message. *)
Definition log_Fatal {A} (msg : string) : G A := λ '(tr, ds), (Fatal, (tr ++ [FatalMsg msg], ds)).

(** The body of a function: its deferred calls run when it returns or panics. *)
Definition frame {A} (m : G A) : G A := λ '(tr, ds),
  let '(x, (tr, mine)) := m (tr, []) in
  match x with Fatal => (Fatal, (tr, ds)) | _ => (x, (tr ++ mine, ds)) end.

Declare Scope main_scope.
Notation "'go!' x := m 'in' k" := (gbind m (λ x, k))
  (at level 10, x pattern, m at level 100, k at level 200) : main_scope.
Local Open Scope main_scope.

(** ** db.go *)

Record pool_config := mkPoolConfig {
  pc_url : string; pc_traced : bool; pc_MaxConns : Z; pc_MinConns : Z;
  pc_MaxConnLifetime : Z; pc_MaxConnIdleTime : Z }.

(** The libraries: parsing a connection string, opening a pool and reaching the
    database; creating the directory or loading the AWS configuration. *)
Class Startup := {
  ParseConfig : string → option pool_config;
  NewWithConfig : pool_config → bool;
  pool_Ping : pool_config → bool;
  storage_ready : StorageConfig → bool
}.

Section main.
Context `{Startup}.

Definition database_url (env : Environ) : string :=
  let url := env "DATABASE_URL" in
  if bool_decide (url = "") then
    if bool_decide (env "APP_ENV" = "docker") then env "DATABASE_URL_DOCKER"
    else env "DATABASE_URL_LOCAL"
  else url.

Definition tuned (cfg : pool_config) : pool_config :=
  mkPoolConfig (pc_url cfg) true 10 2 (3600 * sec_ns) (600 * sec_ns).

Definition MustOpenPool (env : Environ) : G pool_config := frame (
  match ParseConfig (database_url env) with
  | None => gpanic
  | Some cfg =>
      let cfg := tuned cfg in
      if NewWithConfig cfg then
        go! _ := emit OpenPool in
        go! _ := emit PingTimeout in
        go! _ := defer CancelPing in
        if pool_Ping cfg then gret cfg else gpanic
      else gpanic
  end).

(** ** logging.go *)

(** Whether the production logger is chosen. *)
Definition MustLogger (env : string) : bool := negb (bool_decide (env = "dev")).

(** ** main.go *)

(** The Auth block: the key that is installed. *)
Definition auth_setup (env : Environ) : G string :=
  let secret := env "JWT_SIGNING_KEY" in
  go! secret :=
    (if bool_decide (secret = "") then
       if negb (bool_decide (getenv env "APP_ENV" "dev" = "dev"))
       then log_Fatal "JWT_SIGNING_KEY is required outside dev"
       else go! _ := emit (Warn "JWT_SIGNING_KEY not set; using insecure dev secret") in
            gret "dev-only-insecure-secret"
     else gret secret) in
  match InitAuth secret with None => log_Fatal "auth init" | Some key => gret key end.

Definition storage_setup (env : Environ) : G StorageConfig :=
  match FromEnv env with
  | None => log_Fatal "storage init"
  | Some cfg => if storage_ready cfg then gret cfg else log_Fatal "storage init"
  end.

(** [main] returns the application it has served ([Router] and [Routes] say how it
    answers).  [env] is the environment after [godotenv.Load], [wake] what ended the
    wait, [graceful] whether [srv.Shutdown] came to an end within its ten seconds,
    [drained] whether the task worker's running tasks did within the queue library's
    shutdown timeout. *)
Definition main (env : Environ) (wake : wakeup) (graceful drained : bool) : G App := frame (
  go! _ := emit NotifyContext in
  go! _ := defer StopNotify in
  go! _ := emit (OpenLogger (MustLogger (getenv env "APP_ENV" "dev"))) in
  go! _ := defer SyncLogger in
  go! secret := auth_setup env in
  go! _ := MustOpenPool env in
  go! _ := defer ClosePool in
  let redisAddr := getenv env "REDIS_ADDR" "localhost:6379" in
  go! _ := emit (NewRedisClient redisAddr) in
  go! store := storage_setup env in
  go! _ := emit OpenStorage in
  go! _ := emit (Go CWorker) in
  go! _ := defer (Shutdown CWorker drained) in
  go! _ := emit (Go CScheduler) in
  go! _ := defer (Shutdown CScheduler true) in
  go! _ := emit (Go COutbox) in
  go! _ := emit RegisterMetrics in
  go! _ := emit RegisterDBMetrics in
  go! _ := emit (NewAdminClient redisAddr) in
  go! _ := emit (NewExportsClient redisAddr) in
  let app := build_app env secret store in
  go! _ := emit (NewHTTPServer (getenv env "HTTP_ADDR" ":8080")) in
  go! _ := emit (Go CHttp) in
  go! _ := emit (Woken wake) in
  go! _ := emit (match wake with
                 | BySignal => Info "shutdown signal received"
                 | _ => ErrorMsg "component failed, shutting down"
                 end) in
  go! _ := emit ShutdownTimeout in
  go! _ := defer CancelShutdown in
  go! _ := emit (HttpShutdown graceful) in
  go! _ := (if graceful then gret () else emit (ErrorMsg "http shutdown")) in
  gret app).

Definition run_main (env : Environ) (wake : wakeup) (graceful drained : bool)
    : exited App * list event :=
  let '(x, (tr, _)) := main env wake graceful drained ([], []) in (x, tr).

(** ** When it starts *)

Definition pool_opens (env : Environ) : bool :=
  match ParseConfig (database_url env) with
  | Some cfg => NewWithConfig (tuned cfg) && pool_Ping (tuned cfg)
  | None => false
  end.

(** The application to serve, when there is one. *)
Definition startup (env : Environ) : option App :=
  app ← configure env;
  if pool_opens env && storage_ready (app_storage app) then Some app else None.

(** ** What is held and what is running *)

(** What [main] has to give back: contexts with their timers, the logger's buffer,
    connections, and the components it starts. *)
Inductive resource :=
  | RSignalContext | RLogger | RPool | RPingContext | RRedisClient
  | RAdminClient | RExportsClient | RShutdownContext
  | RComponent (c : component).

#[global] Instance resource_eq_dec : EqDecision resource.
Proof. solve_decision. Defined.

Definition acquires (e : event) : option resource :=
  match e with
  | NotifyContext => Some RSignalContext
  | OpenLogger _ => Some RLogger
  | OpenPool => Some RPool
  | PingTimeout => Some RPingContext
  | NewRedisClient _ => Some RRedisClient
  | NewAdminClient _ => Some RAdminClient
  | NewExportsClient _ => Some RExportsClient
  | ShutdownTimeout => Some RShutdownContext
  | Go c => Some (RComponent c)
  | _ => None
  end.

(** A component is given back when it has come to an end: a shutdown that runs into
    its timeout leaves it running, and a cancelled context only asks it to end. *)
Definition gives_back (e : event) : option resource :=
  match e with
  | StopNotify => Some RSignalContext
  | SyncLogger => Some RLogger
  | ClosePool => Some RPool
  | CancelPing => Some RPingContext
  | CancelShutdown => Some RShutdownContext
  | Shutdown c true => Some (RComponent c)
  | HttpShutdown true => Some (RComponent CHttp)
  | _ => None
  end.

(** What is held after an event, the latest first. *)
Definition observe (e : event) (held : list resource) : list resource :=
  match acquires e with
  | Some r => r :: held
  | None =>
      match gives_back e with
      | Some r => List.filter (λ r', negb (bool_decide (r' = r))) held
      | None => held
      end
  end.

Fixpoint states (held : list resource) (tr : list event) : list (list resource) :=
  match tr with [] => [held] | e :: tr => held :: states (observe e held) tr end.

(** What is held before, between and after the events of a run, and at its end. *)
Definition history (tr : list event) : list (list resource) := states [] tr.
Definition held_after (tr : list event) : list resource := foldl (λ held e, observe e held) [] tr.

(** Whenever the component may be running, the pool is open. *)
Definition has_pool (c : component) (tr : list event) : bool :=
  forallb (λ held, bool_decide (RPool ∈ held) || negb (bool_decide (RComponent c ∈ held))) (history tr).

(** The context of the outbox worker is cancelled by the signal, or by [stop]. *)
Definition cancels (e : event) : bool :=
  match e with Woken BySignal | StopNotify => true | _ => false end.

(** The context is cancelled before the pool is closed. *)
Fixpoint cancelled_first (tr : list event) : bool :=
  match tr with
  | [] => false
  | e :: tr => cancels e || (negb (bool_decide (e = ClosePool)) && cancelled_first tr)
  end.

(** The deferred releases, in any outcome of a shutdown. *)
Definition deferred (e : event) : option resource :=
  match e with
  | Shutdown c _ => Some (RComponent c)
  | HttpShutdown _ => None
  | _ => gives_back e
  end.

(** The deferred calls release, in the reverse order of the acquisitions, everything
    but what nothing releases: a deferred release is of the latest acquisition that is
    not yet released, the resources [kept] apart. *)
Fixpoint nested (kept open : list resource) (tr : list event) : bool :=
  match tr with
  | [] => bool_decide (open = [])
  | e :: tr =>
      match acquires e, deferred e with
      | Some r, _ => nested kept (if bool_decide (r ∈ kept) then open else r :: open) tr
      | None, Some r =>
          match open with
          | r' :: open => bool_decide (r = r') && nested kept open tr
          | [] => false
          end
      | None, None => nested kept open tr
      end
  end.

(** ** Stage by stage *)

Definition starts (e : event) : bool := match e with Go _ => true | _ => false end.

Definition auth_events (env : Environ) : list event :=
  if bool_decide (env "JWT_SIGNING_KEY" = "") then
    if negb (bool_decide (getenv env "APP_ENV" "dev" = "dev"))
    then [FatalMsg "JWT_SIGNING_KEY is required outside dev"]
    else [Warn "JWT_SIGNING_KEY not set; using insecure dev secret"]
  else [].

Lemma auth_setup_eq env tr ds :
  auth_setup env (tr, ds) =
    match signing_key env with
    | Some key => (Returned key, (tr ++ auth_events env, ds))
    | None => (Fatal, (tr ++ auth_events env, ds))
    end.
Proof.
  unfold auth_setup, signing_key, auth_events, gbind, log_Fatal, emit, gret, InitAuth.
  case_bool_decide; [destruct (negb _); [done|by vm_compute]|].
  rewrite bool_decide_false by done. by rewrite app_nil_r.
Qed.

Lemma MustOpenPool_eq env tr ds :
  ∃ opened, MustOpenPool env (tr, ds) =
    (if pool_opens env
     then (Returned (tuned (default (mkPoolConfig "" false 0 0 0 0) (ParseConfig (database_url env)))),
           (tr ++ [OpenPool; PingTimeout; CancelPing], ds))
     else (Panic, (tr ++ opened, ds))) ∧
    forallb (λ e, negb (starts e)) opened = true.
Proof.
  unfold MustOpenPool, frame, pool_opens, gbind, emit, defer, gret, gpanic.
  destruct (ParseConfig _) as [cfg|]; simpl; [|exists []; by rewrite !app_nil_r].
  destruct (NewWithConfig _); simpl; [|exists []; by rewrite !app_nil_r].
  destruct (pool_Ping _); simpl; rewrite <- !app_assoc; simpl; [by exists []|].
  by exists [OpenPool; PingTimeout; CancelPing].
Qed.

Lemma storage_setup_eq env tr ds :
  storage_setup env (tr, ds) =
    match FromEnv env with
    | Some cfg => if storage_ready cfg then (Returned cfg, (tr, ds))
                  else (Fatal, (tr ++ [FatalMsg "storage init"], ds))
    | None => (Fatal, (tr ++ [FatalMsg "storage init"], ds))
    end.
Proof. unfold storage_setup. destruct (FromEnv env); [by destruct (storage_ready _)|done]. Qed.

(** The events of a run that gets to the end. *)
Definition full_run (env : Environ) (wake : wakeup) (graceful drained : bool) : list event :=
  let redisAddr := getenv env "REDIS_ADDR" "localhost:6379" in
  [NotifyContext; OpenLogger (MustLogger (getenv env "APP_ENV" "dev"))] ++ auth_events env
  ++ [OpenPool; PingTimeout; CancelPing; NewRedisClient redisAddr;
      OpenStorage; Go CWorker; Go CScheduler; Go COutbox; RegisterMetrics; RegisterDBMetrics;
      NewAdminClient redisAddr; NewExportsClient redisAddr;
      NewHTTPServer (getenv env "HTTP_ADDR" ":8080"); Go CHttp; Woken wake;
      (match wake with
       | BySignal => Info "shutdown signal received"
       | _ => ErrorMsg "component failed, shutting down"
       end); ShutdownTimeout; HttpShutdown graceful]
  ++ (if graceful then [] else [ErrorMsg "http shutdown"])
  ++ [CancelShutdown; Shutdown CScheduler true; Shutdown CWorker drained; ClosePool; SyncLogger;
      StopNotify].

Lemma gbind_emit {A} e (k : () → G A) tr ds : gbind (emit e) k (tr, ds) = k () (tr ++ [e], ds).
Proof. done. Qed.

Lemma gbind_defer {A} e (k : () → G A) tr ds : gbind (defer e) k (tr, ds) = k () (tr, e :: ds).
Proof. done. Qed.

Lemma gbind_eq {A B} (m : G A) (k : A → G B) s :
  gbind m k s = match m s with
                | (Returned a, s) => k a s | (Fatal, s) => (Fatal, s) | (Panic, s) => (Panic, s)
                end.
Proof. done. Qed.

(** A run that ends before anything was started: with the message of [log.Fatal], or
    with a panic, after which the logger is synced and the signals are released. *)
Definition stillborn (r : exited App * list event) : Prop :=
  (∀ c, Go c ∉ r.2) ∧
  ((r.1 = Fatal ∧ ∃ tr msg, r.2 = tr ++ [FatalMsg msg]) ∨
   (r.1 = Panic ∧ ∃ tr, r.2 = tr ++ [SyncLogger; StopNotify])).

Lemma none_started tr : forallb (λ e, negb (starts e)) tr = true → ∀ c, Go c ∉ tr.
Proof. rewrite forallb_forall. intros Hs c Hc%list_elem_of_In. by apply Hs in Hc. Qed.

Lemma stillborn_fatal tr msg :
  forallb (λ e, negb (starts e)) tr = true → stillborn (Fatal, tr ++ [FatalMsg msg]).
Proof.
  intros Hs. split; [|left; eauto]. apply none_started. cbn [snd]. by rewrite forallb_app, Hs.
Qed.

Lemma stillborn_panic tr :
  forallb (λ e, negb (starts e)) tr = true → stillborn (Panic, tr ++ [SyncLogger; StopNotify]).
Proof.
  intros Hs. split; [|right; eauto]. apply none_started. cbn [snd]. by rewrite forallb_app, Hs.
Qed.

Lemma auth_events_fatal env :
  signing_key env = None → auth_events env = [FatalMsg "JWT_SIGNING_KEY is required outside dev"].
Proof.
  unfold signing_key, auth_events, InitAuth.
  case_bool_decide; [by destruct (negb _)|done].
Qed.

Lemma run_main_cases env wake graceful drained :
  match startup env with
  | Some app => run_main env wake graceful drained = (Returned app, full_run env wake graceful drained)
  | None => stillborn (run_main env wake graceful drained)
  end.
Proof.
  unfold startup, configure, run_main, main, full_run, frame.
  assert (forallb (λ e, negb (starts e)) (auth_events env) = true) as Hauth
    by (unfold auth_events; by repeat case_match).
  rewrite gbind_emit, gbind_defer, gbind_emit, gbind_defer, gbind_eq, auth_setup_eq.
  destruct (signing_key env) as [key|] eqn:Ekey; cbn [mbind option_bind fst snd].
  2: { rewrite (auth_events_fatal env Ekey). by apply (stillborn_fatal [_; _]). }
  rewrite gbind_eq. destruct (MustOpenPool_eq env (([] ++ [NotifyContext]) ++
    [OpenLogger (MustLogger (getenv env "APP_ENV" "dev"))] ++ auth_events env) [SyncLogger; StopNotify])
    as (opened&Eq&Hopened). rewrite <- !app_assoc in *. rewrite Eq.
  destruct (pool_opens env); cbn [andb fst snd].
  2: { destruct (FromEnv env); cbn [mbind option_bind]; apply stillborn_panic;
         by rewrite !forallb_app, Hauth, Hopened. }
  rewrite gbind_defer. cbv zeta. rewrite gbind_emit, gbind_eq, storage_setup_eq.
  destruct (FromEnv env) as [cfg|]; cbn [mbind option_bind fst snd].
  2: { apply stillborn_fatal. by rewrite !forallb_app, Hauth. }
  cbn [app_storage build_app]. destruct (storage_ready cfg); cbn [fst snd].
  2: { apply stillborn_fatal. by rewrite !forallb_app, Hauth. }
  unfold gbind, emit, defer, gret. destruct graceful; rewrite <- !app_assoc; reflexivity.
Qed.

End main.
