(* ===== verification/Examples.v ===== *)
(** * A concrete run

    The states of a small deployment in UTC with Redis as a finite map: a user
    with two accounts, an income, a transfer, a reversal.  The witnesses of the
    theorems evaluate the definitions on them. *)
From S2P Require Import Prelude GoTime Effects Json JsonStruct Store Queries World Summary Dto.
From S2P Require Import Transactions TxRun TxSpec Invariant Posting Growth Ledger Services.
From S2P Require Import Balance Outbox Tables System.
Local Open Scope Z_scope.

#[global] Existing Instance utc_env.
#[global] Existing Instance utc_env_ok.

Abbreviation demo_world := (World map_redis).

(** Wednesday 2023-11-15, 22:13:20 UTC, in microseconds. *)
Definition demo_now : Z := 1700086400000000.

Definition demo_empty : demo_world := init (∅ : gmap string (string * option Z)).

Definition demo_create : CreateInput :=
  mkCreateInput 1 1 50000 "USD" (mkTime 1700000000123456789 3600) "salary" "key-1".
Definition demo_transfer : TransferInput :=
  mkTransferInput 1 1 2 12000 "USD" (mkTime 1700000100000000000 0) "" "key-2".
Definition demo_reverse : ReverseInput := mkReverseInput 1 2 "key-3".

Definition demo_ops : list (Z * op) :=
  [(demo_now, OpRegister "a@example.com" "hash");
   (demo_now + 1, OpAccount 1 "Cash" "USD");
   (demo_now + 2, OpAccount 1 "Bank" "USD");
   (demo_now + 3, OpCreate demo_create);
   (demo_now + 4, OpTransfer demo_transfer)].

Definition run_ops (ops : list (Z * op)) (w : demo_world) : demo_world :=
  foldl (λ w '(now, o), run_op now o (with_faults [] w)) w ops.

(** A user and two accounts. *)
Definition demo_accounts : demo_world := run_ops (take 3 demo_ops) demo_empty.
(** And an income and a transfer. *)
Definition demo_ledger : demo_world := run_ops demo_ops demo_empty.

Definition demo_last : Z := demo_now + 4.

Lemma op_ok_int64 now i : bool_decide (int64 (ci_AmountMinor i)) = true → op_ok now (OpCreate i).
Proof. by intros ?%bool_decide_eq_true. Qed.

(** A list of operations in the order of time is a run of the system. *)
Lemma run_ops_reachable ops : ∀ last (w : demo_world) s0,
  rtc step s0 (last, w) →
  (∀ now o, (now, o) ∈ ops → op_ok now o) → Sorted Z.le (last :: map fst ops) →
  rtc step s0 (List.last (map fst ops) last, run_ops ops w).
Proof.
  induction ops as [|[now o] ops IH]; intros last w s0 Hr Hok Hs; [done|].
  apply Sorted_inv in Hs as [Hs Hle]. simpl. 
  replace (match map fst ops with [] => now | _ :: _ => List.last (map fst ops) last end)
    with (List.last (map fst ops) now).
  - apply IH.
    + eapply rtc_r; [exact Hr|]. constructor; [by inversion Hle|]. apply Hok. by left.
    + intros now' o' Hin. apply Hok. by right.
    + exact Hs.
  - destruct (map fst ops) as [|z l]; [done|]. clear. revert z. induction l; intros z; [done|].
    simpl in *. auto.
Qed.

Lemma demo_ops_ok now o : (now, o) ∈ demo_ops → op_ok now o.
Proof.
  intros Hin. repeat (apply elem_of_cons in Hin as [[= -> ->]|Hin]); simpl; try done;
    [unfold int64, min_int64, max_int64; simpl; lia..|]. by apply not_elem_of_nil in Hin.
Qed.

Ltac sorted_Z :=
  unfold demo_ops, demo_now; cbn [map take fst];
  repeat first [apply Sorted_nil | apply Sorted_cons | apply HdRel_nil | apply HdRel_cons]; lia.

Lemma demo_ledger_reachable : reachable demo_now ∅ (demo_last, demo_ledger).
Proof.
  apply (run_ops_reachable demo_ops demo_now demo_empty); [done|apply demo_ops_ok|].
  sorted_Z.
Qed.

Lemma demo_accounts_reachable : reachable demo_now ∅ (demo_now + 2, demo_accounts).
Proof.
  apply (run_ops_reachable (take 3 demo_ops) demo_now demo_empty); [done| |].
  - intros now o Hin. apply demo_ops_ok. set_solver.
  - sorted_Z.
Qed.

Lemma demo_start : enc_ts (t_ns zero_time) < demo_now.
Proof. vm_compute. done. Qed.

Lemma demo_ledger_ok : world_ok demo_ledger.
Proof. exact (reachable_world_ok _ _ _ _ demo_start demo_ledger_reachable). Qed.

Lemma demo_accounts_ok : world_ok demo_accounts.
Proof. exact (reachable_world_ok _ _ _ _ demo_start demo_accounts_reachable). Qed.

(** The income of [demo_ops], but with the reply to its commit lost: eleven requests
    are answered, the twelfth is the commit. *)
Definition demo_lost : demo_world :=
  with_faults (replicate 11 NoFault ++ [ReplyLost]) demo_accounts.
Definition demo_lost' : demo_world := (Create (demo_now + 3) demo_create demo_lost).2.

(** The ledger after the transfer has been reversed. *)
Definition demo_reversed : demo_world :=
  (Reverse (demo_now + 5) (1000 * (demo_now + 5)) demo_reverse (with_faults [] demo_ledger)).2.

Lemma demo_lost_ok : world_ok demo_lost.
Proof. exact (world_ok_faults _ _ demo_accounts_ok). Qed.

Lemma demo_reversed_ok : world_ok demo_reversed.
Proof.
  exact (Reverse_ok _ _ _ _ _ _ (world_ok_faults [] _ demo_ledger_ok) (surjective_pairing _)).
Qed.

(** Two worlds with different numbers of transactions have different tables. *)
Lemma tables_differ (t t' : Tables) :
  length (transactions t) ≠ length (transactions t') → t' ≠ t.
Proof. intros Hl E. apply Hl. by rewrite E. Qed.
