(* ===== verification/ApiExamples.v ===== *)
(** * A concrete server

    Instances of the libraries the API uses, which satisfy their laws, and a session
    over HTTP on them: a user registers, opens two accounts, records an income and
    a transfer, and asks for an export, which a worker builds. *)
From S2P Require Import Prelude GoTime Effects Json JsonStruct Store Queries World Summary Dto.
From S2P Require Import Transactions TxRun TxSpec Invariant Posting Growth Ledger Services.
From S2P Require Import Balance Outbox Tables System Examples.
From S2P Require Import Http Storage Float Server RateLimit Auth Middleware Handlers Exports Router.
From S2P Require Import ApiSystem.
Local Open Scope Z_scope.

(** ** Libraries *)

#[global] Instance toy_bcrypt : Bcrypt := {|
  bcrypt_generate pw salt :=
    if decide (length (chars pw) ≤ 72)%nat then Some ("$" +:+ pw) else None;
  bcrypt_compare hash pw := bool_decide (hash = "$" +:+ pw)
|}.

#[global] Instance toy_bcrypt_ok : BcryptOK.
Proof.
  split; simpl.
  - intros pw salt. destruct (decide _); split; try done; by intros [].
  - intros pw salt h E. destruct (decide _); [|done]. injection E as <-. by apply bool_decide_true.
Qed.

(** A token is the secret and the claims, in binary. *)
Fixpoint bits (p : positive) : list ascii :=
  match p with xH => [] | xO p => "0"%char :: bits p | xI p => "1"%char :: bits p end.
Fixpoint unbits (l : list ascii) : positive :=
  match l with
  | [] => xH
  | c :: l => if decide (c = "0"%char) then xO (unbits l) else xI (unbits l)
  end.

Lemma unbits_bits p : unbits (bits p) = p.
Proof. induction p as [p IH|p IH|]; simpl; by rewrite ?IH. Qed.

Definition toy_token (secret : string) (claims : list (string * Z)) : string :=
  str (bits (encode (secret, claims))).

Definition toy_claims (tok : string) : option (string * list (string * Z)) :=
  decode (unbits (chars tok)).

Lemma toy_claims_token secret claims : toy_claims (toy_token secret claims) = Some (secret, claims).
Proof. unfold toy_claims, toy_token. by rewrite chars_str, unbits_bits, decode_encode. Qed.

Definition toy_exp (claims : list (string * Z)) : option Z :=
  snd <$> find (λ kv, bool_decide (kv.1 = "exp")) claims.

#[global] Instance toy_jwt : Jwt := {|
  jwt_sign secret claims := Some (toy_token secret claims);
  jwt_parse secret now tok :=
    '(key, claims) ← toy_claims tok;
    exp ← toy_exp claims;
    if bool_decide (key = secret) && (now <? exp * sec_ns)
    then Some (prod_map id (λ z, CFloat (mkFloat (f64 z) 0)) <$> claims) else None
|}.

#[global] Instance toy_jwt_ok : JwtOK.
Proof.
  split; simpl.
  - by eexists.
  - intros secret uid exp tok now [= <-] Hlt. rewrite toy_claims_token. simpl.
    rewrite bool_decide_true by done. simpl. destruct (Z.ltb_spec now (exp * sec_ns)); [done|lia].
  - intros secret uid exp tok now [= <-] Hlt. rewrite toy_claims_token. simpl.
    rewrite bool_decide_true by done. simpl. destruct (Z.ltb_spec now (exp * sec_ns)); [lia|done].
Qed.

#[global] Instance toy_unicode : Unicode := {| u_lower bs := bs |}.
#[global] Instance toy_fold : CaseFold := {| u_fold _ _ := false |}.

(** ** The session *)

Abbreviation demo_server := (Server map_redis Local).

Definition demo_env (k : string) : string :=
  if bool_decide (k = "JWT_SIGNING_KEY") then "s3cret"
  else if bool_decide (k = "ADMIN_TOKEN") then "letmein" else "".

Definition demo_app : App :=
  default (mkApp "" "" "" (NewRateLimiter 0 0) (NewRateLimiter 0 0) (ConfigLocal ""))
    (configure demo_env).

Example demo_app_eq :
  configure demo_env = Some (mkApp "s3cret" "letmein" "" (NewRateLimiter 10 1) (NewRateLimiter 10 1)
                               (ConfigLocal "./tmp/exports")).
Proof. vm_compute. done. Qed.

Definition demo_times (now : Z) : Times := mkTimes now (1000 * now) now now now.

Definition demo_token : string := toy_token "s3cret" (jwt_claims (1000 * demo_now) 1).

Definition demo_request (id : string) (query : Values) (body : list (string * json)) : Request :=
  mkRequest "POST" None id query [("Authorization", "Bearer " +:+ demo_token)] "10.0.0.1:5000"
    (json_text (JObj body)).

Definition demo_credentials : list (string * json) :=
  [("email", JStr " Ann@Example.com "); ("password", JStr "correct horse")].

Definition demo_session : list (endpoint * Request) :=
  [(PostRegister, demo_request "" [] demo_credentials);
   (PostAccounts, demo_request "" [] [("name", JStr "Cash")]);
   (PostAccounts, demo_request "" [] [("name", JStr "Bank"); ("currency", JStr "USD")]);
   (PostTransactions, demo_request "" []
      [("account_id", JInt 1); ("amount_minor", JInt 50000); ("currency", JStr "USD");
       ("occurred_at", JStr "2023-11-14T23:13:20.123456789+01:00"); ("note", JStr "salary")]);
   (PostTransfers, demo_request "" []
      [("from_account_id", JInt 1); ("to_account_id", JInt 2); ("amount_minor", JInt 12000);
       ("currency", JStr "USD"); ("occurred_at", JStr "2023-11-14T22:15:00Z")]);
   (PostExports, demo_request "" [("month", "2023-11")] [])].

Fixpoint serve_all (start : Z) (rs : list (endpoint * Request)) (s : demo_server)
    : Z * demo_server * list (option Z) :=
  match rs with
  | [] => (start, s, [])
  | (e, r) :: rs =>
      let '(x, s1) := respond demo_app (demo_times (start + 1)) 0 e r (set_faults [] s) in
      let '(last, s2, out) := serve_all (start + 1) rs s1 in
      (last, s2, status_of x :: out)
  end.

Definition demo_server0 : demo_server :=
  server_init (∅ : gmap string (string * option Z)) (mkLocal "./tmp/exports" ∅).

(** After the requests, and after the worker. *)
Definition demo_served : demo_server := (serve_all demo_now demo_session demo_server0).1.2.
Definition demo_busy : Z := demo_now + 6.

Example demo_statuses :
  (serve_all demo_now demo_session demo_server0).2 =
  [Some StatusCreated; Some StatusCreated; Some StatusCreated; Some StatusCreated;
   Some StatusCreated; Some StatusAccepted].
Proof. vm_compute. done. Qed.

Lemma serve_all_run rs : ∀ start s p,
  rtc (sstep demo_app) p (start, s) → rtc (sstep demo_app) p (serve_all start rs s).1.
Proof.
  induction rs as [|[e r] rs IH]; intros start s p Hr; [done|]. simpl.
  pose proof (ss_request demo_app start (demo_times (start + 1)) 0 e r [] s ltac:(simpl; lia)) as Hst.
  destruct (respond _ _ _ _ _ _) as [x s'] eqn:E. 
  specialize (IH (start + 1) s' p). destruct (serve_all _ _ _) as [[last s2] out].
  apply IH. eapply rtc_r; [exact Hr|exact Hst].
Qed.

Lemma demo_served_reachable :
  server_reachable demo_app demo_now ∅ (mkLocal "./tmp/exports" ∅) (demo_busy, demo_served).
Proof.
  assert (demo_busy = (serve_all demo_now demo_session demo_server0).1.1) as -> by (by vm_compute).
  unfold demo_served. rewrite <- surjective_pairing. apply serve_all_run, rtc_refl.
Qed.

(** The first account of the session, and a request of somebody else. *)
Definition demo_cash : Account := mkAccount 1 1 "Cash" "USD" true 1700086400000002 "normal".

Lemma demo_cash_In : demo_cash ∈ accounts (w_tab (sv_world demo_served)).
Proof. apply (list_elem_of_lookup_2 _ 0). by vm_compute. Qed.

Definition foreign_request (id : string) (body : list (string * json)) : Request :=
  mkRequest "POST" None id []
    [("Authorization", "Bearer " +:+ toy_token "s3cret" (jwt_claims (1000 * demo_now) 2))]
    "10.0.0.2:5000" (json_text (JObj body)).

Definition foreign_payment : Request :=
  foreign_request "" [("account_id", JInt 1); ("amount_minor", JInt (-50000)); ("currency", JStr "USD");
                      ("occurred_at", JStr "2023-11-15T12:00:00Z")].

Definition response (x : served) : Response :=
  match x with Reply r => r | Panicked => mkResponse 0 [] "" end.

Lemma response_eq {A} (p : served * A) : status_of p.1 ≠ None → p = (Reply (response p.1), p.2).
Proof. by destruct p as [[]]. Qed.

(** A transfer to an account that does not exist. *)
Definition lost_transfer : Request :=
  demo_request "" [] [("from_account_id", JInt 1); ("to_account_id", JInt 9); ("amount_minor", JInt 1);
                      ("currency", JStr "USD"); ("occurred_at", JStr "2023-11-15T12:00:00Z")].

(** The session goes on: another income, dated between the two entries. *)
Definition demo_more : demo_server :=
  (serve_all demo_busy
    [(PostTransactions, demo_request "" []
        [("account_id", JInt 1); ("amount_minor", JInt 700); ("currency", JStr "USD");
         ("occurred_at", JStr "2023-11-14T22:14:00Z")])] demo_served).1.2.

Lemma demo_more_run : rtc (sstep demo_app) (demo_busy, demo_served) (demo_busy + 1, demo_more).
Proof.
  unfold demo_more. match goal with |- context [serve_all ?n ?rs ?s] =>
    assert (n + 1 = (serve_all n rs s).1.1) as -> by (by vm_compute) end.
  rewrite <- surjective_pairing. apply serve_all_run, rtc_refl.
Qed.

Lemma demo_served_ok : world_ok (sv_world demo_served).
Proof. exact (server_world_ok _ _ _ _ _ _ demo_start demo_served_reachable). Qed.
