(* ===== verification/LedgerProps.v ===== *)
(** * Theorems about the ledger operations

    What the double-entry core promises: every reachable state satisfies the
    ledger invariant; money is conserved; a request is posted at most once however
    the network behaves; each operation posts what its arguments say; errors change
    nothing; reversals undo and happen once. *)
From S2P Require Import Prelude GoTime Effects Json JsonStruct Store Queries World Summary Dto.
From S2P Require Import Transactions TxRun TxSpec Invariant Posting Growth Ledger Services.
From S2P Require Import Balance Outbox Tables System Progress Idempotency Examples.
Local Open Scope Z_scope.
Local Open Scope ledger_scope.

(** ** Sums over accounts *)

Lemma sum_filter_disjoint {A} (f : A → Z) (p q : A → bool) l :
  (∀ a, p a = true → q a = true → False) →
  sumZ (map f (List.filter (λ a, p a || q a) l)) =
  sumZ (map f (List.filter p l)) + sumZ (map f (List.filter q l)).
Proof.
  intros Hd. induction l as [|a l IH]; simpl; [done|].
  destruct (p a) eqn:Hp, (q a) eqn:Hq; simpl; try lia. by destruct (Hd a).
Qed.

(** Grouping by a key with distinct values. *)
Lemma sum_groups {A} (f key : A → Z) ids l :
  NoDup ids →
  sumZ (map (λ id, sumZ (map f (List.filter (λ a, key a =? id) l))) ids) =
  sumZ (map f (List.filter (λ a, existsb (λ id, key a =? id) ids) l)).
Proof.
  induction 1 as [|id ids Hid _ IH]; simpl.
  - by rewrite filter_none by (apply Forall_true; done).
  - rewrite IH, sum_filter_disjoint; [done|]. intros a H1 H2.
    apply existsb_In in H2 as (id'&Hin&?). assert (id = id') as -> by lia. done.
Qed.

Definition user_accounts (uid : Z) (t : Tables) : list Account :=
  List.filter (λ a, a_UserID a =? uid) (accounts t).
Definition user_txs (uid : Z) (t : Tables) : list Transaction :=
  List.filter (λ x, t_UserID x =? uid) (transactions t).

Section props.
Context `{Env}.

(** A posting is on an account of a user exactly when its transaction is the
    user's. *)
Lemma posting_user t q uid p :
  LedgerOK t q → p ∈ postings t →
  existsb (λ id, p_AccountID p =? id) (map a_ID (user_accounts uid t)) =
  existsb (λ id, p_TransactionID p =? id) (map t_ID (user_txs uid t)).
Proof.
  intros Hok Hp. pose proof (ok_posting Hok) as Hpo. rewrite Forall_forall in Hpo.
  destruct (Hpo p Hp) as (x&a&Hx&Hxi&Ha&Hai&Hu&_).
  apply eq_true_iff_eq. rewrite !existsb_In. split.
  - intros (id&(a'&->&[Hu' Ha']%elem_of_filter)%list_elem_of_fmap&E).
    assert (a' = a) as -> by (apply (NoDup_map_inj a_ID _ _ _ (ok_account_ids Hok)); auto; lia).
    exists (t_ID x). split; [|lia]. apply list_elem_of_fmap_2, elem_of_filter. split; [lia|done].
  - intros (id&(x'&->&[Hu' Hx']%elem_of_filter)%list_elem_of_fmap&E).
    assert (x' = x) as -> by (apply (NoDup_map_inj t_ID _ _ _ (ok_tx_ids Hok)); auto; lia).
    exists (a_ID a). split; [|lia]. apply list_elem_of_fmap_2, elem_of_filter. split; [lia|done].
Qed.

Lemma user_total_zero t q uid :
  LedgerOK t q → sumZ (map (λ a, account_total (a_ID a) t) (user_accounts uid t)) = 0.
Proof.
  intros Hok.
  pose proof (sum_groups p_AmountMinor p_AccountID (map a_ID (user_accounts uid t)) (postings t)
    (NoDup_map_filter _ _ _ (ok_account_ids Hok))) as H1.
  pose proof (sum_groups p_AmountMinor p_TransactionID (map t_ID (user_txs uid t)) (postings t)
    (NoDup_map_filter _ _ _ (ok_tx_ids Hok))) as H2.
  rewrite map_map in H1, H2. unfold account_total, sum_amounts. rewrite H1.
  rewrite (List.filter_ext_in _ (λ p, existsb (λ id, p_TransactionID p =? id) (map t_ID (user_txs uid t)))).
  - rewrite <- H2. clear H1 H2. pose proof (ok_balanced Hok) as Hb. rewrite Forall_forall in Hb.
    assert (∀ x, x ∈ user_txs uid t → amounts (tx_postings (t_ID x) t) = 0) as Hz.
    { intros x [_ Hx]%elem_of_filter. auto. }
    induction (user_txs uid t) as [|x l IH]; [done|]. simpl.
    pose proof (Hz x ltac:(by left)) as Hx. unfold amounts, tx_postings in Hx. rewrite Hx.
    rewrite IH; [done|]. intros y Hy. apply Hz. by right.
  - intros p Hp%list_elem_of_In. by eapply posting_user.
Qed.

(** What a posted transaction does to the balance of an account. *)
Definition legs_total (account : Z) (legs : list Leg) : Z :=
  sumZ (map l_AmountMinor (List.filter (λ l, l_AccountID l =? account) legs)).

Lemma mk_postings_total account tx now id legs :
  sumZ (map p_AmountMinor (List.filter (λ p, p_AccountID p =? account) (mk_postings tx now id legs)))
  = legs_total account legs.
Proof.
  unfold legs_total. revert id. induction legs as [|l legs IH]; intros id; simpl; [done|].
  destruct (_ =? _); simpl; by rewrite IH.
Qed.

Lemma posted_total account c accs x legs kind key hash note dto c' :
  Posted c accs x legs kind key hash note dto c' →
  account_total account (c_tab c') = account_total account (c_tab c) + legs_total account legs.
Proof.
  intros Hpo. destruct (po_tab Hpo) as (idems&payload&_&_&->).
  unfold account_total, sum_amounts. simpl.
  rewrite List.filter_app, map_app, sumZ_app. f_equal. apply mk_postings_total.
Qed.

End props.

Section theorems.
Context `{Env} `{!EnvOK} {R : Type} `{!Redis R}.
Abbreviation W := (World R).

(** C1. In every state the system can reach, by any sequence of registrations,
    account creations, incomes, expenses, transfers, reversals, snapshots, exports
    and outbox runs, with any requests or replies lost, the ledger invariant holds:
    identifiers are unique and within 64 bits, every posting is non-zero, owned and
    in the right currency, every transaction has postings that sum to zero, at most
    one reversal per transaction and none of a reversal, every idempotency key holds
    the response of a posted transaction, and the outbox holds exactly the events
    of the posted transactions. *)
Theorem reachable_ledger_ok t0 r last (w : W) :
  enc_ts (t_ns zero_time) < t0 → reachable t0 r (last, w) → LedgerOK (w_tab w) (w_seq w).
Proof. apply reachable_world_ok. Qed.

Lemma Create_cases now i (w w' : W) r :
  Create now i w = (r, w') →
  (ci_AmountMinor i = 0 ∧ r = Err ErrZeroAmount ∧ w' = w) ∨
  (ci_AmountMinor i ≠ 0 ∧ createBalanced_case now (create_request i) w r w').
Proof.
  unfold Create. destruct (Z.eqb_spec (ci_AmountMinor i) 0).
  - intros [= <- <-]. auto.
  - intros E%createBalanced_cases. auto.
Qed.

Lemma Transfer_cases now i (w w' : W) r :
  Transfer now i w = (r, w') →
  (∃ e, r = Err e ∧ w' = w) ∨
  (0 < ti_AmountMinor i ∧ ti_FromAccountID i ≠ ti_ToAccountID i ∧
   createBalanced_case now (transfer_request i) w r w').
Proof.
  unfold Transfer. destruct (Z.leb_spec (ti_AmountMinor i) 0); [intros [= <- <-]; eauto|].
  destruct (Z.eqb_spec (ti_FromAccountID i) (ti_ToAccountID i)); [intros [= <- <-]; eauto|].
  intros E%createBalanced_cases. auto.
Qed.

(** A create that committed has the two legs, in range. *)
Lemma create_commit now i (w : W) accs legs dto c :
  world_ok w → int64 (ci_AmountMinor i) → ci_AmountMinor i ≠ 0 →
  Created (create_request i) (begin_conn now w) accs legs dto c →
  check_queue (c_queue c) (c_tab c) = Ok () →
  dto_ok dto ∧ ∃ ext, legs = [mkLeg (ci_AccountID i) (ci_AmountMinor i);
                              mkLeg ext (- ci_AmountMinor i)].
Proof.
  intros Hok Hi Hnz Hcr Hck.
  pose proof (created_sum _ (begin_conn now w) c accs legs dto Hok Hcr eq_refl Hck ltac:(done)) as Hs.
  destruct (create_range _ _ _ _ _ _ Hi Hnz Hcr Hs) as [Hr Hl]. split; [|done].
  by eapply (created_dto_ok _ (begin_conn now w)).
Qed.

Lemma transfer_commit now i (w : W) accs legs dto c :
  world_ok w → int64 (ti_AmountMinor i) → 0 < ti_AmountMinor i →
  Created (transfer_request i) (begin_conn now w) accs legs dto c →
  check_queue (c_queue c) (c_tab c) = Ok () →
  dto_ok dto ∧ legs = [mkLeg (ti_FromAccountID i) (- ti_AmountMinor i);
                       mkLeg (ti_ToAccountID i) (ti_AmountMinor i)].
Proof.
  intros Hok Hi Hnz Hcr Hck. destruct (transfer_range _ _ _ _ _ _ Hi Hnz Hcr) as [Hr Hl].
  split; [|done]. by eapply (created_dto_ok _ (begin_conn now w)).
Qed.

(** A request that succeeded, or that committed without its reply arriving, is
    replayable in the world it left. *)
Lemma createBalanced_replayable now b (w w' : W) r :
  createBalanced_case now b w r w' →
  (∀ accs legs dto c, Created b (begin_conn now w) accs legs dto c →
     check_queue (c_queue c) (c_tab c) = Ok () → dto_ok dto) →
  b_IdempotencyKey b ≠ "" → w_tab w' ≠ w_tab w ∨ (∃ d, r = Ok d) →
  ∃ d, (r = Ok d ∨ r = Err ErrConn) ∧
       Replayed (b_UserID b) (b_IdempotencyKey b) (requestHash b) (w_tab w') d.
Proof.
  intros E Hd Hk Hor. destruct E as [e w' Ht _|d w' Ht _ Hrep|accs legs dto c r w' Hcr Hck Ht _ Hr _].
  - destruct Hor as [?|[d [=]]]. done.
  - exists d. rewrite Ht. auto.
  - exists dto. split; [done|]. rewrite Ht.
    by apply (posted_replayable _ _ _ _ _ _ _ _ _ _ (cr_posted Hcr)); [eapply Hd|].
Qed.

Lemma create_valid i : ci_AmountMinor i ≠ 0 →
  validateLegs (b_Legs (create_request i)) (b_UseExternalLeg (create_request i)) = Ok ().
Proof. intros Hnz. unfold validateLegs. simpl. by replace (_ =? 0) with false by lia. Qed.

(** C2. Exactly once.  A create request with an idempotency key is made under any
    loss of requests and replies.  If it took effect, or the caller saw success,
    then whatever the system does in between, repeating the same request is answered
    with the original response (the one the caller saw, unless its reply was lost)
    and posts nothing more. *)
Theorem Create_exactly_once now i (w w1 : W) r1 last2 (w2 : W) now3 :
  world_ok w → int64 (ci_AmountMinor i) → ci_IdempotencyKey i ≠ "" →
  Create now i w = (r1, w1) → w_tab w1 ≠ w_tab w ∨ (∃ d, r1 = Ok d) →
  rtc step (now, w1) (last2, w2) →
  ∃ d w3, Create now3 i (with_faults [] w2) = (Ok d, w3) ∧ w_tab w3 = w_tab w2 ∧
          (r1 = Ok d ∨ r1 = Err ErrConn).
Proof.
  intros Hok Hi Hk E Hor Hst.
  apply Create_cases in E as [(_&->&->)|[Hnz E]]; [destruct Hor as [?|[? [=]]]; done|].
  destruct (createBalanced_replayable _ _ _ _ _ E) as (d&Hr&Hrep); [|done|done|].
  { intros accs legs dto c Hcr Hck. by eapply create_commit. }
  apply rows_grow_steps in Hst. eapply Replayed_grows in Hrep; [|exact Hst].
  destruct (createBalanced_replay now3 (create_request i) (with_faults [] w2) d)
    as (w3&E3&Ht3); [done|by apply create_valid|done|].
  exists d, w3. split_and!; [|done..]. unfold Create. replace (_ =? 0) with false by lia. done.
Qed.

(** C3. Conservation.  In every reachable state the balances of all accounts of a
    user, the external one included, sum to zero: no operation creates or destroys
    value. *)
Theorem user_conservation t0 r last (w : W) uid :
  enc_ts (t_ns zero_time) < t0 → reachable t0 r (last, w) →
  sumZ (map (λ a, account_total (a_ID a) (w_tab w)) (user_accounts uid (w_tab w))) = 0.
Proof.
  intros Ht Hr. eapply user_total_zero. exact (reachable_world_ok _ _ _ _ Ht Hr).
Qed.

(** C6. A create that takes effect posts the amount to the account and its opposite
    to an external account of the user: it changes exactly these two balances. *)
Theorem Create_moves now i (w w' : W) r :
  world_ok w → int64 (ci_AmountMinor i) → Create now i w = (r, w') → w_tab w' ≠ w_tab w →
  ∃ ext, ext ∈ accounts (w_tab w') ∧ a_UserID ext = ci_UserID i ∧ a_Kind ext = "external" ∧
    ∀ account, account_total account (w_tab w') = account_total account (w_tab w)
      + (if ci_AccountID i =? account then ci_AmountMinor i else 0)
      - (if a_ID ext =? account then ci_AmountMinor i else 0).
Proof.
  intros Hok Hi E Hne. apply Create_cases in E as [(_&_&->)|[Hnz E]]; [done|].
  destruct E as [e w' Ht _|d w' Ht _ _|accs legs dto c r w' Hcr Hck Ht _ _ _]; [done|done|].
  destruct (create_commit _ _ _ _ _ _ _ Hok Hi Hnz Hcr Hck) as [_ [ext Hl]].
  assert (∃ a, a ∈ accounts (c_tab c) ∧ a_ID a = ext ∧ a_UserID a = ci_UserID i ∧
               a_Kind a = "external") as (a&Ha&Hai&Hau&Hak).
  { destruct (po_tab (cr_posted Hcr)) as (idems&payload&_&_&->). simpl.
    destruct (cr_legs Hcr) as [He|id ac _ Hx]; [done|]. simpl in Hl. injection Hl as -> _.
    destruct Hx as [a Hf|a Hf Ha _ _].
    - destruct (find_In _ _ _ Hf) as [Hin Hm]. exists a. simpl in Hm.
      apply andb_prop in Hm as [? ?%bool_decide_eq_true]. rewrite app_nil_r.
      split_and!; auto. lia.
    - exists a. subst a. split_and!; auto. set_solver. }
  exists a. rewrite Ht. split_and!; auto. intros account.
  rewrite (posted_total account _ _ _ _ _ _ _ _ _ _ (cr_posted Hcr)), Hl, Hai.
  unfold legs_total. simpl. destruct (_ =? account), (_ =? account); simpl; lia.
Qed.

(** C7. A transfer that takes effect moves the amount from one account to the other
    and changes no other balance; it was positive and between two accounts. *)
Theorem Transfer_moves now i (w w' : W) r :
  world_ok w → int64 (ti_AmountMinor i) → Transfer now i w = (r, w') → w_tab w' ≠ w_tab w →
  0 < ti_AmountMinor i ∧ ti_FromAccountID i ≠ ti_ToAccountID i ∧
  ∀ account, account_total account (w_tab w') = account_total account (w_tab w)
    + (if ti_ToAccountID i =? account then ti_AmountMinor i else 0)
    - (if ti_FromAccountID i =? account then ti_AmountMinor i else 0).
Proof.
  intros Hok Hi E Hne. apply Transfer_cases in E as [(e&_&->)|(Hpos&Hdiff&E)]; [done|].
  split_and!; [done..|]. intros account.
  destruct E as [e w' Ht _|d w' Ht _ _|accs legs dto c r w' Hcr Hck Ht _ _ _]; [done|done|].
  destruct (transfer_commit _ _ _ _ _ _ _ Hok Hi Hpos Hcr Hck) as [_ Hl].
  rewrite Ht, (posted_total account _ _ _ _ _ _ _ _ _ _ (cr_posted Hcr)), Hl.
  unfold legs_total. simpl. destruct (_ =? account), (_ =? account); simpl; lia.
Qed.

(** C8. A reversal that takes effect undoes the original: every balance loses what
    the original's postings had added to it, and the original belonged to the
    caller and was not itself a reversal. *)
Theorem Reverse_undoes now clock i (w w' : W) r :
  world_ok w → Reverse now clock i w = (r, w') → w_tab w' ≠ w_tab w →
  ∃ orig, orig ∈ transactions (w_tab w) ∧ t_ID orig = ri_TransactionID i ∧
    t_UserID orig = ri_UserID i ∧ t_ReversalOf orig = None ∧
    ∀ account, account_total account (w_tab w') = account_total account (w_tab w) -
      amounts (List.filter (λ p, p_AccountID p =? account) (tx_postings (t_ID orig) (w_tab w))).
Proof.
  intros Hok E%Reverse_cases Hne.
  destruct E as [e w' Ht _|d w' Ht _ _|orig ps dto c r w' Hrv Hck Ht _ _]; [done|done|].
  destruct (reversed_orig clock i (begin_conn now w) c orig ps dto Hrv) as (Ho&Hid&Hu).
  exists orig. split_and!; [done..|apply (rv_plain Hrv)|]. intros account.
  rewrite Ht, (posted_total account _ _ _ _ _ _ _ _ _ _ (rv_posted Hrv)).
  pose proof (reversed_ps clock i (begin_conn now w) c orig ps dto Hok Hrv) as Hps.
  pose proof (reversed_amounts clock i (begin_conn now w) c orig ps dto Hok Hrv) as Ham.
  simpl in Hps. rewrite <- Hps. unfold legs_total, amounts. simpl.
  enough (sumZ (map l_AmountMinor (List.filter (λ l, l_AccountID l =? account) (map reversal_leg ps)))
    = - sumZ (map p_AmountMinor (List.filter (λ p, p_AccountID p =? account) ps))) by lia.
  clear Hps Hrv. induction ps as [|p ps IH]; simpl; [done|]. simpl in Ham.
  injection Ham as Hw Ham. specialize (IH Ham).
  destruct (_ =? account); simpl; [|done]. rewrite Hw. lia.
Qed.

(** ** Errors *)

(** C9. An error other than a lost connection means that nothing was posted; a lost
    connection is the one error after which the caller cannot know. *)
Theorem errors_change_nothing now clock (w w' : W) e :
  e ≠ ErrConn →
  (∃ i, Create now i w = (Err e, w')) ∨ (∃ i, Transfer now i w = (Err e, w')) ∨
  (∃ i, Reverse now clock i w = (Err e, w')) →
  w_tab w' = w_tab w.
Proof.
  intros He [[i E]|[[i E]|[i E]]].
  - apply Create_cases in E as [(_&_&->)|[_ E]]; [done|]. inversion E; subst; try done.
    destruct_or!; congruence.
  - apply Transfer_cases in E as [(?&_&->)|(_&_&E)]; [done|]. inversion E; subst; try done.
    destruct_or!; congruence.
  - apply Reverse_cases in E. inversion E; subst; try done. destruct_or!; congruence.
Qed.

Lemma in_tx_err {A} now (body : M TxS (outcome A)) (w w' : W) e :
  in_tx now body w = (Err e, w') →
  e = ErrConn ∨ (∃ c, e = PgError c) ∨ ∃ fs s', body (begin_conn now w, fs) = (Err e, s').
Proof.
  assert (∀ q t e0, check_queue q t = Err e0 → ∃ c, e0 = PgError c) as Hck.
  { intros q t e0. induction q as [|tx q IH]; simpl; [done|].
    destruct (check_transaction_balanced tx t) as [[]|e1] eqn:E1; [done|]. intros [= ->].
    unfold check_transaction_balanced, as_bigint in E1. destruct (decide _).
    - destruct (_ =? 0); [done|]. injection E1 as <-. eauto.
    - injection E1 as <-. eauto. }
  unfold in_tx, do_commit. destruct (pop (w_faults w)) as [f fs].
  destruct f; [|intros [= <- _]; auto..].
  destruct (body _) as [[[a|a]|e1] [c fs']] eqn:Hb; [done| |intros [= <- _]; eauto].
  destruct (pop fs') as [f2 fs2].
  destruct f2; [|intros [= <- _]; auto|]; destruct (check_queue _ _) as [[]|e1] eqn:Hq;
    intros E; simplify_eq; eauto.
Qed.

(** C29. No request is ever refused as "in progress": the claim of a key and the
    response commit together, so a taken key always has its response. *)
Theorem never_in_flight now (w w' : W) r :
  world_ok w →
  (∃ i, Create now i w = (r, w')) ∨ (∃ i, Transfer now i w = (r, w')) →
  r ≠ Err ErrIdempotencyInFlight.
Proof.
  assert (∀ b, world_ok w → createBalanced now b w = (r, w') → r ≠ Err ErrIdempotencyInFlight) as Hb.
  { intros b Hok E ->. unfold createBalanced in E.
    destruct (validateLegs _ _) as [[]|e] eqn:Hv.
    - apply bind_Err in E as [E|(o&w1&_&E)].
      + apply in_tx_err in E as [?|[[? ?]|(fs&s'&E)]]; [done|done|].
        by eapply (createBalanced_body_not_in_flight b (begin_conn now w)).
      + destruct o as [[d l]|[d l]]; [done|].
        destruct (redis_only_then (invalidate_legs (b_OccurredAt b) l) d w1
          (invalidate_legs_only _ _)) as (w2&E2&_). rewrite E2 in E. done.
    - injection E as -> _. revert Hv. unfold validateLegs.
      assert (∀ l z, validate_loop l z ≠ Err ErrIdempotencyInFlight) as Hl.
      { induction l as [|x l IH]; intros z; simpl; [done|]. by destruct (_ =? 0). }
      destruct (validate_loop _ _) eqn:E1; [by destruct (_ && _)|].
      intros [= ->]. by eapply Hl. }
  intros Hok [[i E]|[i E]].
  - unfold Create in E. destruct (_ =? 0); [injection E as <- _; done|]. by eapply Hb.
  - unfold Transfer in E. destruct (_ <=? 0); [injection E as <- _; done|].
    destruct (_ =? _); [injection E as <- _; done|]. by eapply Hb.
Qed.

(** ** Without faults: which error *)

Lemma createBalanced_err now b (w : W) e c :
  w_faults w = [] → validateLegs (b_Legs b) (b_UseExternalLeg b) = Ok () →
  createBalanced_body b (begin_conn now w, []) = (Err e, (c, [])) →
  ∃ w', createBalanced now b w = (Err e, w') ∧ w_tab w' = w_tab w.
Proof.
  intros Hf Hv Hb. unfold createBalanced. rewrite Hv.
  exists (rollback w c []). split; [|done]. apply bind_err. by rewrite (in_tx_nil _ _ _ _ _ Hf Hb).
Qed.

(** The legs of a request when the external account, if asked for, exists. *)
Definition legs_with_external (b : balancedInput) (t : Tables) : option (list Leg) :=
  if b_UseExternalLeg b then
    ext ← find_external (b_UserID b) t;
    Some (b_Legs b ++ [mkLeg (a_ID ext) (wrap64 (- leg_sum (b_Legs b)))])
  else Some (b_Legs b).

Lemma resolve_found b c c1 legs :
  claimed (b_UserID b) (b_IdempotencyKey b) (requestHash b) c c1 →
  legs_with_external b (c_tab c) = Some legs →
  resolve_legs b (c1, []) = (Ok legs, (c1, [])).
Proof.
  intros Hcl Hl. destruct (claimed_rows _ _ _ _ _ Hcl) as (_&_&_&_&idems&Ht).
  unfold resolve_legs, legs_with_external in *. destruct (b_UseExternalLeg b);
    [|by injection Hl as ->].
  destruct (find_external (b_UserID b) (c_tab c)) as [ext|] eqn:He; [|done].
  injection Hl as <-. erewrite bind_eq; [done|]. apply external_found.
  rewrite Ht. by destruct (c_tab c).
Qed.


(** A user without an external account who owns a normal account named
    "External" cannot record any income or expense: the lazy creation of the
    external account violates the uniqueness of account names. *)
Theorem external_name_taken now i (w : W) a :
  w_faults w = [] → ci_AmountMinor i ≠ 0 →
  claimable (ci_UserID i) (ci_IdempotencyKey i) (w_tab w) → pg_text (ci_Currency i) = true →
  w_seq w SAccounts ≤ max_int64 →
  find_external (ci_UserID i) (w_tab w) = None →
  a ∈ accounts (w_tab w) → a_UserID a = ci_UserID i → a_Name a = "External" →
  ∃ w', Create now i w = (Err (PgError unique_violation), w') ∧ w_tab w' = w_tab w.
Proof.
  intros Hf Hnz Hcl Hp Hm Hx Ha Hu Hn. set (b := create_request i).
  destruct (claim_ok _ _ (requestHash b) (begin_conn now w) Hcl) as (c1&E1&Hcl1).
  destruct (claimed_rows _ _ _ _ _ Hcl1) as (_&_&Hs&_&idems&Ht).
  assert (find_external (b_UserID b) (c_tab c1) = None) as Hx1.
  { rewrite Ht. by destruct w as [[]]. }
  assert (room (c_seq c1) SAccounts 1) as Hroom by (rewrite Hs; unfold room; simpl; lia).
  pose proof (CreateExternalAccount_eq (b_UserID b) (b_Currency b) c1 Hp Hroom) as E2. cbv zeta in E2.
  assert (account_unique (external_row (c_seq c1 SAccounts) (b_UserID b) (b_Currency b) (c_now c1))
    (c_tab c1) = false) as Hdup.
  { apply not_true_is_false. intros Hq. pose proof (account_unique_inv _ _ Hq a) as Hd.
    rewrite Ht in Hd. destruct Hd as (_&Hd&_); [by destruct w as [[]]|]. by apply Hd. }
  rewrite Hdup in E2. unfold Create. replace (_ =? 0) with false by lia.
  eapply createBalanced_err; [done|by apply create_valid|].
  unfold createBalanced_body. rewrite (bind_eq _ _ _ _ _ E1). cbv beta iota.
  unfold resolve_legs. cbn [b_UseExternalLeg b create_request].
  erewrite bind_err; [reflexivity|]. erewrite bind_err; [reflexivity|].
  rewrite (external_missing _ _ _ Hx1). erewrite bind_err; [reflexivity|].
  apply exec_nil. exact E2.
Qed.

(** ** Events *)

(** The transaction an event is about: the [transaction_id] of its payload. *)
Definition event_tx (j : json) : option Z :=
  match j with
  | JObj ms =>
      '(_, v) ← find (λ m, String.eqb m.1 "transaction_id") ms;
      match v with JNum l => ParseInt l | _ => None end
  | _ => None
  end.

Lemma event_json_tx rev d j : event_json rev d = Some j → int64 (d_ID d) → event_tx j = Some (d_ID d).
Proof.
  unfold event_json. destruct (time_json (d_OccurredAt d)); [|done]. simpl.
  intros [= <-] Hi. destruct rev; simpl; by apply ParseInt_itoa.
Qed.

(** In every reachable state the outbox holds exactly one event per transaction,
    in the order the transactions were posted, and none for anything else. *)
Theorem one_event_per_transaction t0 r last (w : W) :
  enc_ts (t_ns zero_time) < t0 → reachable t0 r (last, w) →
  map (λ o, event_tx (o_Payload o)) (outbox (w_tab w)) =
  map (λ x, Some (t_ID x)) (transactions (w_tab w)) ∧
  NoDup (map t_ID (transactions (w_tab w))).
Proof.
  intros Ht Hr. pose proof (reachable_world_ok _ _ _ _ Ht Hr) as Hok.
  split; [|apply (ok_tx_ids Hok)].
  pose proof (f_equal (map (λ p : string * option json, p.2 ≫= event_tx)) (ok_outbox Hok)) as E.
  rewrite !map_map in E. simpl in E.
  assert (∀ x, x ∈ transactions (w_tab w) →
    is_Some (event_json (t_ReversalOf x) (tx_dto (w_tab w) x)) →
    event_json (t_ReversalOf x) (tx_dto (w_tab w) x) ≫= event_tx = Some (t_ID x)) as Hev.
  { intros x Hx [j Hj]. rewrite Hj. simpl. pose proof (ok_txs Hok) as Hxs.
    rewrite Forall_forall in Hxs. destruct (Hxs x Hx) as [[? ?] _].
    apply (event_json_tx _ _ _ Hj). simpl. unfold int64, min_int64. lia. }
  rewrite E. apply map_ext_in. intros x Hx%list_elem_of_In. apply Hev; [done|].
  assert ((if t_ReversalOf x is Some _ then "TransactionReversed" else "TransactionCreated",
           event_json (t_ReversalOf x) (tx_dto (w_tab w) x)) ∈
    map (λ o, (o_EventType o, Some (o_Payload o))) (outbox (w_tab w))) as Hin.
  { rewrite (ok_outbox Hok). by apply (list_elem_of_fmap_2 (tx_event (w_tab w))). }
  apply list_elem_of_fmap in Hin as (o&Ho&_). injection Ho as _ ->. by eexists.
Qed.

End theorems.

(** ** Witnesses *)

Lemma reachable_ledger_ok_witness : LedgerOK (w_tab demo_ledger) (w_seq demo_ledger).
Proof.
  exact (reachable_ledger_ok demo_now ∅ demo_last demo_ledger demo_start demo_ledger_reachable).
Defined.

Lemma Create_exactly_once_witness :
  (Create (demo_now + 3) demo_create demo_lost).1 = Err ErrConn ∧
  ∃ d w3, Create (demo_now + 9) demo_create (with_faults [] demo_lost') = (Ok d, w3) ∧
    w_tab w3 = w_tab demo_lost' ∧
    ((Create (demo_now + 3) demo_create demo_lost).1 = Ok d ∨
     (Create (demo_now + 3) demo_create demo_lost).1 = Err ErrConn).
Proof.
  split; [vm_compute; reflexivity|].
  refine (Create_exactly_once (demo_now + 3) demo_create demo_lost demo_lost' _
    (demo_now + 3) demo_lost' (demo_now + 9) demo_lost_ok _ _ (surjective_pairing _) _ (rtc_refl _ _)).
  - unfold int64, min_int64, max_int64. simpl. lia.
  - done.
  - left. apply tables_differ. vm_compute. discriminate.
Defined.

Lemma user_conservation_witness :
  map a_ID (user_accounts 1 (w_tab demo_ledger)) = [1; 2; 3] ∧
  sumZ (map (λ a, account_total (a_ID a) (w_tab demo_ledger)) (user_accounts 1 (w_tab demo_ledger))) = 0.
Proof.
  split; [vm_compute; reflexivity|].
  exact (user_conservation demo_now ∅ demo_last demo_ledger 1 demo_start demo_ledger_reachable).
Defined.

Lemma Create_moves_witness :
  ∃ ext, ext ∈ accounts (w_tab demo_lost') ∧ a_UserID ext = ci_UserID demo_create ∧
    a_Kind ext = "external" ∧
    ∀ account, account_total account (w_tab demo_lost') = account_total account (w_tab demo_lost)
      + (if ci_AccountID demo_create =? account then ci_AmountMinor demo_create else 0)
      - (if a_ID ext =? account then ci_AmountMinor demo_create else 0).
Proof.
  refine (Create_moves (demo_now + 3) demo_create demo_lost demo_lost' _ demo_lost_ok _
    (surjective_pairing _) _).
  - unfold int64, min_int64, max_int64. simpl. lia.
  - apply tables_differ. vm_compute. discriminate.
Defined.

Definition demo_before_transfer : demo_world := with_faults [] (run_ops (take 4 demo_ops) demo_empty).
Definition demo_after_transfer : demo_world := (Transfer (demo_now + 4) demo_transfer demo_before_transfer).2.

Lemma demo_before_transfer_ok : world_ok demo_before_transfer.
Proof.
  apply world_ok_faults. apply (reachable_world_ok demo_now ∅ (demo_now + 3)); [apply demo_start|].
  apply (run_ops_reachable (take 4 demo_ops) demo_now demo_empty); [done| |sorted_Z].
  intros now o Hin. apply demo_ops_ok. set_solver.
Qed.

Lemma Transfer_moves_witness :
  0 < ti_AmountMinor demo_transfer ∧ ti_FromAccountID demo_transfer ≠ ti_ToAccountID demo_transfer ∧
  ∀ account, account_total account (w_tab demo_after_transfer)
    = account_total account (w_tab demo_before_transfer)
    + (if ti_ToAccountID demo_transfer =? account then ti_AmountMinor demo_transfer else 0)
    - (if ti_FromAccountID demo_transfer =? account then ti_AmountMinor demo_transfer else 0).
Proof.
  refine (Transfer_moves (demo_now + 4) demo_transfer demo_before_transfer demo_after_transfer _
    demo_before_transfer_ok _ (surjective_pairing _) _).
  - unfold int64, min_int64, max_int64. simpl. lia.
  - apply tables_differ. vm_compute. discriminate.
Defined.

Lemma Reverse_undoes_witness :
  ∃ orig, orig ∈ transactions (w_tab (with_faults [] demo_ledger)) ∧
    t_ID orig = ri_TransactionID demo_reverse ∧ t_UserID orig = ri_UserID demo_reverse ∧
    t_ReversalOf orig = None ∧
    ∀ account, account_total account (w_tab demo_reversed)
      = account_total account (w_tab (with_faults [] demo_ledger)) -
        amounts (List.filter (λ p, p_AccountID p =? account)
                   (tx_postings (t_ID orig) (w_tab (with_faults [] demo_ledger)))).
Proof.
  refine (Reverse_undoes (demo_now + 5) (1000 * (demo_now + 5)) demo_reverse
    (with_faults [] demo_ledger) demo_reversed _ (world_ok_faults [] _ demo_ledger_ok)
    (surjective_pairing _) _).
  apply tables_differ. vm_compute. discriminate.
Defined.

Definition demo_zero : CreateInput := mkCreateInput 1 1 0 "USD" zero_time "" "".

Lemma errors_change_nothing_witness :
  w_tab (Create (demo_now + 9) demo_zero demo_ledger).2 = w_tab demo_ledger.
Proof.
  refine (errors_change_nothing (demo_now + 9) 0 demo_ledger
    (Create (demo_now + 9) demo_zero demo_ledger).2 ErrZeroAmount _ _); [done|].
  left. exists demo_zero. etrans; [apply surjective_pairing|]. f_equal.
Defined.

Lemma never_in_flight_witness :
  (Create (demo_now + 9) demo_create demo_ledger).1 ≠ Err ErrIdempotencyInFlight.
Proof.
  refine (never_in_flight (demo_now + 9) demo_ledger
    (Create (demo_now + 9) demo_create demo_ledger).2 _ demo_ledger_ok _).
  left. exists demo_create. exact (surjective_pairing _).
Defined.

(** A transfer from an account that does not exist. *)
Definition demo_bad_transfer : TransferInput :=
  mkTransferInput 1 1 99 100 "USD" (mkTime 1700000100000000000 0) "" "".


(** A user whose first account is called "External". *)
Definition demo_clash : demo_world :=
  run_ops [(demo_now, OpRegister "b@example.com" "hash"); (demo_now + 1, OpAccount 1 "External" "USD")]
    demo_empty.
Definition demo_clash_account : Account :=
  mkAccount 1 1 "External" "USD" true (demo_now + 1) "normal".

Lemma external_name_taken_witness :
  ∃ w', Create (demo_now + 9) demo_create (with_faults [] demo_clash)
    = (Err (PgError unique_violation), w') ∧ w_tab w' = w_tab (with_faults [] demo_clash).
Proof.
  refine (external_name_taken (demo_now + 9) demo_create (with_faults [] demo_clash)
    demo_clash_account _ _ _ _ _ _ _ _ _).
  - reflexivity.
  - done.
  - right. split_and!; [done|vm_compute; reflexivity..].
  - vm_compute. reflexivity.
  - vm_compute. discriminate.
  - vm_compute. reflexivity.
  - assert (accounts (w_tab (with_faults [] demo_clash)) = [demo_clash_account]) as ->
      by (vm_compute; reflexivity). by left.
  - reflexivity.
  - reflexivity.
Defined.

Lemma one_event_per_transaction_witness :
  map (λ o, event_tx (o_Payload o)) (outbox (w_tab demo_ledger)) =
  map (λ x, Some (t_ID x)) (transactions (w_tab demo_ledger)) ∧
  NoDup (map t_ID (transactions (w_tab demo_ledger))).
Proof.
  exact (one_event_per_transaction demo_now ∅ demo_last demo_ledger demo_start demo_ledger_reachable).
Defined.
