(* ===== verification/RequestProps.v ===== *)
(** * Theorems about requests: validation, hashing, success, refusals

    [validateLegs] against the exact sum, the hash as a canonical form of the
    request, a well-formed create succeeds, and the refusals of [Reverse] and of a
    reused idempotency key. *)
From S2P Require Import Prelude GoTime Effects Json JsonStruct Store Queries World Summary Dto.
From S2P Require Import Transactions TxRun TxSpec Invariant Posting Growth Ledger Services.
From S2P Require Import Balance Outbox Tables System Progress Idempotency Examples LedgerProps.
Local Open Scope Z_scope.
Local Open Scope ledger_scope.

(** ** [validateLegs] *)

Lemma validate_loop_spec legs z :
  int64 z →
  validate_loop legs z =
  if bool_decide (Forall (λ l, l_AmountMinor l ≠ 0) legs)
  then Ok (wrap64 (z + sumZ (map l_AmountMinor legs))) else Err ErrZeroAmount.
Proof.
  revert z. induction legs as [|l legs IH]; intros z Hz; simpl.
  - by rewrite Z.add_0_r, wrap64_id.
  - destruct (Z.eqb_spec (l_AmountMinor l) 0) as [Hl|Hl].
    + rewrite bool_decide_false; [done|]. by intros [??]%Forall_cons.
    + rewrite IH by apply wrap64_range.
      assert (bool_decide (Forall (λ l, l_AmountMinor l ≠ 0) (l :: legs)) =
              bool_decide (Forall (λ l, l_AmountMinor l ≠ 0) legs)) as ->.
      { apply bool_decide_ext. rewrite Forall_cons. naive_solver. }
      by rewrite wrap64_add_l, Z.add_assoc.
Qed.

(** [validateLegs] accepts exactly the legs that are all non-zero and, without
    an external leg, sum to zero modulo 2^64; when the exact sum fits in 64 bits this
    is the exact sum.  (What is accepted with an overflowing sum is stopped by the
    database trigger, which computes exactly.) *)
Theorem validateLegs_spec legs ext :
  (validateLegs legs ext = Ok () ↔
   Forall (λ l, l_AmountMinor l ≠ 0) legs ∧
   (ext = false → wrap64 (sumZ (map l_AmountMinor legs)) = 0)) ∧
  (int64 (sumZ (map l_AmountMinor legs)) →
   wrap64 (sumZ (map l_AmountMinor legs)) = 0 ↔ sumZ (map l_AmountMinor legs) = 0) ∧
  (validateLegs legs ext = Err ErrZeroAmount ↔ Exists (λ l, l_AmountMinor l = 0) legs).
Proof.
  assert (int64 0) as H0 by (unfold int64, min_int64, max_int64; lia).
  unfold validateLegs. rewrite validate_loop_spec by done. rewrite Z.add_0_l.
  split_and!.
  - case_bool_decide as Hf; [|naive_solver].
    destruct ext; simpl; [naive_solver|].
    destruct (Z.eqb_spec (wrap64 (sumZ (map l_AmountMinor legs))) 0); simpl; naive_solver.
  - intros Hs. by rewrite wrap64_id.
  - case_bool_decide as Hf.
    + split; [by destruct (_ && _)|]. intros (l&Hl&E)%Exists_exists.
      rewrite Forall_forall in Hf. by destruct (Hf l Hl).
    + split; [|done]. intros _. apply not_Forall_Exists in Hf; [|apply _].
      eapply Exists_impl; [done|]. simpl. intros l Hl. destruct (decide (l_AmountMinor l = 0)); done.
Qed.

(** ** The hash *)

Section hash.
Context `{Env}.

(** Same user, legs, currency, instant and note: the zone of the time and the
    idempotency key do not count. *)
Definition same_request (b1 b2 : balancedInput) : Prop :=
  b_UserID b1 = b_UserID b2 ∧ b_Legs b1 = b_Legs b2 ∧
  b_UseExternalLeg b1 = b_UseExternalLeg b2 ∧ b_Currency b1 = b_Currency b2 ∧
  t_ns (b_OccurredAt b1) = t_ns (b_OccurredAt b2) ∧ b_Note b1 = b_Note b2.

(** A request as the HTTP layer builds it: machine integers, valid UTF-8, a year
    that RFC 3339 can print. *)
Definition request_ok (b : balancedInput) : Prop :=
  int64 (b_UserID b) ∧ Forall (λ l, int64 (l_AccountID l) ∧ int64 (l_AmountMinor l)) (b_Legs b) ∧
  utf8_ok (b_Currency b) = true ∧ utf8_ok (b_Note b) = true ∧
  0 ≤ Year (UTC (b_OccurredAt b)) ≤ 9999.

Lemma time_json_UTC t :
  0 ≤ Year (UTC t) ≤ 9999 → time_json (UTC t) = Some (JStr (Format_RFC3339Nano (UTC t))).
Proof.
  intros Hy.
  unfold time_json. replace (0 <=? Year (UTC t)) with true by lia.
  by replace (Year (UTC t) <=? 9999) with true by lia.
Qed.

Lemma legs_json_ok legs : json_ok (slice_json (map leg_json legs)) = true.
Proof.
  destruct legs as [|l legs]; [done|]. unfold slice_json. cbn [map json_ok].
  apply forallb_forall. intros j Hj. change (In j (map leg_json (l :: legs))) in Hj.
  apply in_map_iff in Hj as (q&<-&_). simpl. by rewrite !int_literal_itoa.
Qed.

Lemma JInt_inj a b : int64 a → int64 b → JInt a = JInt b → a = b.
Proof. intros Ha Hb [= E]. by apply itoa_inj. Qed.

Lemma legs_json_inj l1 l2 :
  Forall (λ l, int64 (l_AccountID l) ∧ int64 (l_AmountMinor l)) l1 →
  Forall (λ l, int64 (l_AccountID l) ∧ int64 (l_AmountMinor l)) l2 →
  slice_json (map leg_json l1) = slice_json (map leg_json l2) → l1 = l2.
Proof.
  intros H1 H2 E. assert (map leg_json l1 = map leg_json l2) as E'.
  { destruct l1, l2; cbn [map slice_json] in *; congruence. }
  clear E. revert l2 H2 E'. induction H1 as [|a l1 [Ha1 Ha2] _ IH]; intros [|b l2] H2 E'; try done.
  apply Forall_cons in H2 as [[Hb1 Hb2] H2]. cbn [map] in E'. unfold leg_json, JInt in E'. injection E' as E1 E2 E3.
  apply itoa_inj in E1, E2; [|done..]. rewrite (IH l2 H2 E3).
  destruct a, b. simpl in *. by subst.
Qed.

Lemma request_json_ok b j : request_ok b → request_json b = Some j → json_ok j = true.
Proof.
  intros (Hu&Hl&Hc&Hn&Hy) Hj. unfold request_json in Hj. rewrite time_json_UTC in Hj by done.
  injection Hj as <-. cbn [json_ok forallb fst snd JInt].
  rewrite legs_json_ok, !int_literal_itoa, Hc, Hn, Format_RFC3339Nano_utf8; [done|done|].
  split; simpl; [done|lia].
Qed.

(** C26. The idempotency hash is a canonical form: unless SHA-256 collides on the two
    texts, two well-formed requests have the same hash exactly when they are the same
    request, up to the time zone in which the instant is written. *)
Theorem requestHash_canonical b1 b2 :
  request_ok b1 → request_ok b2 → no_collision (request_text b1) (request_text b2) →
  requestHash b1 = requestHash b2 ↔ same_request b1 b2.
Proof.
  intros Hr1 Hr2 Hnc. unfold requestHash. split.
  - intros E%Hnc. unfold request_text in E.
    assert (∀ b, request_ok b → ∃ j, request_json b = Some j) as Hex.
    { intros b (_&_&_&_&Hy). unfold request_json. rewrite time_json_UTC by done. by eexists. }
    destruct (Hex _ Hr1) as [j1 E1], (Hex _ Hr2) as [j2 E2]. rewrite E1, E2 in E.
    apply (f_equal json_parse) in E.
    rewrite (json_parse_text j1 (request_json_ok _ _ Hr1 E1)),
      (json_parse_text j2 (request_json_ok _ _ Hr2 E2)) in E. injection E as <-.
    destruct Hr1 as (Hu1&Hl1&_&_&Hy1), Hr2 as (Hu2&Hl2&_&_&Hy2).
    unfold request_json in E1, E2. rewrite time_json_UTC in E1, E2 by done.
    injection E1 as <-. injection E2 as Eu El Ee Ec Et En.
    assert (UTC (b_OccurredAt b1) = UTC (b_OccurredAt b2)) as Etime.
    { apply (f_equal Parse_RFC3339) in Et.
      rewrite !Parse_Format_RFC3339Nano in Et by (done || split; simpl; lia || done).
      congruence. }
    split_and!; auto.
    + symmetry. by apply itoa_inj.
    + symmetry. by apply legs_json_inj.
    + by injection Etime.
  - intros (E1&E2&E3&E4&E5&E6). f_equal. unfold request_text, request_json, UTC.
    by rewrite E1, E2, E3, E4, E5, E6.
Qed.

End hash.

Section requests.
Context `{Env} `{!EnvOK} {R : Type} `{!Redis R}.
Abbreviation W := (World R).

(** C27. An idempotency key is bound to its first request: after a create that the
    caller saw succeed, and whatever the system did since, a create with the same key
    and a different request (one whose canonical text has another hash) is refused
    with [ErrIdempotencyConflict], and posts nothing. *)
Theorem key_reuse_refused now i1 i2 (w w1 : W) d last2 (w2 : W) now3 :
  world_ok w → int64 (ci_AmountMinor i1) → ci_IdempotencyKey i1 ≠ "" →
  Create now i1 w = (Ok d, w1) → rtc step (now, w1) (last2, w2) →
  ci_UserID i2 = ci_UserID i1 → ci_IdempotencyKey i2 = ci_IdempotencyKey i1 →
  ci_AmountMinor i2 ≠ 0 → requestHash (create_request i2) ≠ requestHash (create_request i1) →
  ∃ w3, Create now3 i2 (with_faults [] w2) = (Err ErrIdempotencyConflict, w3) ∧
        w_tab w3 = w_tab w2.
Proof.
  intros Hok Hi Hk E Hst Hu2 Hk2 Hnz2 Hh.
  apply Create_cases in E as [(_&[=]&_)|[Hnz E]].
  destruct (createBalanced_replayable _ _ _ _ _ E) as (d'&_&Hrep); [|done|right; eauto|].
  { intros accs legs dto c Hcr Hck. by eapply create_commit. }
  apply rows_grow_steps in Hst. eapply Replayed_grows in Hrep; [|exact Hst].
  destruct Hrep as (_&Hp&j&resp&Hf&Hjh&_). cbn [snd] in Hf.
  destruct (createBalanced_conflict now3 (create_request i2) (with_faults [] w2) j)
    as (w3&E3&Ht3).
  - done.
  - by apply create_valid.
  - simpl. by rewrite Hk2.
  - simpl. simpl in Hp. by rewrite Hk2.
  - simpl. by rewrite Hu2, Hk2.
  - congruence.
  - exists w3. split; [|done]. unfold Create. by replace (ci_AmountMinor i2 =? 0) with false by lia.
Qed.

(** ** Success *)

(** The external account can be used: it exists and is active, or it can be
    created. *)
Definition external_ready (uid : Z) (cur : string) (w : W) : Prop :=
  (∃ a, find_external uid (w_tab w) = Some a ∧ a_IsActive a = true) ∨
  (find_external uid (w_tab w) = None ∧ room (w_seq w) SAccounts 1 ∧
   Forall (λ a, a_UserID a = uid → a_Name a ≠ "External") (accounts (w_tab w))).

Lemma account_unique_external t q uid cur now :
  LedgerOK t q → find_external uid t = None →
  Forall (λ a, a_UserID a = uid → a_Name a ≠ "External") (accounts t) →
  account_unique (external_row (q SAccounts) uid cur now) t = true.
Proof.
  intros Hok Hf Hn. unfold account_unique. apply negb_existsb.
  apply find_none_Forall in Hf. pose proof (ok_accounts Hok) as Ha. rewrite Forall_forall in *.
  intros b Hb. specialize (Ha b Hb). specialize (Hf b Hb). specialize (Hn b Hb).
  unfold id_ok in Ha. simpl in *.
  destruct (Z.eqb_spec (a_UserID b) uid); simpl in *.
  - rewrite (bool_decide_false (a_Name b = "External")) by auto. rewrite Hf.
    rewrite !orb_false_r. lia.
  - rewrite !orb_false_r. lia.
Qed.

Lemma resolves_found b c legs :
  legs_with_external b (c_tab c) = Some legs → resolves b c legs [].
Proof.
  intros Hl c1 Hcl. exists c1. destruct (claimed_rows _ _ _ _ _ Hcl) as (_&_&Hs&_&_).
  split_and!; auto.
  - by eapply resolve_found.
  - destruct (c_tab c1). simpl. by rewrite app_nil_r.
  - rewrite Hs. lia.
  - intros []; simpl; lia.
Qed.

Lemma create_resolves now i (w : W) :
  world_ok w → has_user (ci_UserID i) (w_tab w) = true → pg_text (ci_Currency i) = true →
  external_ready (ci_UserID i) (ci_Currency i) w →
  ∃ id accs, let legs := [mkLeg (ci_AccountID i) (ci_AmountMinor i);
                          mkLeg id (wrap64 (- wrap64 (0 + ci_AmountMinor i)))] in
    resolves (create_request i) (begin_conn now w) legs accs ∧
    ∀ amt, leg_ok (ci_UserID i) (ci_Currency i)
             (set_accounts (λ x, x ++ accs) (w_tab w)) (mkLeg id amt).
Proof.
  intros Hok Hu Hc [(a&Hf&Ha)|(Hf&Hr&Hn)].
  - exists (a_ID a), []. split.
    + apply resolves_found. unfold legs_with_external. simpl. by rewrite Hf.
    + intros amt. exists a. destruct (find_In _ _ _ Hf) as [Hin Hm]. simpl in Hm.
      apply andb_prop in Hm as [Hau Hk%bool_decide_eq_true].
      split_and!; [|lia|done|by left]. simpl.
      replace (set_accounts _ (w_tab w)) with (w_tab w)
        by (destruct (w_tab w); simpl; by rewrite app_nil_r).
      apply find_account_In; [apply (ok_account_ids Hok)|done].
  - set (a := external_row (w_seq w SAccounts) (ci_UserID i) (ci_Currency i) now).
    pose proof (account_unique_external _ _ _ (ci_Currency i) now Hok Hf Hn) as Hun.
    fold a in Hun. exists (w_seq w SAccounts), [a]. split.
    + intros c1 Hcl. destruct (claimed_rows _ _ _ _ _ Hcl) as (Hn1&Hq1&Hs1&_&idems&Ht1).
      exists (insert_seq SAccounts (set_accounts (λ l, l ++ [a])) c1).
      assert (find_external (ci_UserID i) (c_tab c1) = None ∧ account_unique a (c_tab c1) = true ∧
              has_user (ci_UserID i) (c_tab c1) = true) as (Hf1&Hun1&Hu1).
      { rewrite Ht1. by destruct w as [[]]. }
      pose proof (CreateExternalAccount_eq (ci_UserID i) (ci_Currency i) c1 Hc) as E.
      rewrite Hs1, Hn1 in E. cbv zeta in E. simpl in E. fold (external_row (w_seq w SAccounts)
        (ci_UserID i) (ci_Currency i) now) in E. fold a in E. rewrite Hun1, Hu1 in E.
      specialize (E Hr). simpl in E.
      split_and!; auto.
      * assert (external_account (ci_UserID i) (ci_Currency i) (c1, []) = (Ok (w_seq w SAccounts),
          (insert_seq SAccounts (set_accounts (λ l, l ++ [a])) c1, []))) as Ex.
        { rewrite (external_missing _ _ _ Hf1).
          etrans; [apply (bind_eq _ _ _ a _ (exec_nil _ _ _ _ E))|reflexivity]. }
        etrans; [apply (bind_eq _ _ _ _ _ Ex)|reflexivity].
      * simpl. unfold bump. rewrite Hs1. simpl. unfold room in Hr. lia.
      * intros s. simpl. unfold bump. rewrite Hs1. simpl.
        destruct (decide _) as [->|]; [done|]. destruct s; lia || done.
    + intros amt. exists a. split_and!; [|done|done|by left].
      pose proof (accounts_snoc a (accounts (w_tab w)) Hun (ok_account_ids Hok) (ok_names Hok)
        (ok_external Hok)) as (Hnd&_).
      change (w_seq w SAccounts) with (a_ID a). apply find_account_In.
      * by destruct (w_tab w).
      * destruct (w_tab w). simpl. set_solver.
Qed.

(** C28. A well-formed create succeeds.  Without faults, for a user, an active account
    of that user in the currency, an amount that can be negated, a usable external
    account, a claimable key, printable times and sequences with room, [Create]
    returns a response and posts one transaction. *)
Theorem Create_succeeds now i (w : W) :
  world_ok w → w_faults w = [] → int64 (ci_AmountMinor i) → ci_AmountMinor i ≠ 0 →
  ci_AmountMinor i ≠ min_int64 →
  claimable (ci_UserID i) (ci_IdempotencyKey i) (w_tab w) → has_user (ci_UserID i) (w_tab w) = true →
  pg_text (ci_Currency i) = true → pg_text (ci_Note i) = true →
  leg_ok (ci_UserID i) (ci_Currency i) (w_tab w) (mkLeg (ci_AccountID i) (ci_AmountMinor i)) →
  external_ready (ci_UserID i) (ci_Currency i) w →
  room (w_seq w) STransactions 1 → room (w_seq w) SPostings 2 → room (w_seq w) SOutbox 1 →
  printable (pg_time (enc_ts (t_ns (ci_OccurredAt i)))) → printable (pg_time now) →
  ∃ d w', Create now i w = (Ok d, w') ∧
    length (transactions (w_tab w')) = S (length (transactions (w_tab w))).
Proof.
  intros Hok Hf Hi Hnz Hmin Hcl Hu Hc Hn Hleg Hext Hr1 Hr2 Hr3 Hp1 Hp2.
  destruct (create_resolves now i w Hok Hu Hc Hext) as (id&accs&Hres&Hidok). simpl in Hres.
  rewrite Z.add_0_l, (wrap64_id (ci_AmountMinor i)) in Hres by done.
  assert (int64 (- ci_AmountMinor i)) as Hneg by (unfold int64, min_int64, max_int64 in *; lia).
  rewrite wrap64_id in Hres by done.
  set (legs := [mkLeg (ci_AccountID i) (ci_AmountMinor i); mkLeg id (- ci_AmountMinor i)]) in Hres.
  destruct (createBalanced_body_ok (create_request i) (begin_conn now w) legs accs) as (dto&c'&Hb).
  { exact Hok. }
  { split; try done. repeat constructor; simpl; auto; [|lia]. by apply leg_ok_more. }
  { exact Hres. }
  destruct (createBalanced_body_inv (create_request i) (begin_conn now w) (Commit (dto, legs)) c')
    as [(d&[=]&_)|(accs'&legs'&dto'&[= <- <-]&Hcr)]; [by exists [], []|].
  assert (check_queue (c_queue c') (c_tab c') = Ok ()) as Hck.
  { rewrite (po_queue (cr_posted Hcr)). apply check_queue_zero.
    rewrite (new_postings (begin_conn now w) _ _ _ _ _ _ _ _ _ Hok (cr_posted Hcr) eq_refl).
    unfold new_rows. rewrite mk_postings_amounts. simpl. lia. }
  unfold Create. replace (ci_AmountMinor i =? 0) with false by lia.
  unfold createBalanced. rewrite create_valid by done.
  rewrite (bind_eq _ _ _ (Commit (dto, legs)) (commit w c' [])).
  2:{ rewrite (in_tx_nil _ _ _ _ _ Hf Hb). by rewrite Hck. }
  destruct (redis_only_then (invalidate_legs (b_OccurredAt (create_request i)) legs) dto
    (commit w c' []) (invalidate_legs_only _ _)) as (w2&E2&Ht2&_).
  exists dto, w2. split; [exact E2|]. rewrite Ht2.
  destruct (po_tab (cr_posted Hcr)) as (idems&payload&_&_&E). simpl. rewrite E. simpl.
  rewrite length_app. simpl. lia.
Qed.

(** The least 64-bit amount has no negation: a create with it passes
    [validateLegs] and is stopped by the trigger at commit, as a numeric overflow. *)
Theorem Create_min_int64 now i (w : W) legs accs :
  world_ok w → w_faults w = [] → ci_AmountMinor i = min_int64 →
  Ready (create_request i) (begin_conn now w) legs accs →
  resolves (create_request i) (begin_conn now w) legs accs →
  validateLegs (b_Legs (create_request i)) (b_UseExternalLeg (create_request i)) = Ok () ∧
  ∃ w', Create now i w = (Err (PgError numeric_out_of_range), w') ∧ w_tab w' = w_tab w.
Proof.
  intros Hok Hf Hmin Hready Hres.
  assert (ci_AmountMinor i ≠ 0) as Hnz by (rewrite Hmin; done).
  split; [by apply create_valid|].
  destruct (createBalanced_body_ok (create_request i) (begin_conn now w) legs accs Hok Hready Hres)
    as (dto&c'&Hb).
  destruct (createBalanced_body_inv (create_request i) (begin_conn now w) (Commit (dto, legs)) c')
    as [(d&[=]&_)|(accs'&legs'&dto'&[= <- <-]&Hcr)]; [by exists [], []|].
  assert (check_queue (c_queue c') (c_tab c') = Err (PgError numeric_out_of_range)) as Hck.
  { rewrite (po_queue (cr_posted Hcr)).
    pose proof (new_postings (begin_conn now w) _ _ _ _ _ _ _ _ _ Hok (cr_posted Hcr) eq_refl) as Hnew.
    destruct (cr_legs Hcr) as [He|ext ac _ _]; [done|]. simpl. simpl in Hnew.
    unfold check_transaction_balanced, sum_amounts.
    fold (tx_postings (w_seq w STransactions) (c_tab c')). rewrite Hnew.
    unfold new_rows. simpl. unfold leg_sum. simpl. rewrite Hmin. done. }
  unfold Create. replace (ci_AmountMinor i =? 0) with false by lia.
  unfold createBalanced. rewrite create_valid by done.
  exists (rollback w c' []). split; [|done]. apply bind_err.
  rewrite (in_tx_nil _ _ _ _ _ Hf Hb). by rewrite Hck.
Qed.

(** ** Refusals of [Reverse] *)

Lemma pg_text_digits l :
  Forall (λ c, is_digit c = true ∨ c = "-"%char) l →
  forallb (λ c, negb (code c =? 0)) l = true.
Proof.
  intros Hl. apply forallb_forall. intros c Hc%list_elem_of_In. rewrite Forall_forall in Hl.
  destruct (Hl c Hc) as [Hd| ->]; [|done]. unfold is_digit in Hd. lia.
Qed.

Lemma reversal_note_text id : pg_text (reversal_note id) = true.
Proof.
  unfold pg_text. rewrite reversal_note_utf8. unfold reversal_note. rewrite chars_str, forallb_app.
  apply andb_true_intro. split; [done|]. apply pg_text_digits. unfold itoa.
  destruct (Z.ltb_spec id 0).
  - constructor; [by right|]. destruct (dec_spec (- id)) as (_&Hf&_); [lia|].
    eapply Forall_impl; [exact Hf|]. auto.
  - destruct (dec_spec id) as (_&Hf&_); [done|]. eapply Forall_impl; [exact Hf|]. auto.
Qed.

Lemma Reverse_err now clock i (w : W) e c :
  w_faults w = [] → Reverse_body clock i (begin_conn now w, []) = (Err e, (c, [])) →
  ∃ w', Reverse now clock i w = (Err e, w') ∧ w_tab w' = w_tab w.
Proof.
  intros Hf Hb. unfold Reverse. exists (rollback w c []). split; [|done]. apply bind_err.
  by rewrite (in_tx_nil _ _ _ _ _ Hf Hb).
Qed.

(** The refusals that need no state beyond the transaction found. *)
Definition reverse_refusal (o : option Transaction) : option error :=
  match o with
  | None => Some ErrTxNotFound
  | Some x => if t_ReversalOf x is Some _ then Some ErrIsReversal else None
  end.

(** C39. Without faults, and with a claimable key, reversing a transaction that does
    not exist or belongs to someone else is [ErrTxNotFound], and reversing a reversal
    is [ErrIsReversal]; nothing changes. *)
Theorem Reverse_refused now clock i (w : W) e :
  w_faults w = [] → claimable (ri_UserID i) (ri_IdempotencyKey i) (w_tab w) →
  reverse_refusal (find_tx (ri_TransactionID i) (ri_UserID i) (w_tab w)) = Some e →
  ∃ w', Reverse now clock i w = (Err e, w') ∧ w_tab w' = w_tab w.
Proof.
  intros Hf Hcl He.
  destruct (claim_ok _ _ (reverseHash i) (begin_conn now w) Hcl) as (c1&E1&Hcl1).
  destruct (claimed_rows _ _ _ _ _ Hcl1) as (_&_&_&_&idems&Ht).
  assert (find_tx (ri_TransactionID i) (ri_UserID i) (c_tab c1) =
          find_tx (ri_TransactionID i) (ri_UserID i) (w_tab w)) as Hx.
  { rewrite Ht. by destruct w as [[]]. }
  apply (Reverse_err _ _ _ _ _ c1 Hf). unfold Reverse_body.
  rewrite (bind_eq _ _ _ _ _ E1). cbv beta iota.
  erewrite bind_eq; [|apply attempt_nil; reflexivity].
  fold (find_tx (ri_TransactionID i) (ri_UserID i) (c_tab c1)). rewrite Hx.
  destruct (find_tx _ _ (w_tab w)) as [x|]; simpl in *; [|by injection He as <-].
  destruct (t_ReversalOf x) as [r|]; [|done]. injection He as <-.
  by rewrite bool_decide_true by eauto.
Qed.

(** C10. A transaction is reversed at most once: without faults, with a claimable key
    and an id left for a transaction, reversing one of the user's transactions that
    some transaction already reverses is [ErrAlreadyReversed], and nothing changes. *)
Theorem Reverse_once now clock i (w : W) x y :
  world_ok w → w_faults w = [] → claimable (ri_UserID i) (ri_IdempotencyKey i) (w_tab w) →
  find_tx (ri_TransactionID i) (ri_UserID i) (w_tab w) = Some x → t_ReversalOf x = None →
  y ∈ transactions (w_tab w) → t_ReversalOf y = Some (t_ID x) →
  pg_text (t_Currency x) = true → room (w_seq w) STransactions 1 →
  ∃ w', Reverse now clock i w = (Err ErrAlreadyReversed, w') ∧ w_tab w' = w_tab w.
Proof.
  intros Hok Hf Hcl Hx Hr Hy Hyr Hc Hroom%room_le.
  destruct (claim_ok _ _ (reverseHash i) (begin_conn now w) Hcl) as (c1&E1&Hcl1).
  destruct (claimed_rows _ _ _ _ _ Hcl1) as (_&_&Hs&_&idems&Ht).
  assert (find_tx (ri_TransactionID i) (ri_UserID i) (c_tab c1) = Some x ∧
          transactions (c_tab c1) = transactions (w_tab w) ∧
          tx_postings (t_ID x) (c_tab c1) = tx_postings (t_ID x) (w_tab w)) as (Hx1&Htx&Hps).
  { rewrite Ht. by destruct w as [[]]. }
  assert (merge_sort (asc p_ID) (tx_postings (t_ID x) (w_tab w)) ≠ []) as Hne.
  { rewrite merge_sort_sorted by apply sorted_filter, (ok_sorted Hok).
    pose proof (ok_some Hok) as Hso. rewrite Forall_forall in Hso.
    apply Hso. by destruct (find_In _ _ _ Hx). }
  eapply (Reverse_err _ _ _ _ _ _ Hf). unfold Reverse_body.
  rewrite (bind_eq _ _ _ _ _ E1). cbv beta iota.
  erewrite bind_eq; [|apply attempt_nil; reflexivity].
  fold (find_tx (ri_TransactionID i) (ri_UserID i) (c_tab c1)). rewrite Hx1. simpl.
  rewrite bool_decide_false by (rewrite Hr; by intros [? [=]]).
  erewrite bind_eq; [|apply exec_nil; reflexivity].
  fold (tx_postings (t_ID x) (c_tab c1)). rewrite Hps.
  destruct (merge_sort _ _) as [|p ps]; [done|].
  erewrite bind_eq; [|apply attempt_nil].
  2:{ unfold CreateTransactionHeader, text_param, constraint, bind, nextval, get_now, write, ret.
      rewrite Hc. simpl. rewrite reversal_note_text. simpl. rewrite Hs. simpl.
      replace (w_seq w STransactions <=? max_int64) with true by lia. simpl.
      match goal with |- context [negb (existsb ?f ?l)] =>
        assert (existsb f l = true) as Hex end.
      { apply existsb_In. exists y. rewrite Htx. split; [done|]. rewrite Hyr.
        by rewrite Z.eqb_refl, orb_true_r. }
      rewrite Hex. reflexivity. }
  simpl. reflexivity.
Qed.

End requests.

Lemma legs_ready uid cur t accs legs :
  forallb (λ l, negb (l_AmountMinor l =? 0) && bool_decide (leg_error uid cur t l = None)) legs = true →
  Forall (λ l, l_AmountMinor l ≠ 0 ∧ leg_ok uid cur (set_accounts (λ x, x ++ accs) t) l) legs.
Proof.
  rewrite forallb_forall, Forall_forall. intros Hl l Hin.
  destruct (andb_prop _ _ (Hl l (proj1 (list_elem_of_In _ _) Hin))) as [? Hk%bool_decide_eq_true].
  split; [lia|]. by apply leg_ok_more, leg_error_none.
Qed.

(** ** Witnesses *)

Definition demo_request : balancedInput := create_request demo_create.
(** The same instant written in UTC. *)
Definition demo_request_utc : balancedInput :=
  mkBalancedInput 1 (b_Legs demo_request) true "USD" (mkTime 1700000000123456789 0) "salary" "other".

Lemma requestHash_canonical_witness :
  requestHash demo_request = requestHash demo_request_utc ↔ same_request demo_request demo_request_utc.
Proof.
  refine (requestHash_canonical demo_request demo_request_utc _ _ _).
  - split_and!; [unfold int64, min_int64, max_int64; simpl; lia| |reflexivity|reflexivity| |];
      [|vm_compute; discriminate..].
    repeat constructor; unfold int64, min_int64, max_int64; simpl; lia.
  - split_and!; [unfold int64, min_int64, max_int64; simpl; lia| |reflexivity|reflexivity| |];
      [|vm_compute; discriminate..].
    repeat constructor; unfold int64, min_int64, max_int64; simpl; lia.
  - exact id.
Defined.

Definition demo_start_world : demo_world := with_faults [] demo_accounts.
Definition demo_created : demo_world := (Create (demo_now + 3) demo_create demo_start_world).2.
Definition demo_dto : TransactionDTO :=
  match (Create (demo_now + 3) demo_create demo_start_world).1 with Ok d => d | Err _ => zero_dto end.
(** The key of the income, another amount. *)
Definition demo_other : CreateInput :=
  mkCreateInput 1 1 60000 "USD" (mkTime 1700000000123456789 3600) "salary" "key-1".

Lemma demo_created_eq :
  Create (demo_now + 3) demo_create demo_start_world = (Ok demo_dto, demo_created).
Proof.
  assert ((Create (demo_now + 3) demo_create demo_start_world).1 = Ok demo_dto) as <-
    by (vm_compute; reflexivity).
  apply surjective_pairing.
Qed.

Lemma key_reuse_refused_witness :
  ∃ w3, Create (demo_now + 9) demo_other (with_faults [] demo_created)
    = (Err ErrIdempotencyConflict, w3) ∧ w_tab w3 = w_tab demo_created.
Proof.
  refine (key_reuse_refused (demo_now + 3) demo_create demo_other demo_start_world demo_created
    demo_dto (demo_now + 3) demo_created (demo_now + 9)
    (world_ok_faults [] _ demo_accounts_ok) _ _ _ (rtc_refl _ _) _ _ _ _).
  - unfold int64, min_int64, max_int64. simpl. lia.
  - done.
  - exact demo_created_eq.
  - reflexivity.
  - reflexivity.
  - done.
  - vm_compute. discriminate.
Defined.

Lemma demo_account_ok : leg_ok 1 "USD" (w_tab demo_start_world) (mkLeg 1 50000).
Proof. apply leg_error_none. vm_compute. reflexivity. Qed.

Lemma Create_succeeds_witness :
  ∃ d w', Create (demo_now + 3) demo_create demo_start_world = (Ok d, w') ∧
    length (transactions (w_tab w')) = S (length (transactions (w_tab demo_start_world))).
Proof.
  refine (Create_succeeds (demo_now + 3) demo_create demo_start_world
    (world_ok_faults [] _ demo_accounts_ok) _ _ _ _ _ _ _ _ demo_account_ok _ _ _ _ _ _).
  - reflexivity.
  - unfold int64, min_int64, max_int64. simpl. lia.
  - done.
  - done.
  - right. split_and!; [done|vm_compute; reflexivity..].
  - vm_compute. reflexivity.
  - vm_compute. reflexivity.
  - vm_compute. reflexivity.
  - right. split_and!; [vm_compute; reflexivity|vm_compute; discriminate|].
    vm_compute. repeat constructor; intros _; discriminate.
  - vm_compute. discriminate.
  - vm_compute. discriminate.
  - vm_compute. discriminate.
  - eexists. vm_compute. reflexivity.
  - eexists. vm_compute. reflexivity.
Defined.

Definition demo_min : CreateInput := mkCreateInput 1 1 min_int64 "USD" (mkTime 1700000000000000000 0) "" "".
Definition demo_min_legs : list Leg := [mkLeg 1 min_int64; mkLeg 3 min_int64].

Lemma Create_min_int64_witness :
  validateLegs (b_Legs (create_request demo_min)) (b_UseExternalLeg (create_request demo_min)) = Ok () ∧
  ∃ w', Create (demo_now + 9) demo_min (with_faults [] demo_ledger)
    = (Err (PgError numeric_out_of_range), w') ∧ w_tab w' = w_tab (with_faults [] demo_ledger).
Proof.
  refine (Create_min_int64 (demo_now + 9) demo_min (with_faults [] demo_ledger) demo_min_legs []
    (world_ok_faults [] _ demo_ledger_ok) _ _ _ _).
  - reflexivity.
  - reflexivity.
  - split.
    + left. reflexivity.
    + vm_compute. reflexivity.
    + split; vm_compute; reflexivity.
    + apply legs_ready. vm_compute. reflexivity.
    + split_and!; vm_compute; discriminate.
    + split; eexists; vm_compute; reflexivity.
  - apply resolves_found. vm_compute. reflexivity.
Defined.

Definition demo_rereverse : ReverseInput := mkReverseInput 1 3 "".

Lemma Reverse_refused_witness :
  ∃ w', Reverse (demo_now + 9) 0 demo_rereverse (with_faults [] demo_reversed)
    = (Err ErrIsReversal, w') ∧ w_tab w' = w_tab (with_faults [] demo_reversed).
Proof.
  refine (Reverse_refused (demo_now + 9) 0 demo_rereverse (with_faults [] demo_reversed)
    ErrIsReversal _ _ _).
  - reflexivity.
  - left. reflexivity.
  - vm_compute. reflexivity.
Defined.

Definition demo_transfer_tx : Transaction :=
  mkTransaction 2 1 "USD" 1700000100000000 None (demo_now + 4) None None.
Definition demo_reversal_tx : Transaction :=
  mkTransaction 3 1 "USD" (demo_now + 5) (Some "reversal of transaction 2") (demo_now + 5) None (Some 2).

Lemma Reverse_once_witness :
  ∃ w', Reverse (demo_now + 9) 0 (mkReverseInput 1 2 "") (with_faults [] demo_reversed)
    = (Err ErrAlreadyReversed, w') ∧ w_tab w' = w_tab (with_faults [] demo_reversed).
Proof.
  refine (Reverse_once (demo_now + 9) 0 (mkReverseInput 1 2 "") (with_faults [] demo_reversed)
    demo_transfer_tx demo_reversal_tx (world_ok_faults [] _ demo_reversed_ok) _ _ _ _ _ _ _ _).
  - reflexivity.
  - left. reflexivity.
  - vm_compute. reflexivity.
  - reflexivity.
  - assert (transactions (w_tab (with_faults [] demo_reversed)) !! 2%nat = Some demo_reversal_tx)
      as Hl by (vm_compute; reflexivity).
    exact (list_elem_of_lookup_2 _ _ _ Hl).
  - reflexivity.
  - vm_compute. reflexivity.
  - vm_compute. discriminate.
Defined.
