(* ===== verification/WorkerProps.v ===== *)
(** * Theorems about balances, snapshots and the outbox worker *)
From S2P Require Import Prelude GoTime Effects Json JsonStruct Store Queries World Summary Dto.
From S2P Require Import Transactions TxRun TxSpec Invariant Posting Growth Ledger Services.
From S2P Require Import Balance Outbox Tables System Snapshots LateCommits Progress Idempotency Examples.
From S2P Require Import Workers LedgerProps.
Local Open Scope Z_scope.
Local Open Scope ledger_scope.

(** ** Snapshot tasks *)

Section snapshots.
Context `{Env} `{!EnvOK} {R : Type} `{!Redis R}.
Abbreviation W := (World R).

(** The nightly job, run with the empty payload that the scheduler and the admin
    endpoint send, creates one task per active account, in the order of their ids;
    each task names the account and the previous UTC day, and run at any later time
    it is for a day that is over. *)
Theorem snapshot_all_tasks now clock (w w' : W) tasks :
  world_ok w → 0 ≤ Year (mkTime (clock - day_ns) 0) ≤ 9999 →
  handleSnapshotAll now clock (snapshot_all_text (mkSnapshotAll "")) w = (Ok tasks, w') →
  map (λ k, sp_AccountID <$> unmarshal_payload snapshot_account_field (mkSnapshotAccount 0 "")
              (tk_payload k)) tasks
    = map (λ a, Some a) (merge_sort (asc id) (map a_ID (List.filter a_IsActive (accounts (w_tab w))))) ∧
  ∀ k later, k ∈ tasks → clock < 1000 * later → op_ok later (OpSnapshot (tk_payload k)).
Proof.
  intros Hok Hy E. destruct (handleSnapshotAll_tasks now clock w w' tasks Hok Hy E) as [Hids Hok'].
  split; [done|]. intros k later Hk Hlt. apply Hok'; [done|]. pose proof (midnight_le clock). lia.
Qed.

(** C13. Transactions that take time.  A posting carries the time at which its
    transaction began.  If no transaction is open for longer than [lag], and
    snapshots are taken no earlier than [lag] after the end of their day, the reported
    balance is the sum of all postings, whatever commits when; and the tasks of a
    nightly run may run at any time [lag] after midnight (the scheduler's run is at
    00:05, a request times out after ten seconds). *)
Theorem late_commits_counted lag t0 r last (w : W) :
  enc_ts (t_ns zero_time) < t0 - lag → late_reachable lag t0 r (last, w) →
  (∀ n1 n2 account at_ res w', CurrentBalance n1 n2 account at_ w = (Ok res, w') →
     br_Balance res = wrap64 (account_total account (w_tab w))) ∧
  (∀ now clock w' tasks k later, 0 ≤ Year (mkTime (clock - day_ns) 0) ≤ 9999 →
     handleSnapshotAll now clock (snapshot_all_text (mkSnapshotAll "")) w = (Ok tasks, w') →
     k ∈ tasks → clock `div` day_ns * day_ns < 1000 * (later - lag) →
     op_ok (later - lag) (OpSnapshot (tk_payload k))).
Proof.
  intros Ht Hr. pose proof (late_reachable_ok _ _ _ _ Ht Hr) as Hs. split.
  - intros n1 n2 account at_ res w' E.
    destruct (CurrentBalance_total n1 n2 account at_ w w' res (so_snapshots _ Hs) (so_dated _ Hs) E)
      as (_&_&Hb). exact Hb.
  - intros now clock w' tasks k later Hy E Hk Hlt.
    destruct (handleSnapshotAll_tasks now clock w w' tasks (so_world _ Hs) Hy E) as [_ Hok]. auto.
Qed.

(** Without faults a balance is returned whenever the partial sums fit in 64
    bits. *)
Theorem balance_returned n1 n2 account at_ (w : W) :
  w_faults w = [] → (∀ cut, int64 (created_since account cut (w_tab w))) →
  ∃ res w', CurrentBalance n1 n2 account at_ w = (Ok res, w').
Proof.
  intros Hf Hi. unfold CurrentBalance.
  assert (∀ A n (f : Conn → result A) (w1 : W), w_faults w1 = [] →
    ∃ w2, on_pool n (read f) w1 = (f (begin_conn n w1), w2) ∧ w_faults w2 = [] ∧
          w_tab w2 = w_tab w1) as Hread.
  { intros A n f w1 H1. unfold on_pool, read. rewrite H1. simpl.
    destruct (f _); simpl; by eexists. }
  destruct (Hread _ n1 (λ c, one_row (head (merge_sort (desc s_AsOfDate)
    (List.filter (λ s, s_AccountID s =? account) (balance_snapshots (c_tab c)))))) w Hf)
    as (w1&E1&Hf1&Ht1).
  fold (GetLatestSnapshot account) in E1. unfold bind at 1, attempt. rewrite E1.
  destruct (match one_row _ with Ok _ => _ | Err _ => _ end) as [cut bal].
  destruct (Hread _ n2 (λ c, as_bigint (created_since account (enc_ts (t_ns cut)) (c_tab c))) w1 Hf1)
    as (w2&E2&_&_).
  unfold as_bigint in E2 at 2. cbn [c_tab begin_conn] in E2. rewrite Ht1, decide_True in E2 by done.
  eexists _, w2. exact (bind_eq _ _ _ _ _ E2).
Qed.

End snapshots.

(** ** The outbox worker *)

Section outbox.
Context `{Env} {R : Type}.
Abbreviation W := (World R).

(** C22. At-least-once delivery.  Whatever fails, a run publishes at most fifty
    messages; an event it marks as processed is one it has published in this run and
    that was still unprocessed; every other event, and every event another worker
    holds locked, is left as it was. *)
Theorem ProcessBatch_at_least_once now locked (w w' : W) ms :
  world_ok w → ProcessBatch now locked w = (ms, w') →
  (length ms ≤ 50)%nat ∧
  Forall2 (λ o o', (o' = o) ∨ (o_ProcessedAt o = None ∧ (o_ID o ∉ locked) ∧ (event_message o ∈ ms) ∧
                             o' = mkOutbox (o_ID o) (o_EventType o) (o_Payload o) (o_CreatedAt o) (Some now)))
    (outbox (w_tab w)) (outbox (w_tab w')).
Proof.
  intros Hok E. apply ProcessBatch_cases in E as (_&_&new&ids&->&Hn&Hi&Ht).
  split.
  { rewrite length_map. etrans; [apply (sublist_length _ _ Hn)|apply batch_of_length]. }
  assert (outbox (w_tab w') = map (mark_processed ids now) (outbox (w_tab w))) as ->.
  { rewrite Ht. by destruct (w_tab w). }
  destruct (ok_outbox_ids Hok) as [_ Hnd].
  apply Forall2_fmap_r, Forall_Forall2_diag, Forall_forall. intros o Ho.
  unfold compose, mark_processed. case_bool_decide as Hin; [right|by left].
  assert (o_ID o ∈ map o_ID new) as Hid by (by eapply elem_of_sublist).
  apply list_elem_of_fmap in Hid as (b&Hb&Hnew).
  destruct (batch_of_spec locked (w_tab w) b) as (Hbo&Hp&Hl); [by eapply elem_of_sublist|].
  assert (o = b) as -> by (by apply (NoDup_map_inj o_ID (outbox (w_tab w)))).
  split_and!; [done|done| |done]. by apply list_elem_of_fmap_2.
Qed.

(** C25. Delivery: whatever faults the loop of the outbox worker has met before, once
    it gets enough undisturbed ticks (one per fifty waiting events) every event that
    was waiting has been published and none is left; with no faults before, each is
    published exactly once. *)
Theorem outbox_drains cases nows (w : W) :
  world_ok w → ticking cases = true → (length (pending (w_tab w)) ≤ 50 * length nows)%nat →
  let '(ms, w') := Start (cases ++ map calm nows) w in
  pending (w_tab w') = [] ∧ Forall (λ o, event_message o ∈ ms) (pending (w_tab w)) ∧
  (cases = [] → ms ≡ₚ map event_message (pending (w_tab w))).
Proof. exact (Start_drains cases nows w). Qed.

End outbox.

Section workers.
Context `{Env} `{!EnvOK} {R : Type} `{!Redis R}.
Abbreviation W := (World R).

(** C23. Concurrent workers.  However the transactions of any number of workers
    interleave, with each other and with the other operations, and wherever they
    fail: no two of them hold the same event; the database is the one that runs of
    [ProcessBatch], one after the other, reach; the published events are those of
    these runs and of the workers still in a transaction; and when nothing fails no
    event is published twice. *)
Theorem workers_refine calm (w0 w : W) ks log :
  world_ok w0 → rtc (wstep calm) (w0, [], []) (w, ks, log) →
  NoDup (locked_ids ks) ∧
  (∃ ms, rtc serial (w0, []) (w, ms) ∧
     map event_message log ≡ₚ ms ++ map event_message (concat (map wk_sent ks))) ∧
  (calm = true → NoDup (map o_ID log)).
Proof.
  intros Hok Hr. destruct (wsteps_serialized _ _ _ _ _ Hok Hr) as [[_ _ Hd] Hs].
  split_and!; [done|exact Hs|]. intros ->. by eapply wsteps_once.
Qed.

(** C24. No transaction is lost to the subscribers.  Whatever operations and workers
    have run, interleaved and failing in any way, once the workers have left and the
    loop gets enough undisturbed ticks, the event of every transaction ever posted has
    been published, with the transaction as its payload. *)
Theorem every_transaction_published calm_run r (w : W) log cases nows x :
  rtc (wstep calm_run) (init r, [], []) (w, [], log) →
  ticking cases = true → (length (pending (w_tab w)) ≤ 50 * length nows)%nat →
  x ∈ transactions (w_tab w) →
  ∃ m, tx_message (w_tab w) x = Some m ∧
       m ∈ map event_message log ++ (Start (cases ++ map calm nows) w).1.
Proof.
  intros Hr Hc Hlen Hx. pose proof (init_published r) as Hi.
  destruct (wsteps_serialized _ _ _ _ _ (proj1 Hi) Hr) as [[Hok _ _] (ms&Hser&Hp)].
  destruct (serials_published _ _ Hser Hi) as [_ Hpub]. cbn [fst snd] in Hpub.
  destruct (tx_has_event w x Hok Hx) as (o&Ho&Hm). exists (event_message o). split; [done|].
  apply elem_of_app. destruct (decide (o_ProcessedAt o = None)) as [Hn|Hn].
  - right. pose proof (Start_drains cases nows w Hok Hc Hlen) as Hd.
    destruct (Start _ w) as [ms' w']. destruct Hd as (_&Hall&_). rewrite Forall_forall in Hall.
    apply Hall, elem_of_filter. split; [by apply bool_decide_eq_true|done].
  - left. rewrite Hp. apply elem_of_app. left. by apply Hpub.
Qed.

End workers.

(** ** Witnesses *)

Definition demo_calm : demo_world := with_faults [] demo_ledger.

Lemma demo_calm_ok : world_ok demo_calm.
Proof. exact (world_ok_faults [] _ demo_ledger_ok). Qed.

Definition demo_snapshot_run : result (list Task) * demo_world :=
  handleSnapshotAll (demo_now + 9) (1000 * (demo_now + 9)) (snapshot_all_text (mkSnapshotAll "")) demo_calm.
Definition demo_tasks : list Task := match demo_snapshot_run.1 with Ok l => l | Err _ => [] end.

Lemma demo_snapshot_run_eq :
  handleSnapshotAll (demo_now + 9) (1000 * (demo_now + 9)) (snapshot_all_text (mkSnapshotAll "")) demo_calm
  = (Ok demo_tasks, demo_snapshot_run.2).
Proof.
  assert (demo_snapshot_run.1 = Ok demo_tasks) as <- by (vm_compute; reflexivity).
  unfold demo_snapshot_run. apply surjective_pairing.
Qed.

Lemma snapshot_all_tasks_witness :
  length demo_tasks = 3%nat ∧
  map (λ k, sp_AccountID <$> unmarshal_payload snapshot_account_field (mkSnapshotAccount 0 "")
              (tk_payload k)) demo_tasks
    = map (λ a, Some a) (merge_sort (asc id) (map a_ID (List.filter a_IsActive (accounts (w_tab demo_calm))))) ∧
  ∀ k later, k ∈ demo_tasks → 1000 * (demo_now + 9) < 1000 * later →
    op_ok later (OpSnapshot (tk_payload k)).
Proof.
  split; [vm_compute; reflexivity|].
  refine (snapshot_all_tasks (demo_now + 9) (1000 * (demo_now + 9)) demo_calm demo_snapshot_run.2
    demo_tasks demo_calm_ok _ demo_snapshot_run_eq).
  vm_compute. split; discriminate.
Defined.

Definition demo_at : Time := mkTime (1000 * demo_now) 0.

Lemma demo_sums cut : int64 (created_since 1 cut (w_tab demo_calm)).
Proof.
  assert (postings (w_tab demo_calm) =
    [mkPosting 1 1 1 50000 (demo_now + 3); mkPosting 2 1 3 (-50000) (demo_now + 3);
     mkPosting 3 2 1 (-12000) (demo_now + 4); mkPosting 4 2 2 12000 (demo_now + 4)]) as E
    by (vm_compute; reflexivity).
  unfold created_since, sum_amounts. rewrite E. cbn [List.filter p_AccountID p_CreatedAt].
  unfold int64, min_int64, max_int64.
  destruct (cut <? demo_now + 3), (cut <? demo_now + 4); simpl; lia.
Qed.

Lemma balance_returned_witness :
  ∃ res w', CurrentBalance (demo_now + 9) (demo_now + 9) 1 demo_at demo_calm = (Ok res, w').
Proof.
  refine (balance_returned (demo_now + 9) (demo_now + 9) 1 demo_at demo_calm _ demo_sums).
  reflexivity.
Defined.

(** The first publication is lost, the reply to the second too. *)
Definition demo_flaky : demo_world := with_faults [NoFault; NoFault; Lost; ReplyLost] demo_ledger.

Lemma ProcessBatch_at_least_once_witness :
  length (ProcessBatch (demo_now + 9) [] demo_flaky).1 = 1%nat ∧
  (length (ProcessBatch (demo_now + 9) [] demo_flaky).1 ≤ 50)%nat ∧
  Forall2 (λ o o', (o' = o) ∨ (o_ProcessedAt o = None ∧ (o_ID o ∉ ([] : list Z)) ∧
      (event_message o ∈ (ProcessBatch (demo_now + 9) [] demo_flaky).1) ∧
      o' = mkOutbox (o_ID o) (o_EventType o) (o_Payload o) (o_CreatedAt o) (Some (demo_now + 9))))
    (outbox (w_tab demo_flaky)) (outbox (w_tab (ProcessBatch (demo_now + 9) [] demo_flaky).2)).
Proof.
  split; [vm_compute; reflexivity|].
  exact (ProcessBatch_at_least_once (demo_now + 9) [] demo_flaky _ _
    (world_ok_faults _ _ demo_ledger_ok) (surjective_pairing _)).
Defined.

Lemma outbox_drains_witness :
  length (pending (w_tab demo_calm)) = 2%nat ∧
  let '(ms, w') := Start ([TickCase (demo_now + 8) [] [NoFault; NoFault; ReplyLost]] ++ map calm [demo_now + 9]) demo_calm in
  pending (w_tab w') = [] ∧ Forall (λ o, event_message o ∈ ms) (pending (w_tab demo_calm)) ∧
  ([TickCase (demo_now + 8) [] [NoFault; NoFault; ReplyLost]] = [] →
   ms ≡ₚ map event_message (pending (w_tab demo_calm))).
Proof.
  split; [vm_compute; reflexivity|].
  refine (outbox_drains [TickCase (demo_now + 8) [] [NoFault; NoFault; ReplyLost]] [demo_now + 9]
            demo_calm demo_calm_ok _ _); [reflexivity|].
  apply Nat.leb_le. vm_compute. reflexivity.
Defined.

(** Two workers: the first begins while somebody holds the second event, the second
    takes that one; both publish, the first commits. *)
Definition demo_event (i : nat) : Outbox :=
  nth i (outbox (w_tab demo_calm)) (mkOutbox 0 "" JNull 0 None).
Definition demo_worker (now : Z) (i : nat) : worker := mkWorker now [(demo_event i, NoFault)] [].
Definition demo_committed : demo_world :=
  mkWorld (set_outbox (map (mark_processed (wk_ids (demo_worker (demo_now + 9) 0)) (demo_now + 9)))
             (w_tab demo_calm)) (w_seq demo_calm) (w_redis demo_calm) [].

Lemma demo_workers :
  rtc (wstep true) (demo_calm, [], [])
    (demo_committed, [demo_worker (demo_now + 10) 1], [demo_event 1; demo_event 0]).
Proof.
  assert (batch_of (locked_ids [] ++ [2]) (w_tab demo_calm) = [demo_event 0]) as B1 by (by vm_compute).
  assert (batch_of (locked_ids [mkWorker (demo_now + 9) [] [demo_event 0]] ++ []) (w_tab demo_calm)
          = [demo_event 1]) as B2 by (by vm_compute).
  eapply rtc_l; [apply (ws_begin true demo_calm [] [] (demo_now + 9) [2])|]. rewrite B1.
  eapply rtc_l; [apply (ws_begin true demo_calm _ [] (demo_now + 10) [])|]. rewrite B2.
  eapply rtc_l; [exact (ws_publish true demo_calm [] [mkWorker (demo_now + 9) [] [demo_event 0]] []
                         (demo_now + 10) [] (demo_event 1) [] NoFault (λ _, eq_refl))|].
  eapply rtc_l; [exact (ws_publish true demo_calm [demo_worker (demo_now + 10) 1] [] [demo_event 1]
                         (demo_now + 9) [] (demo_event 0) [] NoFault (λ _, eq_refl))|].
  apply rtc_once. exact (ws_commit true demo_calm [demo_worker (demo_now + 10) 1]
                           (demo_worker (demo_now + 9) 0) [] [demo_event 1; demo_event 0] eq_refl).
Qed.

Lemma workers_refine_witness :
  NoDup (locked_ids [demo_worker (demo_now + 10) 1]) ∧
  (∃ ms, rtc serial (demo_calm, []) (demo_committed, ms) ∧
     map event_message [demo_event 1; demo_event 0] ≡ₚ
     ms ++ map event_message (concat (map wk_sent [demo_worker (demo_now + 10) 1]))) ∧
  (true = true → NoDup (map o_ID [demo_event 1; demo_event 0])).
Proof. exact (workers_refine true demo_calm demo_committed _ _ demo_calm_ok demo_workers). Defined.

(** A transaction that begins on the fifteenth at 22:13 and commits after the snapshot
    of the fifteenth, which somebody triggered at midnight. *)
Definition demo_midnight : Z := 1700092800000000.
Definition demo_snapshot_payload : string := snapshot_account_text (mkSnapshotAccount 1 "2023-11-15").
Definition demo_early : demo_world :=
  run_op (demo_midnight + 1) (OpSnapshot demo_snapshot_payload) demo_calm.
Definition demo_late_create : CreateInput := mkCreateInput 1 1 700 "USD" (mkTime 1700000000123456789 3600) "" "".
Definition demo_missed : demo_world := (Create (demo_now + 20) demo_late_create (with_faults [] demo_early)).2.

(** The condition of [late_commits_counted] is needed: the late posting is in no
    balance. *)
Example late_commit_missed :
  op_ok (demo_midnight + 1) (OpSnapshot demo_snapshot_payload) ∧
  account_total 1 (w_tab demo_missed) = 38700 ∧
  (br_Balance <$> match (CurrentBalance (demo_midnight + 9) (demo_midnight + 9) 1 demo_at demo_missed).1 with
                  | Ok r => Some r | Err _ => None end) = Some 38000.
Proof.
  split; [|by vm_compute].
  intros p date Hp. assert (p = mkSnapshotAccount 1 "2023-11-15") as ->.
  { assert (unmarshal_payload snapshot_account_field (mkSnapshotAccount 0 "") demo_snapshot_payload
      = Some (mkSnapshotAccount 1 "2023-11-15")) as E by (by vm_compute). congruence. }
  intros Hd. assert (Parse_date "2023-11-15" = Some (mkTime 1700006400000000000 0)) as E by (by vm_compute).
  cbn [sp_Date] in Hd. rewrite Hd in E. injection E as ->. by vm_compute.
Qed.

(** The operations of the demonstration, committed nine seconds after the first of
    them began. *)
Lemma run_ops_late lag fin ops : ∀ (w : demo_world) s0,
  rtc (lstep lag) s0 (fin, w) →
  (∀ now o, (now, o) ∈ ops → is_snapshot o = false ∧ op_ok now o ∧ fin - lag ≤ now ≤ fin) →
  rtc (lstep lag) s0 (fin, run_ops ops w).
Proof.
  induction ops as [|[now o] ops IH]; intros w s0 Hr Hok; [done|].
  destruct (Hok now o ltac:(by left)) as (Hs&Ho&Ht). apply (IH (run_op now o (with_faults [] w))).
  - eapply rtc_r; [exact Hr|]. by apply ls_op.
  - intros now' o' Hin. apply Hok. by right.
Qed.

Lemma demo_late_reachable : late_reachable 10000000 demo_now ∅ (demo_now + 9000000, demo_ledger).
Proof.
  apply (run_ops_late 10000000 (demo_now + 9000000) demo_ops demo_empty).
  - apply rtc_once. apply (ls_redis _ demo_now (demo_now + 9000000) ∅ [] demo_empty). lia.
  - intros now o Hin. pose proof (demo_ops_ok now o Hin) as Hok.
    split_and!; [|done|..]; repeat (apply elem_of_cons in Hin as [[= -> ->]|Hin]);
      try done; try lia; by apply not_elem_of_nil in Hin.
Qed.

Lemma late_commits_counted_witness :
  (∀ n1 n2 account at_ res w', CurrentBalance n1 n2 account at_ demo_ledger = (Ok res, w') →
     br_Balance res = wrap64 (account_total account (w_tab demo_ledger))) ∧
  (∀ now clock w' tasks k later, 0 ≤ Year (mkTime (clock - day_ns) 0) ≤ 9999 →
     handleSnapshotAll now clock (snapshot_all_text (mkSnapshotAll "")) demo_ledger = (Ok tasks, w') →
     k ∈ tasks → clock `div` day_ns * day_ns < 1000 * (later - 10000000) →
     op_ok (later - 10000000) (OpSnapshot (tk_payload k))).
Proof.
  refine (late_commits_counted 10000000 demo_now ∅ (demo_now + 9000000) demo_ledger _ _).
  - vm_compute. reflexivity.
  - exact demo_late_reachable.
Defined.

(** The operations of the demonstration, without workers. *)
Lemma run_ops_wsteps ops : ∀ (w : demo_world) s0,
  rtc (wstep true) s0 (w, [], []) →
  (∀ now o, (now, o) ∈ ops → is_publish o = false ∧ op_ok now o) →
  rtc (wstep true) s0 (run_ops ops w, [], []).
Proof.
  induction ops as [|[now o] ops IH]; intros w s0 Hr Hok; [done|].
  destruct (Hok now o ltac:(by left)) as [Hp Ho]. apply (IH (run_op now o (with_faults [] w))).
  - eapply rtc_r; [exact Hr|]. by apply ws_other.
  - intros now' o' Hin. apply Hok. by right.
Qed.

Lemma demo_wsteps : rtc (wstep true) (demo_empty, [], []) (demo_ledger, [], []).
Proof.
  apply (run_ops_wsteps demo_ops demo_empty); [done|]. intros now o Hin.
  split; [|by apply demo_ops_ok].
  repeat (apply elem_of_cons in Hin as [[= -> ->]|Hin]); try done. by apply not_elem_of_nil in Hin.
Qed.

Definition demo_tx : Transaction :=
  default (mkTransaction 0 0 "" 0 None 0 None None) (head (transactions (w_tab demo_ledger))).

Lemma every_transaction_published_witness :
  ∃ m, tx_message (w_tab demo_ledger) demo_tx = Some m ∧
       m ∈ map event_message [] ++ (Start ([] ++ map calm [demo_now + 9]) demo_ledger).1.
Proof.
  refine (every_transaction_published true ∅ demo_ledger [] [] [demo_now + 9] demo_tx demo_wsteps eq_refl _ _).
  - apply Nat.leb_le. vm_compute. reflexivity.
  - assert (transactions (w_tab demo_ledger) = demo_tx :: tail (transactions (w_tab demo_ledger))) as ->
      by (vm_compute; reflexivity).
    by left.
Defined.
