(* ===== verification/SummaryProps.v ===== *)
(** * Theorems about monthly summaries and their cache *)
From S2P Require Import Prelude GoTime Effects Json JsonStruct Store Queries World Summary Dto.
From S2P Require Import Transactions TxRun TxSpec Invariant Posting Growth Ledger Services.
From S2P Require Import Balance Outbox Tables System Progress Idempotency Examples LedgerProps.
Local Open Scope Z_scope.
Local Open Scope ledger_scope.

(** ** The query *)

Lemma sum_split l :
  sumZ (map (λ z, if 0 <? z then z else 0) l) - sumZ (map (λ z, if z <? 0 then - z else 0) l)
  = sumZ l ∧
  0 ≤ sumZ (map (λ z, if 0 <? z then z else 0) l) ∧
  0 ≤ sumZ (map (λ z, if z <? 0 then - z else 0) l).
Proof.
  induction l as [|z l (H1&H2&H3)]; simpl; [lia|].
  destruct (Z.ltb_spec 0 z), (Z.ltb_spec z 0); lia.
Qed.

Section summaries.
Context `{Env}.

Lemma GetMonthlySummary_inv account month c row c' :
  GetMonthlySummary account month c = (Ok row, c') →
  let l := month_amounts account month (c_tab c) in
  c' = c ∧ r_Inflow row = sumZ (map (λ z, if 0 <? z then z else 0) l) ∧
  r_Outflow row = sumZ (map (λ z, if z <? 0 then - z else 0) l) ∧ r_Net row = sumZ l ∧
  int64 (r_Inflow row) ∧ int64 (r_Outflow row) ∧ int64 (r_Net row).
Proof.
  intros [E ->]%read_inv l. cbv zeta in E. fold l in E. destruct (existsb _ l); [done|].
  unfold as_bigint in E. repeat (destruct (decide _); [|done]). injection E as ->. done.
Qed.

Context {R : Type} `{!Redis R} `{!RedisOK R}.
Abbreviation W := (World R).

(** C37. A summary computed from the database is consistent: what came in minus what
    went out is the net, both are non-negative, and the net is the sum of the
    account's postings whose transaction occurred in that month. *)
Theorem summary_consistent t1 now t2 account month (w w' : W) ms :
  SummaryService_GetMonthlySummary t1 now t2 account month w = (Ok ms, w') →
  r_get (w_redis w) t1 (summary_key account month) = None →
  m_Inflow ms - m_Outflow ms = m_Net ms ∧ 0 ≤ m_Inflow ms ∧ 0 ≤ m_Outflow ms ∧
  m_Net ms = sumZ (month_amounts account month (w_tab w)).
Proof.
  intros E Hmiss. unfold SummaryService_GetMonthlySummary in E.
  apply bind_Ok in E as (val&w1&Hg&E). unfold redis_get in Hg.
  destruct (pop (w_faults w)) as [f fs]. injection Hg as <- <-.
  assert (match f with NoFault => r_get (w_redis w) t1 (summary_key account month) | _ => None end
    = None) as Hn by (by destruct f). rewrite Hn in E.
  apply bind_Ok in E as (row&w2&Hq&E).
  apply on_pool_cases in Hq as [_ [[_ [? [=]]]|(a&c&Hq&_&_&_&[[= ->]|[=]])]].
  apply GetMonthlySummary_inv in Hq as (_&Hi&Ho&Hnet&_). simpl in Hi, Ho, Hnet.
  apply bind_Ok in E as (u&w3&_&E). injection E as <- _. simpl.
  destruct (sum_split (month_amounts account month (w_tab w))) as (?&?&?). lia.
Qed.

(** The cache answers what the database answered: within the five minutes after a
    miss, a second request gets the same summary without asking the database. *)
Theorem summary_cached t1 now t2 account month (w w1 : W) ms t3 now3 t4 :
  w_faults w = [] → r_get (w_redis w) t1 (summary_key account month) = None →
  SummaryService_GetMonthlySummary t1 now t2 account month w = (Ok ms, w1) →
  t3 < t2 + summary_ttl →
  ∃ w2, SummaryService_GetMonthlySummary t3 now3 t4 account month w1 = (Ok ms, w2) ∧
        w_tab w2 = w_tab w1 ∧ w_redis w2 = w_redis w1.
Proof.
  intros Hf Hmiss E Ht. unfold SummaryService_GetMonthlySummary in E.
  apply bind_Ok in E as (val&w0&Hg&E). unfold redis_get in Hg. rewrite Hf in Hg. cbn [pop] in Hg.
  injection Hg as <- <-. rewrite Hmiss in E.
  apply bind_Ok in E as (row&w2&Hq&E).
  assert (w_faults w2 = []) as Hf2.
  { unfold on_pool in Hq. cbn [pop w_faults] in Hq. destruct (GetMonthlySummary _ _ _) as [[a|e] c].
    - destruct (check_queue _ _) as [[]|]; [|done]. by injection Hq as _ <-.
    - done. }
  apply on_pool_cases in Hq as [_ [[_ [? [=]]]|(a&c&Hq&_&_&_&[[= ->]|[=]])]].
  apply GetMonthlySummary_inv in Hq as (_&_&_&_&Hi&Ho&Hn).
  unfold redis_do, bind in E. rewrite Hf2 in E. cbn [pop] in E. injection E as <- <-.
  eexists. split; [|split].
  - unfold SummaryService_GetMonthlySummary. unfold redis_get, bind at 1. cbn [w_faults pop w_redis].
    rewrite r_get_set by done. rewrite unmarshal_summary_json by done. reflexivity.
  - done.
  - done.
Qed.

(** ** Invalidation *)

Lemma invalidate_loop_nil (f : Leg → string) legs (w : W) :
  w_faults w = [] →
  ∃ us, mapM (λ l, redis_do (λ r, r_del r (f l))) legs w =
  (Ok us, mkWorld (w_tab w) (w_seq w) (foldl r_del (w_redis w) (map f legs)) []).
Proof.
  revert w. induction legs as [|l legs IH]; intros w Hf; simpl.
  - exists []. destruct w. simpl in *. by subst.
  - set (w1 := mkWorld (w_tab w) (w_seq w) (r_del (w_redis w) (f l)) []).
    assert (redis_do (λ r, r_del r (f l)) w = (Ok (), w1)) as E1 by (unfold redis_do; by rewrite Hf).
    destruct (IH w1 eq_refl) as [us E2]. exists (() :: us).
    rewrite (bind_eq _ _ _ _ _ E1). by rewrite (bind_eq _ _ _ _ _ E2).
Qed.

Lemma r_get_dels ks (r : R) t k :
  k ∈ ks ∨ r_get r t k = None → r_get (foldl r_del r ks) t k = None.
Proof.
  revert r. induction ks as [|k' ks IH]; intros r [Hk|Hk]; simpl; auto.
  - by apply not_elem_of_nil in Hk.
  - apply IH. destruct (decide (k = k')) as [->|Hne]; [right; apply r_get_del|].
    left. apply elem_of_cons in Hk as [?|?]; done.
  - apply IH. right. destruct (decide (k = k')) as [->|Hne]; [apply r_get_del|].
    by rewrite r_get_del_ne.
Qed.

(** Without faults no new ones appear. *)
Definition calm (s s' : TxS) : Prop := s.2 = [] → s'.2 = [].

#[local] Instance calm_refl : Reflexive calm.
Proof. intros s Hs. exact Hs. Qed.
#[local] Instance calm_trans : Transitive calm.
Proof. intros s1 s2 s3 H1 H2 Hs. auto. Qed.

Lemma calm_exec {A} (s : stmt A) : keeps calm (exec s).
Proof. intros [c fs] Hf. simpl in Hf. subst. unfold exec. simpl. by destruct (s c). Qed.

Lemma calm_mapM {A B} (f : A → M TxS B) l : (∀ a, keeps calm (f a)) → keeps calm (mapM f l).
Proof.
  intros Hf. induction l; simpl; [apply keeps_ret, _|].
  apply keeps_bind; [apply _|done|intros ?]. apply keeps_bind; [apply _|done|intros ?].
  apply keeps_ret, _.
Qed.

Lemma calm_createBalanced_body b : keeps calm (createBalanced_body b).
Proof.
  unfold createBalanced_body, claimIdempotency, resolve_legs, external_account, check_leg,
    create_posting, store_response.
  repeat first [ progress intros | apply keeps_bind; [apply _| |intros ?] | apply keeps_ret; apply _
    | apply keeps_fail; apply _ | apply keeps_attempt | apply calm_exec | apply calm_mapM
    | progress unfold or_fail | case_match ].
Qed.

(** C38. Cache coherence on the write side.  Without faults, when a create takes
    effect, no summary of the account is left in the cache for the calendar month
    of the transaction, read in the zone the client gave: the next request for that
    month is answered from the database. *)
Theorem create_invalidates now i (w w' : W) d month t :
  w_faults w = [] → Create now i w = (Ok d, w') → w_tab w' ≠ w_tab w →
  Format_month month = Format_month (month_start (ci_OccurredAt i)) →
  r_get (w_redis w') t (summary_key (ci_AccountID i) month) = None.
Proof.
  intros Hf E Hne Hm. unfold Create in E. destruct (_ =? 0); [done|].
  unfold createBalanced in E. rewrite create_valid in E.
  2:{ intros Hz. unfold validateLegs in E. simpl in E. rewrite Hz in E. simpl in E. done. }
  apply bind_Ok in E as (o&w1&Htx&E).
  unfold in_tx in Htx. rewrite Hf in Htx. cbn [pop] in Htx.
  pose proof (calm_createBalanced_body (create_request i) (begin_conn now w, []) eq_refl) as Hcalm.
  destruct (createBalanced_body (create_request i) (begin_conn now w, [])) as [ro [c fs]] eqn:Hb.
  simpl in Hcalm. subst fs. destruct ro as [[[d1 l1]|[d1 l1]]|e]; [| |done].
  { injection Htx as <- <-. cbn in E. injection E as _ <-. done. }
  assert (l1 ≠ [] ∧ head (map l_AccountID l1) = Some (ci_AccountID i)) as [_ Hhead].
  { destruct (createBalanced_body_inv (create_request i) (begin_conn now w) (Commit (d1, l1)) c)
      as [(?&[=]&_)|(accs&legs&dto&[= <- <-]&Hcr)]; [by exists [], []|].
    destruct (cr_legs Hcr) as [|id ac]; simpl; by split. }
  unfold do_commit in Htx. cbn [pop] in Htx. destruct (check_queue _ _) as [[]|]; [|done].
  injection Htx as <- <-.
  unfold invalidate_legs in E. unfold Invalidate in E.
  destruct (invalidate_loop_nil (λ l, summary_key (l_AccountID l) (month_start (b_OccurredAt (create_request i))))
    l1 (commit w c []) eq_refl) as [us El].
  apply bind_Ok in E as (u&w2&E2&E). apply bind_Ok in E2 as (us'&w3&E3&E2).
  rewrite El in E3. injection E3 as <- <-. injection E2 as <- <-. injection E as <- <-.
  cbn [w_redis]. apply r_get_dels. left.
  assert (summary_key (ci_AccountID i) month =
    summary_key (ci_AccountID i) (month_start (ci_OccurredAt i))) as ->.
  { unfold summary_key. by rewrite Hm. }
  destruct l1 as [|l l1]; [done|]. simpl in *. injection Hhead as <-. by left.
Qed.

End summaries.

(** ** Witnesses, and the month of another zone *)

Definition demo_month : Time := DateUTC 2023 11 1 0 0 0 0.
Definition demo_t : Z := 1000 * (demo_now + 9).
Definition demo_sw : demo_world := with_faults [] demo_ledger.

Definition demo_summary : MonthlySummary := mkMonthlySummary 50000 12000 38000.
Definition demo_summary_run : result MonthlySummary * demo_world :=
  SummaryService_GetMonthlySummary demo_t (demo_now + 9) demo_t 1 demo_month demo_sw.

Lemma demo_summary_eq :
  SummaryService_GetMonthlySummary demo_t (demo_now + 9) demo_t 1 demo_month demo_sw
  = (Ok demo_summary, demo_summary_run.2).
Proof.
  assert (demo_summary_run.1 = Ok demo_summary) as <- by (vm_compute; reflexivity).
  unfold demo_summary_run. apply surjective_pairing.
Qed.

Lemma summary_consistent_witness :
  m_Inflow demo_summary - m_Outflow demo_summary = m_Net demo_summary ∧ 0 ≤ m_Inflow demo_summary ∧
  0 ≤ m_Outflow demo_summary ∧
  m_Net demo_summary = sumZ (month_amounts 1 demo_month (w_tab demo_sw)).
Proof.
  refine (summary_consistent demo_t (demo_now + 9) demo_t 1 demo_month demo_sw demo_summary_run.2
    demo_summary demo_summary_eq _).
  vm_compute. reflexivity.
Defined.

Lemma summary_cached_witness :
  ∃ w2, SummaryService_GetMonthlySummary (demo_t + 1) (demo_now + 10) (demo_t + 1) 1 demo_month
          demo_summary_run.2 = (Ok demo_summary, w2) ∧
        w_tab w2 = w_tab demo_summary_run.2 ∧ w_redis w2 = w_redis demo_summary_run.2.
Proof.
  refine (summary_cached demo_t (demo_now + 9) demo_t 1 demo_month demo_sw demo_summary_run.2
    demo_summary (demo_t + 1) (demo_now + 10) (demo_t + 1) _ _ demo_summary_eq _).
  - reflexivity.
  - vm_compute. reflexivity.
  - unfold summary_ttl, sec_ns. lia.
Defined.

Definition demo_second : CreateInput :=
  mkCreateInput 1 1 700 "USD" (mkTime 1700000000123456789 3600) "" "".
Definition demo_second_run : result TransactionDTO * demo_world :=
  Create (demo_now + 9) demo_second demo_sw.
Definition demo_second_dto : TransactionDTO :=
  match demo_second_run.1 with Ok d => d | Err _ => zero_dto end.

Lemma demo_second_eq : Create (demo_now + 9) demo_second demo_sw = (Ok demo_second_dto, demo_second_run.2).
Proof.
  assert (demo_second_run.1 = Ok demo_second_dto) as <- by (vm_compute; reflexivity).
  unfold demo_second_run. apply surjective_pairing.
Qed.

Lemma create_invalidates_witness :
  r_get (w_redis demo_second_run.2) demo_t (summary_key (ci_AccountID demo_second) demo_month) = None.
Proof.
  refine (create_invalidates (demo_now + 9) demo_second demo_sw demo_second_run.2 demo_second_dto
    demo_month demo_t _ demo_second_eq _ _).
  - reflexivity.
  - apply tables_differ. vm_compute. discriminate.
  - vm_compute. reflexivity.
Defined.

(** An expense dated 2023-12-01T00:30:00+14:00, which is 2023-11-30T10:30:00Z. *)
Definition demo_ahead : CreateInput :=
  mkCreateInput 1 1 (-900) "USD" (mkTime 1701340200000000000 50400) "" "".

(** The cache and the database disagree on the month.  With the database session in
    UTC, an entry that the client dates in another zone counts in one month in the
    database and invalidates another month in the cache: the summary of November is
    served from the cache without the entry, while the database has it. *)
Theorem stale_summary :
  let w1 := demo_summary_run.2 in
  let w2 := (Create (demo_now + 10) demo_ahead w1).2 in
  is_Some (match (Create (demo_now + 10) demo_ahead w1).1 with Ok d => Some d | Err _ => None end) ∧
  (SummaryService_GetMonthlySummary (demo_t + 2000) (demo_now + 11) (demo_t + 2000) 1 demo_month w2).1
    = Ok demo_summary ∧
  (on_pool (demo_now + 11) (GetMonthlySummary 1 demo_month) w2).1 = Ok (mkSummaryRow 50000 12900 37100).
Proof. vm_compute. split; [by eexists|]. split; reflexivity. Qed.
