(* ===== verification/ApiProps.v ===== *)
(** * Theorems about the API: refinement, authentication, tenants, refusals *)
From S2P Require Import Prelude GoTime Effects Json JsonStruct Store Queries World Summary Dto.
From S2P Require Import Transactions TxRun TxSpec Invariant Posting Growth Ledger Services.
From S2P Require Import Balance Outbox Tables System Progress Idempotency.
From S2P Require Import Http Storage Server RateLimit Auth Middleware Handlers Exports Router.
From S2P Require Import Footprint ApiSystem Tenants Refusals Statuses Examples ApiExamples.
Local Open Scope Z_scope.
Local Open Scope ledger_scope.

(** May the request go to the handler of the endpoint at all? *)
Definition authorized `{Jwt} (app : App) (clock : Z) (e : endpoint) (r : Request) : bool :=
  match e with
  | PostAdminSnapshot =>
      negb (bool_decide (app_admin_token app = ""))
      && bool_decide (Get (rq_Header r) "X-Admin-Token" = app_admin_token app)
  | _ => negb (protected e) || bool_decide (is_Some (caller (app_secret app) clock r))
  end.

Section api.
Context `{Env, Bcrypt, Jwt, Unicode, CaseFold} {R F : Type} `{!Redis R, !Storage F}.
Abbreviation W := (World R).
Abbreviation S := (Server R F).

(** C4. Refinement: whatever requests, background tasks, scheduler ticks and Redis
    evictions happen, with faults anywhere, the database of the server is one that
    the system of services reaches by its own operations (so the ledger invariant
    holds of it), and every queued snapshot task is one that system may run.  The
    clocks of the server and of the database are assumed to agree on one thing
    ([clock_ok]): when a nightly run makes its tasks, the UTC day of the server's
    clock has begun at the database too. *)
Theorem server_refines `{!EnvOK} app t0 (r0 : R) (f : F) last (s : S) :
  enc_ts (t_ns zero_time) < t0 → server_reachable app t0 r0 f (last, s) →
  reachable t0 r0 (last, sv_world s) ∧ LedgerOK (w_tab (sv_world s)) (w_seq (sv_world s)) ∧
  ∀ t now, t ∈ sv_queue s → tk_type t = "snapshot:account" → last ≤ now →
           op_ok now (OpSnapshot (tk_payload t)).
Proof.
  intros Ht0 Hr. destruct (server_reachable_ok _ _ _ _ _ Ht0 Hr) as [Hre Hq]. cbn [fst snd] in *.
  split_and!; [done|by eapply reachable_world_ok|].
  intros t now Ht Hty Hle. unfold queue_ok in Hq. rewrite Forall_forall in Hq.
  destruct (Hq t Ht) as [_ Hs]. exact (Hs Hty now Hle).
Qed.

Lemma authorized_caller app clock e r :
  protected e = true → authorized app clock e r = bool_decide (is_Some (caller (app_secret app) clock r)).
Proof. destruct e; by intros [=]. Qed.

(** C12. Without a valid bearer token every endpoint under [/v1] answers 401, and
    without the admin token (or when none is configured) the snapshot trigger answers
    403 or 404; nothing changes, not even a rate limiter's bucket.  (Cross-origin
    preflight requests are answered before.) *)
Theorem unauthorized_refused app tm salt e r (s : S) :
  authorized app (tm_clock tm) e r = false → preflight r = false →
  ∃ x, respond app tm salt e r s = (Reply x, s) ∧
    rs_Status x = (if protected e then StatusUnauthorized
                   else if bool_decide (app_admin_token app = "") then StatusNotFound
                   else StatusForbidden).
Proof.
  intros Ha Hp. unfold respond, handle.
  set (next := routed app tm salt e).
  enough (∃ x, serve (next r) s = (Reply x, s) ∧ rs_Status x =
    (if protected e then StatusUnauthorized else if bool_decide (app_admin_token app = "")
     then StatusNotFound else StatusForbidden)) as (x&Hx&Hst).
  { destruct (cors_next (app_cors app) next r s x Hp Hx) as (y&Hy&Hsy). exists y. by rewrite Hsy. }
  destruct (protected e) eqn:He.
  - rewrite authorized_caller, bool_decide_eq_false, <- eq_None_not_Some in Ha by done.
    subst next. destruct e; try discriminate He; by apply auth_refused.
  - destruct e; try discriminate He; try discriminate Ha. subst next.
    unfold routed, RunSnapshotAll. unfold authorized in Ha. case_bool_decide; [by eexists|].
    simpl in Ha. rewrite Ha. by eexists.
Qed.

(** C5. Tenants are isolated: a request whose token does not name the owner of an
    account leaves the account's row and its postings as they are, whatever endpoint
    it is sent to and wherever faults strike. *)
Theorem tenant_isolation `{!EnvOK} app t0 (r0 : R) (f : F) last (s : S) tm salt e r fs a :
  enc_ts (t_ns zero_time) < t0 → server_reachable app t0 r0 f (last, s) → last ≤ tm_now tm →
  a ∈ accounts (w_tab (sv_world s)) →
  caller (app_secret app) (tm_clock tm) r ≠ Some (a_UserID a) →
  let t' := w_tab (sv_world (respond app tm salt e r (set_faults fs s)).2) in
  a ∈ accounts t' ∧
  account_postings (a_ID a) t' = account_postings (a_ID a) (w_tab (sv_world s)).
Proof.
  intros Ht0 Hr Hle Hin Hc t'.
  assert (∃ uid, uid ≠ a_UserID a ∧ ∀ u, caller (app_secret app) (tm_clock tm) r = Some u → u = uid)
    as (uid&Hne&Hu).
  { destruct (caller _ _ _) as [u|]; [exists u|exists (a_UserID a + 1)]; (split; [|by intros ? [= ->]]);
      [congruence|lia]. }
  pose proof (respond_acts app tm salt e r (set_faults fs s) uid Hu) as Hact. unfold acts_for in Hact.
  fold t' in Hact. simpl in Hact.
  assert (server_reachable app t0 r0 f (tm_now tm, (respond app tm salt e r (set_faults fs s)).2)) as Hr'.
  { eapply rtc_r; [exact Hr|]. by constructor. }
  pose proof (server_world_ok _ _ _ _ _ _ Ht0 Hr') as Hok. split.
  - destruct (pf_accounts _ _ _ Hact) as [l ->]. set_solver.
  - eapply foreign_postings; [exact Hact|exact Hok|done|congruence].
Qed.

(** ** Foreign accounts *)

(** The endpoints that read one account. *)
Definition reads_account (e : endpoint) : bool :=
  match e with GetAccountBalance | GetAccountSummary | GetAccountTransactions => true | _ => false end.

Lemma ownedAccount_foreign now uid id (s : S) :
  (∀ a, a ∈ accounts (w_tab (sv_world s)) → a_ID a = id → a_UserID a ≠ uid) →
  (ownedAccount (R:=R) (F:=F) now uid id s).1 =
    Err (if (pop (w_faults (sv_world s))).1 is NoFault then ErrAccountNotFound else ErrConn).
Proof.
  intros Hf. unfold ownedAccount, bind, attempt, on_world, on_pool, GetAccount, read, one_row.
  destruct (pop _) as [[] fs]; [|done|]; cbn [begin_conn c_tab];
    (destruct (find _ _) as [a|] eqn:Ea; [|done]); [|done]. simpl.
  apply find_In in Ea as [Hin Hid%Z.eqb_eq].
  destruct (Z.eqb_spec (a_UserID a) uid) as [E|]; [by destruct (Hf a Hin Hid)|done].
Qed.

Lemma owned_404 {A} now uid id (k : () → H S A) (s : S) :
  (∀ a, a ∈ accounts (w_tab (sv_world s)) → a_ID a = id → a_UserID a ≠ uid) →
  (hbind (require_owned now uid id) k s).1 =
    Done (Reply (if (pop (w_faults (sv_world s))).1 is NoFault
                 then http_Error "account not found" StatusNotFound
                 else http_Error "internal error" StatusInternalServerError)).
Proof.
  intros Hf. unfold hbind at 1, require_owned, hbind, call.
  pose proof (ownedAccount_foreign now uid id s Hf) as Ho.
  destruct (ownedAccount now uid id s) as [r s1]. simpl in Ho. subst r. by destruct (pop _) as [[]].
Qed.

(** C31. The balance, the summary and the entries of an account that is not the
    caller's are answered exactly as those of an account that does not exist: 404,
    or 500 when the lookup fails. *)
Theorem foreign_account_hidden tm e r uid id (s : S) :
  reads_account e = true → rq_UserID r = Some uid → uid ≠ 0 →
  ParseInt (chars (rq_ID r)) = Some id → 0 < id →
  (e = GetAccountSummary → is_Some (Parse_month (Get (rq_Query r) "month"))) →
  (∀ a, a ∈ accounts (w_tab (sv_world s)) → a_ID a = id → a_UserID a ≠ uid) →
  (serve (v1_handler (R:=R) tm e r) s).1 =
    Reply (if (pop (w_faults (sv_world s))).1 is NoFault
           then http_Error "account not found" StatusNotFound
           else http_Error "internal error" StatusInternalServerError).
Proof.
  intros He Hu Hu0 Hid Hpos Hm Hf. apply Z.eqb_neq in Hu0. apply Z.leb_gt in Hpos.
  assert (∀ h : H S (), (h s).1 = Done (Reply (if (pop (w_faults (sv_world s))).1 is NoFault
           then http_Error "account not found" StatusNotFound
           else http_Error "internal error" StatusInternalServerError)) →
    (serve h s).1 = Reply (if (pop (w_faults (sv_world s))).1 is NoFault
           then http_Error "account not found" StatusNotFound
           else http_Error "internal error" StatusInternalServerError)) as Hs.
  { intros h Hh. unfold serve. destruct (h s) as [[]]; simpl in *; congruence. }
  apply Hs. destruct e; try discriminate He; unfold v1_handler, GetCurrent, GetSummary,
    TransactionsAPI_ListAccountEntries, hbind at 1, require_user; rewrite Hu, Hu0;
    cbn [hret]; unfold hbind at 1, require_id; rewrite Hid, Hpos; cbn [hret].
  - by apply owned_404.
  - destruct (Hm eq_refl) as [month ->]. by apply owned_404.
  - by apply owned_404.
Qed.

(** C11. A request that is refused (a status of 400 to 499) has changed no table:
    it is answered before anything is written, or after a rollback.  The two
    exceptions are the endpoints that report every error of their insert as 409. *)
Theorem client_errors_change_nothing app tm salt e r (s s' : S) x :
  e ≠ PostAccounts → e ≠ PostRegister →
  respond app tm salt e r s = (Reply x, s') → 400 ≤ rs_Status x < 500 →
  w_tab (sv_world s') = w_tab (sv_world s).
Proof. apply respond_clean. Qed.

(** The exception is real: when the reply to the insert is lost, the account exists
    and the client is told 409. *)
Lemma AccountsAPI_Create_lost tm r uid req (w : W) q (f : F) a c' :
  decode_body account_field (mkAccountReq "" "") (rq_Body r) = Some req → ar_Name req ≠ "" →
  rq_UserID r = Some uid → uid ≠ 0 → w_faults w = [ReplyLost] →
  CreateAccount uid (ar_Name req) (if bool_decide (ar_Currency req = "") then "USD" else ar_Currency req)
    (begin_conn (tm_now tm) w) = (Ok a, c') → c_queue c' = [] →
  ∃ w', serve (AccountsAPI_Create tm r) (mkServer w q f) =
    (Reply (http_Error "could not create (duplicate name?)" StatusConflict), mkServer w' q f) ∧
    w_tab w' = c_tab c'.
Proof.
  intros Hb Hn Hu Hu0 Hf Ec Hq. unfold serve, AccountsAPI_Create. rewrite Hb.
  unfold hbind at 1, require_user. rewrite Hu. apply Z.eqb_neq in Hu0. rewrite Hu0. cbn [hret].
  rewrite bool_decide_false by done. unfold hbind, query, call, on_world, on_pool. simpl.
  rewrite Hf. simpl. rewrite Ec, Hq. simpl. by eexists.
Qed.

(** C16. The API is well typed: every request to every endpoint, in every state and
    under every fault, is answered with one of the statuses of its endpoint (204 for
    a preflight request); only the page handler can panic, for a page size of 0. *)
Theorem respond_typed app tm salt e r (s : S) :
  match (respond app tm salt e r s).1 with
  | Reply x => rs_Status x ∈ (if preflight r then [StatusNoContent] else statuses e)
  | Panicked => e = GetAccountTransactions ∧ page_limit r = 0
  end.
Proof. apply respond_status. Qed.

End api.

(** ** Witnesses *)

Lemma server_refines_witness :
  reachable demo_now ∅ (demo_busy, sv_world demo_served) ∧ length (sv_queue demo_served) = 1%nat.
Proof.
  split; [|by vm_compute].
  exact (proj1 (server_refines _ _ _ _ _ _ demo_start demo_served_reachable)).
Defined.

Lemma unauthorized_refused_witness :
  ∃ x, respond demo_app (demo_times demo_busy) 0 GetAccounts
         (mkRequest "GET" None "" [] [] "10.0.0.1:5000" "") demo_served = (Reply x, demo_served)
       ∧ rs_Status x = 401.
Proof. apply unauthorized_refused; by vm_compute. Defined.

Lemma tenant_isolation_witness :
  account_postings 1 (w_tab (sv_world (respond demo_app (demo_times demo_busy) 0 PostTransactions
    foreign_payment (set_faults [] demo_served)).2)) =
  account_postings 1 (w_tab (sv_world demo_served)).
Proof.
  refine (proj2 (tenant_isolation demo_app _ _ _ _ _ (demo_times demo_busy) 0 PostTransactions
    foreign_payment [] demo_cash demo_start demo_served_reachable _ demo_cash_In _)).
  - by vm_compute.
  - assert (caller (app_secret demo_app) (tm_clock (demo_times demo_busy)) foreign_payment = Some 2)
      as -> by (by vm_compute). done.
Defined.

Lemma foreign_account_hidden_witness :
  (serve (v1_handler (demo_times demo_busy) GetAccountBalance (with_user 2 (foreign_request "1" [])))
     (set_faults [] demo_served)).1 = Reply (http_Error "account not found" 404).
Proof.
  refine (foreign_account_hidden _ GetAccountBalance _ 2 1 _ _ _ _ _ _ _ _); try by vm_compute.
  assert (Forall (λ a, a_ID a = 1 → a_UserID a ≠ 2) (accounts (w_tab (sv_world (set_faults [] demo_served)))))
    as Hf by (apply (bool_decide_unpack _); by vm_compute).
  intros a Ha. rewrite Forall_forall in Hf. auto.
Defined.

Lemma client_errors_change_nothing_witness :
  w_tab (sv_world (respond demo_app (demo_times demo_busy) 0 PostTransfers lost_transfer
                     (set_faults [] demo_served)).2) = w_tab (sv_world (set_faults [] demo_served)).
Proof.
  set (p := respond _ _ _ _ _ _).
  apply (client_errors_change_nothing demo_app (demo_times demo_busy) 0 PostTransfers lost_transfer
    (set_faults [] demo_served) p.2 (response p.1)); [done|done| |].
  - apply response_eq. subst p. by vm_compute.
  - subst p. by vm_compute.
Defined.
