(* ===== verification/PageProps.v ===== *)
(** * Theorems about cursors and pagination *)
From S2P Require Import Prelude GoTime Effects Json JsonStruct Store Queries World Summary Dto.
From S2P Require Import Transactions TxRun TxSpec Invariant Posting Growth Ledger Services.
From S2P Require Import Balance Outbox Tables System Progress Idempotency Cursor.
From S2P Require Import Http Storage Server RateLimit Auth Middleware Handlers Exports Router.
From S2P Require Import Footprint ApiSystem Pagination Examples ApiExamples.
Local Open Scope Z_scope.
Local Open Scope ledger_scope.

(** C35. Round trip of cursors: a cursor handed out for an instant (of a year with
    four digits) and a posting id is read back as that instant, to the nanosecond
    and in UTC, and that id. *)
Theorem cursor_roundtrip t id :
  0 ≤ Year (UTC t) ≤ 9999 → int64 id → decodeCursor (encodeCursor t id) = Some (UTC t, id).
Proof. apply decode_encode_cursor. Qed.

Lemma cursor_roundtrip_witness :
  encodeCursor (mkTime 1700000000123456789 3600) 42 = "MjAyMy0xMS0xNFQyMjoxMzoyMC4xMjM0NTY3ODlafDQy"
  ∧ decodeCursor "MjAyMy0xMS0xNFQyMjoxMzoyMC4xMjM0NTY3ODlafDQy" = Some (mkTime 1700000000123456789 0, 42).
Proof.
  assert (encodeCursor (mkTime 1700000000123456789 3600) 42 = "MjAyMy0xMS0xNFQyMjoxMzoyMC4xMjM0NTY3ODlafDQy")
    as E by (by vm_compute).
  split; [exact E|]. rewrite <- E.
  clear E. rewrite (cursor_roundtrip (mkTime 1700000000123456789 3600) 42); by vm_compute.
Defined.

Section pages.
Context `{Env, Bcrypt, Jwt, Unicode, CaseFold} {R F : Type} `{!Redis R, !Storage F}.
Abbreviation S := (Server R F).

(** C18. On a ledger that does not change during the walk, a client that starts
    without a cursor and follows [next_cursor] comes to the end after finitely many
    requests, each answered, and has then got exactly the account's entries that sort
    before the sentinel of the first page (9999-01-01T00:00:00Z), each once, newest
    first, whatever page size (1 to 100) it asks for.  An entry dated after that instant
    is on no page.  No transaction may be dated before the year 0 (UTC). *)
Theorem pagination_complete `{!EnvOK} account limit t q (ss : list (Z * S)) :
  1 ≤ limit ≤ 100 → LedgerOK t q → dates_ok t →
  Forall (λ ns : Z * S, answered ns.2 ∧ tab ns.2 = t) ss →
  Z.of_nat (length (listed account t)) < limit * Z.of_nat (length ss) →
  ∃ rows, walk account limit "" ss = Some (map to_entry rows, true) ∧
    rows ≡ₚ listed account t ∧ StronglySorted entry_ge rows.
Proof.
  intros Hl Hok Hd Hss Hlen.
  exists (sorted_below (cursor_key first_cursor) (account_entries account t)). split_and!.
  - apply (walk_static account limit t q ss "" first_cursor Hl Hok Hd Hss eq_refl (Z.le_refl _)).
    unfold sorted_below. by rewrite (merge_sort_Permutation entry_ge).
  - apply (merge_sort_Permutation entry_ge).
  - apply (StronglySorted_merge_sort entry_ge).
Qed.

(** An entry dated after the sentinel is not among them. *)
Lemma late_entries_hidden account t e :
  sentinel_us < t_OccurredAt e.2 → e ∉ listed account t.
Proof.
  intros Hlate [Hb _]%elem_of_filter. unfold below in Hb.
  change (cursor_key first_cursor).1 with sentinel_us in Hb. lia.
Qed.

(** C17. Pages are stable while the ledger grows: when other requests and tasks run
    between the requests of a walk that reaches the end, the account's entries that
    were there at the start and sort before the sentinel of the first page
    (9999-01-01) are all received, exactly once and newest first; what was posted
    meanwhile cannot duplicate or hide one.  At no page is a transaction dated before
    the year 0 (UTC). *)
Theorem pagination_stable `{!EnvOK} app t0 (r0 : R) (f : F) last0 (s0 : S) account limit (ss : list (Z * S)) es :
  enc_ts (t_ns zero_time) < t0 → server_reachable app t0 r0 f (last0, s0) →
  1 ≤ limit ≤ 100 →
  Forall (λ p : Z * S, rtc (sstep app) (last0, s0) p ∧ answered p.2 ∧ dates_ok (tab p.2)) ss →
  walk account limit "" ss = Some (es, true) →
  ∃ rows, List.filter (seen_before (tab s0)) es = map to_entry rows ∧
    rows ≡ₚ listed account (tab s0) ∧ StronglySorted entry_ge rows.
Proof.
  intros Ht0 Hr Hl Hss Hw.
  assert (∀ p, rtc (sstep app) (last0, s0) p → ∃ q, LedgerOK (tab p.2) q) as Hok.
  { intros [last s] Hp. eexists. eapply server_world_ok; [exact Ht0|]. by eapply rtc_trans. }
  destruct (Hok (last0, s0) (rtc_refl _ _)) as [q0 Hok0].
  exists (sorted_below (cursor_key first_cursor) (account_entries account (tab s0))). split_and!.
  - apply (walk_grow account limit _ q0 ss "" first_cursor es Hl Hok0); [|done|apply Z.le_refl|done].
    eapply Forall_impl; [exact Hss|]. intros p (Hp&Ha&Hdp). split_and!; [done|done| |by apply Hok].
    exact (rows_grow_steps _ _ (server_steps _ _ _ _ _ _ Ht0 Hr Hp)).
  - apply (merge_sort_Permutation entry_ge).
  - apply (StronglySorted_merge_sort entry_ge).
Qed.

(** The page handler dies of an index out of range exactly when the page size
    is 0, which a client can ask for ([?limit=0]). *)
Theorem entries_panic tm r uid id a cursor (s : S) :
  rq_UserID r = Some uid → uid ≠ 0 → ParseInt (chars (rq_ID r)) = Some id → 0 < id →
  find (λ a, a_ID a =? id) (accounts (tab s)) = Some a → a_UserID a = uid →
  decodeCursor (Get (rq_Query r) "cursor") = Some cursor → w_faults (sv_world s) = [] →
  (serve (v1_handler (F:=F) tm GetAccountTransactions r) s).1 = Panicked ↔ page_limit r = 0.
Proof.
  intros Hu Hu0 Hid Hpos Ha Hau Hc Hf. destruct cursor as [ct cid].
  assert (0 ≤ page_limit r ≤ 100) as Hrange.
  { unfold page_limit. pose proof (parseInt_range r "limit" 20 ltac:(done) ltac:(done)). lia. }
  unfold serve, v1_handler, TransactionsAPI_ListAccountEntries, hbind at 1, require_user.
  apply Z.eqb_neq in Hu0. rewrite Hu, Hu0. cbn [hret].
  unfold hbind at 1, require_id. rewrite Hid. apply Z.leb_gt in Hpos. rewrite Hpos. cbn [hret].
  unfold hbind at 1, require_owned, hbind at 1, call, ownedAccount, bind, attempt, on_world, on_pool.
  rewrite Hf. unfold GetAccount, read, one_row. cbn [pop begin_conn c_tab]. fold (tab s). rewrite Ha.
  cbn [check_queue c_queue begin_conn]. rewrite Hau, Z.eqb_refl. cbn [negb ret hret]. rewrite Hc.
  unfold hbind, entries_page, hbind, query, call, on_world, on_pool. cbn [pop sv_world set_world commit w_faults].
  assert (wrap32 (page_limit r) = page_limit r) as -> by (unfold wrap32; rewrite Z.mod_small; lia).
  rewrite ListAccountEntries_eq by lia. cbn [check_queue c_queue begin_conn].
  match goal with |- context [take ?n ?l] => set (rows := take n l); assert (length rows ≤ n)%nat by
    (subst rows; rewrite length_take; lia) end.
  destruct (Z.eqb_spec (Z.of_nat (length rows)) (page_limit r)) as [E|E]; [|split; [done|]].
  - destruct (last rows) as [px|] eqn:El; [|].
    + split; [done|]. intros E0. destruct rows; [done|]. simpl in E. lia.
    + apply last_None in El. rewrite El in E. split; [intros _; simpl in E; lia|done].
  - intros E0. lia.
Qed.

End pages.

(** ** Witnesses *)

Ltac by_eval := apply (bool_decide_unpack _); by vm_compute.

Lemma demo_dates : dates_ok (tab demo_served).
Proof. unfold dates_ok. by_eval. Qed.

Lemma pagination_complete_witness :
  length (listed 1 (tab demo_served)) = 2%nat ∧
  ∃ rows, walk 1 1 "" (replicate 3 (demo_busy, demo_served)) = Some (map to_entry rows, true) ∧
    rows ≡ₚ listed 1 (tab demo_served) ∧ StronglySorted entry_ge rows.
Proof.
  split; [by vm_compute|].
  apply (pagination_complete 1 1 (tab demo_served) (w_seq (sv_world demo_served))).
  - lia.
  - exact demo_served_ok.
  - exact demo_dates.
  - repeat constructor.
  - by vm_compute.
Defined.

(** Two entries at the start, one more after the first page. *)
Definition demo_walk : list (Z * demo_server) :=
  (demo_busy, demo_served) :: replicate 3 (demo_busy + 1, demo_more).
Definition demo_seen : list entryDTO := default [] (fst <$> walk 1 1 "" demo_walk).

Lemma pagination_stable_witness :
  length demo_seen = 3%nat ∧
  ∃ rows, List.filter (seen_before (tab demo_served)) demo_seen = map to_entry rows ∧
    rows ≡ₚ listed 1 (tab demo_served) ∧ StronglySorted entry_ge rows.
Proof.
  split; [by vm_compute|].
  apply (pagination_stable demo_app _ _ _ _ _ 1 1 demo_walk demo_seen demo_start demo_served_reachable).
  - lia.
  - apply Forall_cons. split; [|apply Forall_replicate]; (split; [|split; [by vm_compute|]]).
    + apply rtc_refl.
    + unfold dates_ok. by_eval.
    + exact demo_more_run.
    + unfold dates_ok. by_eval.
  - by vm_compute.
Defined.

Lemma entries_panic_witness :
  (serve (v1_handler (F:=Local) (demo_times demo_busy) GetAccountTransactions
     (with_user 1 (demo_request "1" [("limit", "0")] []))) demo_served).1 = Panicked.
Proof.
  apply (entries_panic (demo_times demo_busy) (with_user 1 (demo_request "1" [("limit", "0")] []))
    1 1 demo_cash first_cursor); by vm_compute.
Defined.
