(* ===== verification/LimitProps.v ===== *)
(** * Theorems about the rate limiter *)
From S2P Require Import Prelude GoTime Effects Json Store Queries World System.
From S2P Require Import Http Server Float RateLimit Auth Middleware Handlers.
From S2P Require Import Exports Router Footprint ApiSystem Quota Examples ApiExamples Storage.
Local Open Scope Z_scope.
Local Open Scope ledger_scope.

Section limit.
Context {R F : Type} `{!Redis R, !RedisOK R}.
Abbreviation W := (World R).
Abbreviation S := (Server R F).

(** The bound of the limiter: however many requests with one key reach however
    many servers during the seconds [T0..T], in any order and with replies lost, at
    most [capacity + rate * (T - T0)] are let through, as long as nothing else
    writes the key's bucket. *)
Theorem rate_limit_bound capacity rate key T0 T b (w w' : W) n :
  let rl := NewRateLimiter capacity rate in
  capacity ≤ max_exact → rate ≤ max_exact → 0 ≤ T0 ≤ T → T < max_exact →
  holds (w_redis w) key b → from_option (bucket_ok rl) True b →
  limited_run rl key T0 T w n w' →
  n ≤ rl_capacity rl + rl_rate rl * (T - T0).
Proof.
  intros rl Hc Hr HT HT' Hh Hb Hrun. assert (limiter_ok rl) as Hok by by apply NewRateLimiter_ok.
  pose proof (potential_max rl T0 T b Hok ltac:(lia) Hb).
  pose proof (limited_run_bound rl key T0 T w w' n b Hok ltac:(lia) HT' Hrun Hh Hb ltac:(lia)). lia.
Qed.

(** Tokens are available exactly if some are left or a second has passed. *)
Lemma available_pos rl now b :
  limiter_ok rl → bucket_ok rl b → (0 <? available rl now b) = (0 <? b.1) || (b.2 <? now).
Proof.
  unfold limiter_ok, bucket_ok, available. intros [Hc Hr] [Ht Hl].
  destruct (Z.ltb_spec b.2 now); destruct (Z.ltb_spec 0 b.1); simpl; nia.
Qed.

(** C34. Without a fault the middleware refuses a request (429) only when the bucket
    of its key is empty and no second has begun since its last refill; otherwise the
    next handler runs.  Either way the bucket becomes that of the reference token
    bucket and the database is not touched. *)
Theorem limiter_refuses_only_empty rl keyFn k now at_ next r tok last (s : S) :
  limiter_ok rl → seconds_ok now → keyFn r = Some k →
  holds (w_redis (sv_world s)) ("ratelimit:" +:+ k) (Some (tok, last)) → bucket_ok rl (tok, last) →
  (pop (w_faults (sv_world s))).1 = NoFault →
  ∃ hs s1, limit_middleware rl keyFn now at_ next r s =
      with_headers hs (if (0 <? tok) || (last <? now) then next r
                       else reply (http_Error "too many requests" StatusTooManyRequests)) s1 ∧
    db_kept s s1 ∧
    holds (w_redis (sv_world s1)) ("ratelimit:" +:+ k) (Some (bucket_after rl now (tok, last))).
Proof.
  intros Hrl Hnow Hk Hh Hb Hf. unfold limit_middleware. rewrite Hk.
  destruct (allow_eq rl ("ratelimit:" +:+ k) now at_ (sv_world s) (Some (tok, last)) Hrl Hnow Hb Hh Hf)
    as (reset&r'&Ea&Hh').
  unfold hbind, call, on_world. rewrite Ea. cbn [bucket_of default].
  change (bucket_of rl now (Some (tok, last))) with (tok, last).
  rewrite available_pos by done.
  eexists _, _. split; [reflexivity|]. split; [by split|exact Hh'].
Qed.

End limit.

Section user.
Context `{Env, Bcrypt, Jwt, Unicode, CaseFold} {R F : Type} `{!Redis R, !RedisOK R, !Storage F}.

(** C19. The bound of the API: whatever the endpoints, the other users, the workers
    and the faults, as long as Redis does not lose the bucket, at most
    [capacity + rate * (T - T0)] requests with a user's token are let through by the
    server during the seconds [T0..T]. *)
Theorem user_rate_bound app uid T0 T b (s s' : Server R F) n :
  limiter_ok (app_limiter app) → 0 ≤ T0 ≤ T → T < max_exact →
  holds (w_redis (sv_world s)) (bucket_key uid) b → from_option (bucket_ok (app_limiter app)) True b →
  user_run app uid T0 T s n s' →
  n ≤ rl_capacity (app_limiter app) + rl_rate (app_limiter app) * (T - T0).
Proof.
  intros Hl HT HT' Hh Hb (n'&Hn&Hrun)%user_run_limited.
  pose proof (potential_max _ T0 T b Hl ltac:(lia) Hb).
  pose proof (limited_run_bound _ _ T0 T _ _ n' b Hl ltac:(lia) HT' Hrun Hh Hb ltac:(lia)). lia.
Qed.

End user.

(** ** Witnesses *)

(** Twelve requests of a user in one second: ten are let through. *)
Definition demo_me (s : demo_server) : served * demo_server :=
  respond demo_app (demo_times demo_now) 0 GetUsersMe (demo_request "" [] []) (set_faults [] s).

Fixpoint demo_burst (n : nat) (s : demo_server) : Z * demo_server :=
  match n with
  | O => (0, s)
  | Datatypes.S n =>
      let '(x, s1) := demo_me s in
      let '(k, s2) := demo_burst n s1 in
      ((if of_user demo_app 1 (demo_times demo_now) GetUsersMe (demo_request "" [] []) && admitted x
        then 1 else 0) + k, s2)
  end.

Lemma demo_burst_run n : ∀ s,
  user_run demo_app 1 1700086400 1700086400 s (demo_burst n s).1 (demo_burst n s).2.
Proof.
  induction n as [|n IH]; intros s; [constructor|]. cbn [demo_burst].
  destruct (demo_me s) as [x s1] eqn:E. specialize (IH s1).
  destruct (demo_burst n s1) as [k s2]. cbn [fst snd] in *.
  eapply (ur_request _ _ _ _ (demo_times demo_now) 0 GetUsersMe (demo_request "" [] []) [] s x s1);
    [|exact E|exact IH].
  intros _. split; apply Z.leb_le; vm_compute; reflexivity.
Qed.

Lemma user_rate_bound_witness :
  (demo_burst 12 demo_server0).1 = 10 ∧ (demo_burst 12 demo_server0).1 ≤ 10 + 1 * (1700086400 - 1700086400).
Proof.
  split; [vm_compute; reflexivity|].
  refine (user_rate_bound demo_app 1 1700086400 1700086400 None demo_server0
    (demo_burst 12 demo_server0).2 (demo_burst 12 demo_server0).1 _ _ _ _ I (demo_burst_run 12 demo_server0)).
  - apply (NewRateLimiter_ok 10 1); apply Z.leb_le; vm_compute; reflexivity.
  - lia.
  - apply Z.ltb_lt. vm_compute. reflexivity.
  - intros t. split; vm_compute; reflexivity.
Defined.

(** Twelve requests in one second on a bucket of ten: ten get through. *)
Fixpoint demo_calls (n : nat) (w : demo_world) : Z * demo_world :=
  match n with
  | O => (0, w)
  | Datatypes.S n =>
      let '(res, w1) := allow (NewRateLimiter 10 1) "ratelimit:user:1" 1700000000 0 w in
      let '(k, w2) := demo_calls n w1 in
      (match res with Ok res => let_through res | Err _ => 0 end + k, w2)
  end.

Lemma demo_calls_run n : ∀ w,
  limited_run (NewRateLimiter 10 1) "ratelimit:user:1" 1700000000 1700000000 w
    (demo_calls n w).1 (demo_calls n w).2.
Proof.
  induction n as [|n IH]; intros w; [constructor|]. cbn [demo_calls].
  destruct (allow _ _ _ _ w) as [res w1] eqn:E.
  assert (∃ x, res = Ok x) as [x ->].
  { unfold allow in E. destruct (pop _) as [[] fs], (bucket_script _ _ _ _ _); injection E as <- _; eauto. }
  specialize (IH w1). destruct (demo_calls n w1) as [k w2].
  apply (run_call _ _ _ _ 1700000000 0 x w w1 k w2); [lia|exact E|exact IH].
Qed.

Lemma rate_limit_bound_witness :
  (demo_calls 12 demo_empty).1 = 10 ∧ (demo_calls 12 demo_empty).1 ≤ 10 + 1 * (1700000000 - 1700000000).
Proof.
  split; [by vm_compute|].
  apply (rate_limit_bound 10 1 "ratelimit:user:1" 1700000000 1700000000 None demo_empty
    (demo_calls 12 demo_empty).2); try done.
  apply demo_calls_run.
Defined.

(** An empty bucket, one second later. *)
Definition demo_bucket : gmap string (string * option Z) :=
  <["ratelimit:user:1:ts" := ("1700000000", None)]>
    (<["ratelimit:user:1:tokens" := ("0", None)]> ∅).

Lemma limiter_refuses_only_empty_witness :
  ∃ hs s1, limit_middleware (NewRateLimiter 10 1) user_key 1700000001 0
      (λ _, reply (mkResponse StatusOK [] "")) (with_user 1 (demo_request "" [] []))
      (mkServer (init demo_bucket) [] (mkLocal "" ∅)) =
    with_headers hs (reply (mkResponse StatusOK [] "")) s1.
Proof.
  destruct (limiter_refuses_only_empty (NewRateLimiter 10 1) user_key "user:1" 1700000001 0
    (λ _, reply (mkResponse StatusOK [] "")) (with_user 1 (demo_request "" [] [])) 0 1700000000
    (mkServer (init demo_bucket) [] (mkLocal "" ∅))) as (hs&s1&E&_).
  - apply NewRateLimiter_ok; by vm_compute.
  - by vm_compute.
  - by vm_compute.
  - intros t. by vm_compute.
  - by vm_compute.
  - by vm_compute.
  - exists hs, s1. exact E.
Defined.
