(* ===== verification/AuthProps.v ===== *)
(** * Theorems about authentication *)
From S2P Require Import Prelude GoTime Effects Json JsonStruct Store Queries World Summary Dto.
From S2P Require Import TxRun Invariant Tables Services System.
From S2P Require Import Http Storage Server Float RateLimit Auth Middleware Handlers Router.
From S2P Require Import Footprint ApiSystem Pagination Examples ApiExamples.
Local Open Scope Z_scope.
Local Open Scope ledger_scope.

(** A request with the bearer token [tok]. *)
Definition bears (tok : string) (r : Request) : Prop :=
  Get (rq_Header r) "Authorization" = "Bearer " +:+ tok.

Lemma caller_bears `{Jwt} secret clock tok r :
  bears tok r → caller secret clock r = ParseJWT secret clock tok.
Proof.
  unfold bears, caller. intros ->. rewrite bool_decide_false by done.
  change (String.prefix "Bearer " ("Bearer " +:+ tok)) with (String.prefix "" tok).
  assert (String.prefix "" tok = true) as -> by (by destruct tok). cbn [negb orb].
  f_equal. change (chars ("Bearer " +:+ tok)) with (chars "Bearer " ++ chars tok).
  change 7%nat with (length (chars "Bearer ")). rewrite drop_app_length. apply str_chars.
Qed.

Section tokens.
Context `{Jwt, !JwtOK}.

(** C32. Round trip of tokens: a request with the token made for a user (whose id
    is at most 2^53) acts for that user during the next 24 hours (to the second), and
    for nobody from then on. *)
Theorem token_roundtrip secret t0 uid tok r now :
  GenerateJWT secret t0 uid = Some tok → 0 < uid ≤ max_exact → bears tok r →
  caller secret now r =
    (if now <? (t0 + 24 * 3600 * sec_ns) `div` sec_ns * sec_ns then Some uid else None).
Proof.
  intros Hg Hu Hr. rewrite (caller_bears _ _ _ _ Hr), (ParseJWT_GenerateJWT _ _ _ _ _ Hg) by lia.
  by rewrite float_int64_exact.
Qed.

(** The claim is a double: the token of user 2^53 + 1 names user 2^53. *)
Lemma large_ids_confused secret t0 tok r :
  GenerateJWT secret t0 9007199254740993 = Some tok → bears tok r → 0 ≤ t0 →
  caller secret t0 r = Some 9007199254740992.
Proof.
  intros Hg Hr Ht. rewrite (caller_bears _ _ _ _ Hr), (ParseJWT_GenerateJWT _ _ _ _ _ Hg) by lia.
  assert ((t0 <? (t0 + 24 * 3600 * sec_ns) `div` sec_ns * sec_ns) = true) as ->; [|by vm_compute].
  apply Z.ltb_lt. unfold sec_ns.
  pose proof (Z.div_mod (t0 + 24 * 3600 * 1000000000) 1000000000).
  pose proof (Z.mod_pos_bound (t0 + 24 * 3600 * 1000000000) 1000000000). lia.
Qed.

End tokens.

Section accounts.
Context `{Env, Bcrypt, Jwt, Unicode} `{!BcryptOK, !JwtOK} {R F : Type}.
Abbreviation S := (Server R F).

Lemma CreateUser_fresh email hash c :
  LedgerOK (c_tab c) (c_seq c) → pg_text email = true → c_seq c SUsers ≤ max_int64 →
  Forall (λ u, u_Email u ≠ email) (users (c_tab c)) →
  let u := mkUser (c_seq c SUsers) email hash (c_now c) in
  CreateUser email hash c = (Ok u, insert_seq SUsers (set_users (λ l, l ++ [u])) c).
Proof.
  intros Hok Ht Hs Hf u. unfold CreateUser, text_param, constraint, bind, nextval, get_now, write, ret.
  rewrite Ht. apply Z.leb_le in Hs. rewrite Hs. cbn [c_tab c_seq].
  assert (negb (existsb (λ v, (u_ID v =? c_seq c SUsers) || bool_decide (u_Email v = email))
    (users (c_tab c))) = true) as ->; [|done].
  apply negb_existsb. pose proof (ok_users Hok) as Hu. rewrite Forall_forall in *.
  intros v Hv. specialize (Hu v Hv). unfold id_ok in Hu. apply orb_false_iff. split; [lia|].
  apply bool_decide_eq_false. auto.
Qed.

Lemma find_registered email l u more :
  Forall (λ v, u_Email v ≠ email) l → u_Email u = email →
  find (λ v, bool_decide (u_Email v = email)) ((l ++ [u]) ++ more) = Some u.
Proof.
  intros Hl Hu. apply find_first. exists l, more. rewrite <- app_assoc. split_and!; [done| |].
  - eapply Forall_impl; [exact Hl|]. intros v Hv. by apply bool_decide_eq_false.
  - by apply bool_decide_eq_true.
Qed.

Lemma GenerateJWT_some secret clock uid : secret ≠ "" → is_Some (GenerateJWT secret clock uid).
Proof. intros Hs. unfold GenerateJWT. rewrite bool_decide_false by done. by apply jwt_signs. Qed.

(** The answer of [Register] and [Login]. *)
Definition token_response (status : Z) (tok : string) : Response :=
  writeJSON status (Some (JObj [("token", JStr tok)])).

Lemma users_set f t : users (set_users f t) = f (users t).
Proof. by destruct t. Qed.

Lemma Login_ok secret now clock r c c' (s : S) u tok :
  decode_body credentials_field (mkCredentials "" "") (rq_Body r) = Some c →
  normalize_email (cr_Email c) = cr_Email c' → pg_text (cr_Email c') = true → answered s →
  find (λ v, bool_decide (u_Email v = cr_Email c')) (users (tab s)) = Some u →
  bcrypt_compare (u_PasswordHash u) (cr_Password c) = true →
  GenerateJWT secret clock (u_ID u) = Some tok →
  (serve (Login secret now clock r) s).1 = Reply (token_response StatusOK tok).
Proof.
  intros Hb Hn Htxt Ha Hf Hp Ht. unfold serve, Login. rewrite Hb, Hn.
  unfold hbind, call, on_world, on_pool. unfold answered in Ha.
  destruct (pop (w_faults (sv_world s))) as [f fs]. simpl in Ha. subst f.
  unfold GetUserByEmail, text_param, constraint, bind, read. rewrite Htxt.
  cbn [begin_conn c_tab]. fold (tab s). rewrite Hf. cbn [one_row check_queue c_queue begin_conn].
  unfold CheckPassword. rewrite Hp. cbn [negb]. by rewrite Ht.
Qed.

(** C33. A new user can register and then log in: with a fresh, valid email and a
    password of 8 to 72 bytes, [Register] stores the user and answers 201 with a
    token, and [Login] with the same body answers 200 with a token for the same user
    in every later state, whoever else has registered since. *)
Theorem register_then_login secret now clock salt r c c' (s : S) :
  secret ≠ "" → LedgerOK (tab s) (w_seq (sv_world s)) → w_seq (sv_world s) SUsers ≤ max_int64 →
  decode_body credentials_field (mkCredentials "" "") (rq_Body r) = Some c → validate c = inl c' →
  (length (chars (cr_Password c)) ≤ 72)%nat → pg_text (cr_Email c') = true →
  Forall (λ u, u_Email u ≠ cr_Email c') (users (tab s)) → answered s →
  let uid := w_seq (sv_world s) SUsers in
  ∃ tok hash s1,
    serve (Register secret now clock salt r) s = (Reply (token_response StatusCreated tok), s1) ∧
    GenerateJWT secret clock uid = Some tok ∧
    users (tab s1) = users (tab s) ++ [mkUser uid (cr_Email c') hash now] ∧
    ∀ now2 clock2 (s2 : S), users (tab s1) `prefix_of` users (tab s2) → answered s2 →
      ∃ tok2, (serve (Login secret now2 clock2 r) s2).1 = Reply (token_response StatusOK tok2) ∧
              GenerateJWT secret clock2 uid = Some tok2.
Proof.
  intros Hsec Hok Hseq Hb Hv Hlen Htxt Hfresh Ha uid.
  assert (c' = mkCredentials (normalize_email (cr_Email c)) (cr_Password c)) as Hc.
  { unfold validate in Hv. repeat case_match; by simplify_eq. }
  assert (cr_Password c' = cr_Password c) as Hp by (by rewrite Hc).
  destruct (proj2 (bcrypt_limit (cr_Password c) salt) Hlen) as [hash Hh].
  destruct (GenerateJWT_some secret clock uid Hsec) as [tok Ht].
  pose proof (CreateUser_fresh (cr_Email c') hash (begin_conn now (sv_world s)) Hok Htxt Hseq Hfresh) as Ec.
  cbv zeta in Ec. cbn [begin_conn c_seq c_now] in Ec. fold uid in Ec.
  set (u := mkUser uid (cr_Email c') hash now) in *.
  unfold answered in Ha. destruct (pop (w_faults (sv_world s))) as [f fs] eqn:Epop.
  simpl in Ha. subst f.
  eexists tok, hash, _. split_and!; [|exact Ht| |].
  - unfold serve, Register. rewrite Hb, Hv. unfold HashPassword. rewrite Hp, Hh.
    unfold hbind, call, on_world, on_pool.
    rewrite Epop, Ec. cbn [check_queue c_queue insert_seq begin_conn]. simpl.
    fold uid. rewrite Ht. reflexivity.
  - apply users_set.
  - intros now2 clock2 s2 [more Hu] Ha2. destruct (GenerateJWT_some secret clock2 uid Hsec) as [tok2 Ht2].
    exists tok2. split; [|exact Ht2]. unfold tab in Hu. simpl in Hu.
    rewrite users_set in Hu.
    apply (Login_ok secret now2 clock2 r c c' s2 u tok2 Hb); [by rewrite Hc|done|done| | |exact Ht2].
    + unfold tab. rewrite Hu. by apply find_registered.
    + exact (bcrypt_match (cr_Password c) salt hash Hh).
Qed.

End accounts.

(** ** Witnesses *)

Lemma token_roundtrip_witness :
  caller "s3cret" (1000 * demo_now + 3600 * sec_ns) (demo_request "" [] []) = Some 1
  ∧ caller "s3cret" (1000 * demo_now + 25 * 3600 * sec_ns) (demo_request "" [] []) = None.
Proof.
  split.
  - rewrite (token_roundtrip "s3cret" (1000 * demo_now) 1 demo_token); by vm_compute.
  - rewrite (token_roundtrip "s3cret" (1000 * demo_now) 1 demo_token); by vm_compute.
Defined.

Lemma register_then_login_witness :
  ∃ tok (s1 : demo_server),
    serve (Register "s3cret" demo_now (1000 * demo_now) 0 (demo_request "" [] demo_credentials)) demo_server0
      = (Reply (token_response 201 tok), s1) ∧
    map u_Email (users (tab s1)) = ["ann@example.com"].
Proof.
  destruct (register_then_login "s3cret" demo_now (1000 * demo_now) 0 (demo_request "" [] demo_credentials)
    (mkCredentials " Ann@Example.com " "correct horse") (mkCredentials "ann@example.com" "correct horse")
    demo_server0) as (tok&hash&s1&E&_&Hu&_).
  - done.
  - exact (reachable_world_ok demo_now ∅ demo_now _ demo_start (rtc_refl _ _)).
  - by vm_compute.
  - by vm_compute.
  - by vm_compute.
  - simpl. lia.
  - by vm_compute.
  - constructor.
  - done.
  - exists tok, s1. split; [exact E|]. by rewrite Hu.
Defined.
