(* ===== verification/ExportProps.v ===== *)
(** * Theorems about exports *)
From S2P Require Import Prelude GoTime Effects Json JsonStruct Store Queries World Summary Dto.
From S2P Require Import Transactions TxRun TxSpec Invariant Posting Growth Ledger Services.
From S2P Require Import Balance Outbox Tables System Snapshots.
From S2P Require Import Http Storage Server RateLimit Auth Middleware Handlers Csv Exports Router.
From S2P Require Import Footprint ApiSystem ExportState Pagination Examples ApiExamples.
Local Open Scope Z_scope.
Local Open Scope ledger_scope.

(** ** Months *)

Lemma get_digit_range l d l' : get_digit l = Some (d, l') → 0 ≤ d < 10.
Proof.
  unfold get_digit. destruct l as [|c l]; [done|]. destruct (is_digit c) eqn:E; [|done].
  intros [= <- <-]. unfold is_digit, digit_val in *. lia.
Qed.

Lemma getnum_fixed_range l n l' : getnum_fixed l = Some (n, l') → 0 ≤ n < 100.
Proof.
  unfold getnum_fixed. destruct (get_digit l) as [[a l1]|] eqn:Ea; [|done]. simpl.
  destruct (get_digit l1) as [[b l2]|] eqn:Eb; [|done]. intros [= <- <-].
  apply get_digit_range in Ea, Eb. lia.
Qed.

Lemma get_year_range l y l' : get_year l = Some (y, l') → 0 ≤ y ≤ 9999.
Proof.
  unfold get_year. destruct (getnum_fixed l) as [[a l1]|] eqn:Ea; [|done]. simpl.
  destruct (getnum_fixed l1) as [[b l2]|] eqn:Eb; [|done]. intros [= <- <-].
  apply getnum_fixed_range in Ea, Eb. lia.
Qed.

(** A month is printed as its first day, and read back. *)
Lemma Parse_month_inv s t :
  Parse_month s = Some t → 0 ≤ Year t ≤ 9999 ∧ Parse_date (Format_date t) = Some t.
Proof.
  unfold Parse_month. intros E.
  destruct (get_year (chars s)) as [[y l]|] eqn:Ey; [|done]. simpl in E.
  destruct (expect "-" l) as [l1|]; [|done]. simpl in E.
  destruct (getnum_fixed l1) as [[m l2]|]; [|done]. simpl in E.
  destruct ((1 <=? m) && (m <=? 12)) eqn:Hm; [|done]. simpl in E. destruct l2; [|done]. injection E as <-.
  apply get_year_range in Ey.
  assert (civil (DateUTC y m 1 0 0 0 0) = (y, m, 1)) as Hc.
  { apply civil_DateUTC; [|unfold sec_ns; lia..]. split; [lia|]. unfold days_in. repeat case_match; lia. }
  rewrite civil_eq in Hc. injection Hc as HY HM HD. split; [lia|].
  rewrite Parse_Format_date by lia. by rewrite HY, HM, HD.
Qed.

(** ** Payloads *)

Lemma export_roundtrip p :
  int64 (ep_ExportID p) → int64 (ep_UserID p) → utf8_ok (ep_Month p) = true →
  unmarshal_export (export_text p) = Some p.
Proof.
  intros He Hu Hm. unfold unmarshal_export, unmarshal_payload, export_text. rewrite json_parse_text.
  - cbn [mbind option_bind fill]. fold_names. cbn -[ParseInt itoa].
    rewrite ParseInt_itoa by done. cbn -[ParseInt itoa]. rewrite ParseInt_itoa by done. by destruct p.
  - cbn [json_ok forallb fst snd JInt]. by rewrite !int_literal_itoa, Hm.
Qed.

Section exports.
Context `{Env, Bcrypt, Jwt, Unicode, CaseFold} {R F : Type} `{!Redis R, !Storage F, !StorageOK F}.
Abbreviation S := (Server R F).

(** The postings of the user's month, as the worker reads them. *)
Definition month_rows (uid : Z) (month : Time) (t : Tables) : list (Posting * Transaction * Account) :=
  merge_sort entry_le
    (List.filter (λ '(p, x, a), (t_UserID x =? uid) && bool_decide (a_Kind a = "normal") &&
        bool_decide (month_of_ts (t_OccurredAt x) = month_of_ts (enc_ts (t_ns month))))
      (omap (λ px, (px,.) <$> find (λ a, a_ID a =? p_AccountID px.1) (accounts t)) (join_tx t))).

Definition set_status (id : Z) (status : string) (path : option string) (now : Z) (e : Export) : Export :=
  if e_ID e =? id
  then mkExport (e_ID e) (e_UserID e) (e_Month e) status path (e_CreatedAt e) now else e.

Lemma find_set_status id status path now e l :
  find (λ e', e_ID e' =? id) l = Some e →
  find (λ e', e_ID e' =? id) (map (set_status id status path now) l) =
    Some (mkExport (e_ID e) (e_UserID e) (e_Month e) status path (e_CreatedAt e) now).
Proof.
  induction l as [|e1 l IH]; [done|]. simpl. unfold set_status at 1.
  destruct (e_ID e1 =? id) eqn:E; simpl; rewrite E; [|done].
  intros [= <-]. unfold set_status. by rewrite E.
Qed.

(** The worker, when nothing fails. *)
Lemma handleExportCSV_ok n1 n2 p month (s : S) :
  unmarshal_export (export_text p) = Some p → Parse_date (ep_Month p) = Some month →
  w_faults (sv_world s) = [] →
  let key := export_key (ep_ExportID p) in
  ∃ w', handleExportCSV n1 n2 (export_text p) s =
    (Ok (), mkServer w' (sv_queue s)
              (st_save (sv_store s) key (csv_file (month_rows (ep_UserID p) month (tab s))))) ∧
    w_tab w' = set_exports (map (set_status (ep_ExportID p) "done" (Some key) n2)) (tab s) ∧
    w_faults w' = [].
Proof.
  intros Hp Hm Hf key. unfold handleExportCSV. rewrite Hp. cbn [or_fail]. unfold bind at 1.
  cbn [ret]. rewrite Hm. unfold bind at 1, attempt, on_world, on_pool. rewrite Hf.
  unfold ListPostingsForMonth, read. cbn [pop begin_conn c_tab c_queue check_queue].
  fold (tab s) (month_rows (ep_UserID p) month (tab s)).
  unfold bind at 1, Save, next_fault. simpl. by eexists.
Qed.

(** The download of a finished export. *)
Lemma Download_ok tm r uid id e key body (s : S) :
  rq_UserID r = Some uid → uid ≠ 0 → ParseInt (chars (rq_ID r)) = Some id → 0 < id →
  find (λ e, e_ID e =? id) (exports (tab s)) = Some e → e_UserID e = uid → e_Status e = "done" →
  e_FilePath e = Some key → st_open (sv_store s) key = Some body → w_faults (sv_world s) = [] →
  (serve (v1_handler (R:=R) tm GetExportDownload r) s).1 =
    Reply (mkResponse StatusOK [("Content-Type", "text/csv");
             ("Content-Disposition", "attachment; filename=" +:+ key)] body).
Proof.
  intros Hu Hu0 Hid Hpos He Heu Hst Hpath Hopen Hf.
  unfold serve, v1_handler, Download, hbind at 1, ownedExport, hbind at 1, require_user.
  apply Z.eqb_neq in Hu0. rewrite Hu, Hu0. cbn [hret].
  unfold hbind at 1, require_id. rewrite Hid. apply Z.leb_gt in Hpos. rewrite Hpos. cbn [hret].
  unfold hbind at 1, query, call, on_world, on_pool. rewrite Hf. unfold GetExportByID, read.
  cbn [pop begin_conn c_tab c_queue check_queue]. fold (tab s). rewrite He. cbn [one_row].
  rewrite Heu, Z.eqb_refl. cbn [hret]. rewrite Hpath, bool_decide_true by done. cbn [negb].
  unfold hbind, call, Open, next_fault. simpl. by rewrite Hopen.
Qed.

Lemma CreateExport_inv uid month c e c' :
  Queries.CreateExport uid month c = (Ok e, c') →
  e = mkExport (c_seq c SExports) uid (pg_date month) "pending" None (c_now c) (c_now c) ∧
  c_seq c SExports ≤ max_int64 ∧ c_tab c' = set_exports (λ l, l ++ [e]) (c_tab c).
Proof. intros E. unfold Queries.CreateExport in E. inv_stmt. by split_and!. Qed.

Lemma exports_set f t : exports (set_exports f t) = f (exports t).
Proof. by destruct t. Qed.

(** The accepted request: a new row, and a task for it. *)
Lemma CreateExport_accepted tm r uid month (s s1 : S) x :
  rq_UserID r = Some uid → uid ≠ 0 → Parse_month (Get (rq_Query r) "month") = Some month →
  serve (v1_handler tm PostExports r) s = (Reply x, s1) → rs_Status x = StatusAccepted →
  let id := w_seq (sv_world s) SExports in
  let e := mkExport id uid (pg_date month) "pending" None (tm_now tm) (tm_now tm) in
  id ≤ max_int64 ∧ exports (tab s1) = exports (tab s) ++ [e] ∧
  sv_queue s1 = sv_queue s ++ [NewTaskExportCSV (mkExportPayload id uid (Format_date month))].
Proof.
  intros Hu Hu0 Hm E Hx id e. unfold serve, v1_handler, ExportsAPI_CreateExport, hbind at 1, require_user in E.
  apply Z.eqb_neq in Hu0. rewrite Hu, Hu0 in E. cbn [hret] in E. rewrite Hm in E.
  unfold hbind at 1, query, call, on_world in E.
  destruct (on_pool _ _ _) as [r1 w1] eqn:Ep. apply on_pool_cases in Ep as [_ Ep].
  destruct r1 as [exp|err]; [|by injection E as <- <-].
  destruct Ep as [[_ [? [=]]]|(a&c&Es&_&Ht&_&[[= ->]|[=]])].
  apply CreateExport_inv in Es as (->&Hid&Htab). cbn [begin_conn c_seq c_tab c_now] in *.
  fold id in Hid, E, Htab. split; [exact Hid|].
  unfold hbind, call, enqueue, next_fault in E. cbn [set_world sv_world sv_queue sv_store] in E.
  destruct (pop (w_faults w1)) as [[] fs]; injection E as <- <-; try done.
  unfold tab. cbn [sv_world w_tab sv_queue]. rewrite Ht, Htab, exports_set. done.
Qed.

(** C20. An export is delivered: after the request is accepted, one task is queued;
    once a worker has run it without a fault (in any later state that still has the
    pending row), the owner's download answers 200 with a CSV file that reads back
    as the header and one record per posting of the user's normal accounts in that
    month. *)
Theorem export_delivers tm r uid month (s s1 : S) x :
  LedgerOK (tab s) (w_seq (sv_world s)) → rq_UserID r = Some uid → uid ≠ 0 → int64 uid →
  Parse_month (Get (rq_Query r) "month") = Some month →
  serve (v1_handler tm PostExports r) s = (Reply x, s1) → rs_Status x = StatusAccepted →
  ∃ e task, exports (tab s1) = exports (tab s) ++ [e] ∧ sv_queue s1 = sv_queue s ++ [task] ∧
    ∀ n1 n2 (s2 : S), find (λ e', e_ID e' =? e_ID e) (exports (tab s2)) = Some e →
      w_faults (sv_world s2) = [] →
      ∃ s3, handleExportCSV n1 n2 (tk_payload task) s2 = (Ok (), s3) ∧
        ∀ tm' r', rq_UserID r' = Some uid → ParseInt (chars (rq_ID r')) = Some (e_ID e) →
          ∃ body, (serve (v1_handler tm' GetExportDownload r') s3).1 =
            Reply (mkResponse StatusOK [("Content-Type", "text/csv");
              ("Content-Disposition", "attachment; filename=" +:+ export_key (e_ID e))] body) ∧
            csv_read (chars body) =
              Some (csv_header :: map csv_record (month_rows uid month (tab s2))).
Proof.
  intros Hok Hu Hu0 Hui Hm E Hx.
  destruct (CreateExport_accepted tm r uid month s s1 x Hu Hu0 Hm E Hx) as (Hid&He&Hq).
  set (id := w_seq (sv_world s) SExports) in *.
  set (p := mkExportPayload id uid (Format_date month)) in *.
  destruct (Parse_month_inv _ _ Hm) as [Hy Hd].
  pose proof (ok_seq Hok SExports) as Hpos. fold id in Hpos.
  assert (unmarshal_export (export_text p) = Some p) as Hp.
  { apply export_roundtrip; [unfold int64, min_int64; simpl; lia|done|by apply Format_date_utf8]. }
  eexists _, _. split_and!; [exact He|exact Hq|]. cbn [e_ID NewTaskExportCSV tk_payload].
  intros n1 n2 s2 Hf Hfs.
  destruct (handleExportCSV_ok n1 n2 p month s2 Hp Hd Hfs) as (w3&Hrun&Htab&Hfs3).
  eexists. split; [exact Hrun|]. intros tm' r' Hu' Hid'.
  exists (csv_file (month_rows uid month (tab s2))). split.
  - eapply Download_ok; [done|done|done|lia| | | | | |done].
    + unfold tab at 1. cbn [sv_world]. rewrite Htab, exports_set. by apply find_set_status.
    + done.
    + done.
    + done.
    + apply st_open_save, export_key_clean.
  - unfold csv_file. rewrite chars_str. apply csv_read_write. constructor; [done|].
    apply Forall_map, Forall_true. by intros [[px xx] a].
Qed.

(** C21. In every reachable server an export is pending, failed, or done with the key
    of a file that can be opened; so a finished export is never lost: without a fault
    its owner's download answers 200, however often the task was retried, run twice
    or interrupted. *)
Theorem done_exports_available app t0 (r0 : R) (f : F) last (s : S) :
  server_reachable app t0 r0 f (last, s) →
  exports_ok s ∧
  ∀ e tm r, find (λ e', e_ID e' =? e_ID e) (exports (tab s)) = Some e → e_Status e = "done" →
    rq_UserID r = Some (e_UserID e) → e_UserID e ≠ 0 →
    ParseInt (chars (rq_ID r)) = Some (e_ID e) → 0 < e_ID e → w_faults (sv_world s) = [] →
    ∃ body, (serve (v1_handler (R:=R) tm GetExportDownload r) s).1 =
      Reply (mkResponse StatusOK [("Content-Type", "text/csv");
        ("Content-Disposition", "attachment; filename=" +:+ export_key (e_ID e))] body).
Proof.
  intros Hr. pose proof (server_exports_ok _ _ _ _ _ _ Hr) as Hok. split; [done|].
  intros e tm r He Hd Hu Hu0 Hid Hpos Hf. unfold exports_ok in Hok. rewrite Forall_forall in Hok.
  destruct (Hok e) as [Hs _|Hs _|body _ Hpath Hopen]; [|congruence..|].
  - apply find_In in He. by destruct He.
  - exists body. by eapply Download_ok.
Qed.

End exports.

(** C36. Stored files stay under the export directory: whatever the key (also one
    with [..], doubled slashes or an absolute path), the path of its file is the
    cleaned directory followed by plain components, none of which is [.], [..],
    empty or contains a slash. *)
Theorem path_confined dir key :
  dir ≠ "" →
  ∃ cs, path dir key = str (render_path (is_rooted (chars dir)) (components (chars dir) ++ cs)) ∧
    Forall (λ c, plain c = true ∧ no_slash c) cs.
Proof.
  intros Hd. exists (key_components key). split; [by apply path_components|].
  destruct (key_components_ok key) as [Hp Hs]. rewrite Forall_forall in *. auto.
Qed.

(** ** Witnesses *)

Lemma path_confined_witness :
  path "/data/exports" "../../etc/passwd" = "/data/exports/etc/passwd" ∧
  ∃ cs, path "/data/exports" "../../etc/passwd" =
      str (render_path true (components (chars "/data/exports") ++ cs)) ∧
    Forall (λ c, plain c = true ∧ no_slash c) cs.
Proof. split; [by vm_compute|]. by apply (path_confined "/data/exports"). Defined.

Definition demo_export : Request := with_user 1 (demo_request "" [("month", "2023-11")] []).
Definition demo_exported : served * demo_server :=
  serve (v1_handler (demo_times demo_busy) PostExports demo_export) demo_served.

Lemma export_delivers_witness :
  ∃ s3 body,
    handleExportCSV demo_busy demo_busy (tk_payload (NewTaskExportCSV (mkExportPayload 2 1 "2023-11-01")))
      demo_exported.2 = (Ok (), s3) ∧
    (serve (v1_handler (demo_times demo_busy) GetExportDownload (with_user 1 (demo_request "2" [] []))) s3).1
      = Reply (mkResponse 200 [("Content-Type", "text/csv");
                 ("Content-Disposition", "attachment; filename=export_2.csv")] body) ∧
    length <$> csv_read (chars body) = Some 4%nat.
Proof.
  destruct (export_delivers (demo_times demo_busy) demo_export 1 (DateUTC 2023 11 1 0 0 0 0)
    demo_served demo_exported.2 (response demo_exported.1)) as (e&task&He&Hq&Hrun).
  - exact demo_served_ok.
  - done.
  - done.
  - done.
  - by vm_compute.
  - apply (response_eq demo_exported). by vm_compute.
  - by vm_compute.
  - apply (f_equal last) in He, Hq. rewrite last_snoc in He. rewrite last_snoc in Hq.
    assert (last (exports (tab demo_exported.2)) = Some (mkExport 2 1 19662 "pending" None demo_busy demo_busy))
      as Ee by (by vm_compute). rewrite Ee in He. injection He as <-.
    assert (last (sv_queue demo_exported.2) =
      Some (NewTaskExportCSV (mkExportPayload 2 1 "2023-11-01"))) as Et by (by vm_compute).
    rewrite Et in Hq. injection Hq as <-. clear Ee Et.
    destruct (Hrun demo_busy demo_busy demo_exported.2) as (s3&Hs3&Hdl); [by vm_compute..|].
    destruct (Hdl (demo_times demo_busy) (with_user 1 (demo_request "2" [] []))) as (body&Hb&Hcsv);
      [done|by vm_compute|].
    exists s3, body. split_and!; [exact Hs3|exact Hb|]. rewrite Hcsv. by vm_compute.
Defined.

(** The worker runs the task of the session. *)
Definition demo_task : Task := NewTaskExportCSV (mkExportPayload 1 1 "2023-11-01").
Definition demo_done : demo_server :=
  (run_task (demo_busy + 1) (1000 * demo_busy) demo_task (set_faults [] demo_served)).2.

Lemma demo_done_reachable :
  server_reachable demo_app demo_now ∅ (mkLocal "./tmp/exports" ∅) (demo_busy + 1, demo_done).
Proof.
  eapply rtc_r; [exact demo_served_reachable|]. apply (ss_task demo_app demo_busy).
  - lia.
  - split; by vm_compute.
  - apply (list_elem_of_lookup_2 _ 0). by vm_compute.
Qed.

Lemma done_exports_available_witness :
  ∃ body, (serve (v1_handler (demo_times (demo_busy + 2)) GetExportDownload
      (with_user 1 (demo_request "1" [] []))) demo_done).1 =
    Reply (mkResponse 200 [("Content-Type", "text/csv");
      ("Content-Disposition", "attachment; filename=export_1.csv")] body).
Proof.
  destruct (done_exports_available _ _ _ _ _ _ demo_done_reachable) as [_ Hdl].
  apply (Hdl (mkExport 1 1 19662 "done" (Some "export_1.csv") demo_busy (demo_busy + 1)));
    first [done | by vm_compute].
Defined.
