(* ===== verification/WiringProps.v ===== *)
(** * Theorems about the wiring: routes, metrics and the life of the process *)
From S2P Require Import Prelude GoTime Effects Json JsonStruct Store Queries World Summary Dto.
From S2P Require Import Transactions Http Storage Server RateLimit Auth Middleware Handlers Exports Router.
From S2P Require Import Footprint Routes Statuses Metrics Lifecycle Examples ApiExamples.
Local Open Scope Z_scope.

(** ** Routes *)

Section dispatch.
Context `{Env, Bcrypt, Jwt, Unicode, CaseFold} {R F : Type} `{!Redis R, !Storage F}.
Abbreviation S := (Server R F).

(** C15. The server answers what [docs/API.md] documents, and nothing else.  Whatever
    router serves the table that [main] registers, as long as it keeps the contract
    [ChiOK] (among plain patterns it chooses a route of the method that fits, whenever
    one does with a non-empty parameter): a request with the method and the path of a
    documented endpoint, for any id without a slash, is answered by that endpoint, with
    the middleware and the handler it was registered with and with that id; whatever
    is answered is the answer of a documented endpoint whose path fits; and a request
    that is dispatched under [/v1] without a valid bearer token is answered with 401 by
    the middleware and changes nothing.  ([/metrics] and the answers of the library to
    other paths are left out.) *)
Theorem router_dispatch `{Chi, !ChiOK} app tm salt path r (s : S) :
  (∀ template e id, (rq_Method r, template, e) ∈ documented → path = url template id →
     no_slash (chars id) → id ≠ "" →
     serve_path app tm salt path r s =
       Some (respond app tm salt e (with_param (if has_param template then id else "") r) s)) ∧
  (∀ x, serve_path app tm salt path r s = Some x →
     ∃ template e id, (rq_Method r, template, e) ∈ documented ∧ fits template path = Some id ∧
       x = respond app tm salt e (with_param id r) s) ∧
  (∀ x, serve_path app tm salt path r s = Some x → under_v1 path = true →
     caller (app_secret app) (tm_clock tm) r = None →
     ∃ y, x = (Reply y, s) ∧ rs_Status y = StatusUnauthorized).
Proof.
  assert (∀ x, serve_path app tm salt path r s = Some x →
    ∃ rt id, chi_route routes (rq_Method r) path = Some (rt, id)) as Hsome.
  { intros x. unfold serve_path. destruct (chi_route _ _ _) as [[rt id]|]; [eauto|done]. }
  split_and!.
  - intros template e id ([m p e' mws]&Hrt&[= Hm -> ->])%routes_documented -> Hs Hid.
    pose proof (chi_url _ id Hrt Hs Hid) as E. cbn [rt_method rt_pattern] in E. rewrite Hm in E.
    by destruct (serve_path_route app tm salt _ r s _ _ E) as (_&_&_&->).
  - intros x Hx. destruct (Hsome x Hx) as (rt&id&E).
    destruct (serve_path_route app tm salt _ r s _ _ E) as (Hin&Hm&Hf&E').
    exists (rt_pattern rt), (rt_endpoint rt), id. rewrite Hx in E'. injection E' as ->.
    split_and!; [|done..]. rewrite routes_documented. exists rt. split; [done|].
    unfold entry. by rewrite Hm.
  - intros x Hx Hv Hc. destruct (Hsome x Hx) as (rt&id&E).
    destruct (serve_path_v1 app tm salt _ r s _ _ E Hv Hc) as (y&Hy&Hst). exists y. split; congruence.
Qed.

End dispatch.

(** A download with Ann's token, and without one. *)
Definition demo_download : Request :=
  mkRequest "GET" None "" [] [("Authorization", "Bearer " +:+ demo_token)] "10.0.0.1:5000" "".
Definition bare_download : Request := mkRequest "GET" None "" [] [] "10.0.0.1:5000" "".

Lemma router_dispatch_witness :
  serve_path demo_app (demo_times demo_busy) 0 "/v1/exports/1/download" demo_download demo_served =
    Some (respond demo_app (demo_times demo_busy) 0 GetExportDownload (with_param "1" demo_download) demo_served)
  ∧ ∃ y, serve_path demo_app (demo_times demo_busy) 0 "/v1/exports/1/download" bare_download demo_served =
           Some (Reply y, demo_served) ∧ rs_Status y = 401.
Proof.
  split.
  - refine (proj1 (router_dispatch demo_app (demo_times demo_busy) 0
      "/v1/exports/1/download" demo_download demo_served)
      "/v1/exports/{id}/download" GetExportDownload "1" _ _ _ _).
    + apply (bool_decide_unpack _). by vm_compute.
    + by vm_compute.
    + by intros [?|?%not_elem_of_nil]%elem_of_cons.
    + done.
  - destruct (serve_path demo_app (demo_times demo_busy) 0 "/v1/exports/1/download" bare_download demo_served)
      as [x|] eqn:E.
    2: { assert (chi_route routes "GET" "/v1/exports/1/download" = Some (mkRoute "GET" "/v1/exports/{id}/download"
           GetExportDownload [BearerToken; UserLimiter], "1")) as Hr by (vm_compute; reflexivity).
         unfold serve_path in E. cbn [rq_Method bare_download] in E. rewrite Hr in E. discriminate E. }
    destruct (proj2 (proj2 (router_dispatch demo_app (demo_times demo_busy) 0
      "/v1/exports/1/download" bare_download demo_served)) x E) as (y&->&Hy); [by vm_compute..|].
    exists y. split; [reflexivity|exact Hy].
Defined.

(** ** Metrics *)

Section metrics.
Context `{Env, Bcrypt, Jwt, Unicode, CaseFold} {R F : Type} `{!Redis R, !Storage F}.


End metrics.

(** ** The process *)

(** What no deferred call releases: the Redis client and the two clients of the task
    queue are never closed, nothing waits for the outbox worker, and the HTTP server
    is shut down before the deferred calls. *)
Definition undeferred : list resource :=
  [RRedisClient; RAdminClient; RExportsClient; RComponent COutbox; RComponent CHttp].

(** The full run, evaluated: the parts that depend on the environment do not matter. *)
Lemma full_run_checks env wake graceful drained :
  auth_events env = [] ∨ (∃ msg, auth_events env = [Warn msg]) →
  let tr := full_run env wake graceful drained in
  nested undeferred [] tr = true ∧
  held_after tr = (if graceful then [] else [RComponent CHttp]) ++
    [RExportsClient; RAdminClient; RComponent COutbox] ++
    (if drained then [] else [RComponent CWorker]) ++ [RRedisClient] ∧
  has_pool CScheduler tr = true ∧ has_pool CWorker tr = drained ∧ has_pool CHttp tr = graceful ∧
  has_pool COutbox tr = false ∧ cancelled_first tr = bool_decide (wake = BySignal).
Proof.
  unfold full_run. generalize (MustLogger (getenv env "APP_ENV" "dev")) (getenv env "REDIS_ADDR" "localhost:6379")
    (getenv env "HTTP_ADDR" ":8080"). intros prod redis http.
  intros [-> |(msg&->)]; destruct wake, graceful, drained; by vm_compute.
Qed.

(** C14. Startup and shutdown.  If the configuration, the database and the storage are
    all there, [main] serves the configured application and ends by returning.  Then
    every deferred release has run, in the reverse order of the acquisitions, and what
    is left is exactly: the Redis client and the two clients of the task queue, which
    nothing closes; the outbox worker, which nothing waits for; the HTTP server when
    its graceful shutdown timed out, and the task worker when its tasks did.  The
    scheduler never runs without the database; the task worker and the HTTP handlers
    do exactly after such a timeout; the outbox worker may, and its context is
    cancelled before the pool is closed exactly when a signal ended the wait.  If
    anything is missing at the start, [main] ends with the message of [log.Fatal] or
    with a panic after the deferred calls, and has started no goroutine. *)
Theorem main_lifecycle `{Startup} env wake graceful drained :
  let '(x, tr) := run_main env wake graceful drained in
  match startup env with
  | Some app =>
      x = Returned app ∧ nested undeferred [] tr = true ∧
      held_after tr = (if graceful then [] else [RComponent CHttp]) ++
        [RExportsClient; RAdminClient; RComponent COutbox] ++
        (if drained then [] else [RComponent CWorker]) ++ [RRedisClient] ∧
      has_pool CScheduler tr = true ∧ has_pool CWorker tr = drained ∧ has_pool CHttp tr = graceful ∧
      has_pool COutbox tr = false ∧ cancelled_first tr = bool_decide (wake = BySignal)
  | None => stillborn (x, tr)
  end.
Proof.
  pose proof (run_main_cases env wake graceful drained) as Hr. destruct (startup env) as [app|] eqn:Es.
  - rewrite Hr. split; [done|]. apply full_run_checks.
    unfold startup, configure, signing_key in Es. unfold auth_events.
    case_bool_decide; [|by left]. destruct (negb _); [done|]. right. by eexists.
  - by destruct (run_main env wake graceful drained) as [x tr].
Qed.

(** A deployment whose database is reached by one URL only. *)
#[local] Instance demo_startup : Startup := {|
  ParseConfig url := if bool_decide (url = "") then None else Some (mkPoolConfig url false 4 0 0 0);
  NewWithConfig _ := true;
  pool_Ping cfg := bool_decide (pc_url cfg = "postgres://db/ledgerx");
  storage_ready _ := true
|}.

Definition demo_deployment (k : string) : string :=
  if bool_decide (k = "DATABASE_URL") then "postgres://db/ledgerx" else demo_env k.

(** The HTTP server fails, and a request is still running after ten seconds; without
    the URL of the database nothing starts. *)
Lemma main_lifecycle_witness :
  (let tr := (run_main demo_deployment HttpFailed false true).2 in
   held_after tr = [RComponent CHttp; RExportsClient; RAdminClient; RComponent COutbox; RRedisClient] ∧
   has_pool CHttp tr = false ∧ cancelled_first tr = false) ∧
  stillborn (run_main demo_env BySignal true true).
Proof.
  split.
  - pose proof (main_lifecycle demo_deployment HttpFailed false true) as Hm.
    destruct (run_main _ _ _ _) as [x tr]. destruct (startup demo_deployment) eqn:E; [|by vm_compute in E].
    by destruct Hm as (_&_&?&_&_&?&_&?).
  - pose proof (main_lifecycle demo_env BySignal true true) as Hm.
    destruct (run_main _ _ _ _) as [x tr]. destruct (startup demo_env) eqn:E; [by vm_compute in E|].
    exact Hm.
Defined.
